(** * cnc_robot_control: stepper engine, axis layer and configuration parser

    A shallow embedding of [core/src/Stepper.c], [core/src/Axis.c] and
    [control/src/config.c].  C objects live in an explicit [World]: the
    heap of [Stepper], [Stepper_req] and [Axis] objects is indexed by
    pointers (natural numbers, [None] is [NULL]), so that two entries of a
    motor list naming the same motor alias the same object.  Calls into
    libgpiod, malloc and pthread are external: they are recorded in a
    trace and their success is read from an oracle carried by the world.
    The diagnostics of [ERROR_PRINT] and [DEBUG_PRINT] are left out of the
    trace; the line that the parser writes to stderr for its [ERROR] state
    is in it. *)

From Stdlib Require Import ZArith List String Ascii Lia Bool.
From Stdlib Require Import Floats.
From stdpp Require Import base list.
Import ListNotations.

Local Open Scope Z_scope.

(** ** Outcomes of a C call *)

(** [Undefined] is C undefined behaviour (a NULL or dangling dereference,
    a read or write outside an array, signed overflow); [Timeout] is a
    loop of the model that ran out of fuel. *)
Inductive result (A : Type) : Type :=
| Ok (a : A)
| Undefined
| Timeout.
Arguments Ok {A} a.
Arguments Undefined {A}.
Arguments Timeout {A}.

Definition bind {A B : Type} (r : result A) (k : A -> result B) : result B :=
  match r with
  | Ok a => k a
  | Undefined => Undefined
  | Timeout => Timeout
  end.

Notation "'do' x <- r ; k" := (bind r (fun x => k))
  (at level 10, x pattern, r at level 100, k at level 200).

(** ** Machine integers *)

Definition UINT_MAX : Z := 4294967295.
Definition INT_MAX : Z := 2147483647.
Definition INT_MIN : Z := -2147483648.

(** [unsigned int] arithmetic wraps modulo 2^32. *)
Definition wrap_uint (z : Z) : Z := z mod 4294967296.

(** Conversion to [int] of a value that may not fit (implementation
    defined; two's complement on every supported target). *)
Definition wrap_int (z : Z) : Z := (z + 2147483648) mod 4294967296 - 2147483648.

(** [int] arithmetic: overflow is undefined. *)
Definition checked_int (z : Z) : result Z :=
  if (INT_MIN <=? z) && (z <=? INT_MAX) then Ok z else Undefined.

(** ** Stepper.h *)

Definition MOTOR_LIST_SIZE_MAX : Z := 8.
Definition MOTOR_NAME_LEN : nat := 32.
Definition DIRECTION_INVALID : Z := 2.
Definition DIRECTION_COUNTERCLOCKWISE : Z := 0.
Definition DIRECTION_CLOCKWISE : Z := 1.
Definition DIRECTION_NEGATIVE : Z := -1.
Definition DIRECTION_POSITIVE : Z := 1.

Definition HALF_PERIOD_LIMIT : Z := 100.
Definition MAX_PPS : Z := 4160.

(** Pointers into the heaps of the world; [None] is [NULL]. *)
Abbreviation ptr := (option nat).

(** [struct stepper].  The mutex and the two condition variables embedded
    in the struct carry no data; [shared_mutex] is the identity of the
    heap-allocated mutex guarding the current request. *)
Record Stepper : Type := mkStepper {
  dir_pin : Z;
  step_pin : Z;
  current_req : ptr;
  shared_mutex : ptr;
  name : string;
  pos_direction : Z;
  curr_direction : Z;
  half_period : Z;
  microsteps_per_rotation : Z;
  steps : Z;
  stop : Z;
  req_available : Z
}.

(** [struct stepper_req]. *)
Record Stepper_req : Type := mkReq {
  motor_list : list ptr;
  motor_waiting : ptr;
  pin_bulk : list Z;
  count : Z;
  req_steps : Z
}.

(** [struct axis] of Axis.h. *)
Record Axis : Type := mkAxis {
  motors : list ptr;
  num_motors : Z;
  reset_dir : Z;
  mm_per_rotation : float;
  position : float;
  speed : float
}.

(** Calls that leave the process. *)
Inductive Event : Type :=
| EvSetValue (pin : Z) (level : Z)
| EvRequestBulk (pins : list Z)
| EvWriteBulk (pins : list Z) (level : Z)
| EvReleaseBulk (pins : list Z)
| EvSleep (microsec : Z)
| EvInitPin (pin : Z) (direction : Z)
| EvCreateTask (task : string)
| EvSignalReq (motor : nat)
| EvSignalWait (motor : nat)
| EvStderr (line : string).

Record World : Type := mkWorld {
  steppers : list Stepper;
  requests : list (option Stepper_req);
  axes : list Axis;
  next_mutex : nat;
  trace : list Event;
  ext_ok : nat -> bool;
  ext_calls : nat
}.

Definition set_steppers (w : World) (s : list Stepper) : World :=
  mkWorld s (requests w) (axes w) (next_mutex w) (trace w) (ext_ok w) (ext_calls w).
Definition set_requests (w : World) (r : list (option Stepper_req)) : World :=
  mkWorld (steppers w) r (axes w) (next_mutex w) (trace w) (ext_ok w) (ext_calls w).
Definition set_axes (w : World) (a : list Axis) : World :=
  mkWorld (steppers w) (requests w) a (next_mutex w) (trace w) (ext_ok w) (ext_calls w).
Definition set_next_mutex (w : World) (n : nat) : World :=
  mkWorld (steppers w) (requests w) (axes w) n (trace w) (ext_ok w) (ext_calls w).
Definition emit (w : World) (e : Event) : World :=
  mkWorld (steppers w) (requests w) (axes w) (next_mutex w) (trace w ++ [e])
          (ext_ok w) (ext_calls w).

(** An external call that may fail: its outcome is the next answer of the
    oracle. *)
Definition external (w : World) : bool * World :=
  (ext_ok w (ext_calls w),
   mkWorld (steppers w) (requests w) (axes w) (next_mutex w) (trace w)
           (ext_ok w) (S (ext_calls w))).

Definition with_current_req (m : Stepper) (r : ptr) : Stepper :=
  mkStepper (dir_pin m) (step_pin m) r (shared_mutex m) (name m) (pos_direction m)
            (curr_direction m) (half_period m) (microsteps_per_rotation m) (steps m)
            (stop m) (req_available m).
Definition with_shared_mutex (m : Stepper) (x : ptr) : Stepper :=
  mkStepper (dir_pin m) (step_pin m) (current_req m) x (name m) (pos_direction m)
            (curr_direction m) (half_period m) (microsteps_per_rotation m) (steps m)
            (stop m) (req_available m).
Definition with_curr_direction (m : Stepper) (d : Z) : Stepper :=
  mkStepper (dir_pin m) (step_pin m) (current_req m) (shared_mutex m) (name m)
            (pos_direction m) d (half_period m) (microsteps_per_rotation m) (steps m)
            (stop m) (req_available m).
Definition with_half_period (m : Stepper) (h : Z) : Stepper :=
  mkStepper (dir_pin m) (step_pin m) (current_req m) (shared_mutex m) (name m)
            (pos_direction m) (curr_direction m) h (microsteps_per_rotation m) (steps m)
            (stop m) (req_available m).
Definition with_microsteps_per_rotation (m : Stepper) (n : Z) : Stepper :=
  mkStepper (dir_pin m) (step_pin m) (current_req m) (shared_mutex m) (name m)
            (pos_direction m) (curr_direction m) (half_period m) n (steps m)
            (stop m) (req_available m).
Definition with_steps (m : Stepper) (s : Z) : Stepper :=
  mkStepper (dir_pin m) (step_pin m) (current_req m) (shared_mutex m) (name m)
            (pos_direction m) (curr_direction m) (half_period m)
            (microsteps_per_rotation m) s (stop m) (req_available m).
Definition with_stop (m : Stepper) (s : Z) : Stepper :=
  mkStepper (dir_pin m) (step_pin m) (current_req m) (shared_mutex m) (name m)
            (pos_direction m) (curr_direction m) (half_period m)
            (microsteps_per_rotation m) (steps m) s (req_available m).
Definition with_req_available (m : Stepper) (a : Z) : Stepper :=
  mkStepper (dir_pin m) (step_pin m) (current_req m) (shared_mutex m) (name m)
            (pos_direction m) (curr_direction m) (half_period m)
            (microsteps_per_rotation m) (steps m) (stop m) a.

(** Dereference of a [Stepper*]. *)
Definition load_stepper (w : World) (p : ptr) : result Stepper :=
  match p with
  | None => Undefined
  | Some a => match steppers w !! a with
              | Some m => Ok m
              | None => Undefined
              end
  end.

(** Store through a [Stepper*] that was loaded before. *)
Definition store_stepper (w : World) (a : nat) (m : Stepper) : World :=
  set_steppers w (<[a := m]> (steppers w)).

(** Read of element [i] of a C array of motor handles. *)
Definition array_get {A : Type} (l : list A) (i : nat) : result A :=
  match l !! i with
  | Some x => Ok x
  | None => Undefined
  end.

(** ** Stepper.c *)

Definition is_valid_direction_abs (direction : Z) : bool :=
  (direction =? DIRECTION_CLOCKWISE) || (direction =? DIRECTION_COUNTERCLOCKWISE).

Definition is_valid_direction_rel (direction : Z) : bool :=
  (direction =? DIRECTION_POSITIVE) || (direction =? DIRECTION_NEGATIVE).

Definition stepper_is_busy (motor : Stepper) : bool :=
  match shared_mutex motor with
  | Some _ => true
  | None => false
  end.

(** The [for] loop of [stepper_set_speed_multiple]; [n] iterations remain
    and [i] is the loop index.  Its value is the [retval] the function
    leaves with. *)
Fixpoint set_speed_loop (ms : list ptr) (pps : Z) (n i : nat) (w : World)
  : result (Z * World) :=
  match n with
  | O => Ok (0, w)
  | S n' =>
      do p <- array_get ms i;
      do m <- load_stepper w p;
      if stepper_is_busy m then Ok (-1, w)
      else
        match p with
        | None => Ok (-1, w)
        | Some a =>
            set_speed_loop ms pps n' (S i)
              (store_stepper w a (with_half_period m (500000 / pps)))
        end
  end.

Definition stepper_set_speed_multiple (ms : option (list ptr)) (pps cnt : Z) (w : World)
  : result (Z * World) :=
  match ms with
  | None => Ok (-1, w)
  | Some l =>
      if pps =? 0 then Ok (-1, w)
      else if (cnt =? 0) || (MOTOR_LIST_SIZE_MAX <? cnt) then Ok (-1, w)
      else
        let pps := if MAX_PPS <? pps then MAX_PPS else pps in
        set_speed_loop l pps (Z.to_nat cnt) 0 w
  end.

Definition stepper_set_speed (motor : ptr) (pps : Z) (w : World) : result (Z * World) :=
  stepper_set_speed_multiple (Some [motor]) pps 1 w.

(** Dereference of a [Stepper_req*]; a freed request is a dangling pointer. *)
Definition load_req (w : World) (p : ptr) : result Stepper_req :=
  match p with
  | None => Undefined
  | Some a => match requests w !! a with
              | Some (Some r) => Ok r
              | _ => Undefined
              end
  end.

Definition store_req (w : World) (a : nat) (r : Stepper_req) : World :=
  set_requests w (<[a := Some r]> (requests w)).

Definition with_motor_waiting (r : Stepper_req) (p : ptr) : Stepper_req :=
  mkReq (motor_list r) p (pin_bulk r) (count r) (req_steps r).
Definition with_req_steps (r : Stepper_req) (n : Z) : Stepper_req :=
  mkReq (motor_list r) (motor_waiting r) (pin_bulk r) (count r) n.

(** First loop of [stepper_create_new_request]: [false] when a handle of
    the list is [NULL]. *)
Fixpoint request_motors_valid (ms : list ptr) (n i : nat) : result bool :=
  match n with
  | O => Ok true
  | S n' =>
      do p <- array_get ms i;
      match p with
      | None => Ok false
      | Some _ => request_motors_valid ms n' (S i)
      end
  end.

(** Second loop: the step lines of the motors, in list order. *)
Fixpoint request_step_pins (ms : list ptr) (n i : nat) (w : World) : result (list Z) :=
  match n with
  | O => Ok []
  | S n' =>
      do p <- array_get ms i;
      do m <- load_stepper w p;
      do rest <- request_step_pins ms n' (S i) w;
      Ok (step_pin m :: rest)
  end.

(** Last loop: every motor of the list points to the request and to its
    mutex. *)
Fixpoint request_link (ms : list ptr) (n i : nat) (r x : nat) (w : World) : result World :=
  match n with
  | O => Ok w
  | S n' =>
      do p <- array_get ms i;
      do m <- load_stepper w p;
      match p with
      | None => Undefined
      | Some a =>
          request_link ms n' (S i) r x
            (store_stepper w a
               (with_shared_mutex (with_current_req m (Some r)) (Some x)))
      end
  end.

(** [stepper_create_new_request].  The block is taken from the heap when
    the function starts and given back on the failure paths, so that a
    request appears in [requests] on success only. *)
Definition stepper_create_new_request (ms : list ptr) (cnt steps : Z) (w : World)
  : result (ptr * World) :=
  let (block_ok, w) := external w in
  if negb block_ok then Ok (None, w)
  else
    let n := Z.to_nat cnt in
    do valid <- request_motors_valid ms n 0;
    if negb valid then Ok (None, emit w (EvReleaseBulk []))
    else
      do pins <- request_step_pins ms n 0 w;
      let (bulk_ok, w) := external (emit w (EvRequestBulk pins)) in
      if negb bulk_ok then Ok (None, emit w (EvReleaseBulk pins))
      else
        let (mutex_ok, w) := external w in
        if negb mutex_ok then Ok (None, emit w (EvReleaseBulk pins))
        else
          let (init_ok, w) := external w in
          if negb init_ok then Ok (None, emit w (EvReleaseBulk pins))
          else
            let r := length (requests w) in
            let x := next_mutex w in
            let request :=
              mkReq (take n ms ++ replicate (Z.to_nat MOTOR_LIST_SIZE_MAX - n)%nat None)
                    None pins cnt steps in
            let w := set_next_mutex (set_requests w (requests w ++ [Some request])) (S x) in
            do w <- request_link ms n 0 r x w;
            Ok (Some r, w)
  .

(** [stepper_destroy_request]: the loop clearing the back pointers. *)
Fixpoint request_unlink (r : nat) (n i : nat) (w : World) : result World :=
  match n with
  | O => Ok w
  | S n' =>
      do rq <- load_req w (Some r);
      do p <- array_get (motor_list rq) i;
      do m <- load_stepper w p;
      match p with
      | None => Undefined
      | Some a =>
          request_unlink r n' (S i)
            (store_stepper w a (with_shared_mutex (with_current_req m None) None))
      end
  end.

Definition stepper_destroy_request (request : ptr) (w : World) : result World :=
  do rq <- load_req w request;
  match request with
  | None => Undefined
  | Some r =>
      let w := emit w (EvReleaseBulk (pin_bulk rq)) in
      do w <- request_unlink r (Z.to_nat (count rq)) 0 w;
      Ok (set_requests w (<[r := None]> (requests w)))
  end.

Definition stepper_set_direction_abs (motor : ptr) (direction : Z) (w : World)
  : result (Z * World) :=
  match motor with
  | None => Ok (-1, w)
  | Some a =>
      if negb (is_valid_direction_abs direction) then Ok (-1, w)
      else
        do m <- load_stepper w motor;
        if stepper_is_busy m then Ok (-1, w)
        else
          let (ok, w) := external (emit w (EvSetValue (dir_pin m) direction)) in
          if negb ok then Ok (-1, w)
          else Ok (0, store_stepper w a (with_curr_direction m direction))
  end.

Definition stepper_get_direction_abs (motor : ptr) (w : World) : result Z :=
  match motor with
  | None => Ok DIRECTION_INVALID
  | Some _ => do m <- load_stepper w motor; Ok (curr_direction m)
  end.

(** The C operator [!]. *)
Definition lnot (z : Z) : Z := if z =? 0 then 1 else 0.

Definition stepper_set_direction_rel (motor : ptr) (direction : Z) (w : World)
  : result (Z * World) :=
  match motor with
  | None => Ok (-1, w)
  | Some _ =>
      if negb (is_valid_direction_rel direction) then Ok (-1, w)
      else
        do m <- load_stepper w motor;
        stepper_set_direction_abs motor
          (if direction =? DIRECTION_POSITIVE then pos_direction m
           else lnot (pos_direction m)) w
  end.

Definition stepper_get_direction_rel (motor : ptr) (w : World) : result Z :=
  match motor with
  | None => Ok DIRECTION_INVALID
  | Some _ =>
      do m <- load_stepper w motor;
      Ok (if curr_direction m =? pos_direction m then DIRECTION_POSITIVE
          else DIRECTION_NEGATIVE)
  end.

Definition stepper_step_multiple (ms : option (list ptr)) (n_steps cnt : Z) (w : World)
  : result (Z * World) :=
  match ms with
  | None => Ok (-1, w)
  | Some l =>
      if n_steps =? 0 then Ok (-1, w)
      else if (cnt =? 0) || (MOTOR_LIST_SIZE_MAX <? cnt) then Ok (-1, w)
      else
        do p0 <- array_get l 0;
        do m0 <- load_stepper w p0;
        if stepper_is_busy m0 then Ok (-1, w)
        else
          do (request, w) <- stepper_create_new_request l (wrap_uint cnt) n_steps w;
          match request, p0 with
          | None, _ => Ok (-1, w)
          | Some _, None => Undefined
          | Some _, Some a =>
              do m0 <- load_stepper w p0;
              let w := store_stepper w a (with_req_available m0 1) in
              Ok (0, emit w (EvSignalReq a))
          end
  end.

Definition stepper_step (motor : ptr) (n_steps : Z) (w : World) : result (Z * World) :=
  stepper_step_multiple (Some [motor]) n_steps 1 w.

Definition stepper_get_steps (motor : ptr) (w : World) : result Z :=
  match motor with
  | None => Ok INT_MIN
  | Some _ => do m <- load_stepper w motor; Ok (steps m)
  end.

(** [stepper_wait] up to the point where the caller blocks on [wait_cv]:
    the registration of the waiting motor in the request.  The caller is
    released by the teardown of [motor_pulser]. *)
Definition stepper_wait (motor : ptr) (w : World) : result World :=
  match motor with
  | None => Ok w
  | Some a =>
      do m <- load_stepper w motor;
      match shared_mutex m with
      | None => Ok w
      | Some _ =>
          do rq <- load_req w (current_req m);
          match current_req m with
          | None => Undefined
          | Some r => Ok (store_req w r (with_motor_waiting rq motor))
          end
      end
  end.

(** [stepper_stop], likewise up to the point where the caller blocks. *)
Definition stepper_stop (motor : ptr) (w : World) : result World :=
  match motor with
  | None => Ok w
  | Some a =>
      do m <- load_stepper w motor;
      let busy := stepper_is_busy m in
      let w := store_stepper w a (with_stop m (if busy then 1 else 0)) in
      if busy then stepper_wait motor w else Ok w
  end.

Definition stepper_ready (motor : ptr) (w : World) : result Z :=
  match motor with
  | None => Ok 0
  | Some _ => do m <- load_stepper w motor; Ok (if stepper_is_busy m then 0 else 1)
  end.

Definition is_valid_microstep (microstep : Z) : Z :=
  if (microstep =? 1) || (microstep =? 2) || (microstep =? 4) || (microstep =? 8)
     || (microstep =? 16)
  then 1 else 0.

(** *** The worker: [motor_pulser]

    The stop flags are [volatile] and written by other threads while the
    worker sleeps.  [sched k] lists the motors on which another thread
    calls [stepper_stop] during pulse [k], that is after the pulse was
    emitted and before the worker folds the flags of that pulse. *)

Fixpoint other_threads (ps : list ptr) (w : World) : result World :=
  match ps with
  | [] => Ok w
  | p :: ps' => do w <- stepper_stop p w; other_threads ps' w
  end.

(** [motor->current_req], dereferenced. *)
Definition current_request (w : World) (motor : nat) : result (nat * Stepper_req) :=
  do m <- load_stepper w (Some motor);
  do rq <- load_req w (current_req m);
  match current_req m with
  | None => Undefined
  | Some r => Ok (r, rq)
  end.

(** The [for] loop in the body of the pulse loop: one microstep for every
    motor of the request, and the fold of their stop flags. *)
Fixpoint pulser_count (motor : nat) (n i : nat) (stop_now : Z) (w : World)
  : result (Z * World) :=
  match n with
  | O => Ok (stop_now, w)
  | S n' =>
      do (_, rq) <- current_request w motor;
      do p <- array_get (motor_list rq) i;
      do node <- load_stepper w p;
      match p with
      | None => Undefined
      | Some a =>
          do s <- checked_int (if curr_direction node =? pos_direction node
                               then steps node + 1 else steps node - 1);
          pulser_count motor n' (S i) (Z.lor stop_now (stop node))
            (store_stepper w a (with_steps node s))
      end
  end.

Section Pulser.

Variable sched : nat -> list ptr.

(** The [do ... while] loop; [k] numbers the pulse. *)
Fixpoint pulser_loop (fuel : nat) (k : nat) (motor : nat) (pulse_duration : Z)
  (num_motors : Z) (stop_now : Z) (w : World) : result World :=
  match fuel with
  | O => Timeout
  | S fuel' =>
      do (_, rq) <- current_request w motor;
      let w := emit w (EvWriteBulk (pin_bulk rq) 1) in
      let w := emit w (EvSleep pulse_duration) in
      do (_, rq) <- current_request w motor;
      let w := emit w (EvWriteBulk (pin_bulk rq) 0) in
      let w := emit w (EvSleep pulse_duration) in
      do w <- other_threads (sched k) w;
      do (stop_now, w) <- pulser_count motor (Z.to_nat num_motors) 0 stop_now w;
      do (r, rq) <- current_request w motor;
      let left := wrap_uint (req_steps rq - 1) in
      let w := store_req w r (with_req_steps rq left) in
      if negb (left =? 0) && (stop_now =? 0)
      then pulser_loop fuel' (S k) motor pulse_duration num_motors stop_now w
      else Ok w
  end.

(** One turn of the [while(1)] loop of the worker of [motor].  While no
    request is available the worker sleeps on [req_cv] and the world is
    as it was. *)
Definition motor_pulser (fuel : nat) (motor : nat) (w : World) : result World :=
  do m <- load_stepper w (Some motor);
  if req_available m =? 0 then Ok w
  else
    let w := store_stepper w motor (with_req_available m 0) in
    do m <- load_stepper w (Some motor);
    let pulse_duration := half_period m in
    do (_, rq) <- current_request w motor;
    let num_motors := count rq in
    do w <- pulser_loop fuel 0 motor pulse_duration num_motors 0 w;
    do m <- load_stepper w (Some motor);
    match shared_mutex m with
    | None => Undefined
    | Some _ =>
        do (_, rq) <- current_request w motor;
        let waiting_motor := motor_waiting rq in
        do w <- stepper_destroy_request (current_req m) w;
        match waiting_motor with
        | None => Ok w
        | Some a =>
            do wm <- load_stepper w waiting_motor;
            let w := store_stepper w a (with_stop wm 0) in
            Ok (emit w (EvSignalWait a))
        end
    end.

End Pulser.

(** ** Axis.c *)

(** Conversion of a [double] to [unsigned int]: the fractional part is
    discarded; the behaviour is undefined when the integral part is not a
    value of the type (or for an infinity or a NaN). *)
Definition trunc_SF (x : spec_float) : option Z :=
  match x with
  | S754_zero _ => Some 0
  | S754_finite s m e =>
      let t := if 0 <=? e then Z.pos m * 2 ^ e else Z.pos m / 2 ^ (- e) in
      Some (if s then - t else t)
  | S754_infinity _ => None
  | S754_nan => None
  end.

Definition double_to_uint (x : float) : result Z :=
  match trunc_SF (Prim2SF x) with
  | Some v => if (0 <=? v) && (v <=? UINT_MAX) then Ok v else Undefined
  | None => Undefined
  end.

(** Conversion of an [unsigned int] and of an [int] to [double] (exact). *)
Definition uint_to_double (z : Z) : float := PrimFloat.of_uint63 (Uint63.of_Z z).
Definition int_to_double (z : Z) : float :=
  if z <? 0 then PrimFloat.opp (PrimFloat.of_uint63 (Uint63.of_Z (- z)))
  else PrimFloat.of_uint63 (Uint63.of_Z z).

Definition load_axis (w : World) (p : ptr) : result Axis :=
  match p with
  | None => Undefined
  | Some a => match axes w !! a with
              | Some x => Ok x
              | None => Undefined
              end
  end.

Definition store_axis (w : World) (a : nat) (x : Axis) : World :=
  set_axes w (<[a := x]> (axes w)).

Definition with_reset_dir (x : Axis) (r : Z) : Axis :=
  mkAxis (motors x) (num_motors x) r (mm_per_rotation x) (position x) (speed x).
Definition with_position (x : Axis) (p : float) : Axis :=
  mkAxis (motors x) (num_motors x) (reset_dir x) (mm_per_rotation x) p (speed x).
Definition with_speed (x : Axis) (s : float) : Axis :=
  mkAxis (motors x) (num_motors x) (reset_dir x) (mm_per_rotation x) (position x) s.

Definition mm_to_steps (w : World) (axis : ptr) (mm : float) : result Z :=
  do x <- load_axis w axis;
  do p0 <- array_get (motors x) 0;
  do m0 <- load_stepper w p0;
  double_to_uint
    (PrimFloat.div
       (PrimFloat.mul mm (uint_to_double (microsteps_per_rotation m0)))
       (mm_per_rotation x)).

Definition steps_to_mm (w : World) (axis : ptr) (n : Z) : result float :=
  do x <- load_axis w axis;
  do p0 <- array_get (motors x) 0;
  do m0 <- load_stepper w p0;
  Ok (PrimFloat.div
        (PrimFloat.mul (int_to_double n) (mm_per_rotation x))
        (uint_to_double (microsteps_per_rotation m0))).

(** The validation loop of [axis_init]. *)
Fixpoint axis_motors_valid (ms : list ptr) (n i : nat) : result bool :=
  match n with
  | O => Ok true
  | S n' =>
      do p <- array_get ms i;
      match p with
      | None => Ok false
      | Some _ => axis_motors_valid ms n' (S i)
      end
  end.

Definition axis_init (ms : option (list ptr)) (mm_per_rot cnt : Z) (w : World)
  : result (ptr * World) :=
  match ms with
  | None => Ok (None, w)
  | Some l =>
      if mm_per_rot =? 0 then Ok (None, w)
      else if (cnt =? 0) || (MOTOR_LIST_SIZE_MAX <? cnt) then Ok (None, w)
      else
        let (axis_ok, w) := external w in
        if negb axis_ok then Ok (None, w)
        else
          let n := Z.to_nat cnt in
          do valid <- axis_motors_valid l n 0;
          if negb valid then Ok (None, w)
          else
            let x := mkAxis (take n l ++ replicate (Z.to_nat MOTOR_LIST_SIZE_MAX - n)%nat None)
                            cnt 0 (uint_to_double mm_per_rot) 0%float 0%float in
            Ok (Some (length (axes w)), set_axes w (axes w ++ [x]))
  end.

Definition axis_set_speed (axis : ptr) (mm_per_sec : float) (w : World)
  : result (Z * World) :=
  match axis with
  | None => Ok (-1, w)
  | Some a =>
      if PrimFloat.leb mm_per_sec 0%float then Ok (-1, w)
      else
        do steps_per_sec <- mm_to_steps w axis mm_per_sec;
        do x <- load_axis w axis;
        do (rv, w) <- stepper_set_speed_multiple (Some (motors x)) steps_per_sec
                        (num_motors x) w;
        if rv <? 0 then Ok (-1, w)
        else
          do x <- load_axis w axis;
          Ok (0, store_axis w a (with_speed x mm_per_sec))
  end.

(** The loop of [axis_set_direction]; its value is the [retval]. *)
Fixpoint axis_direction_loop (axis : ptr) (direction : Z) (n i : nat) (w : World)
  : result (Z * World) :=
  match n with
  | O => Ok (0, w)
  | S n' =>
      do x <- load_axis w axis;
      do p <- array_get (motors x) i;
      do (rv, w) <- stepper_set_direction_rel p direction w;
      if rv <? 0 then Ok (-1, w)
      else axis_direction_loop axis direction n' (S i) w
  end.

Definition axis_set_direction (axis : ptr) (direction : Z) (w : World)
  : result (Z * World) :=
  match axis with
  | None => Ok (-1, w)
  | Some _ =>
      do x <- load_axis w axis;
      axis_direction_loop axis direction (Z.to_nat (num_motors x)) 0 w
  end.

(** The tail of [axis_move], from the conversion of the distance on. *)
Definition axis_move_steps (axis : ptr) (distance : float) (w : World)
  : result (Z * World) :=
  do n_steps <- mm_to_steps w axis distance;
  do x <- load_axis w axis;
  do (rv, w) <- stepper_step_multiple (Some (motors x)) n_steps (wrap_int (num_motors x)) w;
  if rv <? 0 then Ok (-1, w) else Ok (0, w).

(** The middle of [axis_move]: the temporary change of direction for a
    negative distance. *)
Definition axis_move_negative (axis : ptr) (a : nat) (distance : float) (w : World)
  : result (Z * World) :=
  if PrimFloat.ltb distance 0%float then
    let distance := PrimFloat.opp distance in
    do x <- load_axis w axis;
    let w := store_axis w a (with_reset_dir x 1) in
    do (rv, w) <- axis_set_direction axis DIRECTION_NEGATIVE w;
    if rv <? 0 then Ok (-1, w)
    else axis_move_steps axis distance w
  else axis_move_steps axis distance w.

Definition axis_move (axis : ptr) (distance : float) (w : World) : result (Z * World) :=
  match axis with
  | None => Ok (-1, w)
  | Some a =>
      if PrimFloat.eqb distance 0%float then Ok (0, w)
      else
        do x <- load_axis w axis;
        if negb (reset_dir x =? 0) then
          let w := store_axis w a (with_reset_dir x 0) in
          do (rv, w) <- axis_set_direction axis DIRECTION_POSITIVE w;
          if rv <? 0 then Ok (-1, w)
          else axis_move_negative axis a distance w
        else axis_move_negative axis a distance w
  end.

Definition axis_ready (axis : ptr) (w : World) : result Z :=
  match axis with
  | None => Ok 0
  | Some _ =>
      do x <- load_axis w axis;
      do p0 <- array_get (motors x) 0;
      stepper_ready p0 w
  end.

Definition axis_get_position (axis : ptr) (w : World) : result (float * World) :=
  match axis with
  | None => Ok (PrimFloat.nan, w)
  | Some a =>
      do x <- load_axis w axis;
      do p0 <- array_get (motors x) 0;
      do given_steps <- stepper_get_steps p0 w;
      do mm <- steps_to_mm w axis (wrap_int (wrap_uint given_steps));
      do x <- load_axis w axis;
      Ok (mm, store_axis w a (with_position x mm))
  end.

(** *** Construction: [stepper_init]

    [GPIO_init_pin] and [CreateTask] are external.  The handle of a line
    is the pin constant it was obtained for.  The object is put on the
    heap by [malloc] and taken off again by the [free] of the failure
    path. *)

Definition GPIO_DIRECTION_OUTPUT : Z := 0.
Definition GPIO_DIRECTION_INPUT : Z := 1.
Definition GPIO_DIRECTION_NONE : Z := 2.

(** [strncpy (dst, src, n)] into a zeroed buffer of more than [n] bytes,
    read back as a C string. *)
Fixpoint strncpy (src : string) (n : nat) {struct n} : string :=
  match n, src with
  | S n', String c s => String c (strncpy s n')
  | _, _ => EmptyString
  end.

Definition stepper_init (motor_name : option string) (step_pin dir_pin : Z)
  (microstep steps_per_rotation : Z) (init_dir : Z) (w : World) : result (ptr * World) :=
  match motor_name with
  | None => Ok (None, w)
  | Some nm =>
      if is_valid_microstep microstep =? 0 then Ok (None, w)
      else if steps_per_rotation =? 0 then Ok (None, w)
      else if negb (is_valid_direction_abs init_dir) then Ok (None, w)
      else
        let (motor_ok, w) := external w in
        if negb motor_ok then Ok (None, w)
        else
          let a := length (steppers w) in
          let heap := steppers w in
          let zeroed := mkStepper 0 0 None None EmptyString 0 0 0 0 0 0 0 in
          let (dir_ok, w) := external (emit w (EvInitPin dir_pin GPIO_DIRECTION_OUTPUT)) in
          if negb dir_ok then Ok (None, w)
          else
            let (step_ok, w) := external (emit w (EvInitPin step_pin GPIO_DIRECTION_NONE)) in
            if negb step_ok then Ok (None, w)
            else
              let m := mkStepper dir_pin step_pin None None
                         (strncpy nm (MOTOR_NAME_LEN - 1)) init_dir 0 0 0 0 0 0 in
              let w := set_steppers w (heap ++ [m]) in
              do (_, w) <- stepper_set_direction_abs (Some a) init_dir w;
              do m <- load_stepper w (Some a);
              let w := store_stepper w a
                         (with_microsteps_per_rotation m
                            (wrap_uint (microstep * steps_per_rotation))) in
              let (task_ok, w) := external (emit w (EvCreateTask nm)) in
              if negb task_ok then Ok (None, set_steppers w heap)
              else Ok (Some a, w)
  end.

(** ** config.c *)

Module Config.

Definition MOTOR_CONFIG_NAME : string := "motor.conf"%string.
Definition PARAM_MAX_LEN : nat := 32.
Definition VALUE_MAX_LEN : nat := 32.
Definition ERROR_STR_LEN : nat := 64.
Definition AXIS_NAME_LEN : nat := 32.

(** *** <ctype.h> in the C locale, and <string.h> *)

Definition code (c : ascii) : N := N_of_ascii c.
Definition between (lo hi : N) (c : ascii) : bool :=
  (N.leb lo (code c)) && (N.leb (code c) hi).
Definition islower (c : ascii) : bool := between 97 122 c.
Definition isupper (c : ascii) : bool := between 65 90 c.
Definition isdigit (c : ascii) : bool := between 48 57 c.
Definition isalnum (c : ascii) : bool := isdigit c || isupper c || islower c.
Definition isblank (c : ascii) : bool := Ascii.eqb c " "%char || Ascii.eqb c "009"%char.
Definition NUL : ascii := "000"%char.
Definition newline : ascii := "010"%char.

(** [strncmp (a, b, n) == 0] on C strings. *)
Fixpoint strncmp_eq (a b : string) (n : nat) {struct n} : bool :=
  match n with
  | O => true
  | S n' =>
      match a, b with
      | EmptyString, EmptyString => true
      | String c a', String d b' => Ascii.eqb c d && strncmp_eq a' b' n'
      | _, _ => false
      end
  end.

(** What a formatted write leaves in a buffer, read back as a C string:
    the text ends at the first NUL byte. *)
Fixpoint c_str (s : string) : string :=
  match s with
  | EmptyString => EmptyString
  | String c s' => if Ascii.eqb c NUL then EmptyString else String c (c_str s')
  end.

(** [snprintf (dst, n, ...)] keeps [n - 1] bytes of the formatted text. *)
Definition snprintf (n : nat) (text : string) : string := c_str (strncpy text (n - 1)).

Definition hex_digit (n : N) : ascii :=
  if N.ltb n 10 then ascii_of_N (48 + n) else ascii_of_N (87 + n).
(** The conversion [%02hhx]. *)
Definition hex2 (c : ascii) : string :=
  String (hex_digit (N.div (code c) 16)) (String (hex_digit (N.modulo (code c) 16)) EmptyString).
Definition chr (c : ascii) : string := String c EmptyString.

(** *** The configuration entries *)

Module motor_config.
Record t : Type := mk {
  name : string;
  step_pin : Z;
  dir_pin : Z;
  microstep : Z;
  steps_rot : Z;
  direction : Z;
  motor : ptr
}.
End motor_config.

(** The [motors] of an entry point into [motor_list]: they are indices of
    that array. *)
Module axis_config.
Record t : Type := mk {
  name : string;
  mm_rot : Z;
  count : Z;
  motors : list (option nat);
  axis : ptr
}.
End axis_config.

Inductive states : Type :=
| READ_LINE | READ_PARAM | READ_IDENTIFIER | SET_IDENTIFIER | CHECK_PARAM
| READ_VALUE | SET_PARAM | READ_MOTOR_LIST | CLEANUP | FINISHED | ERROR.

Inductive identifiers : Type := MOTOR | AXIS | INVALID_TYPE.

Inductive params : Type :=
| MOTOR_NAME | STEP_PIN | DIR_PIN | STEPS_ROT | DIRECTION | MICROSTEP
| AXIS_NAME | MOTOR_LIST | MM_ROT | INVALID_PARAM.

Definition motor_params : list string :=
  ["name"; "step_pin"; "dir_pin"; "steps_per_rotation"; "direction"; "microstep"]%string.
Definition motor_params_id : list params :=
  [MOTOR_NAME; STEP_PIN; DIR_PIN; STEPS_ROT; DIRECTION; MICROSTEP].
Definition motor_params_len : list nat := [4; 8; 7; 18; 9; 9]%nat.
Definition motor_params_count : nat := 6.

Definition axis_params : list string := ["name"; "motors"; "mm_per_rotation"]%string.
Definition axis_params_id : list params := [AXIS_NAME; MOTOR_LIST; MM_ROT].
Definition axis_params_len : list nat := [4; 6; 15]%nat.
Definition axis_params_count : nat := 3.

(** The file-scope variables of config.c. *)
Record Globals : Type := mkGlobals {
  motor_config_state : states;
  err_str : string;
  motor_list : list motor_config.t;
  motor_list_len : Z;
  axis_list : list axis_config.t;
  axis_list_len : Z
}.

Definition set_state (g : Globals) (s : states) : Globals :=
  mkGlobals s (err_str g) (motor_list g) (motor_list_len g) (axis_list g) (axis_list_len g).
Definition set_err_str (g : Globals) (e : string) : Globals :=
  mkGlobals (motor_config_state g) e (motor_list g) (motor_list_len g) (axis_list g)
            (axis_list_len g).
Definition set_motor_list (g : Globals) (l : list motor_config.t) : Globals :=
  mkGlobals (motor_config_state g) (err_str g) l (motor_list_len g) (axis_list g)
            (axis_list_len g).
Definition set_motor_list_len (g : Globals) (n : Z) : Globals :=
  mkGlobals (motor_config_state g) (err_str g) (motor_list g) n (axis_list g)
            (axis_list_len g).
Definition set_axis_list (g : Globals) (l : list axis_config.t) : Globals :=
  mkGlobals (motor_config_state g) (err_str g) (motor_list g) (motor_list_len g) l
            (axis_list_len g).
Definition set_axis_list_len (g : Globals) (n : Z) : Globals :=
  mkGlobals (motor_config_state g) (err_str g) (motor_list g) (motor_list_len g)
            (axis_list g) n.

(** An error of the parser: the message and the ERROR state. *)
Definition fail (g : Globals) (msg : string) : Globals :=
  set_state (set_err_str g msg) ERROR.

(** Element [i] of one of the two lists, as an lvalue: an index outside
    the array is undefined. *)
Definition entry {A : Type} (l : list A) (i : Z) : result A :=
  if i <? 0 then Undefined else array_get l (Z.to_nat i).

Definition validate_motor_node (node : motor_config.t) : bool :=
  negb (motor_config.dir_pin node =? 0) &&
  negb (motor_config.step_pin node =? 0) &&
  negb (motor_config.direction node =? DIRECTION_INVALID) &&
  negb (String.eqb (motor_config.name node) EmptyString) &&
  negb (motor_config.steps_rot node =? 0) &&
  negb (motor_config.microstep node =? 0).

Definition validate_axis_node (node : axis_config.t) : bool :=
  (0 <? axis_config.count node) && (0 <? axis_config.mm_rot node).

Definition str_to_dir (s : string) : Z :=
  if strncmp_eq s "counterclockwise" 16 then DIRECTION_COUNTERCLOCKWISE
  else if strncmp_eq s "clockwise" 16 then DIRECTION_CLOCKWISE
  else DIRECTION_INVALID.

Fixpoint all_digits (s : string) : bool :=
  match s with
  | EmptyString => true
  | String c s' => isdigit c && all_digits s'
  end.

Fixpoint decimal (s : string) (acc : Z) : Z :=
  match s with
  | EmptyString => acc
  | String c s' => decimal s' (10 * acc + Z.of_N (code c - 48))
  end.

(** [atoi] of a string of digits; a value that is not an [int] is
    undefined. *)
Definition atoi (s : string) : result Z := checked_int (decimal s 0).

Definition str_to_int (s : string) : result Z :=
  if all_digits s then atoi s else Ok (-1).

(** [int_to_gpio_pin] of GPIO.c, with the constants of GPIO.h converted
    to [int]. *)
Definition GPIO_MAIN_CONTROLLER_FLAG : Z := 2147483648.
Definition GPIO_AON_CONTROLLER_FLAG : Z := 1073741824.
Definition INVALID_PIN : Z := -1.
Definition main_pin (line : Z) : Z := wrap_int (Z.lor GPIO_MAIN_CONTROLLER_FLAG line).
Definition aon_pin (line : Z) : Z := wrap_int (Z.lor GPIO_AON_CONTROLLER_FLAG line).

Definition int_to_gpio_pin (p : Z) : Z :=
  match p with
  | 7 => main_pin 76
  | 8 => main_pin 144
  | 10 => main_pin 145
  | 11 => main_pin 146
  | 12 => main_pin 72
  | 13 => main_pin 77
  | 16 => aon_pin 40
  | 18 => main_pin 161
  | 19 => main_pin 109
  | 21 => main_pin 108
  | 23 => main_pin 107
  | 24 => main_pin 110
  | 29 => main_pin 78
  | 31 => aon_pin 42
  | 32 => aon_pin 41
  | 33 => main_pin 69
  | 35 => main_pin 75
  | 36 => main_pin 147
  | 37 => main_pin 68
  | 38 => main_pin 74
  | 40 => main_pin 73
  | _ => INVALID_PIN
  end.

(** The loop of [get_motor_node_by_name]; the node found is its index in
    [motor_list]. *)
Fixpoint find_motor_node (g : Globals) (nm : string) (n i : nat) : result (option nat) :=
  match n with
  | O => Ok None
  | S n' =>
      do node <- array_get (motor_list g) i;
      if strncmp_eq nm (motor_config.name node) MOTOR_NAME_LEN then Ok (Some i)
      else find_motor_node g nm n' (S i)
  end.

Definition get_motor_node_by_name (g : Globals) (nm : string) : result (option nat) :=
  find_motor_node g nm (Z.to_nat (motor_list_len g)) 0.

(** [get_axis_node_by_name]; the bound of its loop is [motor_list_len]. *)
Fixpoint find_axis_node (g : Globals) (nm : string) (n i : nat) : result (option nat) :=
  match n with
  | O => Ok None
  | S n' =>
      do node <- array_get (axis_list g) i;
      if strncmp_eq nm (axis_config.name node) MOTOR_NAME_LEN then Ok (Some i)
      else find_axis_node g nm n' (S i)
  end.

Definition get_axis_node_by_name (g : Globals) (nm : string) : result (option nat) :=
  find_axis_node g nm (Z.to_nat (motor_list_len g)) 0.

(** *** The stream *)

(** The rest of the file, and the number of lines that can still be read
    before the device fails ([None]: it never does). *)
Record FILE : Type := mkFILE {
  content : list ascii;
  readable : option nat
}.

(** One line of [l], with its newline if it has one, and what follows. *)
Fixpoint split_line (l : list ascii) : list ascii * list ascii :=
  match l with
  | [] => ([], [])
  | c :: l' =>
      if Ascii.eqb c newline then ([c], l')
      else let (line, rest) := split_line l' in (c :: line, rest)
  end.

Inductive getline_result : Type :=
| GetlineError
| GetlineEOF
| GetlineOk (buff : list ascii).

(** [getline]: the new buffer holds the line and its terminating NUL.
    The size that the C function reports is that of the allocation, which
    may be larger; every scanning loop below leaves at the NUL at the
    latest, so that nothing behind it is read. *)
Definition getline (f : FILE) : getline_result * FILE :=
  match readable f with
  | Some O => (GetlineError, f)
  | _ =>
      match content f with
      | [] => (GetlineEOF, f)
      | _ =>
          let (line, rest) := split_line (content f) in
          (GetlineOk (line ++ [NUL]), mkFILE rest (pred <$> readable f))
      end
  end.

(** *** The routines of the states *)

Definition state_read_line (file : FILE) (g : Globals) : list ascii * FILE * Globals :=
  match getline file with
  | (GetlineError, file) =>
      ([], file,
       fail g (strncpy ("Error reading line from " ++ MOTOR_CONFIG_NAME) (ERROR_STR_LEN - 1)))
  | (GetlineEOF, file) => ([], file, set_state g FINISHED)
  | (GetlineOk buff, file) => (buff, file, set_state g READ_PARAM)
  end.

(** The [for] loop of [state_read_param] over the rest of the buffer: the
    characters stored, the cursor, and the globals when the loop is
    left. *)
Fixpoint read_param_loop (rest : list ascii) (param_len offset : nat) (g : Globals)
  : string * nat * Globals :=
  match rest with
  | [] => (EmptyString, offset, g)
  | c :: rest' =>
      if islower c || Ascii.eqb c "_"%char then
        if (param_len <? PARAM_MAX_LEN - 1)%nat then
          let '(s, off, g') := read_param_loop rest' (S param_len) (S offset) g in
          (String c s, off, g')
        else
          (EmptyString, offset,
           fail g (strncpy ("Param identifier has exceeded max length in " ++ MOTOR_CONFIG_NAME)
                     (ERROR_STR_LEN - 1)))
      else if Ascii.eqb c "="%char then (EmptyString, offset, set_state g CHECK_PARAM)
      else if Ascii.eqb c "["%char then (EmptyString, offset, set_state g READ_IDENTIFIER)
      else if Ascii.eqb c "#"%char || isblank c || Ascii.eqb c newline then
        (EmptyString, offset, set_state g CLEANUP)
      else
        (EmptyString, offset,
         fail g (snprintf (ERROR_STR_LEN - 1)
                   ("Invalid char (" ++ chr c ++ " [0x" ++ hex2 c ++ "]) at param in "
                    ++ MOTOR_CONFIG_NAME)))
  end.

(** The results are the buffer, its length and the cursor. *)
Definition state_read_param (line_buff : list ascii) (offset : nat) (g : Globals)
  : string * nat * nat * Globals :=
  let '(s, off, g) := read_param_loop (drop offset line_buff) 0 offset g in
  (s, String.length s, S off, g).

Fixpoint read_identifier_loop (rest : list ascii) (param_len offset : nat) (g : Globals)
  : string * nat * Globals :=
  match rest with
  | [] => (EmptyString, offset, g)
  | c :: rest' =>
      if islower c then
        if (param_len <? PARAM_MAX_LEN - 1)%nat then
          let '(s, off, g') := read_identifier_loop rest' (S param_len) (S offset) g in
          (String c s, off, g')
        else
          (EmptyString, offset,
           fail g (strncpy ("Type identifier has exceeded max length in " ++ MOTOR_CONFIG_NAME)
                     (ERROR_STR_LEN - 1)))
      else if Ascii.eqb c "]"%char then (EmptyString, offset, set_state g SET_IDENTIFIER)
      else
        (EmptyString, offset,
         fail g (snprintf (ERROR_STR_LEN - 1)
                   ("Invalid char '" ++ chr c ++ "' (0x" ++ hex2 c ++ ") at type identifier in "
                    ++ MOTOR_CONFIG_NAME)))
  end.

Definition state_read_identifier (line_buff : list ascii) (offset : nat) (g : Globals)
  : string * nat * nat * Globals :=
  let '(s, off, g) := read_identifier_loop (drop offset line_buff) 0 offset g in
  (s, String.length s, S off, g).

Definition state_set_identifier (id_buff : string) (g : Globals) : identifiers * Globals :=
  if strncmp_eq id_buff "motor" 5 then
    (MOTOR, set_state (set_motor_list_len g (motor_list_len g + 1)) CLEANUP)
  else if strncmp_eq id_buff "axis" 4 then
    (AXIS, set_state (set_axis_list_len g (axis_list_len g + 1)) CLEANUP)
  else
    (INVALID_TYPE,
     fail g (snprintf (ERROR_STR_LEN - 1)
               ("Invalid type identifier (" ++ id_buff ++ ") used in " ++ MOTOR_CONFIG_NAME))).

(** The validation loop of [state_check_param]. *)
Fixpoint check_param_loop (param_buff : string) (param_list : list string)
  (param_len : list nat) (id_list : list params) (n i : nat) : result (option params) :=
  match n with
  | O => Ok None
  | S n' =>
      do p <- array_get param_list i;
      do len <- array_get param_len i;
      if strncmp_eq param_buff p len then
        do id <- array_get id_list i; Ok (Some id)
      else check_param_loop param_buff param_list param_len id_list n' (S i)
  end.

Definition state_check_param (param_buff : string) (id : identifiers) (g : Globals)
  : result (params * Globals) :=
  match id with
  | INVALID_TYPE =>
      Ok (INVALID_PARAM,
          fail g (strncpy "Last type identifier is invalid or not defined" (ERROR_STR_LEN - 1)))
  | _ =>
      let '(param_list, param_len, list_len, id_list) :=
        match id with
        | MOTOR => (motor_params, motor_params_len, motor_params_count, motor_params_id)
        | _ => (axis_params, axis_params_len, axis_params_count, axis_params_id)
        end in
      if strncmp_eq param_buff "motors" 6 then Ok (MOTOR_LIST, set_state g READ_MOTOR_LIST)
      else
        do found <- check_param_loop param_buff param_list param_len id_list list_len 0;
        match found with
        | Some param_id => Ok (param_id, set_state g READ_VALUE)
        | None =>
            let identifier_str :=
              match id with MOTOR => "motor" | _ => "axis" end%string in
            Ok (INVALID_PARAM,
                fail g (snprintf (ERROR_STR_LEN - 1)
                          (param_buff ++ " is not a valid parameter for type "
                           ++ identifier_str ++ ", in " ++ MOTOR_CONFIG_NAME)))
        end
  end.

Fixpoint read_value_loop (rest : list ascii) (value_len offset : nat) (g : Globals)
  : string * nat * Globals :=
  match rest with
  | [] => (EmptyString, offset, g)
  | c :: rest' =>
      if isalnum c || Ascii.eqb c "-"%char || Ascii.eqb c "_"%char then
        if (value_len <? PARAM_MAX_LEN - 1)%nat then
          let '(s, off, g') := read_value_loop rest' (S value_len) (S offset) g in
          (String c s, off, g')
        else
          (EmptyString, offset,
           fail g (strncpy ("Value has exceeded max length in " ++ MOTOR_CONFIG_NAME)
                     (ERROR_STR_LEN - 1)))
      else if isblank c || Ascii.eqb c "#"%char || Ascii.eqb c newline then
        (EmptyString, offset, set_state g SET_PARAM)
      else
        (EmptyString, offset,
         fail g (snprintf (ERROR_STR_LEN - 1)
                   ("Invalid char (" ++ chr c ++ " [0x" ++ hex2 c ++ "]) at type identifier in "
                    ++ MOTOR_CONFIG_NAME)))
  end.

Definition state_read_value (line_buff : list ascii) (offset : nat) (g : Globals)
  : string * nat * nat * Globals :=
  let '(s, off, g) := read_value_loop (drop offset line_buff) 0 offset g in
  (s, String.length s, S off, g).

Definition with_motor_name (node : motor_config.t) (s : string) : motor_config.t :=
  motor_config.mk s (motor_config.step_pin node) (motor_config.dir_pin node)
    (motor_config.microstep node) (motor_config.steps_rot node)
    (motor_config.direction node) (motor_config.motor node).
Definition with_step_pin (node : motor_config.t) (p : Z) : motor_config.t :=
  motor_config.mk (motor_config.name node) p (motor_config.dir_pin node)
    (motor_config.microstep node) (motor_config.steps_rot node)
    (motor_config.direction node) (motor_config.motor node).
Definition with_dir_pin (node : motor_config.t) (p : Z) : motor_config.t :=
  motor_config.mk (motor_config.name node) (motor_config.step_pin node) p
    (motor_config.microstep node) (motor_config.steps_rot node)
    (motor_config.direction node) (motor_config.motor node).
Definition with_microstep (node : motor_config.t) (n : Z) : motor_config.t :=
  motor_config.mk (motor_config.name node) (motor_config.step_pin node)
    (motor_config.dir_pin node) n (motor_config.steps_rot node)
    (motor_config.direction node) (motor_config.motor node).
Definition with_steps_rot (node : motor_config.t) (n : Z) : motor_config.t :=
  motor_config.mk (motor_config.name node) (motor_config.step_pin node)
    (motor_config.dir_pin node) (motor_config.microstep node) n
    (motor_config.direction node) (motor_config.motor node).
Definition with_direction (node : motor_config.t) (d : Z) : motor_config.t :=
  motor_config.mk (motor_config.name node) (motor_config.step_pin node)
    (motor_config.dir_pin node) (motor_config.microstep node)
    (motor_config.steps_rot node) d (motor_config.motor node).
Definition with_motor (node : motor_config.t) (p : ptr) : motor_config.t :=
  motor_config.mk (motor_config.name node) (motor_config.step_pin node)
    (motor_config.dir_pin node) (motor_config.microstep node)
    (motor_config.steps_rot node) (motor_config.direction node) p.

Definition with_axis_name (node : axis_config.t) (s : string) : axis_config.t :=
  axis_config.mk s (axis_config.mm_rot node) (axis_config.count node)
    (axis_config.motors node) (axis_config.axis node).
Definition with_mm_rot (node : axis_config.t) (n : Z) : axis_config.t :=
  axis_config.mk (axis_config.name node) n (axis_config.count node)
    (axis_config.motors node) (axis_config.axis node).
Definition with_axis_motors (node : axis_config.t) (n : Z) (l : list (option nat))
  : axis_config.t :=
  axis_config.mk (axis_config.name node) (axis_config.mm_rot node) n l
    (axis_config.axis node).
Definition with_axis (node : axis_config.t) (p : ptr) : axis_config.t :=
  axis_config.mk (axis_config.name node) (axis_config.mm_rot node)
    (axis_config.count node) (axis_config.motors node) p.

(** An assignment to a member of [motor_list[motor_list_len-1]]. *)
Definition update_motor (g : Globals) (f : motor_config.t -> motor_config.t)
  : result Globals :=
  let i := motor_list_len g - 1 in
  do node <- entry (motor_list g) i;
  Ok (set_motor_list g (<[Z.to_nat i := f node]> (motor_list g))).

(** An assignment to a member of [axis_list[axis_list_len-1]]. *)
Definition update_axis (g : Globals) (f : axis_config.t -> axis_config.t)
  : result Globals :=
  let i := axis_list_len g - 1 in
  do node <- entry (axis_list g) i;
  Ok (set_axis_list g (<[Z.to_nat i := f node]> (axis_list g))).

(** The two pin parameters differ by the member written and by one word
    of the message. *)
Definition set_pin (g : Globals) (value_buff : string) (which : string)
  (f : motor_config.t -> Z -> motor_config.t) : result Globals :=
  do temp <- str_to_int value_buff;
  if 0 <? temp then
    let temp := int_to_gpio_pin temp in
    if negb (temp =? INVALID_PIN) then update_motor g (fun node => f node temp)
    else
      Ok (fail g (snprintf (ERROR_STR_LEN - 1)
                    (value_buff ++ " is not a valid value for " ++ which ++ ".")))
  else
    Ok (fail g (snprintf (ERROR_STR_LEN - 1)
                  (value_buff ++ " is not a valid numerical value.")))
  .

Definition state_set_param (param_id : params) (value_buff : string) (g : Globals)
  : result Globals :=
  let g := set_state g CLEANUP in
  match param_id with
  | MOTOR_NAME =>
      update_motor g (fun node => with_motor_name node (strncpy value_buff (MOTOR_NAME_LEN - 1)))
  | STEP_PIN => set_pin g value_buff "step_pin" with_step_pin
  | DIR_PIN => set_pin g value_buff "dir_pin" with_dir_pin
  | STEPS_ROT =>
      do temp <- str_to_int value_buff;
      if 0 <? temp then update_motor g (fun node => with_steps_rot node temp)
      else
        Ok (fail g (snprintf (ERROR_STR_LEN - 1)
                      (value_buff ++ " is not a valid value for steps_per_roation.")))
  | DIRECTION =>
      let temp := str_to_dir value_buff in
      if negb (temp =? DIRECTION_INVALID) then
        update_motor g (fun node => with_direction node temp)
      else
        Ok (fail g (snprintf (ERROR_STR_LEN - 1) (value_buff ++ " is not a valid direction.")))
  | MICROSTEP =>
      do temp <- str_to_int value_buff;
      if (0 <? temp) && negb (is_valid_microstep temp =? 0) then
        update_motor g (fun node => with_microstep node temp)
      else
        Ok (fail g (snprintf (ERROR_STR_LEN - 1)
                      (value_buff ++ " is not a valid value for microstep.")))
  | AXIS_NAME =>
      update_axis g (fun node => with_axis_name node (strncpy value_buff (AXIS_NAME_LEN - 1)))
  | MOTOR_LIST => Ok g
  | MM_ROT =>
      do temp <- str_to_int value_buff;
      if 0 <? temp then update_axis g (fun node => with_mm_rot node temp)
      else
        Ok (fail g (snprintf (ERROR_STR_LEN - 1)
                      (value_buff ++ " is not a valid numerical value.")))
  | INVALID_PARAM =>
      Ok (fail g (strncpy "Invalid parameter was set." (ERROR_STR_LEN - 1)))
  end.

(** How the parser of one motor name was left. *)
Record name_scan : Type := mkScan {
  scan_globals : Globals;
  scan_error : Z;
  scan_stop : Z
}.

(** The [for] loop of [state_read_motor_list]. *)
Fixpoint read_name_loop (rest : list ascii) (value_offset offset : nat) (g : Globals)
  (stop : Z) : string * nat * name_scan :=
  match rest with
  | [] => (EmptyString, offset, mkScan g 0 stop)
  | c :: rest' =>
      if isalnum c || Ascii.eqb c "-"%char || Ascii.eqb c "_"%char then
        if (value_offset <? PARAM_MAX_LEN - 1)%nat then
          let '(s, off, r) := read_name_loop rest' (S value_offset) (S offset) g stop in
          (String c s, off, r)
        else
          (EmptyString, offset,
           mkScan (set_err_str g (strncpy ("Value has exceeded max length in "
                                           ++ MOTOR_CONFIG_NAME) (ERROR_STR_LEN - 1)))
                  1 stop)
      else if Ascii.eqb c ","%char then (EmptyString, offset, mkScan g 0 stop)
      else if isblank c || Ascii.eqb c "#"%char || Ascii.eqb c newline then
        (EmptyString, offset, mkScan (set_state g CLEANUP) 0 1)
      else
        (EmptyString, offset,
         mkScan (set_err_str g
                   (snprintf (ERROR_STR_LEN - 1)
                      ("Invalid char (" ++ chr c ++ " [0x" ++ hex2 c
                       ++ "]) at type identifier in " ++ MOTOR_CONFIG_NAME)))
                1 stop)
  end.

(** The setter of [state_read_motor_list]:
    [axis_node->motors[axis_node->count++] = motor_node]. *)
Definition append_motor (g : Globals) (motor_node : nat) : result Globals :=
  let i := axis_list_len g - 1 in
  do axis_node <- entry (axis_list g) i;
  let n := axis_config.count axis_node in
  if n <? MOTOR_LIST_SIZE_MAX then
    Ok (set_axis_list g
          (<[Z.to_nat i := with_axis_motors axis_node (wrap_uint (n + 1))
                             (<[Z.to_nat n := Some motor_node]> (axis_config.motors axis_node))]>
             (axis_list g)))
  else Undefined.

(** The [while] loop of [state_read_motor_list]; every turn but the last
    consumes a comma, so that [fuel] beyond the size of the buffer is
    never used up. *)
Fixpoint read_motor_list_loop (fuel : nat) (line_buff : list ascii) (offset : nat)
  (g : Globals) : result (string * nat * Globals) :=
  match fuel with
  | O => Timeout
  | S fuel' =>
      let '(value_buff, off, r) := read_name_loop (drop offset line_buff) 0 offset g 0 in
      let offset := S off in
      let g := scan_globals r in
      if scan_error r =? 0 then
        if (0 <? String.length value_buff)%nat then
          do motor_node <- get_motor_node_by_name g value_buff;
          match motor_node with
          | Some node =>
              do g <- append_motor g node;
              if scan_stop r =? 0 then read_motor_list_loop fuel' line_buff offset g
              else Ok (value_buff, offset, g)
          | None =>
              Ok (value_buff, offset,
                  fail g (snprintf (ERROR_STR_LEN - 1)
                            ("Motor " ++ value_buff ++ " not found before axis definition in "
                             ++ MOTOR_CONFIG_NAME)))
          end
        else
          Ok (value_buff, offset,
              fail g (snprintf (ERROR_STR_LEN - 1)
                        ("Abrupt end in a motor list in " ++ MOTOR_CONFIG_NAME)))
      else Ok (value_buff, offset, set_state g ERROR)
  end.

Definition state_read_motor_list (line_buff : list ascii) (offset : nat) (g : Globals)
  : result (string * nat * Globals) :=
  read_motor_list_loop (S (S (length line_buff))) line_buff offset g.

(** *** The state machine *)

(** The variables of [motor_config_state_machine], with the file-scope
    variables, the stream, and the lines written to stderr. *)
Record Machine : Type := mkMachine {
  globals : Globals;
  config_file : FILE;
  stop : Z;
  error : Z;
  line_buff : list ascii;
  offset : nat;
  param : string;
  param_size : nat;
  param_id : params;
  value : string;
  value_size : nat;
  last_id : identifiers;
  stderr : list string
}.

(** The body of the [while] loop: the [switch] on the state. *)
Definition step (m : Machine) : result Machine :=
  let g := globals m in
  match motor_config_state g with
  | READ_LINE =>
      let '(buff, file, g) := state_read_line (config_file m) g in
      Ok (mkMachine g file (stop m) (error m) buff (offset m) (param m) (param_size m)
            (param_id m) (value m) (value_size m) (last_id m) (stderr m))
  | READ_PARAM =>
      let '(s, len, off, g) := state_read_param (line_buff m) (offset m) g in
      Ok (mkMachine g (config_file m) (stop m) (error m) (line_buff m) off s len
            (param_id m) (value m) (value_size m) (last_id m) (stderr m))
  | READ_IDENTIFIER =>
      let '(s, len, off, g) := state_read_identifier (line_buff m) (offset m) g in
      Ok (mkMachine g (config_file m) (stop m) (error m) (line_buff m) off s len
            (param_id m) (value m) (value_size m) (last_id m) (stderr m))
  | SET_IDENTIFIER =>
      let '(id, g) := state_set_identifier (param m) g in
      Ok (mkMachine g (config_file m) (stop m) (error m) (line_buff m) (offset m) (param m)
            (param_size m) (param_id m) (value m) (value_size m) id (stderr m))
  | CHECK_PARAM =>
      do (id, g) <- state_check_param (param m) (last_id m) g;
      Ok (mkMachine g (config_file m) (stop m) (error m) (line_buff m) (offset m) (param m)
            (param_size m) id (value m) (value_size m) (last_id m) (stderr m))
  | READ_VALUE =>
      let '(s, len, off, g) := state_read_value (line_buff m) (offset m) g in
      Ok (mkMachine g (config_file m) (stop m) (error m) (line_buff m) off (param m)
            (param_size m) (param_id m) s len (last_id m) (stderr m))
  | SET_PARAM =>
      do g <- state_set_param (param_id m) (value m) g;
      Ok (mkMachine g (config_file m) (stop m) (error m) (line_buff m) (offset m) (param m)
            (param_size m) (param_id m) (value m) (value_size m) (last_id m) (stderr m))
  | READ_MOTOR_LIST =>
      do (s, off, g) <- state_read_motor_list (line_buff m) (offset m) g;
      Ok (mkMachine g (config_file m) (stop m) (error m) (line_buff m) off (param m)
            (param_size m) (param_id m) s (value_size m) (last_id m) (stderr m))
  | FINISHED =>
      Ok (mkMachine g (config_file m) 1 (error m) [] (offset m) (param m) (param_size m)
            (param_id m) (value m) (value_size m) (last_id m) (stderr m))
  | CLEANUP =>
      Ok (mkMachine (set_state (set_err_str g EmptyString) READ_LINE) (config_file m)
            (stop m) (error m) [] 0%nat EmptyString 0%nat (param_id m) EmptyString 0%nat
            (last_id m) (stderr m))
  | ERROR =>
      Ok (mkMachine g (config_file m) 1 1 [] (offset m) (param m) (param_size m)
            (param_id m) (value m) (value_size m) (last_id m)
            (stderr m ++ [err_str g]))
  end.

(** [while(!stop)]. *)
Fixpoint run (fuel : nat) (m : Machine) : result Machine :=
  match fuel with
  | O => Timeout
  | S fuel' =>
      if stop m =? 0 then do m' <- step m; run fuel' m'
      else Ok m
  end.

(** The first [k] turns of the loop. *)
Fixpoint advance (k : nat) (m : Machine) : result Machine :=
  match k with
  | O => Ok m
  | S k' =>
      if stop m =? 0 then do m' <- step m; advance k' m'
      else Ok m
  end.

(** The machine when the loop is entered. *)
Definition start (config_file : FILE) (g : Globals) : Machine :=
  mkMachine (set_state g CLEANUP) config_file 0 0 [] 0%nat EmptyString 0%nat INVALID_PARAM
    EmptyString 0%nat INVALID_TYPE [].

Definition motor_config_state_machine (fuel : nat) (config_file : FILE) (g : Globals)
  : result (Z * Machine) :=
  do m <- run fuel (start config_file g);
  Ok (error m, m).

(** *** Construction of the objects *)

(** First loop of [init_motors]; its value is [retval]. *)
Fixpoint init_motor_nodes (n i : nat) (g : Globals) (w : World)
  : result (Z * Globals * World) :=
  match n with
  | O => Ok (0, g, w)
  | S n' =>
      do node <- array_get (motor_list g) i;
      if validate_motor_node node then
        do (motor, w) <- stepper_init (Some (motor_config.name node))
                           (motor_config.step_pin node) (motor_config.dir_pin node)
                           (motor_config.microstep node) (motor_config.steps_rot node)
                           (motor_config.direction node) w;
        let g := set_motor_list g (<[i := with_motor node motor]> (motor_list g)) in
        match motor with
        | None => Ok (-1, g, w)
        | Some _ => init_motor_nodes n' (S i) g w
        end
      else Ok (-1, g, w)
  end.

(** [motors[j] = axis_node->motors[j]->motor]. *)
Fixpoint axis_node_motors (g : Globals) (axis_node : axis_config.t) (n j : nat)
  : result (list ptr) :=
  match n with
  | O => Ok []
  | S n' =>
      if (j <? Z.to_nat MOTOR_LIST_SIZE_MAX)%nat then
        do p <- array_get (axis_config.motors axis_node) j;
        match p with
        | None => Undefined
        | Some k =>
            do node <- array_get (motor_list g) k;
            do rest <- axis_node_motors g axis_node n' (S j);
            Ok (motor_config.motor node :: rest)
        end
      else Undefined
  end.

(** Second loop of [init_motors].  The local array [motors] is not
    initialised: the handles beyond [count] are whatever the earlier
    turns left there, and [axis_init] does not read them. *)
Fixpoint init_axis_nodes (n i : nat) (g : Globals) (w : World)
  : result (Z * Globals * World) :=
  match n with
  | O => Ok (0, g, w)
  | S n' =>
      do axis_node <- array_get (axis_list g) i;
      if validate_axis_node axis_node then
        do motors <- axis_node_motors g axis_node (Z.to_nat (axis_config.count axis_node)) 0;
        do (axis, w) <- axis_init (Some motors) (axis_config.mm_rot axis_node)
                          (axis_config.count axis_node) w;
        let g := set_axis_list g (<[i := with_axis axis_node axis]> (axis_list g)) in
        match axis with
        | None => Ok (-1, g, w)
        | Some _ => init_axis_nodes n' (S i) g w
        end
      else Ok (-1, g, w)
  end.

Definition init_motors (g : Globals) (w : World) : result (Z * Globals * World) :=
  do (retval, g, w) <- init_motor_nodes (Z.to_nat (motor_list_len g)) 0 g w;
  if retval =? 0 then init_axis_nodes (Z.to_nat (axis_list_len g)) 0 g w
  else Ok (retval, g, w).

(** *** The entry point *)

Definition empty_motor : motor_config.t :=
  motor_config.mk EmptyString 0 0 0 0 DIRECTION_INVALID None.
Definition empty_axis : axis_config.t :=
  axis_config.mk EmptyString 0 0 (replicate (Z.to_nat MOTOR_LIST_SIZE_MAX) None) None.

(** The variables as the program starts. *)
Definition initial_globals : Globals :=
  mkGlobals READ_LINE EmptyString
    (replicate (Z.to_nat MOTOR_LIST_SIZE_MAX) (motor_config.mk EmptyString 0 0 0 0 0 None)) 0
    (replicate (Z.to_nat MOTOR_LIST_SIZE_MAX) empty_axis) 0.

Fixpoint report (lines : list string) (w : World) : World :=
  match lines with
  | [] => w
  | l :: lines' => report lines' (emit w (EvStderr l))
  end.

(** The initialisation of the two lists by [read_motor_config]; their
    lengths are left as they are. *)
Definition clear_lists (g : Globals) : Globals :=
  set_axis_list
    (set_motor_list g (replicate (Z.to_nat MOTOR_LIST_SIZE_MAX) empty_motor))
    (replicate (Z.to_nat MOTOR_LIST_SIZE_MAX) empty_axis).

(** [read_motor_config]; [file] is what [fopen] returned. *)
Definition read_motor_config (fuel : nat) (file : option FILE) (g : Globals) (w : World)
  : result (Z * Globals * World) :=
  match file with
  | None => Ok (-1, g, w)
  | Some config_file =>
      let g := clear_lists g in
      do (error, m) <- motor_config_state_machine fuel config_file g;
      let w := report (stderr m) w in
      if error =? 0 then init_motors (globals m) w
      else Ok (- error, globals m, w)
  end.

(** The file whose text is [s], on a device that does not fail. *)
Definition file_of_string (s : string) : FILE :=
  mkFILE (list_ascii_of_string s) None.

End Config.

(** ** Time.c

    The types are those of the 64-bit Linux targets of the library:
    [long], [time_t] and [unsigned long] have 64 bits, [unsigned int] has
    32.  The constants of Time.h are [unsigned int]; in an operation with
    a [long] they are converted to [long], in one with an [unsigned long]
    to [unsigned long].  The functions read their arguments before they
    write the result, so that the structs are passed and returned by
    value. *)

Module Time.

Definition LONG_MAX : Z := 9223372036854775807.
Definition LONG_MIN : Z := -9223372036854775808.

(** [long] arithmetic: overflow is undefined. *)
Definition checked_long (z : Z) : result Z :=
  if (LONG_MIN <=? z) && (z <=? LONG_MAX) then Ok z else Undefined.

(** [unsigned long] arithmetic wraps modulo 2^64; the conversion of an
    [unsigned long] to [long] is the two's complement one. *)
Definition wrap_ulong (z : Z) : Z := z mod 18446744073709551616.
Definition wrap_long (z : Z) : Z :=
  (z + 9223372036854775808) mod 18446744073709551616 - 9223372036854775808.

Definition NANO_IN_SECOND : Z := 1000000000.
Definition MICRO_IN_SECOND : Z := 1000000.
Definition MILLI_IN_SECOND : Z := 1000.
Definition NANO_IN_MICRO : Z := 1000.
Definition NANO_IN_MILLI : Z := 1000000.

(** [struct timespec]. *)
Record timespec : Type := mkTimespec {
  tv_sec : Z;
  tv_nsec : Z
}.

(** The calls that leave the process: [clock_nanosleep] on the monotonic
    clock, for a relative time. *)
Inductive call : Type :=
| clock_nanosleep (request : timespec).

Definition Delay_ms (ms : Z) : list call :=
  if ms <? 0 then []
  else
    let s := Z.quot ms MILLI_IN_SECOND in
    let ns := Z.rem ms MILLI_IN_SECOND * NANO_IN_MILLI in
    [clock_nanosleep (mkTimespec s ns)].

Definition Delay_us (us : Z) : list call :=
  if us <? 0 then []
  else
    let s := Z.quot us MICRO_IN_SECOND in
    let ns := Z.rem us MICRO_IN_SECOND * NANO_IN_MICRO in
    [clock_nanosleep (mkTimespec s ns)].

Definition Delay_ns (ns : Z) : list call :=
  if ns <? 0 then []
  else
    let s := Z.quot ns NANO_IN_SECOND in
    let ns := Z.rem ns NANO_IN_SECOND in
    [clock_nanosleep (mkTimespec s ns)].

Definition add_time (ta tb : timespec) : result timespec :=
  do ns <- checked_long (tv_nsec ta + tv_nsec tb);
  do s <- checked_long (tv_sec ta + tv_sec tb);
  if NANO_IN_SECOND <? ns then
    do ns <- checked_long (ns - NANO_IN_SECOND);
    do s <- checked_long (s + 1);
    Ok (mkTimespec s ns)
  else Ok (mkTimespec s ns).

Definition sub_time (ta tb : timespec) : result timespec :=
  do sec <- checked_long (tv_sec ta - tv_sec tb);
  do ns <- checked_long (tv_nsec ta - tv_nsec tb);
  if ns <? 0 then
    do ns <- checked_long (ns + NANO_IN_SECOND);
    do sec <- checked_long (sec - 1);
    Ok (mkTimespec sec ns)
  else Ok (mkTimespec sec ns).

(** The two products are computed in [long] and stored in [unsigned
    long] variables; the results are converted back. *)
Definition mul_time (ta : timespec) (b : Z) : result timespec :=
  if b =? 0 then Ok (mkTimespec 0 0)
  else
    do s <- checked_long (tv_sec ta * b);
    let s := wrap_ulong s in
    do ns <- checked_long (tv_nsec ta * b);
    let ns := wrap_ulong ns in
    if NANO_IN_SECOND <? ns then
      let s := wrap_ulong (s + ns / NANO_IN_SECOND) in
      let ns := wrap_ulong (ns - ns mod NANO_IN_SECOND) in
      Ok (mkTimespec (wrap_long s) (wrap_long ns))
    else Ok (mkTimespec (wrap_long s) (wrap_long ns)).

(** The quotient and the remainder of the seconds are those of [long]
    (rounded toward zero); what follows is [unsigned long] arithmetic. *)
Definition div_time (ta : timespec) (b : Z) : timespec :=
  if b =? 0 then mkTimespec (wrap_long 0) (wrap_long 0)
  else
    let s := wrap_ulong (Z.quot (tv_sec ta) b) in
    let ns := wrap_ulong (Z.rem (tv_sec ta) b) in
    let ns := wrap_ulong (wrap_ulong (ns * NANO_IN_SECOND) + wrap_ulong (tv_nsec ta)) in
    let ns := ns / b in
    mkTimespec (wrap_long s) (wrap_long ns).

(** The product is computed in [unsigned int]. *)
Definition microsec_to_timespec (us : Z) : timespec :=
  let ns := wrap_uint (us * NANO_IN_MICRO) in
  if NANO_IN_SECOND <? ns then
    let s := Z.rem ns NANO_IN_SECOND in
    mkTimespec s (ns - s * NANO_IN_SECOND)
  else mkTimespec 0 ns.

End Time.

(** *** The lookups of config.h

    They read the two lists as [read_motor_config] left them. *)

Definition get_motor_by_name (g : Config.Globals) (name : option string) : result ptr :=
  match name with
  | None => Ok None
  | Some s =>
      do node <- Config.get_motor_node_by_name g s;
      match node with
      | Some i =>
          do entry <- array_get (Config.motor_list g) i;
          Ok (Config.motor_config.motor entry)
      | None => Ok None
      end
  end.

Definition get_axis_by_name (g : Config.Globals) (name : option string) : result ptr :=
  match name with
  | None => Ok None
  | Some s =>
      do node <- Config.get_axis_node_by_name g s;
      match node with
      | Some i =>
          do entry <- array_get (Config.axis_list g) i;
          Ok (Config.axis_config.axis entry)
      | None => Ok None
      end
  end.

(** * Specifications *)

(** ** Vocabulary of the statements *)

(** The handles of the first [n] entries of a motor list from [i] on are
    motors of the world. *)
Definition handles_valid (w : World) (ms : list ptr) (i n : nat) : Prop :=
  forall j, (i <= j < i + n)%nat ->
    exists a, ms !! j = Some (Some a) /\ (a < length (steppers w))%nat.

(** The next [n] answers of the oracle are favourable. *)
Definition externals_succeed (w : World) (n : nat) : Prop :=
  forall k, (k < n)%nat -> ext_ok w (ext_calls w + k)%nat = true.

(** A world with two constructed motors, on which a motion of the second
    one was requested. *)
Definition idle_motor (nm : string) (pin : Z) : Stepper :=
  mkStepper pin (pin + 1) None None nm DIRECTION_CLOCKWISE DIRECTION_CLOCKWISE 0 400 0 0 0.

Definition two_motors : World :=
  mkWorld [idle_motor "left" 23; idle_motor "right" 18] [] [] 0 [] (fun _ => true) 0.

Definition right_motor_stepping : World :=
  match stepper_step (Some 1%nat) 1000 two_motors with
  | Ok (_, w) => w
  | _ => two_motors
  end.

(** ** The state of a motion *)

(** The accumulator of motor [a]. *)
Definition steps_of (w : World) (a : nat) : Z :=
  match steppers w !! a with
  | Some m => steps m
  | None => 0
  end.

(** What one pulse adds to the accumulator of a motor. *)
Definition sense (m : Stepper) : Z :=
  if curr_direction m =? pos_direction m then 1 else -1.

(** Every busy motor points to a request that has not been freed. *)
Definition sane (w : World) : Prop :=
  forall a m, steppers w !! a = Some m -> stepper_is_busy m = true ->
    exists r rq, current_req m = Some r /\ requests w !! r = Some (Some rq).

Definition waiting_valid (w : World) (rq : Stepper_req) : Prop :=
  match motor_waiting rq with
  | Some a => (a < length (steppers w))%nat
  | None => True
  end.

(** A request of [n] steps over the distinct motors [ms] was handed to the
    worker of [motor], the first of them, which has not started yet. *)
Definition motion_ready (w : World) (motor : nat) (ms : list nat) (n : Z) : Prop :=
  head ms = Some motor /\ NoDup ms /\
  (forall a, In a ms -> (a < length (steppers w))%nat) /\
  sane w /\
  exists m r rq,
    steppers w !! motor = Some m /\ req_available m <> 0 /\
    stepper_is_busy m = true /\ current_req m = Some r /\
    requests w !! r = Some (Some rq) /\
    count rq = Z.of_nat (length ms) /\ req_steps rq = n /\
    (forall i a, ms !! i = Some a -> motor_list rq !! i = Some (Some a)) /\
    waiting_valid w rq.

(** The threads that call [stepper_stop] during the motion pass handles
    of motors. *)
Definition sched_valid (w : World) (sched : nat -> list ptr) : Prop :=
  forall k a, In (Some a) (sched k) -> (a < length (steppers w))%nat.

(** No stop flag of a motor of [ms] is set when the motion starts, and
    none is set while it lasts. *)
Definition undisturbed (w : World) (ms : list nat) (sched : nat -> list ptr) : Prop :=
  (forall a m, In a ms -> steppers w !! a = Some m -> stop m = 0) /\
  (forall k a, In a ms -> ~ In (Some a) (sched k)).

(** The accumulators of [ms] are at least [n] away from the bounds of
    [int]. *)
Definition within_int (w : World) (ms : list nat) (n : Z) : Prop :=
  forall a, In a ms -> INT_MIN <= steps_of w a - n /\ steps_of w a + n <= INT_MAX.

(** The invariant of the pulse loop of the worker of [motor] on request
    [r] over [ms]: [left] steps remain, motor [a] was stepped [cnt a]
    times from [base a], and in a quiet motion no stop flag is set. *)
Definition pinv (motor r : nat) (ms : list nat) (pins : list Z) (base sg : nat -> Z)
  (len : nat) (quiet : Prop) (w : World) (cnt : nat -> Z) (left : Z) : Prop :=
  length (steppers w) = len /\
  sane w /\
  (exists m, steppers w !! motor = Some m /\ current_req m = Some r /\
             stepper_is_busy m = true) /\
  (exists rq, requests w !! r = Some (Some rq) /\
              count rq = Z.of_nat (length ms) /\ pin_bulk rq = pins /\
              req_steps rq = left /\
              (forall i a, ms !! i = Some a -> motor_list rq !! i = Some (Some a)) /\
              waiting_valid w rq) /\
  (forall a, In a ms ->
     exists m, steppers w !! a = Some m /\ steps m = base a + cnt a * sg a /\
               sense m = sg a /\ (quiet -> stop m = 0)).

Definition sense_of (w : World) (a : nat) : Z :=
  match steppers w !! a with
  | Some m => sense m
  | None => 1
  end.

(** What [k] pulses of half period [pd] on the lines [pins] leave in the
    trace. *)
Fixpoint pulse_train (pins : list Z) (pd : Z) (k : nat) : list Event :=
  match k with
  | O => []
  | S k' =>
      [EvWriteBulk pins 1; EvSleep pd; EvWriteBulk pins 0; EvSleep pd]
        ++ pulse_train pins pd k'
  end.

(** A motion of three steps of both motors was requested. *)
Definition both_motors_requested : World :=
  Eval vm_compute in
    match stepper_step_multiple (Some [Some 0%nat; Some 1%nat]) 3 2 two_motors with
    | Ok (_, w) => w
    | _ => two_motors
    end.

(** The two motors at rest, the stop flag of the second one still set. *)
Definition second_motor_flagged : World :=
  set_steppers two_motors [idle_motor "left" 23; with_stop (idle_motor "right" 18) 1].

Definition flagged_motors_requested : World :=
  Eval vm_compute in
    match stepper_step_multiple (Some [Some 0%nat; Some 1%nat]) 3 2 second_motor_flagged with
    | Ok (_, w) => w
    | _ => two_motors
    end.

(** Nobody calls [stepper_stop]; somebody does during the second pulse. *)
Definition nobody : nat -> list ptr := fun _ => [].
Definition stop_in_second_pulse : nat -> list ptr :=
  fun k => if Nat.eqb k 1 then [Some 1%nat] else [].

(** ** Conversions of the axis layer *)

(** The nearest integer to a [double], halves away from zero, as the
    function [round] of <math.h> gives it. *)
Definition round_SF (x : spec_float) : option Z :=
  match x with
  | S754_zero _ => Some 0
  | S754_finite s m e =>
      let t := if 0 <=? e then Z.pos m * 2 ^ e
               else (2 * Z.pos m + 2 ^ (- e)) / 2 ^ (- e + 1) in
      Some (if s then - t else t)
  | S754_infinity _ => None
  | S754_nan => None
  end.

(** The quotient that [mm_to_steps] converts. *)
Definition steps_quotient (x : Axis) (m0 : Stepper) (mm : float) : float :=
  PrimFloat.div (PrimFloat.mul mm (uint_to_double (microsteps_per_rotation m0)))
                (mm_per_rotation x).

(** The conversion as the specification words it:
    [round (mm * microsteps_per_rotation / mm_per_rotation)]. *)
Definition mm_to_steps_rounded (w : World) (axis : ptr) (mm : float) : result Z :=
  do x <- load_axis w axis;
  do p0 <- array_get (motors x) 0;
  do m0 <- load_stepper w p0;
  match round_SF (Prim2SF (steps_quotient x m0 mm)) with
  | Some v => if (0 <=? v) && (v <=? UINT_MAX) then Ok v else Undefined
  | None => Undefined
  end.

(** A [double] that is zero or positive and finite. *)
Definition nonnegative_SF (x : spec_float) : Prop :=
  match x with
  | S754_zero _ => True
  | S754_finite s _ _ => s = false
  | _ => False
  end.

(** The two motors grouped in an axis of 40 mm per rotation. *)
Definition one_axis : World :=
  Eval vm_compute in
    match axis_init (Some [Some 0%nat; Some 1%nat]) 40 2 two_motors with
    | Ok (_, w) => w
    | _ => two_motors
    end.

(** ** The state of an axis *)




(** The magnitude of a distance, as [axis_move] takes it. *)
Definition magnitude (distance : float) : float :=
  if PrimFloat.ltb distance 0%float then PrimFloat.opp distance else distance.

(** The direction that [stepper_set_direction_rel] drives the line to. *)
Definition rel_target (m : Stepper) (direction : Z) : Z :=
  if direction =? DIRECTION_POSITIVE then pos_direction m else lnot (pos_direction m).

(** ** The configuration file *)

(** The characters of a motor name, and those that end one. *)
Definition name_char (c : ascii) : bool :=
  Config.isalnum c || Ascii.eqb c "-"%char || Ascii.eqb c "_"%char.

Definition is_delim (c : ascii) : bool :=
  Ascii.eqb c ","%char || Config.isblank c || Ascii.eqb c "#"%char
  || Ascii.eqb c Config.newline.

Fixpoint name_chars (s : string) : bool :=
  match s with
  | EmptyString => true
  | String c s' => name_char c && name_chars s'
  end.

(** A motor name as the file can spell it. *)
Definition name_ok (s : string) : Prop :=
  name_chars s = true /\ (0 < String.length s <= 31)%nat.

(** A motor of that name is in the table, that is a [motor] section
    above gave it that name. *)
Definition defined_before (g : Config.Globals) (s : string) : Prop :=
  exists i node, Z.of_nat i < Config.motor_list_len g /\
                 Config.motor_list g !! i = Some node /\
                 Config.motor_config.name node = s.

(** The text of a list of motor names: the [known] ones, each followed by
    a comma, and one more. *)
Fixpoint motor_names_text (known : list string) (last : string) : list ascii :=
  match known with
  | [] => list_ascii_of_string last
  | s :: known' =>
      list_ascii_of_string s ++ ","%char :: motor_names_text known' last
  end.

(** The line that reports the motor [s] as unknown. *)
Definition unknown_motor_line (s : string) : string :=
  Config.snprintf (Config.ERROR_STR_LEN - 1)
    ("Motor " ++ s ++ " not found before axis definition in " ++ Config.MOTOR_CONFIG_NAME).

(** The length of the table of motors is within the array. *)
Definition table_ok (g : Config.Globals) : Prop :=
  0 <= Config.motor_list_len g <= Z.of_nat (length (Config.motor_list g)).

(** How the scan of a name is left at the character [c] that ends it: a
    comma, another delimiter, or a character that is not allowed. *)
Definition after_name (c : ascii) (g : Config.Globals) : Config.name_scan :=
  if Ascii.eqb c ","%char then Config.mkScan g 0 0
  else if Config.isblank c || Ascii.eqb c "#"%char || Ascii.eqb c Config.newline
  then Config.mkScan (Config.set_state g Config.CLEANUP) 0 1
  else
    Config.mkScan
      (Config.set_err_str g
         (Config.snprintf (Config.ERROR_STR_LEN - 1)
            ("Invalid char (" ++ Config.chr c ++ " [0x" ++ Config.hex2 c
             ++ "]) at type identifier in " ++ Config.MOTOR_CONFIG_NAME)))
      1 0.

(** The string has no NUL byte. *)
Fixpoint no_NUL (s : string) : bool :=
  match s with
  | EmptyString => true
  | String c s' => negb (Ascii.eqb c Config.NUL) && no_NUL s'
  end.

(** The text of a file of the given lines. *)
Fixpoint text_of_lines (l : list string) : string :=
  match l with
  | [] => EmptyString
  | s :: l' => (s ++ String Config.newline (text_of_lines l'))%string
  end.

(** A motor [a] followed by an axis that lists the motors [a] and [b]. *)
Definition axis_of_unknown_motor : Config.FILE :=
  Config.file_of_string (text_of_lines ["[motor]"; "name=a"; "[axis]"; "motors=a,b"]%string).

(** The world before anything is constructed. *)
Definition no_objects : World := mkWorld [] [] [] 0 [] (fun _ => true) 0.

(** A section header and a key that have a valid name as a prefix. *)
Definition prefixed_names : Config.FILE :=
  Config.file_of_string (text_of_lines ["[motorx]"; "namefoo=bar"]%string).

(** Nine motor sections; and the same with a name for the ninth. *)
Definition nine_motors : Config.FILE :=
  Config.file_of_string (text_of_lines (replicate 9 "[motor]"%string)).

Definition nine_motors_named : Config.FILE :=
  Config.file_of_string (text_of_lines (replicate 9 "[motor]"%string ++ ["name=m"%string])).

(** What the state machine returns, and the state it stops in. *)
Definition parse (fuel : nat) (file : Config.FILE)
  : result (Z * Config.states * Z * Z * list string) :=
  do (error, m) <- Config.motor_config_state_machine fuel file
                     (Config.clear_lists Config.initial_globals);
  Ok (error, Config.motor_config_state (Config.globals m),
      Config.motor_list_len (Config.globals m), Config.axis_list_len (Config.globals m),
      map Config.motor_config.name (take 1 (Config.motor_list (Config.globals m)))).


Definition latched_axis : Axis :=
  mkAxis [Some 0%nat; Some 1%nat; None; None; None; None; None; None] 2 1 40%float
         0%float 0%float.

(** The motors linked to request [r] point to it, and stay so. *)
Definition linked (w : World) (r x a : nat) : Prop :=
  exists m, steppers w !! a = Some m /\ current_req m = Some r /\ shared_mutex m = Some x.



(** A motor [a] and an axis that lists [a] and an undefined [b] on a last
    line that no newline ends; and the same with a newline and an
    undefined name of 32 characters. *)
Definition axis_of_unknown_motor_unterminated : Config.FILE :=
  Config.file_of_string
    (text_of_lines ["[motor]"; "name=a"; "[axis]"] ++ "motors=a,b")%string.

Definition axis_of_long_unknown_motor : Config.FILE :=
  Config.file_of_string
    (text_of_lines ["[motor]"; "name=a"; "[axis]";
                    "motors=a,bbbbbbbbbbbbbbbbbbbbbbbbbbbbbbbb"]%string).

(** ** Durations *)

(** A [timespec] whose nanoseconds are below one second, and the
    nanoseconds that a [timespec] stands for. *)
Definition normalized (t : Time.timespec) : Prop :=
  0 <= Time.tv_nsec t < Time.NANO_IN_SECOND.

Definition total_ns (t : Time.timespec) : Z :=
  Time.tv_sec t * Time.NANO_IN_SECOND + Time.tv_nsec t.

(** The normalized [timespec] of a number of microseconds. *)
Definition timespec_of_microsec (us : Z) : Time.timespec :=
  Time.mkTimespec (us / Time.MICRO_IN_SECOND)
                  ((us mod Time.MICRO_IN_SECOND) * Time.NANO_IN_MICRO).

(** The seconds of the two operands are far from the bounds of
    [time_t]. *)
Definition seconds_small (t : Time.timespec) : Prop :=
  - 2305843009213693952 <= Time.tv_sec t <= 2305843009213693952.

(** ** The motors of a request *)

(** Motor [a] is in a motion; motor [a] is free for a new command. *)
Definition busy_in (w : World) (a : nat) : Prop :=
  exists m, steppers w !! a = Some m /\ stepper_is_busy m = true.

Definition idle_in (w : World) (a : nat) : Prop :=
  exists m, steppers w !! a = Some m /\ shared_mutex m = None /\ current_req m = None.

(** No stop flag of a motor of [ms] is set. *)
Definition flags_clear (w : World) (ms : list nat) : Prop :=
  forall a m, In a ms -> steppers w !! a = Some m -> stop m = 0.

(** The first call of [stepper_stop] on a motor of [ms] comes during
    pulse [K], on motor [a0]. *)
Definition first_stop (sched : nat -> list ptr) (ms : list nat) (K a0 : nat) : Prop :=
  (forall k a, (k < K)%nat -> In a ms -> ~ In (Some a) (sched k)) /\
  In a0 ms /\ In (Some a0) (sched K).

(** What a step of the worker or a call of another thread keeps of every
    motor: the object stays, with its link to the request. *)
Definition links_kept (w w' : World) : Prop :=
  forall a m, steppers w !! a = Some m ->
    exists m', steppers w' !! a = Some m' /\ shared_mutex m' = shared_mutex m /\
               current_req m' = current_req m.

(** The two motors on a board that grants the memory of a request and
    refuses its lines; and what a request of both motors leaves there. *)
Definition lines_refused : World :=
  mkWorld [idle_motor "left" 23; idle_motor "right" 18] [] [] 0 [] (fun k => Nat.eqb k 0) 0.

Definition lines_refused_after : World :=
  Eval vm_compute in
    match stepper_step_multiple (Some [Some 0%nat; Some 1%nat]) 50 2 lines_refused with
    | Ok (_, w) => w
    | _ => lines_refused
    end.

(** A third motor constructed beside the two. *)
Definition third_motor_added : World :=
  Eval vm_compute in
    match stepper_init (Some "third"%string) 12 13 16 200 DIRECTION_CLOCKWISE two_motors with
    | Ok (_, w) => w
    | _ => two_motors
    end.

(** ** What a rejected command of the axis layer may have changed *)

(** From [w] to [w'] nothing has changed but current directions of
    motors and direction latches of axes: no request was made or freed,
    and every accumulator, speed and link is what it was. *)
Definition only_directions_changed (w w' : World) : Prop :=
  requests w' = requests w /\
  length (steppers w') = length (steppers w) /\
  (forall a m, steppers w !! a = Some m ->
     exists d, steppers w' !! a = Some (with_curr_direction m d)) /\
  length (axes w') = length (axes w) /\
  (forall a x, axes w !! a = Some x -> exists r, axes w' !! a = Some (with_reset_dir x r)).

(** The axis after a move of -1/16 mm, which is less than a microstep,
    was asked for; and after a move of -1 mm was. *)
Definition short_move_rejected : World :=
  Eval vm_compute in
    match axis_move (Some 0%nat) (-0.0625)%float one_axis with
    | Ok (_, w) => w
    | _ => one_axis
    end.

Definition negative_move_requested : World :=
  Eval vm_compute in
    match axis_move (Some 0%nat) (-1)%float one_axis with
    | Ok (_, w) => w
    | _ => one_axis
    end.

(** The axis after its speed was set to 10 mm per second. *)
Definition speed_set : World :=
  Eval vm_compute in
    match axis_set_speed (Some 0%nat) 10%float one_axis with
    | Ok (_, w) => w
    | _ => one_axis
    end.

(** ** The tables of the configuration *)

(** The first of the entries [l] whose name is [s]. *)
Definition first_motor_named (s : string) (l : list Config.motor_config.t)
  : option Config.motor_config.t :=
  List.find (fun node => String.eqb (Config.motor_config.name node) s) l.

Definition first_axis_named (s : string) (l : list Config.axis_config.t)
  : option Config.axis_config.t :=
  List.find (fun node => String.eqb (Config.axis_config.name node) s) l.

(** A configuration of one motor and two axes, and what
    [read_motor_config] makes of it on an empty board. *)
Definition one_motor_two_axes : Config.FILE :=
  Config.file_of_string
    (text_of_lines ["[motor]"; "name=a"; "step_pin=12"; "dir_pin=13";
                    "steps_per_rotation=200"; "direction=clockwise"; "microstep=16";
                    "[axis]"; "name=x"; "motors=a"; "mm_per_rotation=40";
                    "[axis]"; "name=y"; "motors=a"; "mm_per_rotation=40"]%string).

Definition configured : Z * Config.Globals * World :=
  Eval vm_compute in
    match Config.read_motor_config 200 (Some one_motor_two_axes) Config.initial_globals
            no_objects with
    | Ok r => r
    | _ => (-1, Config.initial_globals, no_objects)
    end.

Definition configured_globals : Config.Globals := snd (fst configured).
Definition configured_world : World := snd configured.

(** The same file read a second time. *)
Definition configured_again : Z * Config.Globals * World :=
  Eval vm_compute in
    match Config.read_motor_config 200 (Some one_motor_two_axes) configured_globals
            configured_world with
    | Ok r => r
    | _ => (0, configured_globals, configured_world)
    end.

(** The motor [m] is what [stepper_init] makes of the entry [node]. *)
Definition built_from (node : Config.motor_config.t) (m : Stepper) : Prop :=
  name m = strncpy (Config.motor_config.name node) (MOTOR_NAME_LEN - 1) /\
  step_pin m = Config.motor_config.step_pin node /\
  dir_pin m = Config.motor_config.dir_pin node /\
  pos_direction m = Config.motor_config.direction node /\
  microsteps_per_rotation m
    = wrap_uint (Config.motor_config.microstep node * Config.motor_config.steps_rot node) /\
  steps m = 0 /\ shared_mutex m = None.

(** The axis [x] is what [axis_init] makes of the entry [node], with the
    motors of the entries of [table] that the entry lists. *)
Definition axis_built_from (table : list Config.motor_config.t) (node : Config.axis_config.t)
  (x : Axis) : Prop :=
  num_motors x = Config.axis_config.count node /\
  mm_per_rotation x = uint_to_double (Config.axis_config.mm_rot node) /\
  forall k, (k < Z.to_nat (Config.axis_config.count node))%nat ->
    exists i entry h,
      Config.axis_config.motors node !! k = Some (Some i) /\
      table !! i = Some entry /\ Config.motor_config.motor entry = Some h /\
      motors x !! k = Some (Some h).

(** The states in which the parser holds a parameter that it has checked
    and not yet set. *)
Definition value_state (s : Config.states) : bool :=
  match s with
  | Config.READ_VALUE | Config.SET_PARAM => true
  | _ => false
  end.

Definition motor_param (p : Config.params) : bool :=
  match p with
  | Config.MOTOR_NAME | Config.STEP_PIN | Config.DIR_PIN | Config.STEPS_ROT
  | Config.DIRECTION | Config.MICROSTEP => true
  | _ => false
  end.

(** The first entry of the motors is not a configured one. *)
Definition first_entry_blank (g : Config.Globals) : Prop :=
  exists e, Config.motor_list g !! 0%nat = Some e /\ Config.validate_motor_node e = false.

(** What holds of the parser in every turn of its loop when it was
    started with a count of motors that is not zero: the sections of the
    file are counted from there, so that the first entry is never
    written. *)
Definition first_entry_skipped (m : Config.Machine) : Prop :=
  first_entry_blank (Config.globals m) /\
  1 <= Config.motor_list_len (Config.globals m) /\
  (Config.last_id m = Config.MOTOR -> 2 <= Config.motor_list_len (Config.globals m)) /\
  (value_state (Config.motor_config_state (Config.globals m)) = true ->
   motor_param (Config.param_id m) = true -> Config.last_id m = Config.MOTOR) /\
  (Config.error m = 0 \/ Config.error m = 1).

(** The motors of the table are the same in [g] and [g']. *)
Definition same_motors (g g' : Config.Globals) : Prop :=
  Config.motor_list g' = Config.motor_list g /\
  Config.motor_list_len g' = Config.motor_list_len g.

(** The states in which the parser reads the line buffer at the cursor,
    or is about to. *)
Definition scanning (s : Config.states) : bool :=
  match s with
  | Config.READ_PARAM | Config.CHECK_PARAM | Config.READ_IDENTIFIER | Config.READ_VALUE
  | Config.READ_MOTOR_LIST => true
  | _ => false
  end.

(** The number of turns that a state is away from the end of its line,
    at most. *)
Definition rank (s : Config.states) : nat :=
  match s with
  | Config.FINISHED | Config.ERROR => 1
  | Config.READ_LINE => 2
  | Config.CLEANUP => 3
  | Config.SET_PARAM | Config.SET_IDENTIFIER => 4
  | Config.READ_VALUE | Config.READ_MOTOR_LIST | Config.READ_IDENTIFIER => 5
  | Config.CHECK_PARAM => 6
  | Config.READ_PARAM => 7
  end.

(** A bound of the turns that the loop of the parser still takes. *)
Definition turns_left (m : Config.Machine) : nat :=
  8 * length (Config.content (Config.config_file m))
  + rank (Config.motor_config_state (Config.globals m)).

(** The cursor is at the start of a line that is not read yet, and in
    front of the NUL of a line that is being read. *)
Definition line_open (m : Config.Machine) : Prop :=
  (Config.motor_config_state (Config.globals m) = Config.READ_LINE -> Config.offset m = 0%nat) /\
  (scanning (Config.motor_config_state (Config.globals m)) = true ->
   In Config.NUL (drop (Config.offset m) (Config.line_buff m))).

(** The characters of a parameter name, and those at which
    [state_read_param] gives the line up. *)
Definition word_char (c : ascii) : bool := Config.islower c || Ascii.eqb c "_"%char.

Definition skip_char (c : ascii) : bool :=
  Ascii.eqb c "#"%char || Config.isblank c || Ascii.eqb c Config.newline.

(** The parser is about to read a line that the device delivers. *)
Definition at_line_start (m : Config.Machine) : Prop :=
  Config.motor_config_state (Config.globals m) = Config.READ_LINE /\
  Config.stop m = 0 /\ Config.offset m = 0%nat /\
  Config.readable (Config.config_file m) <> Some 0%nat.

(** The machine [m] at the start of the line after the next, [rest]
    being what follows that line in the file, when the line between has
    changed nothing. *)
Definition next_line (m : Config.Machine) (rest : list ascii) : Config.Machine :=
  Config.mkMachine
    (Config.set_state (Config.set_err_str (Config.globals m) EmptyString) Config.READ_LINE)
    (Config.mkFILE rest (pred <$> Config.readable (Config.config_file m)))
    (Config.stop m) (Config.error m) [] 0%nat EmptyString 0%nat (Config.param_id m)
    EmptyString 0%nat (Config.last_id m) (Config.stderr m).

(** A machine that has read [motor] and is at the line [name = m1]. *)
Definition at_spaced_assignment : Config.Machine :=
  Config.mkMachine
    (Config.set_state (Config.set_motor_list_len Config.initial_globals 1) Config.READ_LINE)
    (Config.file_of_string (text_of_lines ["name = m1"; "step_pin=12"]%string))
    0 0 [] 0%nat EmptyString 0%nat Config.INVALID_PARAM EmptyString 0%nat Config.MOTOR [].

(** A machine that has read [motor] and is at a last line [name=m1]
    that no newline ends. *)
Definition at_unterminated_line : Config.Machine :=
  Config.mkMachine
    (Config.set_state (Config.set_motor_list_len Config.initial_globals 1) Config.READ_LINE)
    (Config.file_of_string "name=m1")
    0 0 [] 0%nat EmptyString 0%nat Config.INVALID_PARAM EmptyString 0%nat Config.MOTOR [].

(** Every motor of [w] is in [w'], with the current direction that it
    has in [w]. *)
Definition directions_kept (w w' : World) : Prop :=
  forall b m, steppers w !! b = Some m ->
    exists m', steppers w' !! b = Some m' /\ curr_direction m' = curr_direction m.

(** The variables of the parser after a motor [a] and the header of an
    axis. *)
Definition axis_opened : Config.Globals :=
  Eval vm_compute in
    match Config.motor_config_state_machine 200
            (Config.file_of_string (text_of_lines ["[motor]"; "name=a"; "[axis]"]%string))
            (Config.clear_lists Config.initial_globals) with
    | Ok (_, m) => Config.globals m
    | _ => Config.initial_globals
    end.

(** The text of a list that names the motor [a] nine times, as the line
    buffer holds it behind the key. *)
Definition nine_names : list ascii :=
  motor_names_text (replicate 8 "a"%string) "a" ++ [Config.newline; Config.NUL].

(** * Properties *)

(** ** The outcome monad *)

Lemma bind_Ok {A B : Type} (r : result A) (k : A -> result B) (b : B) :
  bind r k = Ok b -> exists a, r = Ok a /\ k a = Ok b.
Proof. destruct r; simpl; intros H; try discriminate. eauto. Qed.

Lemma array_get_Ok {A : Type} (l : list A) (i : nat) (x : A) :
  array_get l i = Ok x <-> l !! i = Some x.
Proof.
  unfold array_get. destruct (l !! i); split; intros H; try discriminate; congruence.
Qed.

Lemma array_get_Some {A : Type} (l : list A) (i : nat) (x : A) :
  l !! i = Some x -> array_get l i = Ok x.
Proof. apply array_get_Ok. Qed.

Lemma load_stepper_Some (w : World) (a : nat) (m : Stepper) :
  steppers w !! a = Some m -> load_stepper w (Some a) = Ok m.
Proof. intros H. unfold load_stepper. rewrite H. reflexivity. Qed.

Lemma load_stepper_Ok (w : World) (p : ptr) (m : Stepper) :
  load_stepper w p = Ok m <-> exists a, p = Some a /\ steppers w !! a = Some m.
Proof.
  unfold load_stepper. destruct p as [a|].
  - destruct (steppers w !! a) eqn:E; split.
    + intros [= ->]. eauto.
    + intros (a' & [= <-] & H). congruence.
    + discriminate.
    + intros (a' & [= <-] & H). congruence.
  - split; [discriminate | intros (a & H & _); discriminate].
Qed.

Lemma load_req_Ok (w : World) (p : ptr) (rq : Stepper_req) :
  load_req w p = Ok rq <-> exists r, p = Some r /\ requests w !! r = Some (Some rq).
Proof.
  unfold load_req. destruct p as [r|].
  - destruct (requests w !! r) as [[x|]|] eqn:E; split;
      try discriminate; try (intros (r' & [= <-] & H); congruence).
    intros [= ->]. eauto.
  - split; [discriminate | intros (r & H & _); discriminate].
Qed.

(** Inversion of a successful monadic computation, one binding at a time. *)
Ltac ok_inv H :=
  let x := fresh "x" in
  let Hx := fresh "Hx" in
  apply bind_Ok in H; destruct H as (x & Hx & H).

(** ** Speed *)

Section SetSpeed.

Variables (ms : list ptr) (pps : Z).

(** A motor that has the new half period keeps it through the loop. *)
Lemma set_speed_loop_keeps (n i : nat) (w w' : World) (rv : Z) (a : nat) :
  set_speed_loop ms pps n i w = Ok (rv, w') ->
  (exists m, steppers w !! a = Some m /\ half_period m = 500000 / pps) ->
  exists m, steppers w' !! a = Some m /\ half_period m = 500000 / pps.
Proof.
  revert i w. induction n as [|n IH]; intros i w H Hm; simpl in H.
  - injection H as <- <-. exact Hm.
  - ok_inv H. ok_inv H. rename x into p, x0 into m.
    destruct (stepper_is_busy m).
    + injection H as <- <-. exact Hm.
    + destruct p as [b|]; [|injection H as <- <-; exact Hm].
      apply IH in H; [exact H|].
      destruct Hm as (ma & Ha & Hh). simpl.
      destruct (decide (b = a)) as [->|Hne].
      * exists (with_half_period m (500000 / pps)). split; [|reflexivity].
        apply list_lookup_insert_eq. eapply lookup_lt_Some; eauto.
      * exists ma. split; [|exact Hh]. rewrite list_lookup_insert_ne; auto.
Qed.

(** When the loop leaves with 0, every motor it went over has the new
    half period. *)
Lemma set_speed_loop_sets (n i : nat) (w w' : World) :
  set_speed_loop ms pps n i w = Ok (0, w') ->
  forall j, (i <= j < i + n)%nat ->
    exists a m, ms !! j = Some (Some a) /\ steppers w' !! a = Some m /\
                half_period m = 500000 / pps.
Proof.
  revert i w. induction n as [|n IH]; intros i w H j Hj; [lia|].
  simpl in H. ok_inv H. ok_inv H. rename x into p, x0 into m.
  destruct (stepper_is_busy m); [discriminate|].
  apply array_get_Ok in Hx. apply load_stepper_Ok in Hx0.
  destruct Hx0 as (a & -> & Ha).
  destruct (decide (j = i)) as [->|Hne].
  - exists a.
    destruct (set_speed_loop_keeps _ _ _ _ _ a H) as (m' & Hm' & Hh).
    + exists (with_half_period m (500000 / pps)). split; [|reflexivity].
      simpl. apply list_lookup_insert_eq. eapply lookup_lt_Some; eauto.
    + eauto.
  - eapply IH; [exact H | lia].
Qed.

End SetSpeed.

(** C4.  A call of [stepper_set_speed_multiple] with [pps > 0] that returns
    0 leaves every motor of the list, that is each of its first [cnt]
    entries, with a half period of [500000 / min (pps, 4160)]
    microseconds, the division being that of integers. *)
Theorem set_speed_multiple_half_period (ms : list ptr) (pps cnt : Z) (w w' : World) :
  0 < pps ->
  stepper_set_speed_multiple (Some ms) pps cnt w = Ok (0, w') ->
  forall i, (i < Z.to_nat cnt)%nat ->
    exists a m, ms !! i = Some (Some a) /\ steppers w' !! a = Some m /\
                half_period m = 500000 / Z.min pps 4160.
Proof.
  intros Hpps H i Hi. unfold stepper_set_speed_multiple in H.
  destruct (pps =? 0); [discriminate|].
  destruct ((cnt =? 0) || (MOTOR_LIST_SIZE_MAX <? cnt)); [discriminate|].
  unfold MAX_PPS in H.
  replace (Z.min pps 4160) with (if 4160 <? pps then 4160 else pps)
    by (destruct (Z.ltb_spec 4160 pps); lia).
  eapply set_speed_loop_sets; [exact H | lia].
Qed.


Lemma set_speed_multiple_half_period_witness :
  exists a m, [Some 0%nat; Some 1%nat] !! 1%nat = Some (Some a) /\
              steppers (set_steppers two_motors
                          [with_half_period (idle_motor "left" 23) 120;
                           with_half_period (idle_motor "right" 18) 120]) !! a = Some m /\
              half_period m = 500000 / Z.min 5000 4160.
Proof.
  refine (set_speed_multiple_half_period [Some 0%nat; Some 1%nat] 5000 2 two_motors _ _ _ 1%nat _).
  - lia.
  - reflexivity.
  - simpl. lia.
Defined.

(** C2.  The failing input: on the list of an idle motor followed by a
    busy one, [stepper_set_speed_multiple] returns -1 and has by then
    given the idle motor the new half period. *)
Theorem set_speed_multiple_busy_partial_update :
  (exists m, steppers right_motor_stepping !! 1%nat = Some m /\ stepper_is_busy m = true) /\
  (exists m, steppers right_motor_stepping !! 0%nat = Some m /\ half_period m = 0) /\
  exists w',
    stepper_set_speed_multiple (Some [Some 0%nat; Some 1%nat]) 100 2 right_motor_stepping
      = Ok (-1, w') /\
    exists m, steppers w' !! 0%nat = Some m /\ half_period m = 5000.
Proof.
  split; [|split].
  - eexists. split; reflexivity.
  - eexists. split; reflexivity.
  - eexists. split; [reflexivity|]. eexists. split; reflexivity.
Qed.

(** ** Requests *)


Lemma handles_valid_step (w : World) (ms : list ptr) (i n : nat) :
  handles_valid w ms i (S n) ->
  (exists a, ms !! i = Some (Some a) /\ (a < length (steppers w))%nat) /\
  handles_valid w ms (S i) n.
Proof.
  intros H. split; [apply H; lia|]. intros j Hj. apply H. lia.
Qed.

Lemma request_motors_valid_true (w : World) (ms : list ptr) (n i : nat) :
  handles_valid w ms i n -> request_motors_valid ms n i = Ok true.
Proof.
  revert i. induction n as [|n IH]; intros i H; [reflexivity|].
  apply handles_valid_step in H. destruct H as ((a & Ha & _) & H).
  cbn [request_motors_valid]. rewrite (array_get_Some _ _ _ Ha). cbn [bind]. auto.
Qed.

Lemma request_step_pins_defined (w : World) (ms : list ptr) (n i : nat) :
  handles_valid w ms i n -> exists pins, request_step_pins ms n i w = Ok pins.
Proof.
  revert i. induction n as [|n IH]; intros i H; [simpl; eauto|].
  apply handles_valid_step in H. destruct H as ((a & Ha & Hlt) & H).
  destruct (IH _ H) as (pins & Hp).
  destruct (lookup_lt_is_Some_2 _ _ Hlt) as (m & Hm).
  cbn [request_step_pins]. rewrite (array_get_Some _ _ _ Ha). cbn [bind].
  rewrite (load_stepper_Some _ _ _ Hm). cbn [bind]. rewrite Hp. cbn [bind]. eauto.
Qed.

Lemma request_link_defined (ms : list ptr) (r x : nat) (n i : nat) (w : World) :
  handles_valid w ms i n ->
  exists w', request_link ms n i r x w = Ok w' /\
             requests w' = requests w /\ trace w' = trace w /\
             length (steppers w') = length (steppers w).
Proof.
  revert i w. induction n as [|n IH]; intros i w H; [simpl; eauto|].
  apply handles_valid_step in H. destruct H as ((a & Ha & Hlt) & H).
  destruct (lookup_lt_is_Some_2 _ _ Hlt) as (m & Hm).
  cbn [request_link]. rewrite (array_get_Some _ _ _ Ha). cbn [bind].
  rewrite (load_stepper_Some _ _ _ Hm). cbn [bind].
  destruct (IH (S i) (store_stepper w a
              (with_shared_mutex (with_current_req m (Some r)) (Some x)))) as (w' & Hw' & Hr & Ht & Hl).
  - intros j Hj. destruct (H j Hj) as (b & Hb & Hlb). exists b. split; [exact Hb|].
    simpl. rewrite length_insert. exact Hlb.
  - exists w'. split; [exact Hw'|]. rewrite Hr, Ht, Hl. simpl.
    rewrite length_insert. auto.
Qed.


(** C3.  Whenever the first motor of the list is busy,
    [stepper_step_multiple] returns -1 and leaves the world as it was:
    no request is created.  The busy check reads the first motor only:
    when that motor is idle, the arguments are valid and the system
    grants the resources, the request is created and 0 is returned,
    whether or not the other motors of the list are busy. *)
Theorem step_multiple_checks_first_motor_only
  (ms : list ptr) (n_steps cnt : Z) (w : World) (a0 : nat) (m0 : Stepper) :
  ms !! 0%nat = Some (Some a0) ->
  steppers w !! a0 = Some m0 ->
  (stepper_is_busy m0 = true ->
   stepper_step_multiple (Some ms) n_steps cnt w = Ok (-1, w)) /\
  (stepper_is_busy m0 = false ->
   n_steps <> 0 -> 1 <= cnt <= MOTOR_LIST_SIZE_MAX ->
   handles_valid w ms 0 (Z.to_nat cnt) ->
   externals_succeed w 4 ->
   exists w' request,
     stepper_step_multiple (Some ms) n_steps cnt w = Ok (0, w') /\
     requests w' = requests w ++ [Some request] /\
     req_steps request = n_steps /\ count request = cnt).
Proof.
  intros H0 Hm0. split.
  - intros Hbusy. unfold stepper_step_multiple.
    destruct (n_steps =? 0); [reflexivity|].
    destruct ((cnt =? 0) || (MOTOR_LIST_SIZE_MAX <? cnt)); [reflexivity|].
    rewrite (array_get_Some _ _ _ H0). cbn [bind].
    rewrite (load_stepper_Some _ _ _ Hm0). cbn [bind]. rewrite Hbusy. reflexivity.
  - intros Hidle Hn Hcnt Hvalid Hext.
    unfold stepper_step_multiple. unfold MOTOR_LIST_SIZE_MAX in *.
    destruct (Z.eqb_spec n_steps 0) as [|_]; [contradiction|].
    destruct (Z.eqb_spec cnt 0) as [|_]; [lia|].
    destruct (Z.ltb_spec 8 cnt) as [|_]; [lia|]. cbn [orb].
    rewrite (array_get_Some _ _ _ H0). cbn [bind].
    rewrite (load_stepper_Some _ _ _ Hm0). cbn [bind]. rewrite Hidle.
    replace (wrap_uint cnt) with cnt by (unfold wrap_uint; rewrite Z.mod_small; lia).
    unfold stepper_create_new_request, external. simpl.
    pose proof (Hext 0%nat ltac:(lia)) as E0. rewrite Nat.add_0_r in E0.
    pose proof (Hext 1%nat ltac:(lia)) as E1. rewrite Nat.add_1_r in E1.
    pose proof (Hext 2%nat ltac:(lia)) as E2.
    replace (ext_calls w + 2)%nat with (S (S (ext_calls w))) in E2 by lia.
    pose proof (Hext 3%nat ltac:(lia)) as E3.
    replace (ext_calls w + 3)%nat with (S (S (S (ext_calls w)))) in E3 by lia.
    rewrite E0. simpl.
    rewrite (request_motors_valid_true w) by exact Hvalid. simpl.
    match goal with
    | |- context [request_step_pins ms ?n 0 ?w1] =>
        destruct (request_step_pins_defined w1 ms n 0) as (pins & Hpins);
          [exact Hvalid|]
    end.
    rewrite Hpins. simpl. rewrite E1. simpl. rewrite E2. simpl. rewrite E3. simpl.
    match goal with
    | |- context [request_link ms ?n 0 ?r ?x ?w1] =>
        destruct (request_link_defined ms r x n 0 w1) as (w2 & Hw2 & Hr2 & Ht2 & Hl2);
          [exact Hvalid|]
    end.
    rewrite Hw2. simpl.
    assert (exists m, steppers w2 !! a0 = Some m) as (m & Hm).
    { apply lookup_lt_is_Some_2. rewrite Hl2. simpl. eapply lookup_lt_Some; eauto. }
    rewrite Hm. simpl. eexists _, _. split; [reflexivity|].
    simpl. rewrite Hr2. simpl. split; [reflexivity|]. split; reflexivity.
Qed.

Lemma step_multiple_checks_first_motor_only_witness :
  (stepper_is_busy (idle_motor "left" 23) = true ->
   stepper_step_multiple (Some [Some 0%nat; Some 1%nat]) 50 2 right_motor_stepping
     = Ok (-1, right_motor_stepping)) /\
  (stepper_is_busy (idle_motor "left" 23) = false ->
   50 <> 0 -> 1 <= 2 <= MOTOR_LIST_SIZE_MAX ->
   handles_valid right_motor_stepping [Some 0%nat; Some 1%nat] 0 (Z.to_nat 2) ->
   externals_succeed right_motor_stepping 4 ->
   exists w' request,
     stepper_step_multiple (Some [Some 0%nat; Some 1%nat]) 50 2 right_motor_stepping
       = Ok (0, w') /\
     requests w' = requests right_motor_stepping ++ [Some request] /\
     req_steps request = 50 /\ count request = 2).
Proof.
  apply (step_multiple_checks_first_motor_only
           [Some 0%nat; Some 1%nat] 50 2 right_motor_stepping 0%nat (idle_motor "left" 23));
    reflexivity.
Defined.

(** ** The pulse loop *)

Lemma load_req_Some (w : World) (r : nat) (rq : Stepper_req) :
  requests w !! r = Some (Some rq) -> load_req w (Some r) = Ok rq.
Proof. intros H. unfold load_req. rewrite H. reflexivity. Qed.

Section PulseInvariant.

Variables (motor r : nat) (ms : list nat) (pins : list Z) (base sg : nat -> Z).
Variables (len : nat) (quiet : Prop).

Local Abbreviation inv := (pinv motor r ms pins base sg len quiet).

Lemma pinv_ext (w : World) (cnt cnt' : nat -> Z) (left : Z) :
  (forall a, In a ms -> cnt' a = cnt a) -> inv w cnt left -> inv w cnt' left.
Proof.
  intros He (Hl & Hs & Hm & Hr & Hp). repeat split; auto.
  intros a Ha. destruct (Hp a Ha) as (m & H1 & H2 & H3 & H4).
  exists m. rewrite (He a Ha). auto.
Qed.

(** A store to a motor that keeps its pointers and its sense. *)
Lemma pinv_store_stepper (w : World) (cnt cnt' : nat -> Z) (left : Z)
  (a : nat) (m m' : Stepper) :
  steppers w !! a = Some m ->
  current_req m' = current_req m -> shared_mutex m' = shared_mutex m ->
  sense m' = sense m ->
  (quiet -> In a ms -> stop m' = 0) ->
  (In a ms -> steps m' = base a + cnt' a * sg a) ->
  (forall b, b <> a -> cnt' b = cnt b) ->
  inv w cnt left -> inv (store_stepper w a m') cnt' left.
Proof.
  intros Ha Hreq Hmx Hsense Hstop Hsteps Hcnt (Hl & Hs & Hm & Hr & Hp).
  assert (a < length (steppers w))%nat as Hlt by (eapply lookup_lt_Some; eauto).
  assert (forall b x, steppers (store_stepper w a m') !! b = Some x ->
            exists y, steppers w !! b = Some y /\ current_req x = current_req y /\
                      shared_mutex x = shared_mutex y) as Hback.
  { intros b x Hb. cbn in Hb. destruct (decide (a = b)) as [<-|Hne].
    - rewrite list_lookup_insert_eq in Hb by exact Hlt.
      injection Hb as <-. eauto.
    - rewrite list_lookup_insert_ne in Hb by exact Hne. eauto. }
  split; [cbn; rewrite length_insert; exact Hl|].
  split.
  { intros b x Hb Hbusy. destruct (Hback b x Hb) as (y & Hy & E1 & E2).
    destruct (Hs b y Hy) as (r' & rq' & H1 & H2).
    - unfold stepper_is_busy in *. rewrite <- E2. exact Hbusy.
    - exists r', rq'. rewrite E1. auto. }
  split.
  { destruct Hm as (x & Hx & Hx1 & Hx2). destruct (decide (a = motor)) as [->|Hne].
    - exists m'. cbn. rewrite list_lookup_insert_eq by exact Hlt.
      assert (x = m) as -> by congruence.
      unfold stepper_is_busy in *. rewrite Hreq, Hmx. auto.
    - exists x. cbn. rewrite list_lookup_insert_ne by exact Hne. auto. }
  split.
  { destruct Hr as (rq & H1 & H2 & H3 & H4 & H5 & H6). exists rq.
    repeat split; auto. unfold waiting_valid in *. cbn. rewrite length_insert. exact H6. }
  intros b Hb. destruct (decide (a = b)) as [<-|Hne].
  - exists m'. cbn. rewrite list_lookup_insert_eq by exact Hlt.
    destruct (Hp a Hb) as (x & Hx & _ & Hx2 & _).
    assert (x = m) as -> by congruence.
    repeat split; auto. congruence.
  - destruct (Hp b Hb) as (x & Hx & Hx1 & Hx2 & Hx3). exists x. cbn.
    rewrite list_lookup_insert_ne by exact Hne. rewrite (Hcnt b) by congruence. auto.
Qed.

(** A store to a live request that keeps its list, count and lines. *)
Lemma pinv_store_req (w : World) (cnt : nat -> Z) (left left' : Z)
  (r' : nat) (rq rq' : Stepper_req) :
  requests w !! r' = Some (Some rq) ->
  motor_list rq' = motor_list rq -> count rq' = count rq -> pin_bulk rq' = pin_bulk rq ->
  waiting_valid w rq' ->
  (r' = r -> req_steps rq' = left') -> (r' <> r -> left' = left) ->
  inv w cnt left -> inv (store_req w r' rq') cnt left'.
Proof.
  intros Hr' Hml Hc Hpb Hwv Heq Hne (Hl & Hs & Hm & Hr & Hp).
  assert (r' < length (requests w))%nat as Hlt by (eapply lookup_lt_Some; eauto).
  split; [exact Hl|]. split.
  { intros b x Hb Hbusy. destruct (Hs b x Hb Hbusy) as (r2 & rq2 & H1 & H2).
    destruct (decide (r' = r2)) as [<-|Hn].
    - exists r', rq'. cbn. rewrite list_lookup_insert_eq by exact Hlt. auto.
    - exists r2, rq2. cbn. rewrite list_lookup_insert_ne by exact Hn. auto. }
  split; [exact Hm|]. split; [|exact Hp].
  destruct Hr as (rq0 & H1 & H2 & H3 & H4 & H5 & H6).
  destruct (decide (r' = r)) as [->|Hn].
  - exists rq'. cbn. rewrite list_lookup_insert_eq by exact Hlt.
    assert (rq0 = rq) as -> by congruence.
    rewrite Hml, Hc, Hpb. repeat split; auto.
  - exists rq0. cbn. rewrite list_lookup_insert_ne by exact Hn.
    rewrite (Hne Hn). repeat split; auto.
Qed.

Lemma pinv_req_steps (w : World) (cnt : nat -> Z) (left : Z) (rq : Stepper_req) :
  inv w cnt left -> requests w !! r = Some (Some rq) -> req_steps rq = left.
Proof.
  intros (_ & _ & _ & (rq0 & H1 & _ & _ & H4 & _) & _) H. congruence.
Qed.

Lemma stepper_wait_pinv (w : World) (cnt : nat -> Z) (left : Z) (a : nat) :
  inv w cnt left -> (a < len)%nat ->
  exists w', stepper_wait (Some a) w = Ok w' /\ inv w' cnt left /\ trace w' = trace w.
Proof.
  intros Hinv Ha. pose proof Hinv as (Hl & Hs & _).
  destruct (lookup_lt_is_Some_2 (steppers w) a) as (m & Hm); [lia|].
  unfold stepper_wait. rewrite (load_stepper_Some _ _ _ Hm). cbn [bind].
  destruct (shared_mutex m) as [x|] eqn:Hx; [|eauto].
  destruct (Hs a m Hm) as (r' & rq' & H1 & H2).
  { unfold stepper_is_busy. rewrite Hx. reflexivity. }
  rewrite H1, (load_req_Some _ _ _ H2). cbn [bind].
  eexists. split; [reflexivity|]. split; [|reflexivity].
  eapply pinv_store_req; eauto.
  - unfold waiting_valid. cbn. lia.
  - intros ->. cbn. eapply pinv_req_steps; eauto.
Qed.

Lemma stepper_stop_pinv (w : World) (cnt : nat -> Z) (left : Z) (p : ptr) :
  inv w cnt left ->
  (forall a, p = Some a -> (a < len)%nat) ->
  (quiet -> forall a, p = Some a -> ~ In a ms) ->
  exists w', stepper_stop p w = Ok w' /\ inv w' cnt left /\ trace w' = trace w.
Proof.
  intros Hinv Hv Hq. destruct p as [a|]; [|cbn; eauto].
  pose proof Hinv as (Hl & Hs & _ & _ & Hp).
  destruct (lookup_lt_is_Some_2 (steppers w) a) as (m & Hm); [rewrite Hl; auto|].
  unfold stepper_stop. rewrite (load_stepper_Some _ _ _ Hm). cbn [bind].
  assert (forall v, inv (store_stepper w a (with_stop m v)) cnt left) as Hst.
  { intros v. eapply pinv_store_stepper; eauto.
    - intros HQ Hin. destruct (Hq HQ a eq_refl Hin).
    - intros Hin. destruct (Hp a Hin) as (x & Hx & Hx1 & _). cbn. congruence. }
  destruct (stepper_is_busy m).
  - destruct (stepper_wait_pinv _ cnt left a (Hst 1)) as (w' & H1 & H2 & H3); eauto.
  - eauto.
Qed.

Lemma other_threads_pinv (ps : list ptr) (w : World) (cnt : nat -> Z) (left : Z) :
  inv w cnt left ->
  (forall a, In (Some a) ps -> (a < len)%nat) ->
  (quiet -> forall a, In (Some a) ps -> ~ In a ms) ->
  exists w', other_threads ps w = Ok w' /\ inv w' cnt left /\ trace w' = trace w.
Proof.
  revert w. induction ps as [|p ps IH]; intros w Hinv Hv Hq; [cbn; eauto|].
  destruct (stepper_stop_pinv w cnt left p Hinv) as (w1 & H1 & H2 & H3).
  - intros a ->. apply Hv. left. reflexivity.
  - intros HQ a ->. apply (Hq HQ). left. reflexivity.
  - destruct (IH w1 H2) as (w' & H4 & H5 & H6).
    + intros a Ha. apply Hv. right. exact Ha.
    + intros HQ a Ha. apply (Hq HQ). right. exact Ha.
    + exists w'. cbn [other_threads]. rewrite H1. cbn [bind]. rewrite H4.
      split; [reflexivity|]. split; [exact H5|]. congruence.
Qed.

Lemma current_request_pinv (w : World) (cnt : nat -> Z) (left : Z) :
  inv w cnt left ->
  exists rq, current_request w motor = Ok (r, rq) /\ requests w !! r = Some (Some rq) /\
             pin_bulk rq = pins /\ count rq = Z.of_nat (length ms) /\
             req_steps rq = left /\
             (forall i a, ms !! i = Some a -> motor_list rq !! i = Some (Some a)) /\
             waiting_valid w rq.
Proof.
  intros (_ & _ & (m & Hm & Hreq & _) & (rq & H1 & H2 & H3 & H4 & H5 & H6) & _).
  exists rq. unfold current_request.
  rewrite (load_stepper_Some _ _ _ Hm). cbn [bind].
  rewrite Hreq, (load_req_Some _ _ _ H1). cbn [bind]. repeat split; auto.
Qed.

Lemma sense_cases (m : Stepper) : sense m = 1 \/ sense m = -1.
Proof. unfold sense. destruct (curr_direction m =? pos_direction m); auto. Qed.

(** The inner loop steps the motors of [rest], the tail of the list
    from index [i] on, once more. *)
Lemma pulser_count_pinv (rest : list nat) (i : nat) (s : Z) (w : World)
  (cnt : nat -> Z) (left : Z) :
  NoDup rest ->
  (forall k a, rest !! k = Some a -> ms !! (i + k)%nat = Some a) ->
  inv w cnt left ->
  (forall a, In a rest ->
     INT_MIN <= base a + (cnt a + 1) * sg a /\ base a + (cnt a + 1) * sg a <= INT_MAX) ->
  exists s' w' cnt',
    pulser_count motor (length rest) i s w = Ok (s', w') /\
    inv w' cnt' left /\ trace w' = trace w /\
    (forall a, In a rest -> cnt' a = cnt a + 1) /\
    (forall a, ~ In a rest -> cnt' a = cnt a) /\
    (quiet -> s = 0 -> s' = 0).
Proof.
  revert i s w cnt.
  induction rest as [|a rest IH]; intros i s w cnt Hnd Hidx Hinv Hrange.
  { exists s, w, cnt. cbn. split; [reflexivity|]. split; [exact Hinv|].
    repeat split; auto. intros a []. }
  apply NoDup_cons in Hnd. destruct Hnd as (Hnotin & Hnd).
  rewrite list_elem_of_In in Hnotin.
  destruct (current_request_pinv w cnt left Hinv) as (rq & Hcr & Hrq & _ & _ & _ & Hml & _).
  pose proof (Hidx 0%nat a eq_refl) as Hi. rewrite Nat.add_0_r in Hi.
  pose proof Hinv as (_ & _ & _ & _ & Hp).
  assert (In a ms) as Hain.
  { apply list_elem_of_In. eapply list_elem_of_lookup_2. exact Hi. }
  destruct (Hp a Hain) as (m & Hm & Hsteps & Hsense & Hstop).
  cbn [length pulser_count]. rewrite Hcr. cbn [bind].
  rewrite (array_get_Some _ _ _ (Hml _ _ Hi)). cbn [bind].
  rewrite (load_stepper_Some _ _ _ Hm). cbn [bind].
  assert ((if curr_direction m =? pos_direction m then steps m + 1 else steps m - 1)
          = base a + (cnt a + 1) * sg a) as ->.
  { rewrite Hsteps, <- Hsense. unfold sense.
    destruct (curr_direction m =? pos_direction m); lia. }
  destruct (Hrange a (or_introl eq_refl)) as (Hlo & Hhi).
  unfold checked_int.
  destruct (Z.leb_spec INT_MIN (base a + (cnt a + 1) * sg a)) as [_|]; [|lia].
  destruct (Z.leb_spec (base a + (cnt a + 1) * sg a) INT_MAX) as [_|]; [|lia].
  cbn [andb bind].
  set (cnt1 := fun b : nat => if Nat.eqb b a then cnt b + 1 else cnt b).
  assert (cnt1 a = cnt a + 1) as Hc1 by (unfold cnt1; rewrite Nat.eqb_refl; reflexivity).
  assert (forall b, b <> a -> cnt1 b = cnt b) as Hc2.
  { intros b Hb. unfold cnt1. destruct (Nat.eqb_spec b a); [contradiction|reflexivity]. }
  destruct (IH (S i) (Z.lor s (stop m))
              (store_stepper w a (with_steps m (base a + (cnt a + 1) * sg a))) cnt1)
    as (s' & w' & cnt' & H1 & H2 & H3 & H4 & H5 & H6).
  - exact Hnd.
  - intros k b Hk. replace (S i + k)%nat with (i + S k)%nat by lia. apply Hidx. exact Hk.
  - eapply pinv_store_stepper; eauto.
    intros _. cbn. rewrite Hc1. reflexivity.
  - intros b Hb. rewrite Hc2; [apply Hrange; right; exact Hb|].
    intros ->. contradiction.
  - exists s', w', cnt'. split; [exact H1|]. split; [exact H2|]. split; [exact H3|].
    split; [|split].
    + intros b [<-|Hb].
      * rewrite H5 by exact Hnotin. exact Hc1.
      * rewrite H4 by exact Hb. rewrite Hc2; [reflexivity|]. intros ->. contradiction.
    + intros b Hb. rewrite H5 by (intros Hin; apply Hb; right; exact Hin).
      apply Hc2. intros ->. apply Hb. left. reflexivity.
    + intros HQ ->. apply H6; [exact HQ|]. rewrite (Hstop HQ). reflexivity.
Qed.

End PulseInvariant.

Section PulseLoop.

Variables (motor r : nat) (ms : list nat) (pins : list Z) (base sg : nat -> Z).
Variables (len : nat) (quiet : Prop) (sched : nat -> list ptr) (n pd : Z).

Hypothesis ms_distinct : NoDup ms.
Hypothesis sched_handles : forall k a, In (Some a) (sched k) -> (a < len)%nat.
Hypothesis sched_quiet : quiet -> forall k a, In (Some a) (sched k) -> ~ In a ms.
Hypothesis n_uint : n <= UINT_MAX.
Hypothesis base_range : forall a, In a ms -> INT_MIN <= base a - n /\ base a + n <= INT_MAX.
Hypothesis sg_unit : forall a, In a ms -> sg a = 1 \/ sg a = -1.

Local Abbreviation inv := (pinv motor r ms pins base sg len quiet).

(** From pulse [j] on, the loop emits a full pulse, then as many more
    as the request and the stop flags allow, and never more than [n] in
    all. *)
Lemma pulser_loop_pinv (fuel j : nat) (w : World) :
  inv w (fun _ => Z.of_nat j) (n - Z.of_nat j) ->
  Z.of_nat j < n -> n - Z.of_nat j <= Z.of_nat fuel ->
  exists w' j',
    pulser_loop sched fuel j motor pd (Z.of_nat (length ms)) 0 w = Ok w' /\
    (j < j')%nat /\ Z.of_nat j' <= n /\
    inv w' (fun _ => Z.of_nat j') (n - Z.of_nat j') /\
    (quiet -> Z.of_nat j' = n) /\
    trace w' = trace w ++ pulse_train pins pd (j' - j).
Proof.
  revert j w. induction fuel as [|fuel IH]; intros j w Hinv Hj Hfuel; [lia|].
  cbn [pulser_loop].
  destruct (current_request_pinv _ _ _ _ _ _ _ _ w _ _ Hinv) as (rq & Hcr & _ & Hpins & _).
  rewrite Hcr. cbn [bind].
  set (w1 := emit (emit w (EvWriteBulk (pin_bulk rq) 1)) (EvSleep pd)).
  assert (inv w1 (fun _ => Z.of_nat j) (n - Z.of_nat j)) as Hinv1 by exact Hinv.
  destruct (current_request_pinv _ _ _ _ _ _ _ _ w1 _ _ Hinv1) as (rq1 & Hcr1 & _ & Hpins1 & _).
  rewrite Hcr1. cbn [bind].
  set (w2 := emit (emit w1 (EvWriteBulk (pin_bulk rq1) 0)) (EvSleep pd)).
  assert (inv w2 (fun _ => Z.of_nat j) (n - Z.of_nat j)) as Hinv2 by exact Hinv.
  destruct (other_threads_pinv _ _ _ _ _ _ _ _ (sched j) w2 _ _ Hinv2) as (w3 & Hot & Hinv3 & Ht3).
  { intros a Ha. eapply sched_handles; eauto. }
  { intros HQ a Ha. eapply sched_quiet; eauto. }
  rewrite Hot. cbn [bind].
  assert (forall a, In a ms ->
            INT_MIN <= base a + (Z.of_nat j + 1) * sg a /\
            base a + (Z.of_nat j + 1) * sg a <= INT_MAX) as Hrange.
  { intros a Ha. destruct (base_range a Ha), (sg_unit a Ha) as [-> | ->]; lia. }
  destruct (pulser_count_pinv motor r ms pins base sg len quiet ms 0 0 w3 _ _
              ms_distinct (fun k a Hk => Hk) Hinv3 Hrange)
    as (s' & w4 & cnt' & Hpc & Hinv4 & Ht4 & Hc1 & _ & Hs').
  rewrite Nat2Z.id, Hpc. cbn [bind].
  apply pinv_ext with (cnt' := fun _ => Z.of_nat (S j)) in Hinv4;
    [|intros a Ha; rewrite (Hc1 a Ha); lia].
  destruct (current_request_pinv _ _ _ _ _ _ _ _ w4 _ _ Hinv4)
    as (rq4 & Hcr4 & Hrq4 & Hpins4 & Hcount4 & Hleft4 & Hml4 & Hwv4).
  rewrite Hcr4. cbn [bind]. rewrite Hleft4.
  assert (wrap_uint (n - Z.of_nat j - 1) = n - Z.of_nat (S j)) as ->.
  { unfold wrap_uint, UINT_MAX in *. rewrite Z.mod_small; lia. }
  set (w5 := store_req w4 r (with_req_steps rq4 (n - Z.of_nat (S j)))).
  assert (inv w5 (fun _ => Z.of_nat (S j)) (n - Z.of_nat (S j))) as Hinv5.
  { apply (pinv_store_req motor r ms pins base sg len quiet w4 _ (n - Z.of_nat j) _ r rq4 _
             Hrq4); try reflexivity.
    - exact Hwv4.
    - intros E. destruct (E eq_refl).
    - exact Hinv4. }
  assert (trace w5 = trace w ++ [EvWriteBulk pins 1; EvSleep pd; EvWriteBulk pins 0; EvSleep pd])
    as Ht5.
  { cbn. rewrite Ht4, Ht3. subst w2 w1. cbn. rewrite Hpins, Hpins1.
    rewrite <- !app_assoc. reflexivity. }
  destruct (Z.eqb_spec (n - Z.of_nat (S j)) 0) as [Hz|Hnz]; cbn [negb andb].
  - exists w5, (S j). split; [reflexivity|]. split; [lia|]. split; [lia|].
    split; [exact Hinv5|]. split; [intros _; lia|].
    replace (S j - j)%nat with 1%nat by lia. rewrite Ht5. reflexivity.
  - destruct (Z.eqb_spec s' 0) as [->|Hs].
    + destruct (IH (S j) w5 Hinv5) as (w' & j' & H1 & H2 & H3 & H4 & H5 & H6);
        [lia|lia|].
      exists w', j'. split; [exact H1|]. split; [lia|]. split; [exact H3|].
      split; [exact H4|]. split; [exact H5|].
      replace (j' - j)%nat with (S (j' - S j)) by lia.
      rewrite H6, Ht5. cbn [pulse_train]. rewrite <- !app_assoc. reflexivity.
    + exists w5, (S j). split; [reflexivity|]. split; [lia|]. split; [lia|].
      split; [exact Hinv5|]. split; [intros HQ; destruct Hs; auto|].
      replace (S j - j)%nat with 1%nat by lia. rewrite Ht5. reflexivity.
Qed.

End PulseLoop.

(** ** Teardown *)

Lemma steps_of_store (w : World) (a b : nat) (m m' : Stepper) :
  steppers w !! a = Some m -> steps m' = steps m ->
  steps_of (store_stepper w a m') b = steps_of w b.
Proof.
  intros Ha Hs. unfold steps_of. cbn.
  destruct (decide (a = b)) as [<-|Hne].
  - rewrite list_lookup_insert_eq by (eapply lookup_lt_Some; eauto). rewrite Ha. exact Hs.
  - rewrite list_lookup_insert_ne by exact Hne. reflexivity.
Qed.

(** Clearing the back pointers of the motors of a request leaves their
    accumulators alone. *)
Lemma request_unlink_steps (r : nat) (rq : Stepper_req) (rest : list nat) (i : nat)
  (w : World) :
  requests w !! r = Some (Some rq) ->
  (forall k a, rest !! k = Some a -> motor_list rq !! (i + k)%nat = Some (Some a)) ->
  (forall a, In a rest -> (a < length (steppers w))%nat) ->
  exists w', request_unlink r (length rest) i w = Ok w' /\
             (forall a, steps_of w' a = steps_of w a) /\
             length (steppers w') = length (steppers w) /\
             trace w' = trace w /\ requests w' = requests w.
Proof.
  revert i w. induction rest as [|a rest IH]; intros i w Hrq Hidx Hv; [cbn; eauto 6|].
  pose proof (Hidx 0%nat a eq_refl) as Hi. rewrite Nat.add_0_r in Hi.
  destruct (lookup_lt_is_Some_2 (steppers w) a) as (m & Hm); [apply Hv; left; reflexivity|].
  cbn [length request_unlink]. rewrite (load_req_Some _ _ _ Hrq). cbn [bind].
  rewrite (array_get_Some _ _ _ Hi). cbn [bind].
  rewrite (load_stepper_Some _ _ _ Hm). cbn [bind].
  destruct (IH (S i) (store_stepper w a (with_shared_mutex (with_current_req m None) None)))
    as (w' & H1 & H2 & H3 & H4 & H5).
  - exact Hrq.
  - intros k b Hk. replace (S i + k)%nat with (i + S k)%nat by lia. apply Hidx. exact Hk.
  - intros b Hb. cbn. rewrite length_insert. apply Hv. right. exact Hb.
  - exists w'. split; [exact H1|]. split; [|split; [|split]].
    + intros b. rewrite H2. eapply steps_of_store; eauto.
    + rewrite H3. cbn. apply length_insert.
    + rewrite H4. reflexivity.
    + rewrite H5. reflexivity.
Qed.

(** ** A whole motion *)

Section Motion.

Variables (sched : nat -> list ptr) (fuel : nat) (motor : nat) (ms : list nat).
Variables (n : Z) (w : World).

Hypothesis ready : motion_ready w motor ms n.
Hypothesis callers : sched_valid w sched.
Hypothesis n_range : 1 <= n <= UINT_MAX.
Hypothesis room : within_int w ms n.
Hypothesis enough : n <= Z.of_nat fuel.

(** The worker emits [j] pulses, between 1 and [n], steps every motor
    of the request once per pulse, and tears the request down. *)
Lemma motor_pulser_runs :
  exists w' (j : nat) m pins rest,
    motor_pulser sched fuel motor w = Ok w' /\
    1 <= Z.of_nat j <= n /\
    (undisturbed w ms sched -> Z.of_nat j = n) /\
    (forall a, In a ms -> steps_of w' a = steps_of w a + Z.of_nat j * sense_of w a) /\
    steppers w !! motor = Some m /\
    trace w' = trace w ++ pulse_train pins (half_period m) j ++ EvReleaseBulk pins :: rest.
Proof.
  destruct ready as (Hhead & Hnd & Hvalid & Hsane & m & r & rq & Hm & Havail & Hbusy &
                     Hreq & Hrq & Hcount & Hsteps & Hml & Hwv).
  set (quiet := undisturbed w ms sched).
  set (w1 := store_stepper w motor (with_req_available m 0)).
  assert (pinv motor r ms (pin_bulk rq) (steps_of w) (sense_of w) (length (steppers w))
            quiet w (fun _ => 0) n) as Hinv0.
  { split; [reflexivity|]. split; [exact Hsane|]. split; [eauto|]. split.
    - exists rq. repeat split; auto.
    - intros a Ha. destruct (lookup_lt_is_Some_2 (steppers w) a (Hvalid a Ha)) as (x & Hx).
      exists x. unfold steps_of, sense_of. rewrite Hx.
      split; [reflexivity|]. split; [lia|]. split; [reflexivity|].
      intros (Hq & _). eapply Hq; eauto. }
  assert (pinv motor r ms (pin_bulk rq) (steps_of w) (sense_of w) (length (steppers w))
            quiet w1 (fun _ => Z.of_nat 0) (n - Z.of_nat 0)) as Hinv1.
  { replace (n - Z.of_nat 0) with n by lia.
    eapply pinv_store_stepper with (m := m) (cnt := fun _ => 0); eauto.
    - intros HQ Ha. cbn. destruct HQ as (Hq & _). eapply Hq; eauto.
    - intros Ha. cbn. unfold steps_of. rewrite Hm. lia. }
  destruct (pulser_loop_pinv motor r ms (pin_bulk rq) (steps_of w) (sense_of w)
              (length (steppers w)) quiet sched n (half_period m) Hnd) with (w := w1)
              (fuel := fuel) (j := 0%nat)
    as (w2 & j & Hloop & Hj1 & Hj2 & Hinv2 & Hq2 & Ht2).
  { intros k a Ha. eapply callers; eauto. }
  { intros (_ & Hq) k a Ha Hin. eapply Hq; eauto. }
  { lia. }
  { exact room. }
  { intros a _. unfold sense_of. destruct (steppers w !! a); [apply sense_cases|auto]. }
  { exact Hinv1. }
  { lia. }
  { lia. }
  unfold motor_pulser. rewrite (load_stepper_Some _ _ _ Hm). cbn [bind].
  destruct (Z.eqb_spec (req_available m) 0) as [|_]; [contradiction|].
  fold w1.
  assert (steppers w1 !! motor = Some (with_req_available m 0)) as Hm1.
  { cbn. apply list_lookup_insert_eq. eapply lookup_lt_Some; eauto. }
  rewrite (load_stepper_Some _ _ _ Hm1). cbn [bind].
  destruct (current_request_pinv _ _ _ _ _ _ _ _ w1 _ _ Hinv1) as (rq1 & Hcr1 & _ & _ & Hc1 & _).
  rewrite Hcr1. cbn [bind]. rewrite Hc1.
  change (half_period (with_req_available m 0)) with (half_period m).
  rewrite Hloop. cbn [bind].
  pose proof Hinv2 as (Hlen2 & _ & (m2 & Hm2 & Hreq2 & Hbusy2) & _ & Hp2).
  rewrite (load_stepper_Some _ _ _ Hm2). cbn [bind].
  unfold stepper_is_busy in Hbusy2.
  destruct (shared_mutex m2) as [x|]; [|discriminate].
  destruct (current_request_pinv _ _ _ _ _ _ _ _ w2 _ _ Hinv2)
    as (rq2 & Hcr2 & Hrq2 & Hpins2 & Hc2 & _ & Hml2 & Hwv2).
  rewrite Hcr2. cbn [bind]. rewrite Hreq2.
  unfold stepper_destroy_request. rewrite (load_req_Some _ _ _ Hrq2). cbn [bind].
  destruct (request_unlink_steps r rq2 ms 0 (emit w2 (EvReleaseBulk (pin_bulk rq2))))
    as (w3 & Hw3 & Hs3 & Hl3 & Ht3 & Hr3).
  { exact Hrq2. }
  { intros k a Hk. apply Hml2. exact Hk. }
  { intros a Ha. cbn. rewrite Hlen2. apply Hvalid. exact Ha. }
  rewrite Hc2, Nat2Z.id, Hw3. cbn [bind].
  assert (forall a, In a ms ->
            steps_of w3 a = steps_of w a + Z.of_nat j * sense_of w a) as Hfinal.
  { intros a Ha. rewrite Hs3. destruct (Hp2 a Ha) as (y & Hy & Hy1 & _).
    unfold steps_of at 1. cbn. rewrite Hy. exact Hy1. }
  assert (trace w3 = trace w ++ pulse_train (pin_bulk rq) (half_period m) j
                       ++ [EvReleaseBulk (pin_bulk rq)]) as Htr.
  { rewrite Ht3. cbn. rewrite Ht2, Hpins2. replace (j - 0)%nat with j by lia.
    rewrite <- app_assoc. reflexivity. }
  set (w4 := set_requests w3 (<[r := None]> (requests w3))).
  destruct (motor_waiting rq2) as [wa|] eqn:Hwa.
  - assert (wa < length (steppers w4))%nat as Hlt.
    { cbn. rewrite Hl3. cbn. unfold waiting_valid in Hwv2. rewrite Hwa in Hwv2. exact Hwv2. }
    destruct (lookup_lt_is_Some_2 _ _ Hlt) as (wm & Hwm).
    rewrite (load_stepper_Some _ _ _ Hwm). cbn [bind].
    eexists _, j, m, (pin_bulk rq), [EvSignalWait wa].
    split; [reflexivity|]. split; [lia|]. split; [exact Hq2|]. split; [|split; [exact Hm|]].
    + intros a Ha. rewrite <- (Hfinal a Ha).
      apply (steps_of_store w4 wa a wm); [exact Hwm | reflexivity].
    + cbn. rewrite Htr. rewrite <- !app_assoc. reflexivity.
  - eexists _, j, m, (pin_bulk rq), [].
    split; [reflexivity|]. split; [lia|]. split; [exact Hq2|]. split; [|split; [exact Hm|]].
    + intros a Ha. rewrite <- (Hfinal a Ha). reflexivity.
    + cbn. rewrite Htr. reflexivity.
Qed.

End Motion.

(** ** From the request to the motion *)

Lemma request_link_spec (l : list ptr) (r x : nat) (rest : list nat) :
  forall (i : nat) (w : World),
    (forall k a, rest !! k = Some a -> l !! (i + k)%nat = Some (Some a)) ->
    (forall a, In a rest -> (a < length (steppers w))%nat) ->
    exists w',
      request_link l (length rest) i r x w = Ok w' /\
      requests w' = requests w /\ trace w' = trace w /\
      length (steppers w') = length (steppers w) /\
      (forall a, In a rest -> linked w' r x a) /\
      (forall a, linked w r x a -> linked w' r x a) /\
      (forall a, ~ In a rest -> steppers w' !! a = steppers w !! a) /\
      (forall a, steps_of w' a = steps_of w a).
Proof.
  induction rest as [|a rest IH]; intros i w Hidx Hv.
  { exists w. cbn. repeat split; auto. intros a []. }
  pose proof (Hidx 0%nat a eq_refl) as Hi. rewrite Nat.add_0_r in Hi.
  destruct (lookup_lt_is_Some_2 (steppers w) a) as (m & Hm); [apply Hv; left; reflexivity|].
  set (m' := with_shared_mutex (with_current_req m (Some r)) (Some x)).
  set (w1 := store_stepper w a m').
  assert (a < length (steppers w))%nat as Hlt by (eapply lookup_lt_Some; eauto).
  assert (linked w1 r x a) as Hla.
  { exists m'. subst w1. cbn. rewrite list_lookup_insert_eq by exact Hlt. auto. }
  destruct (IH (S i) w1) as (w' & H1 & H2 & H3 & H4 & H5 & H6 & H7 & H8).
  - intros k b Hk. replace (S i + k)%nat with (i + S k)%nat by lia. apply Hidx. exact Hk.
  - intros b Hb. subst w1. cbn. rewrite length_insert. apply Hv. right. exact Hb.
  - exists w'. cbn [length request_link].
    rewrite (array_get_Some _ _ _ Hi). cbn [bind].
    rewrite (load_stepper_Some _ _ _ Hm). cbn [bind]. fold m'. fold w1.
    split; [exact H1|]. split; [rewrite H2; reflexivity|]. split; [rewrite H3; reflexivity|].
    split; [rewrite H4; subst w1; cbn; apply length_insert|].
    split; [|split; [|split]].
    + intros b [<-|Hb]; [apply H6; exact Hla | apply H5; exact Hb].
    + intros b (mb & Hb1 & Hb2 & Hb3). apply H6.
      destruct (decide (a = b)) as [<-|Hne]; [exact Hla|].
      exists mb. subst w1. cbn. rewrite list_lookup_insert_ne by exact Hne. auto.
    + intros b Hb. rewrite H7 by (intros Hin; apply Hb; right; exact Hin).
      subst w1. cbn. apply list_lookup_insert_ne. intros ->. apply Hb. left. reflexivity.
    + intros b. rewrite H8. subst w1. eapply steps_of_store; eauto.
Qed.

Lemma lookup_map_Some (ms : list nat) (k a : nat) :
  ms !! k = Some a -> map Some ms !! k = Some (Some a).
Proof.
  intros H. change (map Some ms) with (Some <$> ms). rewrite list_lookup_fmap, H. reflexivity.
Qed.

(** A request that [stepper_step_multiple] accepts, over distinct motors
    of a sane world, is ready for the worker of the first motor; the
    accumulators and the stop flags are as they were. *)
Lemma step_multiple_makes_ready (ms : list nat) (n : Z) (w w' : World) (motor : nat) :
  sane w -> NoDup ms -> head ms = Some motor ->
  (forall a, In a ms -> (a < length (steppers w))%nat) ->
  stepper_step_multiple (Some (map Some ms)) n (Z.of_nat (length ms)) w = Ok (0, w') ->
  motion_ready w' motor ms n /\
  length (steppers w') = length (steppers w) /\
  (forall a, steps_of w' a = steps_of w a).
Proof.
  intros Hsane Hnd Hhead Hvalid H.
  unfold stepper_step_multiple in H.
  destruct (n =? 0); [discriminate|].
  destruct (Z.eqb_spec (Z.of_nat (length ms)) 0) as [|Hne0]; [discriminate|].
  destruct (Z.ltb_spec MOTOR_LIST_SIZE_MAX (Z.of_nat (length ms))) as [|Hle8];
    [discriminate|]. cbn [orb] in H. unfold MOTOR_LIST_SIZE_MAX in Hle8.
  rewrite head_lookup in Hhead.
  rewrite (array_get_Some _ _ _ (lookup_map_Some _ _ _ Hhead)) in H. cbn [bind] in H.
  ok_inv H. rename x into m0. destruct (stepper_is_busy m0); [discriminate|].
  replace (wrap_uint (Z.of_nat (length ms))) with (Z.of_nat (length ms)) in H
    by (unfold wrap_uint; rewrite Z.mod_small; lia).
  ok_inv H. destruct x as (request & w1).
  destruct request as [r|]; [|discriminate].
  ok_inv H. rename x into m1. injection H as <-.
  unfold stepper_create_new_request in Hx0. rewrite Nat2Z.id in Hx0.
  unfold external in Hx0. cbn [fst snd ext_ok ext_calls steppers requests axes next_mutex
                                trace emit] in Hx0.
  destruct (ext_ok w (ext_calls w)); [|discriminate]. cbn [negb] in Hx0.
  ok_inv Hx0. destruct x; [|discriminate]. cbn [negb] in Hx0.
  ok_inv Hx0. rename x into pins.
  destruct (ext_ok w (S (ext_calls w))); [|discriminate]. cbn [negb] in Hx0.
  destruct (ext_ok w (S (S (ext_calls w)))); [|discriminate]. cbn [negb] in Hx0.
  destruct (ext_ok w (S (S (S (ext_calls w))))); [|discriminate]. cbn [negb] in Hx0.
  ok_inv Hx0. rename x into w2. injection Hx0 as <- <-.
  match type of Hx4 with
  | request_link _ _ _ ?r ?x ?w0 = _ =>
      destruct (request_link_spec (map Some ms) r x ms 0 w0)
        as (w2' & H1 & H2 & H3 & H4 & H5 & H6 & H7 & H8)
  end.
  { intros k a Hk. apply lookup_map_Some. exact Hk. }
  { intros a Ha. cbn. apply Hvalid. exact Ha. }
  rewrite H1 in Hx4. injection Hx4 as ->.
  cbn [requests set_next_mutex set_requests trace steppers] in H2, H3, H4.
  set (rq := mkReq (take (length ms) (map Some ms)
                    ++ replicate (Z.to_nat MOTOR_LIST_SIZE_MAX - length ms) None)
                   None pins (Z.of_nat (length ms)) n) in *.
  assert (In motor ms) as Hmotor.
  { apply list_elem_of_In. eapply list_elem_of_lookup_2. exact Hhead. }
  destruct (H5 motor Hmotor) as (mm & Hmm & Hmreq & Hmmx).
  rewrite (load_stepper_Some _ _ _ Hmm) in Hx1. injection Hx1 as <-.
  assert (motor < length (steppers w2))%nat as Hlt by (eapply lookup_lt_Some; eauto).
  assert (requests w2 !! length (requests w) = Some (Some rq)) as Hrq.
  { rewrite H2. rewrite lookup_app_r by lia. rewrite Nat.sub_diag. reflexivity. }
  assert (forall a m, steppers (store_stepper w2 motor (with_req_available mm 1)) !! a = Some m ->
            exists m', steppers w2 !! a = Some m' /\ current_req m = current_req m' /\
                       shared_mutex m = shared_mutex m' /\ steps m = steps m') as Hback.
  { intros a m Ha. cbn in Ha. destruct (decide (motor = a)) as [<-|Hne].
    - rewrite list_lookup_insert_eq in Ha by exact Hlt. injection Ha as <-. eauto.
    - rewrite list_lookup_insert_ne in Ha by exact Hne. eauto. }
  split; [|split].
  - split; [rewrite head_lookup; exact Hhead|]. split; [exact Hnd|]. split.
    { intros a Ha. cbn. rewrite length_insert, H4. apply Hvalid. exact Ha. }
    split.
    { intros a m Ha Hbusy. destruct (Hback a m Ha) as (m' & Hm' & E1 & E2 & _).
      rewrite E1. cbn [requests emit store_stepper set_steppers].
      destruct (in_dec Nat.eq_dec a ms) as [Hin|Hnin].
      - destruct (H5 a Hin) as (y & Hy & Hy1 & _). exists (length (requests w)), rq.
        assert (y = m') as -> by congruence. auto.
      - rewrite (H7 a Hnin) in Hm'. cbn in Hm'.
        destruct (Hsane a m' Hm') as (r' & rq' & Hr1 & Hr2).
        { unfold stepper_is_busy in *. rewrite <- E2. exact Hbusy. }
        exists r', rq'. split; [exact Hr1|]. rewrite H2. apply lookup_app_l_Some. exact Hr2. }
    exists (with_req_available mm 1), (length (requests w)), rq.
    split; [cbn; apply list_lookup_insert_eq; exact Hlt|].
    split; [cbn; lia|]. split; [unfold stepper_is_busy; cbn; rewrite Hmmx; reflexivity|].
    split; [exact Hmreq|]. split; [exact Hrq|]. split; [reflexivity|]. split; [reflexivity|].
    split; [|exact I].
    intros i a Hi. cbn [motor_list rq]. subst rq. cbn [motor_list].
    apply lookup_app_l_Some. rewrite lookup_take_lt by (eapply lookup_lt_Some; eauto).
    apply lookup_map_Some. exact Hi.
  - cbn. rewrite length_insert, H4. reflexivity.
  - intros a. transitivity (steps_of w2 a).
    + apply (steps_of_store w2 motor a mm); [exact Hmm | reflexivity].
    + rewrite (H8 a). reflexivity.
Qed.

Lemma abs_pulses (j : nat) (s : Z) : s = 1 \/ s = -1 -> Z.abs (Z.of_nat j * s) = Z.of_nat j.
Proof. intros [-> | ->]; lia. Qed.

Lemma sense_of_cases (w : World) (a : nat) : sense_of w a = 1 \/ sense_of w a = -1.
Proof. unfold sense_of. destruct (steppers w !! a); [apply sense_cases | auto]. Qed.

(** C1.  In a motion executed by the worker for a request of [n] steps
    over the distinct motors [ms], the accumulator of every motor of [ms]
    changes in magnitude by the number [j] of pulses emitted, the same for
    all of them, and [j] is at most [n]; when no stop flag of a motor of
    [ms] is set at the start or during the motion, the change is exactly
    [n].  (The accumulators are assumed to be [n] away from the bounds of
    [int], beyond which the C code is undefined.) *)
Theorem pulser_accumulators_lockstep
  (sched : nat -> list ptr) (fuel motor : nat) (ms : list nat) (n : Z) (w : World) :
  motion_ready w motor ms n ->
  sched_valid w sched ->
  1 <= n <= UINT_MAX ->
  within_int w ms n ->
  n <= Z.of_nat fuel ->
  exists w' (j : nat) pins pd rest,
    motor_pulser sched fuel motor w = Ok w' /\
    trace w' = trace w ++ pulse_train pins pd j ++ EvReleaseBulk pins :: rest /\
    (forall a, In a ms -> Z.abs (steps_of w' a - steps_of w a) = Z.of_nat j) /\
    (forall a, In a ms -> Z.abs (steps_of w' a - steps_of w a) <= n) /\
    (undisturbed w ms sched ->
     forall a, In a ms -> Z.abs (steps_of w' a - steps_of w a) = n).
Proof.
  intros Hready Hsched Hn Hroom Hfuel.
  destruct (motor_pulser_runs sched fuel motor ms n w Hready Hsched Hn Hroom Hfuel)
    as (w' & j & m & pins & rest & Hrun & Hj & Hq & Hsteps & _ & Htrace).
  assert (forall a, In a ms -> Z.abs (steps_of w' a - steps_of w a) = Z.of_nat j) as Habs.
  { intros a Ha. rewrite (Hsteps a Ha).
    replace (steps_of w a + Z.of_nat j * sense_of w a - steps_of w a)
      with (Z.of_nat j * sense_of w a) by lia.
    apply abs_pulses, sense_of_cases. }
  exists w', j, pins, (half_period m), rest.
  split; [exact Hrun|]. split; [exact Htrace|]. split; [exact Habs|]. split.
  - intros a Ha. rewrite (Habs a Ha). lia.
  - intros Hu a Ha. rewrite (Habs a Ha). apply Hq. exact Hu.
Qed.

(** C10.  For a request of [n] steps that [stepper_step_multiple]
    accepts, so that [n >= 1], the worker emits one full pulse before
    anything else, whatever the stop flags are when the request is made,
    and the accumulator of every motor of the request changes by at least
    one microstep. *)
Theorem pulser_first_pulse_unconditional
  (sched : nat -> list ptr) (fuel motor : nat) (ms : list nat) (n : Z) (w0 w : World) :
  sane w0 -> NoDup ms -> head ms = Some motor ->
  (forall a, In a ms -> (a < length (steppers w0))%nat) ->
  0 <= n <= UINT_MAX ->
  stepper_step_multiple (Some (map Some ms)) n (Z.of_nat (length ms)) w0 = Ok (0, w) ->
  sched_valid w sched ->
  within_int w ms n ->
  n <= Z.of_nat fuel ->
  exists w' pins pd rest,
    motor_pulser sched fuel motor w = Ok w' /\
    trace w' = trace w ++ [EvWriteBulk pins 1; EvSleep pd; EvWriteBulk pins 0; EvSleep pd]
                       ++ rest /\
    forall a, In a ms -> 1 <= Z.abs (steps_of w' a - steps_of w a).
Proof.
  intros Hsane Hnd Hhead Hvalid Hn Hstep Hsched Hroom Hfuel.
  assert (n <> 0) as Hn0.
  { intros ->. unfold stepper_step_multiple in Hstep. cbn in Hstep. discriminate. }
  destruct (step_multiple_makes_ready ms n w0 w motor Hsane Hnd Hhead Hvalid Hstep)
    as (Hready & _ & _).
  destruct (motor_pulser_runs sched fuel motor ms n w Hready Hsched ltac:(lia) Hroom Hfuel)
    as (w' & j & m & pins & rest & Hrun & Hj & _ & Hsteps & _ & Htrace).
  destruct j as [|j]; [lia|].
  exists w', pins, (half_period m), (pulse_train pins (half_period m) j
                                      ++ EvReleaseBulk pins :: rest).
  split; [exact Hrun|]. split.
  - rewrite Htrace. cbn [pulse_train]. rewrite <- !app_assoc. reflexivity.
  - intros a Ha. rewrite (Hsteps a Ha).
    replace (steps_of w a + Z.of_nat (S j) * sense_of w a - steps_of w a)
      with (Z.of_nat (S j) * sense_of w a) by lia.
    rewrite abs_pulses by apply sense_of_cases. lia.
Qed.

(** The two worlds of the examples are ready for the worker of the first
    motor. *)
Lemma sane_two (ma mb : Stepper) (rq : Stepper_req) (rest : list (option Stepper_req))
  (ax : list Axis) (x : nat) (t : list Event) (f : nat -> bool) (c : nat) :
  current_req ma = Some 0%nat -> current_req mb = Some 0%nat ->
  sane (mkWorld [ma; mb] (Some rq :: rest) ax x t f c).
Proof.
  intros Ha Hb a m Hm _. exists 0%nat, rq.
  destruct a as [|[|a]]; cbn in Hm; try discriminate;
    injection Hm as <-; split; auto.
Qed.

Lemma ready_two (w : World) (ma mb : Stepper) (rq : Stepper_req) (n : Z) :
  steppers w = [ma; mb] -> requests w = [Some rq] ->
  current_req ma = Some 0%nat -> current_req mb = Some 0%nat ->
  req_available ma <> 0 -> stepper_is_busy ma = true ->
  count rq = 2 -> req_steps rq = n ->
  motor_list rq !! 0%nat = Some (Some 0%nat) ->
  motor_list rq !! 1%nat = Some (Some 1%nat) ->
  waiting_valid w rq ->
  motion_ready w 0%nat [0%nat; 1%nat] n.
Proof.
  intros Hs Hr Ha Hb Hav Hbusy Hc Hn H0 H1 Hwv.
  split; [reflexivity|]. split.
  { apply NoDup_cons. split; [|apply NoDup_singleton].
    intros H. apply list_elem_of_In in H. destruct H as [H|[]]. discriminate. }
  split.
  { intros a [<-|[<-|[]]]; rewrite Hs; cbn; lia. }
  split.
  { destruct w. cbn in Hs, Hr. subst. apply sane_two; auto. }
  exists ma, 0%nat, rq. rewrite Hs, Hr. repeat split; auto.
  intros i a Hi. destruct i as [|[|i]]; cbn in Hi; try discriminate;
    injection Hi as <-; auto.
Qed.

Lemma both_motors_requested_ready : motion_ready both_motors_requested 0%nat [0%nat; 1%nat] 3.
Proof.
  eapply ready_two; try reflexivity; cbn; try lia; try discriminate.
Qed.

Lemma within_int_two (w : World) (n : Z) :
  INT_MIN <= steps_of w 0 - n /\ steps_of w 0 + n <= INT_MAX ->
  INT_MIN <= steps_of w 1 - n /\ steps_of w 1 + n <= INT_MAX ->
  within_int w [0%nat; 1%nat] n.
Proof. intros H0 H1 a [<-|[<-|[]]]; assumption. Qed.

Lemma pulser_accumulators_lockstep_witness :
  exists w' (j : nat) pins pd rest,
    motor_pulser stop_in_second_pulse 3 0 both_motors_requested = Ok w' /\
    trace w' = trace both_motors_requested
                 ++ pulse_train pins pd j ++ EvReleaseBulk pins :: rest /\
    (forall a, In a [0%nat; 1%nat] ->
       Z.abs (steps_of w' a - steps_of both_motors_requested a) = Z.of_nat j) /\
    (forall a, In a [0%nat; 1%nat] ->
       Z.abs (steps_of w' a - steps_of both_motors_requested a) <= 3) /\
    (undisturbed both_motors_requested [0%nat; 1%nat] stop_in_second_pulse ->
     forall a, In a [0%nat; 1%nat] ->
       Z.abs (steps_of w' a - steps_of both_motors_requested a) = 3).
Proof.
  apply (pulser_accumulators_lockstep stop_in_second_pulse 3 0 [0%nat; 1%nat] 3
           both_motors_requested).
  - exact both_motors_requested_ready.
  - intros k a. unfold stop_in_second_pulse. destruct (Nat.eqb k 1); cbn.
    + intros [[= <-]|[]]. lia.
    + intros [].
  - unfold UINT_MAX. lia.
  - apply within_int_two; vm_compute; split; discriminate.
  - lia.
Defined.

Lemma pulser_first_pulse_unconditional_witness :
  exists w' pins pd rest,
    motor_pulser nobody 3 0 flagged_motors_requested = Ok w' /\
    trace w' = trace flagged_motors_requested
                 ++ [EvWriteBulk pins 1; EvSleep pd; EvWriteBulk pins 0; EvSleep pd] ++ rest /\
    forall a, In a [0%nat; 1%nat] ->
      1 <= Z.abs (steps_of w' a - steps_of flagged_motors_requested a).
Proof.
  apply (pulser_first_pulse_unconditional nobody 3 0 [0%nat; 1%nat] 3
           second_motor_flagged flagged_motors_requested).
  - intros a m Hm Hbusy. destruct a as [|[|a]]; cbn in Hm; try discriminate;
      injection Hm as <-; discriminate.
  - apply NoDup_cons. split; [|apply NoDup_singleton].
    intros H. apply list_elem_of_In in H. destruct H as [H|[]]. discriminate.
  - reflexivity.
  - intros a [<-|[<-|[]]]; cbn; lia.
  - unfold UINT_MAX. lia.
  - reflexivity.
  - intros k a [].
  - apply within_int_two; vm_compute; split; discriminate.
  - lia.
Defined.

(** ** Millimetres and microsteps *)

Lemma round_near_trunc (m : positive) (k : Z) :
  0 < k ->
  let t := Z.pos m / 2 ^ k in
  let r := (2 * Z.pos m + 2 ^ k) / 2 ^ (k + 1) in
  (r = t \/ r = t + 1) /\ t * 2 ^ k <= Z.pos m < (t + 1) * 2 ^ k.
Proof.
  intros Hk t r.
  assert (0 < 2 ^ k) as Hd by (apply Z.pow_pos_nonneg; lia).
  assert (2 ^ (k + 1) = 2 * 2 ^ k) as Hd2 by (rewrite Z.pow_add_r by lia; lia).
  pose proof (Z.div_mod (Z.pos m) (2 ^ k) ltac:(lia)) as Hdm.
  pose proof (Z.mod_pos_bound (Z.pos m) (2 ^ k) Hd) as Hmod.
  fold t in Hdm. split; [|nia].
  subst r. rewrite Hd2.
  assert (t <= (2 * Z.pos m + 2 ^ k) / (2 * 2 ^ k)) as Hlo.
  { apply Z.div_le_lower_bound; nia. }
  assert ((2 * Z.pos m + 2 ^ k) / (2 * 2 ^ k) < t + 2) as Hhi.
  { apply Z.div_lt_upper_bound; nia. }
  lia.
Qed.

(** C5, as amended.  The conversion of millimetres to microsteps discards
    the fractional part of the double-precision quotient
    [mm * microsteps_per_rotation / mm_per_rotation], taken with the
    microsteps of the first motor: for a quotient that is not negative and
    whose integral part [t] is an [unsigned int], [mm_to_steps] is [t],
    the quotient lies in [t, t + 1), and the nearest integer is [t] or
    [t + 1]. *)
Theorem mm_to_steps_truncates
  (w : World) (axis : ptr) (x : Axis) (a : nat) (m0 : Stepper) (mm : float) (t : Z) :
  load_axis w axis = Ok x ->
  motors x !! 0%nat = Some (Some a) ->
  steppers w !! a = Some m0 ->
  nonnegative_SF (Prim2SF (steps_quotient x m0 mm)) ->
  trunc_SF (Prim2SF (steps_quotient x m0 mm)) = Some t ->
  t <= UINT_MAX ->
  mm_to_steps w axis mm = Ok t /\
  (round_SF (Prim2SF (steps_quotient x m0 mm)) = Some t \/
   round_SF (Prim2SF (steps_quotient x m0 mm)) = Some (t + 1)) /\
  match Prim2SF (steps_quotient x m0 mm) with
  | S754_finite _ m e =>
      if 0 <=? e then t = Z.pos m * 2 ^ e
      else t * 2 ^ (- e) <= Z.pos m < (t + 1) * 2 ^ (- e)
  | _ => t = 0
  end.
Proof.
  intros Hx H0 Hm0 Hpos Ht Hmax.
  assert (0 <= t) as Hge.
  { unfold trunc_SF, nonnegative_SF in *.
    destruct (Prim2SF (steps_quotient x m0 mm)) as [s|s| |s m e];
      try contradiction; try discriminate.
    - injection Ht as <-. lia.
    - subst s. injection Ht as <-.
      destruct (Z.leb_spec 0 e).
      + apply Z.mul_nonneg_nonneg; [lia|]. apply Z.pow_nonneg. lia.
      + apply Z.div_pos; [lia|]. apply Z.pow_pos_nonneg; lia. }
  split.
  { unfold mm_to_steps. rewrite Hx. cbn [bind].
    rewrite (array_get_Some _ _ _ H0). cbn [bind].
    rewrite (load_stepper_Some _ _ _ Hm0). cbn [bind].
    fold (steps_quotient x m0 mm). unfold double_to_uint. rewrite Ht.
    destruct (Z.leb_spec 0 t); [|lia]. destruct (Z.leb_spec t UINT_MAX); [|lia].
    reflexivity. }
  unfold trunc_SF, round_SF, nonnegative_SF in *.
  destruct (Prim2SF (steps_quotient x m0 mm)) as [s|s| |s m e];
    try contradiction; try discriminate.
  - injection Ht as <-. auto.
  - subst s. injection Ht as <-.
    destruct (Z.leb_spec 0 e) as [He|He]; [auto|].
    destruct (round_near_trunc m (- e) ltac:(lia)) as ([Hr|Hr] & Hb);
      cbn zeta in Hr; rewrite Hr; auto.
Qed.

Lemma mm_to_steps_truncates_witness :
  mm_to_steps one_axis (Some 0%nat) 0.0625%float = Ok 0 /\
  (round_SF (Prim2SF (steps_quotient
       (mkAxis [Some 0%nat; Some 1%nat; None; None; None; None; None; None] 2 0 40%float
               0%float 0%float)
       (idle_motor "left" 23) 0.0625%float)) = Some 0 \/
   round_SF (Prim2SF (steps_quotient
       (mkAxis [Some 0%nat; Some 1%nat; None; None; None; None; None; None] 2 0 40%float
               0%float 0%float)
       (idle_motor "left" 23) 0.0625%float)) = Some (0 + 1)) /\
  match Prim2SF (steps_quotient
       (mkAxis [Some 0%nat; Some 1%nat; None; None; None; None; None; None] 2 0 40%float
               0%float 0%float)
       (idle_motor "left" 23) 0.0625%float) with
  | S754_finite _ m e =>
      if 0 <=? e then 0 = Z.pos m * 2 ^ e
      else 0 * 2 ^ (- e) <= Z.pos m < (0 + 1) * 2 ^ (- e)
  | _ => 0 = 0
  end.
Proof.
  apply (mm_to_steps_truncates one_axis (Some 0%nat) _ 0%nat (idle_motor "left" 23)
           0.0625%float 0); try reflexivity.
  unfold UINT_MAX. lia.
Defined.

(** C5, as stated, fails: a distance of 0.0625 mm on an axis of 40 mm per
    rotation whose first motor has 400 microsteps per rotation is 0.625
    microsteps, which [mm_to_steps] converts to 0 and rounding to the
    nearest integer to 1. *)
Lemma mm_to_steps_not_rounded :
  mm_to_steps one_axis (Some 0%nat) 0.0625%float = Ok 0 /\
  mm_to_steps_rounded one_axis (Some 0%nat) 0.0625%float = Ok 1 /\
  mm_to_steps one_axis (Some 0%nat) 0.0625%float
    <> mm_to_steps_rounded one_axis (Some 0%nat) 0.0625%float.
Proof.
  assert (mm_to_steps one_axis (Some 0%nat) 0.0625%float = Ok 0) as H1
    by (vm_compute; reflexivity).
  assert (mm_to_steps_rounded one_axis (Some 0%nat) 0.0625%float = Ok 1) as H2
    by (vm_compute; reflexivity).
  split; [exact H1|]. split; [exact H2|]. rewrite H1, H2. discriminate.
Qed.

(** ** Direction of an axis *)

Lemma lnot_differs (z : Z) : lnot z <> z.
Proof. unfold lnot. destruct (Z.eqb_spec z 0); lia. Qed.



Lemma rel_target_direction (m : Stepper) (direction : Z) :
  is_valid_direction_rel direction = true ->
  (if rel_target m direction =? pos_direction m then DIRECTION_POSITIVE
   else DIRECTION_NEGATIVE) = direction.
Proof.
  unfold is_valid_direction_rel, rel_target, DIRECTION_POSITIVE, DIRECTION_NEGATIVE.
  intros H.
  assert (direction = 1 \/ direction = -1) as [E|E].
  { destruct (Z.eqb_spec direction 1); [auto|].
    destruct (Z.eqb_spec direction (-1)); [auto|discriminate]. }
  - rewrite E. cbn. rewrite Z.eqb_refl. reflexivity.
  - rewrite E. cbn.
    destruct (Z.eqb_spec (lnot (pos_direction m)) (pos_direction m)) as [E'|_];
      [|reflexivity].
    destruct (lnot_differs _ E').
Qed.

Section AxisDirection.

Variables (ax : nat) (x : Axis) (direction : Z).
Hypothesis direction_valid : is_valid_direction_rel direction = true.



End AxisDirection.

(** ** A move of an axis *)









(** ** Strings of the parser *)

Lemma strncmp_eq_refl (a : string) (n : nat) : Config.strncmp_eq a a n = true.
Proof.
  revert a. induction n as [|n IH]; intros a; [reflexivity|].
  destruct a as [|c a]; cbn; [reflexivity|]. rewrite Ascii.eqb_refl. apply IH.
Qed.

(** A comparison over more characters than the first string has is an
    equality test. *)
Lemma strncmp_eq_exact (a b : string) (n : nat) :
  (String.length a < n)%nat -> Config.strncmp_eq a b n = true -> a = b.
Proof.
  revert a b. induction n as [|n IH]; intros a b Hlen H; [lia|].
  destruct a as [|c a], b as [|d b]; cbn in *; try discriminate; [reflexivity|].
  apply andb_true_iff in H. destruct H as (Hc & H).
  apply Ascii.eqb_eq in Hc. subst d. f_equal. apply IH; [lia | exact H].
Qed.

Lemma length_list_ascii (s : string) :
  length (list_ascii_of_string s) = String.length s.
Proof. induction s as [|c s IH]; cbn; [reflexivity|]. rewrite IH. reflexivity. Qed.

Lemma delim_not_name (c : ascii) : is_delim c = true -> name_char c = false.
Proof.
  unfold is_delim, Config.isblank. intros H.
  repeat (apply orb_true_iff in H; destruct H as [H|H]);
    apply Ascii.eqb_eq in H; subst c; reflexivity.
Qed.

(** ** The table of motors *)

Lemma find_motor_node_none (g : Config.Globals) (s : string) (n i : nat) :
  (String.length s < MOTOR_NAME_LEN)%nat ->
  (i + n <= length (Config.motor_list g))%nat ->
  (forall j node, (i <= j < i + n)%nat -> Config.motor_list g !! j = Some node ->
                  Config.motor_config.name node <> s) ->
  Config.find_motor_node g s n i = Ok None.
Proof.
  intros Hlen. revert i. induction n as [|n IH]; intros i Hb Hnone; [reflexivity|].
  destruct (lookup_lt_is_Some_2 (Config.motor_list g) i) as (node & Hnode); [lia|].
  cbn [Config.find_motor_node]. rewrite (array_get_Some _ _ _ Hnode). cbn [bind].
  destruct (Config.strncmp_eq s (Config.motor_config.name node) MOTOR_NAME_LEN) eqn:E.
  - apply strncmp_eq_exact in E; [|exact Hlen].
    destruct (Hnone i node ltac:(lia) Hnode). congruence.
  - apply IH; [lia|]. intros j nd Hj. apply Hnone. lia.
Qed.

Lemma find_motor_node_some (g : Config.Globals) (s : string) (n i : nat) :
  (i + n <= length (Config.motor_list g))%nat ->
  (exists j node, (i <= j < i + n)%nat /\ Config.motor_list g !! j = Some node /\
                  Config.motor_config.name node = s) ->
  exists k, Config.find_motor_node g s n i = Ok (Some k).
Proof.
  revert i. induction n as [|n IH]; intros i Hb (j & node & Hj & Hnode & Hname); [lia|].
  destruct (lookup_lt_is_Some_2 (Config.motor_list g) i) as (nd & Hnd); [lia|].
  cbn [Config.find_motor_node]. rewrite (array_get_Some _ _ _ Hnd). cbn [bind].
  destruct (Config.strncmp_eq s (Config.motor_config.name nd) MOTOR_NAME_LEN) eqn:E;
    [eauto|].
  apply IH; [lia|]. exists j, node. split; [|auto].
  destruct (decide (j = i)) as [->|]; [|lia].
  assert (nd = node) as -> by congruence. rewrite Hname, strncmp_eq_refl in E. discriminate.
Qed.

Lemma lookup_undefined (g : Config.Globals) (s : string) :
  table_ok g -> (String.length s <= 31)%nat -> ~ defined_before g s ->
  Config.get_motor_node_by_name g s = Ok None.
Proof.
  intros (H0 & H1) Hlen Hnot. unfold Config.get_motor_node_by_name.
  apply find_motor_node_none.
  - unfold MOTOR_NAME_LEN. lia.
  - lia.
  - intros j node Hj Hnode Hname. apply Hnot. exists j, node. repeat split; auto. lia.
Qed.

Lemma lookup_defined (g : Config.Globals) (s : string) :
  table_ok g -> defined_before g s ->
  exists k, Config.get_motor_node_by_name g s = Ok (Some k).
Proof.
  intros (H0 & H1) (j & node & Hj & Hnode & Hname). unfold Config.get_motor_node_by_name.
  apply find_motor_node_some; [lia|]. exists j, node. repeat split; auto; lia.
Qed.

(** ** The list of motors of an axis *)

(** The scan of a name stores it and stops at the character that
    follows it. *)
Lemma read_name_loop_name (s : string) (c : ascii) (rest : list ascii)
  (value_offset off : nat) (g : Config.Globals) :
  name_chars s = true ->
  (value_offset + String.length s <= 31)%nat ->
  name_char c = false ->
  Config.read_name_loop (list_ascii_of_string s ++ c :: rest) value_offset off g 0
    = (s, (off + String.length s)%nat, after_name c g).
Proof.
  intros Hs Hlen Hc. revert value_offset off Hlen.
  induction s as [|d s IH]; intros vo off Hlen.
  - cbn [list_ascii_of_string app Config.read_name_loop String.length].
    unfold name_char in Hc. rewrite Hc.
    rewrite Nat.add_0_r. unfold after_name.
    destruct (Ascii.eqb c ","%char); [reflexivity|].
    destruct (Config.isblank c || Ascii.eqb c "#"%char || Ascii.eqb c Config.newline);
      reflexivity.
  - cbn [name_chars] in Hs. apply andb_true_iff in Hs. destruct Hs as (Hd & Hs).
    cbn [list_ascii_of_string app Config.read_name_loop String.length] in *.
    unfold name_char in Hd. rewrite Hd.
    destruct (Nat.ltb_spec vo (Config.PARAM_MAX_LEN - 1)) as [_|Hge];
      [|unfold Config.PARAM_MAX_LEN in Hge; lia].
    rewrite (IH Hs (S vo) (S off)) by lia.
    replace (S off + String.length s)%nat with (off + S (String.length s))%nat by lia.
    reflexivity.
Qed.

(** After a delimiter the scan reports no error. *)
Lemma after_name_delim (c : ascii) (g : Config.Globals) :
  is_delim c = true ->
  Config.scan_error (after_name c g) = 0 /\
  Config.motor_list (Config.scan_globals (after_name c g)) = Config.motor_list g /\
  Config.motor_list_len (Config.scan_globals (after_name c g)) = Config.motor_list_len g /\
  Config.err_str (Config.scan_globals (after_name c g)) = Config.err_str g.
Proof.
  unfold is_delim, after_name. intros H.
  destruct (Ascii.eqb c ","%char); [repeat split|].
  cbn [orb] in H. rewrite H. repeat split.
Qed.

Lemma defined_before_ext (g g' : Config.Globals) (s : string) :
  Config.motor_list g' = Config.motor_list g ->
  Config.motor_list_len g' = Config.motor_list_len g ->
  defined_before g s -> defined_before g' s.
Proof.
  intros H1 H2 (i & node & Hi & Hn & Hname). exists i, node. rewrite H1, H2. auto.
Qed.

Lemma drop_past_name (buf : list ascii) (off : nat) (s : string) (c : ascii)
  (tail : list ascii) :
  drop off buf = list_ascii_of_string s ++ c :: tail ->
  drop (S (off + String.length s)) buf = tail.
Proof.
  intros H. replace (S (off + String.length s)) with (off + S (String.length s))%nat by lia.
  rewrite <- drop_drop, H.
  change (list_ascii_of_string s ++ c :: tail)
    with (list_ascii_of_string s ++ [c] ++ tail).
  rewrite app_assoc. apply drop_app_length'.
  rewrite length_app, length_list_ascii. cbn. lia.
Qed.

Section UnknownMotor.

Variables (unknown : string) (delim : ascii) (rest buf : list ascii).
Hypothesis unknown_ok : name_ok unknown.
Hypothesis delim_ends : name_char delim = false.

(** The loop goes over the known names, appending them to the axis, and
    stops with an error at the unknown one; when that name is followed
    by a delimiter, the error is the one that names it. *)
Lemma read_motor_list_loop_unknown (known : list string) :
  forall (fuel off : nat) (g : Config.Globals) (node : Config.axis_config.t),
    drop off buf = motor_names_text known unknown ++ delim :: rest ->
    Forall (fun s => name_ok s /\ defined_before g s) known ->
    ~ defined_before g unknown ->
    table_ok g ->
    Config.entry (Config.axis_list g) (Config.axis_list_len g - 1) = Ok node ->
    0 <= Config.axis_config.count node ->
    Config.axis_config.count node + Z.of_nat (length known) <= MOTOR_LIST_SIZE_MAX ->
    (length known < fuel)%nat ->
    exists off' g',
      Config.read_motor_list_loop fuel buf off g = Ok (unknown, off', g') /\
      Config.motor_config_state g' = Config.ERROR /\
      (is_delim delim = true -> Config.err_str g' = unknown_motor_line unknown).
Proof.
  induction known as [|s known IH];
    intros fuel off g node Hdrop Hknown Hunknown Htable Hentry Hc0 Hc8 Hfuel;
    (destruct fuel as [|fuel]; [cbn in Hfuel; lia|]).
  - cbn [motor_names_text] in Hdrop. destruct unknown_ok as (Hchars & Hlen).
    destruct (is_delim delim) eqn:Hdelim; eexists _, _;
      cbn [Config.read_motor_list_loop]; rewrite Hdrop;
      rewrite read_name_loop_name by (auto; lia).
    + destruct (after_name_delim delim g Hdelim) as (He & Hml & Hmll & _).
      rewrite He. change (0 =? 0) with true. cbv iota.
      destruct (Nat.ltb_spec 0 (String.length unknown)) as [_|]; [|lia].
      rewrite lookup_undefined; cycle 1.
      { unfold table_ok. rewrite Hml, Hmll. exact Htable. }
      { lia. }
      { intros H. apply Hunknown. revert H. apply defined_before_ext; auto. }
      cbn [bind]. split; [reflexivity|]. split; [reflexivity|]. intros _. reflexivity.
    + assert (after_name delim g
              = Config.mkScan
                  (Config.set_err_str g
                     (Config.snprintf (Config.ERROR_STR_LEN - 1)
                        ("Invalid char (" ++ Config.chr delim ++ " [0x" ++ Config.hex2 delim
                         ++ "]) at type identifier in " ++ Config.MOTOR_CONFIG_NAME)))
                  1 0) as ->.
      { unfold after_name, is_delim in *.
        destruct (Ascii.eqb delim ","%char); [discriminate|].
        cbn [orb] in Hdelim. rewrite Hdelim. reflexivity. }
      cbn [Config.scan_error Config.scan_globals]. change (1 =? 0) with false. cbv iota.
      split; [reflexivity|]. split; [reflexivity|]. discriminate.
  - cbn [motor_names_text] in Hdrop.
    rewrite <- app_assoc in Hdrop. rewrite <- app_comm_cons in Hdrop.
    apply Forall_cons in Hknown. destruct Hknown as (((Hchars & Hlen) & Hdef) & Hknown).
    destruct (lookup_defined g s Htable Hdef) as (k & Hk).
    cbn [length] in Hc8. unfold MOTOR_LIST_SIZE_MAX in *.
    set (node' := Config.with_axis_motors node
                    (wrap_uint (Config.axis_config.count node + 1))
                    (<[Z.to_nat (Config.axis_config.count node) := Some k]>
                       (Config.axis_config.motors node))).
    set (g1 := Config.set_axis_list g
                 (<[Z.to_nat (Config.axis_list_len g - 1) := node']> (Config.axis_list g))).
    assert (Config.entry (Config.axis_list g1) (Config.axis_list_len g1 - 1) = Ok node')
      as Hentry1.
    { unfold Config.entry in *. subst g1. cbn.
      destruct (Config.axis_list_len g - 1 <? 0); [discriminate|].
      apply array_get_Ok in Hentry. apply array_get_Some.
      apply list_lookup_insert_eq. eapply lookup_lt_Some; eauto. }
    destruct (IH fuel (S (off + String.length s)) g1 node') as (off' & g' & H1 & H2 & H3).
    + eapply drop_past_name; eauto.
    + eapply Forall_impl; [exact Hknown|]. intros t (Ht1 & Ht2). split; [exact Ht1|].
      revert Ht2. apply defined_before_ext; reflexivity.
    + intros H. apply Hunknown. revert H. apply defined_before_ext; reflexivity.
    + exact Htable.
    + exact Hentry1.
    + subst node'. cbn. unfold wrap_uint. rewrite Z.mod_small; lia.
    + subst node'. cbn. unfold wrap_uint. rewrite Z.mod_small; lia.
    + cbn in Hfuel. lia.
    + exists off', g'. split; [|auto].
      cbn [Config.read_motor_list_loop]. rewrite Hdrop.
      rewrite read_name_loop_name by (auto; lia).
      unfold after_name. rewrite Ascii.eqb_refl.
      cbn [Config.scan_error Config.scan_globals Config.scan_stop].
      change (0 =? 0) with true. cbv iota.
      destruct (Nat.ltb_spec 0 (String.length s)) as [_|]; [|lia].
      rewrite Hk. cbn [bind].
      unfold Config.append_motor. rewrite Hentry. cbn [bind].
      destruct (Z.ltb_spec (Config.axis_config.count node) MOTOR_LIST_SIZE_MAX) as [_|];
        [|unfold MOTOR_LIST_SIZE_MAX in *; lia].
      cbn [bind]. exact H1.
Qed.

End UnknownMotor.

(** ** The error line *)

Lemma strncpy_append (a b : string) (n : nat) :
  (String.length a <= n)%nat -> strncpy (a ++ b) n = (a ++ strncpy b (n - String.length a))%string.
Proof.
  revert n. induction a as [|c a IH]; intros n Hn; cbn in *.
  - rewrite Nat.sub_0_r. reflexivity.
  - destruct n as [|n]; [lia|]. cbn. rewrite IH by lia. reflexivity.
Qed.

Lemma name_chars_no_NUL (s : string) : name_chars s = true -> no_NUL s = true.
Proof.
  induction s as [|c s IH]; cbn; [reflexivity|]. intros H.
  apply andb_true_iff in H. destruct H as (Hc & Hs). rewrite (IH Hs), andb_true_r.
  destruct (Ascii.eqb c Config.NUL) eqn:E; [|reflexivity].
  apply Ascii.eqb_eq in E. subst c. discriminate.
Qed.

Lemma c_str_append (a b : string) :
  no_NUL a = true -> Config.c_str (a ++ b) = (a ++ Config.c_str b)%string.
Proof.
  induction a as [|c a IH]; intros H; cbn in *; [reflexivity|].
  apply andb_true_iff in H. destruct H as (Hc & Ha).
  apply negb_true_iff in Hc. rewrite Hc, IH by exact Ha. reflexivity.
Qed.

Lemma prefix_append (a b : string) : String.prefix a (a ++ b) = true.
Proof.
  induction a as [|c a IH]; cbn; [destruct b; reflexivity|].
  destruct (ascii_dec c c); [exact IH | contradiction].
Qed.

Lemma string_append_assoc (a b c : string) : ((a ++ b) ++ c = a ++ b ++ c)%string.
Proof. induction a as [|x a IH]; cbn; [reflexivity|]. rewrite IH. reflexivity. Qed.

Lemma string_length_append (a b : string) :
  String.length (a ++ b) = (String.length a + String.length b)%nat.
Proof. induction a as [|x a IH]; cbn; [reflexivity|]. rewrite IH. reflexivity. Qed.

(** A formatted text without NUL that fits the buffer is kept whole. *)
Lemma snprintf_prefix (a b : string) (n : nat) :
  no_NUL a = true -> (String.length a < n)%nat ->
  String.prefix a (Config.snprintf n (a ++ b)) = true.
Proof.
  intros Ha Hn. unfold Config.snprintf.
  rewrite strncpy_append by lia. rewrite c_str_append by exact Ha. apply prefix_append.
Qed.

(** The line names the motor in full. *)
Lemma unknown_motor_line_names (s : string) :
  name_ok s -> String.prefix ("Motor " ++ s) (unknown_motor_line s) = true.
Proof.
  intros (Hchars & Hlen). unfold unknown_motor_line.
  rewrite <- string_append_assoc. apply snprintf_prefix.
  - cbn. apply name_chars_no_NUL. exact Hchars.
  - rewrite string_length_append. unfold Config.ERROR_STR_LEN. cbn. lia.
Qed.

(** ** Runs of the machine *)

Lemma run_advance (k f : nat) (m0 m : Config.Machine) :
  Config.advance k m0 = Ok m -> Config.run (k + S f) m0 = Config.run (S f) m.
Proof.
  revert m0. induction k as [|k IH]; intros m0 H; cbn [Config.advance] in H.
  - injection H as ->. reflexivity.
  - cbn [Nat.add Config.run]. destruct (Config.stop m0 =? 0) eqn:E.
    + ok_inv H. rewrite Hx. cbn [bind]. apply IH. exact H.
    + injection H as ->. cbn [Config.run]. rewrite E. reflexivity.
Qed.

Lemma run_more (f f' : nat) (m r : Config.Machine) :
  Config.run f m = Ok r -> (f <= f')%nat -> Config.run f' m = Ok r.
Proof.
  revert f' m. induction f as [|f IH]; intros f' m H Hle; [discriminate|].
  destruct f' as [|f']; [lia|]. cbn [Config.run] in *.
  destruct (Config.stop m =? 0); [|exact H].
  ok_inv H. rewrite Hx. cbn [bind]. apply IH; [exact H | lia].
Qed.

(** Nothing is written to stderr before the machine stops. *)
Lemma step_stderr (m m' : Config.Machine) :
  Config.step m = Ok m' ->
  Config.stderr m' = Config.stderr m \/ Config.stop m' = 1.
Proof.
  unfold Config.step. intros H.
  destruct (Config.motor_config_state (Config.globals m));
    repeat match type of H with
           | (let '(_, _) := ?e in _) = _ => destruct e
           | bind _ _ = Ok _ => ok_inv H
           | (let '(_, _) := ?x in _) = _ => destruct x
           end;
    try (injection H as <-; cbn; auto; fail).
Qed.

Lemma advance_stderr (k : nat) (m0 m : Config.Machine) :
  Config.advance k m0 = Ok m -> Config.stderr m0 = [] -> Config.stop m = 0 ->
  Config.stderr m = [].
Proof.
  revert m0. induction k as [|k IH]; intros m0 H H0 Hstop; cbn [Config.advance] in H.
  - injection H as <-. exact H0.
  - destruct (Config.stop m0 =? 0) eqn:E; [|injection H as <-; exact H0].
    ok_inv H. rename x into m1.
    destruct (step_stderr _ _ Hx) as [Hs|Hs].
    + eapply IH; eauto. congruence.
    + destruct k as [|k]; cbn [Config.advance] in H.
      * injection H as <-. rewrite Hs in Hstop. discriminate.
      * rewrite Hs in H. cbn in H. injection H as <-. rewrite Hs in Hstop. discriminate.
Qed.

(** ** Unknown motors *)

Lemma motor_names_text_length (known : list string) (last : string) :
  (length known <= length (motor_names_text known last))%nat.
Proof.
  induction known as [|s known IH]; cbn; [lia|].
  rewrite length_app. cbn. lia.
Qed.

(** C7.  Let the parser reach, after [k] turns of its loop, the list of
    motors of an axis, in which the names [known] of motors of the table,
    each followed by a comma, come before the name [unknown] of no motor
    of the table, that is of no motor defined above in the file.  Then the
    parse fails: with enough fuel [read_motor_config] returns -1, it
    writes one line to stderr, and no Stepper and no Axis is constructed.
    When the unknown name is followed by a comma, a blank, a [#] or the
    end of the line, that line is the one that names the unknown motor.
    (The table holds at most 8 motors and the axis at most 8 names, beyond
    which the C code writes outside its arrays.) *)
Theorem unknown_motor_fails_parsing
  (file : Config.FILE) (g : Config.Globals) (w : World) (k : nat) (m : Config.Machine)
  (known : list string) (unknown : string) (delim : ascii) (rest : list ascii)
  (node : Config.axis_config.t) :
  Config.advance k (Config.start file (Config.clear_lists g)) = Ok m ->
  Config.stop m = 0 ->
  Config.motor_config_state (Config.globals m) = Config.READ_MOTOR_LIST ->
  drop (Config.offset m) (Config.line_buff m)
    = motor_names_text known unknown ++ delim :: rest ->
  name_char delim = false ->
  Forall (fun s => name_ok s /\ defined_before (Config.globals m) s) known ->
  name_ok unknown ->
  ~ defined_before (Config.globals m) unknown ->
  table_ok (Config.globals m) ->
  Config.entry (Config.axis_list (Config.globals m))
               (Config.axis_list_len (Config.globals m) - 1) = Ok node ->
  0 <= Config.axis_config.count node ->
  Config.axis_config.count node + Z.of_nat (length known) <= MOTOR_LIST_SIZE_MAX ->
  exists N g' w' line,
    (forall fuel, (N <= fuel)%nat ->
       Config.read_motor_config fuel (Some file) g w = Ok (-1, g', w')) /\
    trace w' = trace w ++ [EvStderr line] /\
    steppers w' = steppers w /\ axes w' = axes w /\
    (is_delim delim = true ->
     line = unknown_motor_line unknown /\
     String.prefix ("Motor " ++ unknown) line = true).
Proof.
  intros Hadv Hstop Hstate Hdrop Hdelim Hknown Hunknown Hundef Htable Hentry Hc0 Hc8.
  destruct (read_motor_list_loop_unknown unknown delim rest (Config.line_buff m)
              Hunknown Hdelim known (S (S (length (Config.line_buff m))))
              (Config.offset m) (Config.globals m) node Hdrop Hknown Hundef Htable
              Hentry Hc0 Hc8) as (off' & g' & Hloop & Hst' & Herr').
  { pose proof (motor_names_text_length known unknown) as H1.
    assert (length (drop (Config.offset m) (Config.line_buff m))
            <= length (Config.line_buff m))%nat as H2 by (rewrite length_drop; lia).
    rewrite Hdrop, length_app in H2. lia. }
  assert (Config.stderr m = []) as Hquiet.
  { eapply advance_stderr; eauto. }
  set (m1 := Config.mkMachine g' (Config.config_file m) (Config.stop m) (Config.error m)
               (Config.line_buff m) off' (Config.param m) (Config.param_size m)
               (Config.param_id m) unknown (Config.value_size m) (Config.last_id m)
               (Config.stderr m)).
  assert (Config.step m = Ok m1) as Hstep.
  { unfold Config.step. rewrite Hstate. unfold Config.state_read_motor_list.
    rewrite Hloop. reflexivity. }
  set (m2 := Config.mkMachine g' (Config.config_file m) 1 1 [] off' (Config.param m)
               (Config.param_size m) (Config.param_id m) unknown (Config.value_size m)
               (Config.last_id m) [Config.err_str g']).
  assert (Config.step m1 = Ok m2) as Hstep1.
  { unfold Config.step. subst m1 m2. cbn. rewrite Hst', Hquiet. reflexivity. }
  assert (Config.run (k + 3) (Config.start file (Config.clear_lists g)) = Ok m2) as Hrun.
  { rewrite (run_advance k 2 _ m Hadv). cbn [Config.run]. rewrite Hstop, Hstep.
    cbn [bind Z.eqb]. change (Config.stop m1) with (Config.stop m). rewrite Hstop.
    cbn [Z.eqb]. rewrite Hstep1. reflexivity. }
  exists (k + 3)%nat, g', (emit w (EvStderr (Config.err_str g'))), (Config.err_str g').
  split; [|split; [reflexivity|split; [reflexivity|split; [reflexivity|]]]].
  - intros fuel Hfuel. unfold Config.read_motor_config, Config.motor_config_state_machine.
    rewrite (run_more _ fuel _ _ Hrun Hfuel). reflexivity.
  - intros Hd. rewrite (Herr' Hd). split; [reflexivity|].
    apply unknown_motor_line_names. exact Hunknown.
Qed.

Lemma unknown_motor_fails_parsing_witness :
  exists N g' w' line,
    (forall fuel, (N <= fuel)%nat ->
       Config.read_motor_config fuel (Some axis_of_unknown_motor) Config.initial_globals
         no_objects = Ok (-1, g', w')) /\
    trace w' = trace no_objects ++ [EvStderr line] /\
    steppers w' = steppers no_objects /\ axes w' = axes no_objects /\
    (is_delim Config.newline = true ->
     line = unknown_motor_line "b" /\
     String.prefix ("Motor " ++ "b") line = true).
Proof.
  eapply (unknown_motor_fails_parsing axis_of_unknown_motor Config.initial_globals
            no_objects 20 _ ["a"%string] "b" Config.newline [Config.NUL]).
  - vm_compute. reflexivity.
  - reflexivity.
  - reflexivity.
  - reflexivity.
  - reflexivity.
  - constructor; [|constructor]. split.
    + split; [reflexivity | cbn; lia].
    + exists 0%nat. eexists. split; [cbn; lia|]. split; reflexivity.
  - split; [reflexivity | cbn; lia].
  - intros (i & node & Hi & Hnode & Hname). cbn in Hi.
    destruct i as [|i]; [|lia]. cbn in Hnode. injection Hnode as <-. discriminate.
  - split; vm_compute; discriminate.
  - reflexivity.
  - vm_compute. discriminate.
  - vm_compute. discriminate.
Defined.

(** C7, as stated for every list, fails in the line that is written.
    When the undefined name [b] ends the file without a newline, the
    scan of the name runs into the NUL of the line and the line written
    is the one of an invalid character, cut at that NUL; when the
    undefined name has 32 characters, it is the one of a value that is
    too long.  Neither names the motor.  In both cases the parse fails
    with -1 and constructs nothing. *)
Lemma unknown_motor_not_named :
  (exists g' w',
     Config.read_motor_config 200 (Some axis_of_unknown_motor_unterminated)
       Config.initial_globals no_objects = Ok (-1, g', w') /\
     trace w' = [EvStderr "Invalid char ("] /\
     steppers w' = [] /\ axes w' = []) /\
  (exists g' w',
     Config.read_motor_config 200 (Some axis_of_long_unknown_motor)
       Config.initial_globals no_objects = Ok (-1, g', w') /\
     trace w' = [EvStderr "Value has exceeded max length in motor.conf"] /\
     steppers w' = [] /\ axes w' = []).
Proof.
  split; eexists _, _; (split; [vm_compute; reflexivity|]); repeat split.
Qed.

(** ** Names that are only prefixes *)

Lemma strncmp_eq_prefix (a s : string) :
  Config.strncmp_eq (a ++ s) a (String.length a) = true.
Proof.
  induction a as [|c a IH]; cbn; [reflexivity|]. rewrite Ascii.eqb_refl. exact IH.
Qed.

(** C8.  The failing inputs: an identifier or a key that continues a
    valid name is taken for that name.  Every identifier that starts with
    [motor] opens a motor section, every key of a motor section that
    starts with [name] sets the name, and the key [motors], which is not a
    parameter of a motor, starts a list of motors there.  The file of the
    lines [[motorx]] and [namefoo=bar] is parsed without an error, to a
    motor of name [bar]. *)
Theorem prefixed_names_accepted :
  (forall s g, exists g',
     Config.state_set_identifier ("motor" ++ s) g = (Config.MOTOR, g') /\
     Config.motor_config_state g' = Config.CLEANUP) /\
  (forall s g,
     Config.state_check_param ("name" ++ s) Config.MOTOR g
       = Ok (Config.MOTOR_NAME, Config.set_state g Config.READ_VALUE)) /\
  (forall g,
     Config.state_check_param "motors" Config.MOTOR g
       = Ok (Config.MOTOR_LIST, Config.set_state g Config.READ_MOTOR_LIST)) /\
  parse 100 prefixed_names = Ok (0, Config.FINISHED, 1, 0, ["bar"%string]).
Proof.
  split; [|split; [|split]].
  - intros s g. unfold Config.state_set_identifier.
    pose proof (strncmp_eq_prefix "motor" s) as H.
    change (String.length "motor") with 5%nat in H. rewrite H.
    eexists. split; reflexivity.
  - intros s g. reflexivity.
  - intros g. reflexivity.
  - vm_compute. reflexivity.
Qed.

(** ** More sections than the lists hold *)

(** C9.  The failing input: the routine that opens a section counts it
    without looking at the size of the list, so that a file of nine motor
    sections is parsed without an error, to a list of length 9; and when a
    parameter of the ninth section follows, it is written to
    [motor_list[8]], outside the array of 8 entries. *)
Theorem ninth_section_not_rejected :
  (forall g,
     Config.state_set_identifier "motor" g
       = (Config.MOTOR,
          Config.set_state (Config.set_motor_list_len g (Config.motor_list_len g + 1))
            Config.CLEANUP)) /\
  (forall g,
     Config.state_set_identifier "axis" g
       = (Config.AXIS,
          Config.set_state (Config.set_axis_list_len g (Config.axis_list_len g + 1))
            Config.CLEANUP)) /\
  parse 100 nine_motors = Ok (0, Config.FINISHED, 9, 0, [EmptyString]) /\
  parse 100 nine_motors_named = Undefined /\
  Config.read_motor_config 100 (Some nine_motors_named) Config.initial_globals no_objects
    = Undefined.
Proof.
  split; [|split; [|split; [|split]]].
  - intros g. reflexivity.
  - intros g. reflexivity.
  - vm_compute. reflexivity.
  - vm_compute. reflexivity.
  - vm_compute. reflexivity.
Qed.

(** * Further properties *)

(** ** Time.c *)

Lemma checked_long_Ok (z : Z) :
  Time.LONG_MIN <= z <= Time.LONG_MAX -> Time.checked_long z = Ok z.
Proof.
  intros H. unfold Time.checked_long.
  destruct (Z.leb_spec Time.LONG_MIN z); [|lia].
  destruct (Z.leb_spec z Time.LONG_MAX); [reflexivity|lia].
Qed.

(** X1.  [microsec_to_timespec] gives the normalized [timespec] of [us]
    microseconds exactly when [us] is below one million, that is below
    one second. *)
Theorem microsec_to_timespec_exact (us : Z) :
  0 <= us <= UINT_MAX ->
  (Time.microsec_to_timespec us = timespec_of_microsec us <-> us < 1000000).
Proof.
  intros Hus. unfold Time.microsec_to_timespec, timespec_of_microsec, wrap_uint,
    Time.NANO_IN_MICRO, Time.NANO_IN_SECOND, Time.MICRO_IN_SECOND, UINT_MAX in *.
  split.
  - intros Heq. destruct (Z.ltb_spec 1000000000 ((us * 1000) mod 4294967296)) as [Hgt|Hle].
    + injection Heq as Hs Hn.
      destruct (Z.lt_ge_cases us 1000000) as [|Hbig]; [assumption|exfalso].
      set (n := (us * 1000) mod 4294967296) in *.
      assert (0 <= n < 4294967296) as Hn0 by (apply Z.mod_pos_bound; lia).
      rewrite Z.rem_mod_nonneg in Hs, Hn by lia.
      pose proof (Z.div_mod us 1000000 ltac:(lia)) as Hdm.
      pose proof (Z.mod_pos_bound us 1000000 ltac:(lia)) as Hr.
      pose proof (Z.div_mod n 1000000000 ltac:(lia)) as Hdn.
      pose proof (Z.mod_pos_bound n 1000000000 ltac:(lia)) as Hrn.
      assert (1 <= us / 1000000) as Hq by (apply Z.div_le_lower_bound; lia).
      assert (n / 1000000000 <= 4) as Hq4 by (apply Z.div_le_upper_bound; lia).
      lia.
    + injection Heq as Hs Hn.
      destruct (Z.lt_ge_cases us 1000000) as [|Hbig]; [assumption|exfalso].
      assert (1 <= us / 1000000) as Hq by (apply Z.div_le_lower_bound; lia).
      lia.
  - intros Hlt. rewrite (Z.mod_small (us * 1000)) by lia.
    destruct (Z.ltb_spec 1000000000 (us * 1000)) as [|_]; [lia|].
    rewrite Z.div_small, Z.mod_small by lia. reflexivity.
Qed.

Lemma microsec_to_timespec_exact_witness :
  Time.microsec_to_timespec 500 = timespec_of_microsec 500 <-> 500 < 1000000.
Proof. apply (microsec_to_timespec_exact 500). unfold UINT_MAX. lia. Defined.

(** X2.  Every half period that a successful [stepper_set_speed_multiple]
    stores lies between 120 and 500000 microseconds, and the pulse
    duration that the worker derives from it with [microsec_to_timespec]
    is exact: no seconds and 1000 nanoseconds per microsecond. *)
Theorem half_period_sleeps_exactly (ms : list ptr) (pps cnt : Z) (w w' : World) :
  0 < pps ->
  stepper_set_speed_multiple (Some ms) pps cnt w = Ok (0, w') ->
  forall i, (i < Z.to_nat cnt)%nat ->
    exists a m, ms !! i = Some (Some a) /\ steppers w' !! a = Some m /\
                120 <= half_period m <= 500000 /\
                Time.microsec_to_timespec (half_period m)
                  = Time.mkTimespec 0 (half_period m * 1000).
Proof.
  intros Hpps H i Hi. unfold stepper_set_speed_multiple in H.
  destruct (pps =? 0); [discriminate|].
  destruct ((cnt =? 0) || (MOTOR_LIST_SIZE_MAX <? cnt)); [discriminate|].
  unfold MAX_PPS in H.
  set (p := if 4160 <? pps then 4160 else pps) in H.
  assert (0 < p <= 4160) as Hp by (subst p; destruct (Z.ltb_spec 4160 pps); lia).
  destruct (set_speed_loop_sets ms p (Z.to_nat cnt) 0 w w' H i ltac:(lia))
    as (a & m & Ha & Hm & Hhp).
  exists a, m. split; [exact Ha|]. split; [exact Hm|].
  assert (120 <= half_period m <= 500000) as Hrange.
  { rewrite Hhp. split.
    - apply Z.div_le_lower_bound; lia.
    - apply Z.div_le_upper_bound; nia. }
  split; [exact Hrange|].
  unfold Time.microsec_to_timespec, wrap_uint, Time.NANO_IN_MICRO, Time.NANO_IN_SECOND.
  rewrite Z.mod_small by lia.
  destruct (Z.ltb_spec 1000000000 (half_period m * 1000)); [lia|reflexivity].
Qed.

Lemma half_period_sleeps_exactly_witness :
  exists a m, [Some 0%nat; Some 1%nat] !! 1%nat = Some (Some a) /\
              steppers (set_steppers two_motors
                          [with_half_period (idle_motor "left" 23) 120;
                           with_half_period (idle_motor "right" 18) 120]) !! a = Some m /\
              120 <= half_period m <= 500000 /\
              Time.microsec_to_timespec (half_period m)
                = Time.mkTimespec 0 (half_period m * 1000).
Proof.
  refine (half_period_sleeps_exactly [Some 0%nat; Some 1%nat] 5000 2 two_motors _ _ _ 1%nat _).
  - lia.
  - reflexivity.
  - simpl. lia.
Defined.

Ltac time_consts :=
  unfold normalized, seconds_small, total_ns, Time.NANO_IN_SECOND, Time.LONG_MIN,
    Time.LONG_MAX in *.

(** X3.  [add_time] keeps the sum of the two times, and its result is
    normalized unless the nanoseconds of the operands add up to one
    second exactly, in which case the carry is not taken. *)
Theorem add_time_total (ta tb : Time.timespec) :
  normalized ta -> normalized tb -> seconds_small ta -> seconds_small tb ->
  exists tc, Time.add_time ta tb = Ok tc /\
             total_ns tc = total_ns ta + total_ns tb /\
             (normalized tc <-> Time.tv_nsec ta + Time.tv_nsec tb <> Time.NANO_IN_SECOND).
Proof.
  intros Ha Hb Hsa Hsb. unfold Time.add_time. time_consts.
  rewrite !checked_long_Ok by (unfold Time.LONG_MIN, Time.LONG_MAX; lia). cbn [bind].
  unfold Time.NANO_IN_SECOND.
  destruct (Z.ltb_spec 1000000000 (Time.tv_nsec ta + Time.tv_nsec tb)) as [Hgt|Hle].
  - rewrite !checked_long_Ok by (unfold Time.LONG_MIN, Time.LONG_MAX; lia). cbn [bind].
    eexists. split; [reflexivity|]. cbn. split; lia.
  - eexists. split; [reflexivity|]. cbn. split; lia.
Qed.

Lemma add_time_total_witness :
  exists tc, Time.add_time (Time.mkTimespec 1 600000000) (Time.mkTimespec 2 400000000) = Ok tc /\
             total_ns tc = total_ns (Time.mkTimespec 1 600000000)
                           + total_ns (Time.mkTimespec 2 400000000) /\
             (normalized tc <-> 600000000 + 400000000 <> Time.NANO_IN_SECOND).
Proof.
  apply (add_time_total (Time.mkTimespec 1 600000000) (Time.mkTimespec 2 400000000));
    time_consts; cbn; lia.
Defined.

(** X4.  [sub_time] of two normalized times gives the normalized
    [timespec] of their difference, also when the second is the later
    one. *)
Theorem sub_time_total (ta tb : Time.timespec) :
  normalized ta -> normalized tb -> seconds_small ta -> seconds_small tb ->
  exists tc, Time.sub_time ta tb = Ok tc /\
             total_ns tc = total_ns ta - total_ns tb /\ normalized tc.
Proof.
  intros Ha Hb Hsa Hsb. unfold Time.sub_time. time_consts.
  rewrite !checked_long_Ok by (unfold Time.LONG_MIN, Time.LONG_MAX; lia). cbn [bind].
  destruct (Z.ltb_spec (Time.tv_nsec ta - Time.tv_nsec tb) 0) as [Hneg|Hpos].
  - unfold Time.NANO_IN_SECOND.
    rewrite !checked_long_Ok by (unfold Time.LONG_MIN, Time.LONG_MAX; lia). cbn [bind].
    eexists. split; [reflexivity|]. cbn. split; lia.
  - eexists. split; [reflexivity|]. cbn. split; lia.
Qed.

Lemma sub_time_total_witness :
  exists tc, Time.sub_time (Time.mkTimespec 1 100) (Time.mkTimespec 2 200) = Ok tc /\
             total_ns tc = total_ns (Time.mkTimespec 1 100) - total_ns (Time.mkTimespec 2 200) /\
             normalized tc.
Proof.
  apply (sub_time_total (Time.mkTimespec 1 100) (Time.mkTimespec 2 200));
    time_consts; cbn; lia.
Defined.

(** X5.  [sub_time] undoes [add_time]: the second operand subtracted
    from the sum gives the first operand back, also for the sum that
    [add_time] leaves without its carry. *)
Theorem sub_time_undoes_add_time (ta tb : Time.timespec) :
  normalized ta -> normalized tb -> seconds_small ta -> seconds_small tb ->
  exists tc, Time.add_time ta tb = Ok tc /\ Time.sub_time tc tb = Ok ta.
Proof.
  intros Ha Hb Hsa Hsb. destruct ta as [sa na], tb as [sb nb].
  unfold Time.add_time, Time.sub_time. time_consts. cbn in *.
  rewrite !checked_long_Ok by (unfold Time.LONG_MIN, Time.LONG_MAX; lia). cbn [bind].
  unfold Time.NANO_IN_SECOND.
  destruct (Z.ltb_spec 1000000000 (na + nb)) as [Hgt|Hle].
  - rewrite !checked_long_Ok by (unfold Time.LONG_MIN, Time.LONG_MAX; lia). cbn [bind].
    eexists. split; [reflexivity|]. cbn.
    rewrite !checked_long_Ok by (unfold Time.LONG_MIN, Time.LONG_MAX; lia). cbn [bind].
    destruct (Z.ltb_spec (na + nb - 1000000000 - nb) 0) as [_|]; [|lia].
    rewrite !checked_long_Ok by (unfold Time.LONG_MIN, Time.LONG_MAX; lia). cbn [bind].
    f_equal. f_equal; lia.
  - eexists. split; [reflexivity|]. cbn.
    rewrite !checked_long_Ok by (unfold Time.LONG_MIN, Time.LONG_MAX; lia). cbn [bind].
    destruct (Z.ltb_spec (na + nb - nb) 0) as [|_]; [lia|].
    f_equal. f_equal; lia.
Qed.

Lemma sub_time_undoes_add_time_witness :
  exists tc, Time.add_time (Time.mkTimespec 1 600000000) (Time.mkTimespec 2 400000000) = Ok tc /\
             Time.sub_time tc (Time.mkTimespec 2 400000000) = Ok (Time.mkTimespec 1 600000000).
Proof.
  apply (sub_time_undoes_add_time (Time.mkTimespec 1 600000000) (Time.mkTimespec 2 400000000));
    time_consts; cbn; lia.
Defined.

Lemma wrap_ulong_small (z : Z) : 0 <= z < 18446744073709551616 -> Time.wrap_ulong z = z.
Proof. intros H. unfold Time.wrap_ulong. apply Z.mod_small. exact H. Qed.

Lemma wrap_long_small (z : Z) : 0 <= z < 9223372036854775808 -> Time.wrap_long z = z.
Proof. intros H. unfold Time.wrap_long. rewrite Z.mod_small by lia. lia. Qed.

(** X6.  For a normalized time that is not negative and a divisor of at
    least one, [div_time] gives the normalized [timespec] of the quotient
    of the time, in nanoseconds, by the divisor, rounded down. *)
Theorem div_time_floor (ta : Time.timespec) (b : Z) :
  normalized ta -> 0 <= Time.tv_sec ta <= Time.LONG_MAX -> 1 <= b <= UINT_MAX ->
  normalized (Time.div_time ta b) /\
  total_ns (Time.div_time ta b) = total_ns ta / b.
Proof.
  intros Hn Hs Hb. destruct ta as [sec ns]. time_consts. unfold UINT_MAX in Hb. cbn in *.
  unfold Time.div_time. cbn [Time.tv_sec Time.tv_nsec].
  destruct (Z.eqb_spec b 0) as [|_]; [lia|].
  rewrite Z.quot_div_nonneg, Z.rem_mod_nonneg by lia.
  pose proof (Z.div_mod sec b ltac:(lia)) as Hdm.
  pose proof (Z.mod_pos_bound sec b ltac:(lia)) as Hr.
  assert (0 <= sec / b <= sec) as Hq.
  { split; [apply Z.div_pos; lia|]. apply Z.div_le_upper_bound; nia. }
  unfold Time.NANO_IN_SECOND.
  rewrite (wrap_ulong_small (sec / b)) by lia.
  rewrite (wrap_ulong_small (sec mod b)) by lia.
  rewrite (wrap_ulong_small (sec mod b * 1000000000)) by nia.
  rewrite (wrap_ulong_small ns) by lia.
  rewrite (wrap_ulong_small (sec mod b * 1000000000 + ns)) by nia.
  assert (0 <= (sec mod b * 1000000000 + ns) / b < 1000000000) as Hnew.
  { split; [apply Z.div_pos; nia|]. apply Z.div_lt_upper_bound; nia. }
  rewrite !wrap_long_small by lia. cbn [Time.tv_sec Time.tv_nsec].
  split; [exact Hnew|].
  replace (sec * 1000000000 + ns)
    with (sec / b * 1000000000 * b + (sec mod b * 1000000000 + ns)) by nia.
  rewrite Z.div_add_l by lia. reflexivity.
Qed.

Lemma div_time_floor_witness :
  normalized (Time.div_time (Time.mkTimespec 7 500000000) 2) /\
  total_ns (Time.div_time (Time.mkTimespec 7 500000000) 2)
    = total_ns (Time.mkTimespec 7 500000000) / 2.
Proof.
  apply (div_time_floor (Time.mkTimespec 7 500000000) 2);
    time_consts; unfold UINT_MAX; cbn; lia.
Defined.

(** X7.  For a normalized time that is not negative and a factor [b] of
    at least one, [mul_time] gives [b] times the time exactly when the
    product of the nanoseconds by [b] is at most one second, and its
    result is normalized exactly when that product is below one second:
    beyond, the nanoseconds of the result are a multiple of one second. *)
Theorem mul_time_exact_iff (ta : Time.timespec) (b : Z) :
  normalized ta -> 0 <= Time.tv_sec ta -> Time.tv_sec ta * b <= 4611686018427387904 ->
  1 <= b <= UINT_MAX ->
  exists tc, Time.mul_time ta b = Ok tc /\
             (total_ns tc = total_ns ta * b <-> Time.tv_nsec ta * b <= Time.NANO_IN_SECOND) /\
             (normalized tc <-> Time.tv_nsec ta * b < Time.NANO_IN_SECOND).
Proof.
  intros Hn Hs Hsb Hb. destruct ta as [sec ns]. time_consts. unfold UINT_MAX in Hb. cbn in *.
  unfold Time.mul_time. cbn [Time.tv_sec Time.tv_nsec].
  destruct (Z.eqb_spec b 0) as [|_]; [lia|].
  assert (0 <= sec * b) as Hs0 by nia.
  assert (0 <= ns * b < 4294967296000000000) as Hn0 by nia.
  rewrite !checked_long_Ok by (unfold Time.LONG_MIN, Time.LONG_MAX; lia). cbn [bind].
  rewrite (wrap_ulong_small (sec * b)), (wrap_ulong_small (ns * b)) by lia.
  unfold Time.NANO_IN_SECOND.
  destruct (Z.ltb_spec 1000000000 (ns * b)) as [Hgt|Hle].
  - pose proof (Z.div_mod (ns * b) 1000000000 ltac:(lia)) as Hdm.
    pose proof (Z.mod_pos_bound (ns * b) 1000000000 ltac:(lia)) as Hr.
    assert (1 <= ns * b / 1000000000 <= 4294967296) as Hq.
    { split; [apply Z.div_le_lower_bound; lia|]. apply Z.div_le_upper_bound; lia. }
    rewrite (wrap_ulong_small (sec * b + ns * b / 1000000000)) by lia.
    rewrite (wrap_ulong_small (ns * b - (ns * b) mod 1000000000)) by lia.
    rewrite !wrap_long_small by lia.
    eexists. split; [reflexivity|]. cbn [Time.tv_sec Time.tv_nsec]. split; split; lia.
  - rewrite !wrap_long_small by lia.
    eexists. split; [reflexivity|]. cbn [Time.tv_sec Time.tv_nsec]. split; split; lia.
Qed.

Lemma mul_time_exact_iff_witness :
  exists tc, Time.mul_time (Time.mkTimespec 1 600000000) 3 = Ok tc /\
             (total_ns tc = total_ns (Time.mkTimespec 1 600000000) * 3
              <-> 600000000 * 3 <= Time.NANO_IN_SECOND) /\
             (normalized tc <-> 600000000 * 3 < Time.NANO_IN_SECOND).
Proof.
  apply (mul_time_exact_iff (Time.mkTimespec 1 600000000) 3);
    time_consts; unfold UINT_MAX; cbn; lia.
Defined.

(** X8.  The three delays pause once, for a normalized [timespec] of
    exactly the time asked for, whatever it is from zero on. *)
Theorem delays_sleep_exactly (t : Z) :
  0 <= t ->
  exists a b c,
    Time.Delay_ms t = [Time.clock_nanosleep a] /\
    normalized a /\ total_ns a = t * 1000000 /\
    Time.Delay_us t = [Time.clock_nanosleep b] /\
    normalized b /\ total_ns b = t * 1000 /\
    Time.Delay_ns t = [Time.clock_nanosleep c] /\
    normalized c /\ total_ns c = t.
Proof.
  intros Ht. unfold Time.Delay_ms, Time.Delay_us, Time.Delay_ns.
  destruct (Z.ltb_spec t 0) as [|_]; [lia|].
  unfold Time.MILLI_IN_SECOND, Time.MICRO_IN_SECOND, Time.NANO_IN_SECOND,
    Time.NANO_IN_MILLI, Time.NANO_IN_MICRO.
  rewrite !Z.quot_div_nonneg, !Z.rem_mod_nonneg by lia.
  pose proof (Z.div_mod t 1000 ltac:(lia)).
  pose proof (Z.mod_pos_bound t 1000 ltac:(lia)).
  pose proof (Z.div_mod t 1000000 ltac:(lia)).
  pose proof (Z.mod_pos_bound t 1000000 ltac:(lia)).
  pose proof (Z.div_mod t 1000000000 ltac:(lia)).
  pose proof (Z.mod_pos_bound t 1000000000 ltac:(lia)).
  exists (Time.mkTimespec (t / 1000) (t mod 1000 * 1000000)),
         (Time.mkTimespec (t / 1000000) (t mod 1000000 * 1000)),
         (Time.mkTimespec (t / 1000000000) (t mod 1000000000)).
  time_consts. cbn [Time.tv_sec Time.tv_nsec].
  repeat (split; [reflexivity || lia|]). lia.
Qed.

Lemma delays_sleep_exactly_witness :
  exists a b c,
    Time.Delay_ms 1500 = [Time.clock_nanosleep a] /\
    normalized a /\ total_ns a = 1500 * 1000000 /\
    Time.Delay_us 1500 = [Time.clock_nanosleep b] /\
    normalized b /\ total_ns b = 1500 * 1000 /\
    Time.Delay_ns 1500 = [Time.clock_nanosleep c] /\
    normalized c /\ total_ns c = 1500.
Proof. apply (delays_sleep_exactly 1500). lia. Defined.

(** ** Stepper.c: directions *)

Lemma set_direction_abs_inv (motor : ptr) (direction : Z) (w w' : World) :
  stepper_set_direction_abs motor direction w = Ok (0, w') ->
  exists a m, motor = Some a /\ steppers w !! a = Some m /\
              is_valid_direction_abs direction = true /\
              stepper_is_busy m = false /\
              steppers w' = <[a := with_curr_direction m direction]> (steppers w) /\
              requests w' = requests w /\ axes w' = axes w.
Proof.
  unfold stepper_set_direction_abs. destruct motor as [a|]; [|discriminate].
  destruct (is_valid_direction_abs direction) eqn:Hv; [|discriminate]. cbn [negb].
  intros H. ok_inv H. apply load_stepper_Ok in Hx. destruct Hx as (a' & [= <-] & Hm).
  destruct (stepper_is_busy x) eqn:Hb; [discriminate|].
  unfold external in H. cbn [ext_ok ext_calls emit] in H.
  destruct (ext_ok w (ext_calls w)); [|discriminate].
  cbn [negb] in H. injection H as <-.
  exists a, x. cbn. auto 10.
Qed.

(** X9.  When [stepper_set_direction_rel] returns 0 for a direction, the
    motor turns in that direction afterwards: [stepper_get_direction_rel]
    answers with the direction that was set. *)
Theorem direction_rel_round_trip (motor : ptr) (direction : Z) (w w' : World) :
  stepper_set_direction_rel motor direction w = Ok (0, w') ->
  stepper_get_direction_rel motor w' = Ok direction.
Proof.
  unfold stepper_set_direction_rel. destruct motor as [a|]; [|discriminate].
  destruct (is_valid_direction_rel direction) eqn:Hv; [|discriminate]. cbn [negb].
  intros H. ok_inv H. apply load_stepper_Ok in Hx. destruct Hx as (a' & [= <-] & Hm).
  apply set_direction_abs_inv in H.
  destruct H as (a' & m & [= <-] & Hm' & _ & _ & Hs & _).
  rewrite Hm in Hm'. injection Hm' as <-.
  unfold stepper_get_direction_rel.
  assert (steppers w' !! a = Some (with_curr_direction x (rel_target x direction))) as Hw'.
  { rewrite Hs. apply list_lookup_insert_eq. eapply lookup_lt_Some; eauto. }
  rewrite (load_stepper_Some _ _ _ Hw'). cbn [bind curr_direction pos_direction with_curr_direction].
  f_equal. apply rel_target_direction. exact Hv.
Qed.

Lemma direction_rel_round_trip_witness :
  stepper_get_direction_rel (Some 1%nat)
    (store_stepper (snd (external (emit two_motors (EvSetValue 18 0)))) 1
       (with_curr_direction (idle_motor "right" 18) 0))
  = Ok DIRECTION_NEGATIVE.
Proof.
  apply (direction_rel_round_trip (Some 1%nat) DIRECTION_NEGATIVE two_motors).
  reflexivity.
Defined.

(** ** Stepper.c: requests *)

Lemma request_link_inv (l : list ptr) (r mx : nat) (n : nat) :
  forall (i : nat) (w w' : World),
    request_link l n i r mx w = Ok w' ->
    requests w' = requests w /\ axes w' = axes w /\
    length (steppers w') = length (steppers w) /\
    (forall j, (i <= j < i + n)%nat -> exists a, l !! j = Some (Some a) /\ linked w' r mx a) /\
    (forall a, linked w r mx a -> linked w' r mx a) /\
    (forall a, steps_of w' a = steps_of w a).
Proof.
  induction n as [|n IH]; intros i w w' H.
  - injection H as <-. repeat split; auto. intros j Hj. lia.
  - cbn [request_link] in H. ok_inv H. rename x into p. apply array_get_Ok in Hx.
    ok_inv H. rename x into m. destruct p as [a|]; [|discriminate].
    apply load_stepper_Ok in Hx0. destruct Hx0 as (a' & [= <-] & Hm).
    set (m' := with_shared_mutex (with_current_req m (Some r)) (Some mx)) in *.
    set (w1 := store_stepper w a m') in *.
    assert (a < length (steppers w))%nat as Hlt by (eapply lookup_lt_Some; eauto).
    assert (linked w1 r mx a) as Hla.
    { exists m'. subst w1. cbn. rewrite list_lookup_insert_eq by exact Hlt. auto. }
    destruct (IH _ _ _ H) as (H1 & H2 & H3 & H4 & H5 & H6).
    split; [rewrite H1; reflexivity|]. split; [rewrite H2; reflexivity|].
    split; [rewrite H3; subst w1; cbn; apply length_insert|].
    split; [|split].
    + intros j Hj. destruct (decide (j = i)) as [->|Hne].
      * exists a. split; [exact Hx|]. apply H5. exact Hla.
      * apply H4. lia.
    + intros b (mb & Hb1 & Hb2 & Hb3). apply H5.
      destruct (decide (a = b)) as [<-|Hne]; [exact Hla|].
      exists mb. subst w1. cbn. rewrite list_lookup_insert_ne by exact Hne. auto.
    + intros b. rewrite H6. subst w1. eapply steps_of_store; eauto.
Qed.

(** A request that could not be created leaves no trace in the motors
    and in the heap of requests. *)
Lemma create_request_none (l : list ptr) (cnt n_steps : Z) (w w' : World) :
  stepper_create_new_request l cnt n_steps w = Ok (None, w') ->
  steppers w' = steppers w /\ requests w' = requests w /\ axes w' = axes w.
Proof.
  unfold stepper_create_new_request, external.
  cbn [fst snd ext_ok ext_calls steppers requests axes next_mutex trace emit].
  destruct (ext_ok w (ext_calls w)); cbn [negb]; [|intros [= <-]; auto].
  intros H. ok_inv H. destruct x; cbn [negb] in H; [|injection H as <-; auto].
  ok_inv H.
  destruct (ext_ok w (S (ext_calls w))); cbn [negb] in H; [|injection H as <-; auto].
  destruct (ext_ok w (S (S (ext_calls w)))); cbn [negb] in H; [|injection H as <-; auto].
  destruct (ext_ok w (S (S (S (ext_calls w))))); cbn [negb] in H; [|injection H as <-; auto].
  ok_inv H. discriminate.
Qed.

Lemma create_request_some (l : list ptr) (cnt n_steps : Z) (w w' : World) (r : nat) :
  stepper_create_new_request l cnt n_steps w = Ok (Some r, w') ->
  exists mx rq,
    r = length (requests w) /\ requests w' = requests w ++ [Some rq] /\
    count rq = cnt /\ req_steps rq = n_steps /\
    axes w' = axes w /\ length (steppers w') = length (steppers w) /\
    (forall j, (j < Z.to_nat cnt)%nat -> exists a, l !! j = Some (Some a) /\ linked w' r mx a) /\
    (forall a, steps_of w' a = steps_of w a).
Proof.
  unfold stepper_create_new_request, external.
  cbn [fst snd ext_ok ext_calls steppers requests axes next_mutex trace emit].
  destruct (ext_ok w (ext_calls w)); cbn [negb]; [|discriminate].
  intros H. ok_inv H. destruct x; cbn [negb] in H; [|discriminate].
  ok_inv H. rename x into pins.
  destruct (ext_ok w (S (ext_calls w))); cbn [negb] in H; [|discriminate].
  destruct (ext_ok w (S (S (ext_calls w)))); cbn [negb] in H; [|discriminate].
  destruct (ext_ok w (S (S (S (ext_calls w))))); cbn [negb] in H; [|discriminate].
  ok_inv H. injection H as <- <-.
  apply request_link_inv in Hx1. destruct Hx1 as (H1 & H2 & H3 & H4 & _ & H6).
  eexists _, _. split; [reflexivity|]. split; [rewrite H1; reflexivity|].
  cbn [count req_steps]. split; [reflexivity|]. split; [reflexivity|].
  split; [rewrite H2; reflexivity|]. split; [rewrite H3; reflexivity|]. split.
  - intros j Hj. apply H4. lia.
  - intros a. rewrite H6. reflexivity.
Qed.

Lemma step_multiple_cases (ms : option (list ptr)) (n_steps cnt rv : Z) (w w' : World) :
  stepper_step_multiple ms n_steps cnt w = Ok (rv, w') ->
  rv = 0 \/
  (rv = -1 /\ steppers w' = steppers w /\ requests w' = requests w /\ axes w' = axes w).
Proof.
  unfold stepper_step_multiple. intros H.
  destruct ms as [l|]; [|injection H as <- <-; auto].
  destruct (n_steps =? 0); [injection H as <- <-; auto|].
  destruct ((cnt =? 0) || (MOTOR_LIST_SIZE_MAX <? cnt)); [injection H as <- <-; auto|].
  ok_inv H. rename x into p0. ok_inv H. rename x into m0.
  destruct (stepper_is_busy m0); [injection H as <- <-; auto|].
  ok_inv H. destruct x as (request & w1).
  destruct request as [r|].
  - destruct p0 as [a|]; [|discriminate]. ok_inv H. injection H as <- <-. auto.
  - injection H as <- <-. right. split; [reflexivity|]. eapply create_request_none; eauto.
Qed.

(** X10.  A call of [stepper_step_multiple] that does not return 0
    returns -1 and has changed no motor, no request and no axis: nothing
    of a request that could not be made is left behind. *)
Theorem step_multiple_rejected_unchanged
  (ms : option (list ptr)) (n_steps cnt rv : Z) (w w' : World) :
  stepper_step_multiple ms n_steps cnt w = Ok (rv, w') ->
  rv <> 0 ->
  rv = -1 /\ steppers w' = steppers w /\ requests w' = requests w /\ axes w' = axes w.
Proof.
  intros H Hrv. apply step_multiple_cases in H. destruct H as [|H]; [contradiction|exact H].
Qed.

Lemma step_multiple_rejected_unchanged_witness :
  -1 = -1 /\ steppers lines_refused_after = steppers lines_refused /\
  requests lines_refused_after = requests lines_refused /\
  axes lines_refused_after = axes lines_refused.
Proof.
  apply (step_multiple_rejected_unchanged (Some [Some 0%nat; Some 1%nat]) 50 2 (-1)
           lines_refused lines_refused_after).
  - reflexivity.
  - lia.
Defined.

Lemma linked_busy (w : World) (r mx a : nat) : linked w r mx a -> busy_in w a.
Proof.
  intros (m & Hm & _ & Hx). exists m. split; [exact Hm|].
  unfold stepper_is_busy. rewrite Hx. reflexivity.
Qed.

(** What a motor in a motion answers to the commands. *)
Lemma busy_rejects (w : World) (a : nat) :
  busy_in w a ->
  stepper_ready (Some a) w = Ok 0 /\
  (forall d, stepper_set_direction_abs (Some a) d w = Ok (-1, w)) /\
  (forall d, stepper_set_direction_rel (Some a) d w = Ok (-1, w)) /\
  (forall pps, stepper_set_speed (Some a) pps w = Ok (-1, w)) /\
  (forall k, stepper_step (Some a) k w = Ok (-1, w)).
Proof.
  intros (m & Hm & Hbusy).
  assert (forall d, stepper_set_direction_abs (Some a) d w = Ok (-1, w)) as Habs.
  { intros d. unfold stepper_set_direction_abs.
    destruct (is_valid_direction_abs d); [|reflexivity]. cbn [negb].
    rewrite (load_stepper_Some _ _ _ Hm). cbn [bind]. rewrite Hbusy. reflexivity. }
  split; [|split; [exact Habs|split; [|split]]].
  - unfold stepper_ready. rewrite (load_stepper_Some _ _ _ Hm). cbn [bind].
    rewrite Hbusy. reflexivity.
  - intros d. unfold stepper_set_direction_rel.
    destruct (is_valid_direction_rel d); [|reflexivity]. cbn [negb].
    rewrite (load_stepper_Some _ _ _ Hm). cbn [bind]. apply Habs.
  - intros pps. unfold stepper_set_speed, stepper_set_speed_multiple.
    destruct (pps =? 0); [reflexivity|].
    change ((1 =? 0) || (MOTOR_LIST_SIZE_MAX <? 1)) with false. cbv iota.
    change (Z.to_nat 1) with 1%nat. cbn [set_speed_loop]. unfold array_get.
    change ([Some a] !! 0%nat) with (Some (Some a)). cbn [bind].
    rewrite (load_stepper_Some _ _ _ Hm). cbn [bind]. rewrite Hbusy. reflexivity.
  - intros k. unfold stepper_step, stepper_step_multiple.
    destruct (k =? 0); [reflexivity|].
    change ((1 =? 0) || (MOTOR_LIST_SIZE_MAX <? 1)) with false. cbv iota.
    unfold array_get. change ([Some a] !! 0%nat) with (Some (Some a)). cbn [bind].
    rewrite (load_stepper_Some _ _ _ Hm). cbn [bind]. rewrite Hbusy. reflexivity.
Qed.

(** X11.  After [stepper_step_multiple] has returned 0, every motor of
    the list is in the motion: [stepper_ready] answers 0 for it, a change
    of its direction or speed and a further step request on it are
    rejected with the world unchanged, and its accumulator is what it was
    before the call. *)
Theorem accepted_request_makes_busy (ms : list ptr) (n_steps cnt : Z) (w w' : World) :
  stepper_step_multiple (Some ms) n_steps cnt w = Ok (0, w') ->
  forall i, (i < Z.to_nat cnt)%nat ->
    exists a, ms !! i = Some (Some a) /\
      stepper_ready (Some a) w' = Ok 0 /\
      (forall d, stepper_set_direction_abs (Some a) d w' = Ok (-1, w')) /\
      (forall d, stepper_set_direction_rel (Some a) d w' = Ok (-1, w')) /\
      (forall pps, stepper_set_speed (Some a) pps w' = Ok (-1, w')) /\
      (forall k, stepper_step (Some a) k w' = Ok (-1, w')) /\
      stepper_get_steps (Some a) w' = stepper_get_steps (Some a) w.
Proof.
  unfold stepper_step_multiple. intros H i Hi.
  destruct (n_steps =? 0); [discriminate|].
  destruct (Z.eqb_spec cnt 0) as [|Hne0]; [discriminate|].
  destruct (Z.ltb_spec MOTOR_LIST_SIZE_MAX cnt) as [|Hle8]; [discriminate|].
  cbn [orb] in H. unfold MOTOR_LIST_SIZE_MAX in Hle8.
  assert (wrap_uint cnt = cnt) as Hwrap by (unfold wrap_uint; rewrite Z.mod_small; lia).
  rewrite Hwrap in H.
  ok_inv H. rename x into p0. ok_inv H. rename x into m0.
  destruct (stepper_is_busy m0); [discriminate|].
  ok_inv H. destruct x as (request & w1).
  destruct request as [r|]; [|discriminate].
  destruct p0 as [a0|]; [|discriminate]. ok_inv H. rename x into m1.
  injection H as <-.
  apply load_stepper_Ok in Hx2. destruct Hx2 as (a' & [= <-] & Hm1).
  apply create_request_some in Hx1.
  destruct Hx1 as (mx & rq & _ & _ & _ & _ & _ & Hlen & Hlinked & Hsteps).
  destruct (Hlinked i Hi) as (a & Ha & (m & Hm & Hreq & Hmx)).
  assert (a0 < length (steppers w1))%nat as Hlt0 by (eapply lookup_lt_Some; eauto).
  set (w2 := emit (store_stepper w1 a0 (with_req_available m1 1)) (EvSignalReq a0)).
  assert (exists m2, steppers w2 !! a = Some m2 /\ shared_mutex m2 = Some mx /\
                     steps m2 = steps m) as (m2 & Hm2 & Hmx2 & Hs2).
  { subst w2. cbn. destruct (decide (a0 = a)) as [<-|Hne].
    - rewrite list_lookup_insert_eq by exact Hlt0. eexists. split; [reflexivity|].
      assert (m1 = m) as -> by congruence. auto.
    - rewrite list_lookup_insert_ne by exact Hne. eauto. }
  exists a. split; [exact Ha|].
  assert (busy_in w2 a) as Hbusy.
  { exists m2. split; [exact Hm2|]. unfold stepper_is_busy. rewrite Hmx2. reflexivity. }
  destruct (busy_rejects w2 a Hbusy) as (R1 & R2 & R3 & R4 & R5).
  repeat (split; [assumption|]).
  assert (a < length (steppers w))%nat as Hlt.
  { rewrite <- Hlen. eapply lookup_lt_Some; eauto. }
  destruct (lookup_lt_is_Some_2 _ _ Hlt) as (mw & Hmw).
  unfold stepper_get_steps. rewrite (load_stepper_Some _ _ _ Hm2), (load_stepper_Some _ _ _ Hmw).
  cbn [bind]. f_equal. rewrite Hs2.
  pose proof (Hsteps a) as E. unfold steps_of in E. rewrite Hm, Hmw in E. exact E.
Qed.

Lemma accepted_request_makes_busy_witness :
  exists a, [Some 0%nat; Some 1%nat] !! 1%nat = Some (Some a) /\
    stepper_ready (Some a) both_motors_requested = Ok 0 /\
    (forall d, stepper_set_direction_abs (Some a) d both_motors_requested
               = Ok (-1, both_motors_requested)) /\
    (forall d, stepper_set_direction_rel (Some a) d both_motors_requested
               = Ok (-1, both_motors_requested)) /\
    (forall pps, stepper_set_speed (Some a) pps both_motors_requested
                 = Ok (-1, both_motors_requested)) /\
    (forall k, stepper_step (Some a) k both_motors_requested
               = Ok (-1, both_motors_requested)) /\
    stepper_get_steps (Some a) both_motors_requested = stepper_get_steps (Some a) two_motors.
Proof.
  apply (accepted_request_makes_busy [Some 0%nat; Some 1%nat] 3 2 two_motors
           both_motors_requested).
  - reflexivity.
  - simpl. lia.
Defined.

Lemma set_direction_abs_cases (motor : ptr) (direction rv : Z) (w w' : World) :
  stepper_set_direction_abs motor direction w = Ok (rv, w') ->
  rv = 0 \/
  (rv = -1 /\ steppers w' = steppers w /\ requests w' = requests w /\ axes w' = axes w).
Proof.
  unfold stepper_set_direction_abs. destruct motor as [a|]; [|intros [= <- <-]; auto].
  destruct (is_valid_direction_abs direction); cbn [negb]; [|intros [= <- <-]; auto].
  intros H. ok_inv H. destruct (stepper_is_busy x); [injection H as <- <-; auto|].
  unfold external in H. cbn [ext_ok ext_calls emit] in H.
  destruct (ext_ok w (ext_calls w)); cbn [negb] in H; injection H as <- <-; auto.
Qed.

(** X14.  A call of [stepper_set_direction_abs] or of
    [stepper_set_direction_rel] that does not return 0 returns -1 and has
    changed no motor, no request and no axis. *)
Theorem direction_rejected_unchanged (motor : ptr) (direction rv : Z) (w w' : World) :
  rv <> 0 ->
  stepper_set_direction_abs motor direction w = Ok (rv, w') \/
  stepper_set_direction_rel motor direction w = Ok (rv, w') ->
  rv = -1 /\ steppers w' = steppers w /\ requests w' = requests w /\ axes w' = axes w.
Proof.
  intros Hrv [H|H].
  - apply set_direction_abs_cases in H. destruct H as [|H]; [contradiction|exact H].
  - revert H. unfold stepper_set_direction_rel.
    destruct motor as [a|]; [|intros [= <- <-]; auto].
    destruct (is_valid_direction_rel direction); cbn [negb]; [|intros [= <- <-]; auto].
    intros H. ok_inv H. apply set_direction_abs_cases in H.
    destruct H as [|H]; [contradiction|exact H].
Qed.

Lemma direction_rejected_unchanged_witness :
  -1 = -1 /\ steppers right_motor_stepping = steppers right_motor_stepping /\
  requests right_motor_stepping = requests right_motor_stepping /\
  axes right_motor_stepping = axes right_motor_stepping.
Proof.
  apply (direction_rejected_unchanged (Some 1%nat) DIRECTION_NEGATIVE (-1)
           right_motor_stepping right_motor_stepping).
  - lia.
  - right. reflexivity.
Defined.

(** ** Stepper.c: construction *)

Lemma lookup_snoc {A : Type} (l : list A) (x : A) : (l ++ [x]) !! length l = Some x.
Proof. rewrite lookup_app_r by lia. rewrite Nat.sub_diag. reflexivity. Qed.

Lemma insert_snoc {A : Type} (l : list A) (x y : A) : <[length l := y]> (l ++ [x]) = l ++ [y].
Proof.
  replace (length l) with (length l + 0)%nat by lia. rewrite insert_app_r. reflexivity.
Qed.

Lemma valid_microstep_cases (microstep : Z) :
  is_valid_microstep microstep <> 0 -> In microstep [1; 2; 4; 8; 16].
Proof.
  unfold is_valid_microstep. intros H.
  destruct (Z.eqb_spec microstep 1); [cbn; auto|].
  destruct (Z.eqb_spec microstep 2); [cbn; auto|].
  destruct (Z.eqb_spec microstep 4); [cbn; auto|].
  destruct (Z.eqb_spec microstep 8); [cbn; auto|].
  destruct (Z.eqb_spec microstep 16); [cbn; auto 6|].
  cbn in H. contradiction.
Qed.

(** The two outcomes of [stepper_init]. *)
Lemma stepper_init_cases (nm : option string) (sp dp microstep spr init_dir : Z)
  (w w' : World) (h : ptr) :
  stepper_init nm sp dp microstep spr init_dir w = Ok (h, w') ->
  (requests w' = requests w /\ axes w' = axes w) /\
  match h with
  | None => steppers w' = steppers w /\ requests w' = requests w /\ axes w' = axes w
  | Some a =>
      a = length (steppers w) /\
      exists s m,
        nm = Some s /\ steppers w' = steppers w ++ [m] /\
        name m = strncpy s (MOTOR_NAME_LEN - 1) /\
        step_pin m = sp /\ dir_pin m = dp /\
        pos_direction m = init_dir /\ is_valid_direction_abs init_dir = true /\
        (curr_direction m = init_dir \/ curr_direction m = DIRECTION_COUNTERCLOCKWISE) /\
        microsteps_per_rotation m = wrap_uint (microstep * spr) /\
        In microstep [1; 2; 4; 8; 16] /\ spr <> 0 /\
        steps m = 0 /\ half_period m = 0 /\ stop m = 0 /\ req_available m = 0 /\
        shared_mutex m = None /\ current_req m = None
  end.
Proof.
  unfold stepper_init. destruct nm as [s|]; [|intros [= <- <-]; auto].
  destruct (Z.eqb_spec (is_valid_microstep microstep) 0) as [|Hms]; [intros [= <- <-]; auto|].
  destruct (Z.eqb_spec spr 0) as [|Hspr]; [intros [= <- <-]; auto|].
  destruct (is_valid_direction_abs init_dir) eqn:Hdir; cbn [negb]; [|intros [= <- <-]; auto].
  unfold external. cbn [fst snd ext_ok ext_calls steppers requests axes next_mutex trace emit].
  destruct (ext_ok w (ext_calls w)); cbn [negb]; [|intros [= <- <-]; auto].
  destruct (ext_ok w (S (ext_calls w))); cbn [negb]; [|intros [= <- <-]; auto].
  destruct (ext_ok w (S (S (ext_calls w)))); cbn [negb]; [|intros [= <- <-]; auto].
  intros H. ok_inv H. destruct x as (rv & w1).
  set (m0 := mkStepper dp sp None None (strncpy s (MOTOR_NAME_LEN - 1)) init_dir 0 0 0 0 0 0)
    in *.
  assert (exists m1, steppers w1 = steppers w ++ [m1] /\ requests w1 = requests w /\
                     axes w1 = axes w /\
                     (m1 = m0 \/ m1 = with_curr_direction m0 init_dir)) as
      (m1 & Hs1 & Hr1 & Ha1 & Hm1).
  { destruct (Z.eq_dec rv 0) as [->|Hrv].
    - apply set_direction_abs_inv in Hx.
      destruct Hx as (a & m & [= <-] & Hm & _ & _ & Hs & Hr & Ha).
      cbn [steppers set_steppers] in Hm, Hs. rewrite lookup_snoc in Hm. injection Hm as <-.
      rewrite insert_snoc in Hs. exists (with_curr_direction m0 init_dir). auto.
    - apply set_direction_abs_cases in Hx. destruct Hx as [|(_ & Hs & Hr & Ha)]; [contradiction|].
      exists m0. auto. }
  ok_inv H. rename x into m2. apply load_stepper_Ok in Hx0.
  destruct Hx0 as (a & [= <-] & Hm2). rewrite Hs1, lookup_snoc in Hm2. injection Hm2 as <-.
  cbn [fst snd ext_ok ext_calls steppers requests axes next_mutex trace emit store_stepper
       set_steppers] in H.
  match type of H with
  | (if negb ?b then _ else _) = _ => destruct b
  end; cbn [negb] in H; injection H as <- <-.
  - split; [cbn; auto|]. split; [reflexivity|].
    exists s, (with_microsteps_per_rotation m1 (wrap_uint (microstep * spr))).
    split; [reflexivity|]. cbn [steppers]. rewrite Hs1, insert_snoc.
    split; [reflexivity|].
    pose proof (valid_microstep_cases microstep Hms) as Hcases.
    destruct Hm1 as [-> | ->]; cbn; auto 20.
  - cbn. auto.
Qed.

(** The direction of a new motor, and the calls that the construction
    makes: the fourth external call is the write to the direction line. *)
Lemma stepper_init_direction (s : string) (sp dp microstep spr init_dir : Z)
  (w w' : World) (a : nat) (m : Stepper) :
  stepper_init (Some s) sp dp microstep spr init_dir w = Ok (Some a, w') ->
  steppers w' = steppers w ++ [m] ->
  curr_direction m
    = (if ext_ok w (ext_calls w + 3)%nat then init_dir else DIRECTION_COUNTERCLOCKWISE) /\
  trace w' = trace w ++ [EvInitPin dp GPIO_DIRECTION_OUTPUT; EvInitPin sp GPIO_DIRECTION_NONE;
                         EvSetValue dp init_dir; EvCreateTask s].
Proof.
  replace (ext_calls w + 3)%nat with (S (S (S (ext_calls w)))) by lia.
  unfold stepper_init.
  destruct (is_valid_microstep microstep =? 0); [discriminate|].
  destruct (spr =? 0); [discriminate|].
  destruct (is_valid_direction_abs init_dir) eqn:Hdir; cbn [negb]; [|discriminate].
  unfold external. cbn [fst snd ext_ok ext_calls steppers requests axes next_mutex trace emit].
  destruct (ext_ok w (ext_calls w)); cbn [negb]; [|discriminate].
  destruct (ext_ok w (S (ext_calls w))); cbn [negb]; [|discriminate].
  destruct (ext_ok w (S (S (ext_calls w)))); cbn [negb]; [|discriminate].
  unfold stepper_set_direction_abs. rewrite Hdir. cbn [negb].
  unfold load_stepper at 1. cbn [steppers set_steppers]. rewrite lookup_snoc. cbn [bind].
  unfold stepper_is_busy at 1. cbn [shared_mutex].
  unfold external. cbn [fst snd ext_ok ext_calls steppers requests axes next_mutex trace emit
                        set_steppers dir_pin].
  destruct (ext_ok w (S (S (S (ext_calls w))))); cbn [negb bind];
    unfold load_stepper; cbn [steppers store_stepper set_steppers];
    rewrite ?insert_snoc, lookup_snoc; cbn [bind];
    cbn [fst snd ext_ok ext_calls steppers requests axes next_mutex trace emit set_steppers
         store_stepper];
    (destruct (ext_ok w (S (S (S (S (ext_calls w)))))); cbn [negb]; [|discriminate]);
    intros [= <- <-]; cbn [steppers trace]; rewrite ?insert_snoc; intros Hm;
    apply app_inv_head in Hm; injection Hm as <-;
    (split; [reflexivity|]); rewrite <- !app_assoc; reflexivity.
Qed.

(** X15.  [stepper_init] either returns NULL and leaves the motors as
    they were, whatever step failed, or returns the handle of one new
    motor: of the given lines, of the first 31 characters of the name,
    free, with accumulator, half period and stop flag at 0, its positive
    direction the initial one, and [microstep * steps_per_rotation]
    microsteps per rotation.  On the way it has claimed the two lines,
    written the initial direction to the direction line and created the
    worker, in that order.  The result of the write is not looked at: the
    current direction of the motor is the initial one when the write, the
    fourth external call, succeeded, and is left at 0, counterclockwise,
    when it failed. *)
Theorem stepper_init_outcome (nm : option string) (sp dp microstep spr init_dir : Z)
  (w w' : World) (h : ptr) :
  stepper_init nm sp dp microstep spr init_dir w = Ok (h, w') ->
  match h with
  | None => steppers w' = steppers w /\ requests w' = requests w /\ axes w' = axes w
  | Some a =>
      a = length (steppers w) /\
      exists s m,
        nm = Some s /\ steppers w' = steppers w ++ [m] /\
        name m = strncpy s (MOTOR_NAME_LEN - 1) /\
        step_pin m = sp /\ dir_pin m = dp /\
        pos_direction m = init_dir /\ is_valid_direction_abs init_dir = true /\
        curr_direction m
          = (if ext_ok w (ext_calls w + 3)%nat then init_dir
             else DIRECTION_COUNTERCLOCKWISE) /\
        trace w' = trace w ++ [EvInitPin dp GPIO_DIRECTION_OUTPUT;
                               EvInitPin sp GPIO_DIRECTION_NONE;
                               EvSetValue dp init_dir; EvCreateTask s] /\
        microsteps_per_rotation m = wrap_uint (microstep * spr) /\
        In microstep [1; 2; 4; 8; 16] /\ spr <> 0 /\
        steps m = 0 /\ half_period m = 0 /\ stop m = 0 /\ req_available m = 0 /\
        shared_mutex m = None /\ current_req m = None
  end.
Proof.
  intros H. destruct h as [a|].
  - pose proof (stepper_init_cases nm sp dp microstep spr init_dir w w' (Some a) H)
      as (_ & Ha & s & m & -> & Hs & H1 & H2 & H3 & H4 & H5 & _ & Hrest).
    destruct (stepper_init_direction s sp dp microstep spr init_dir w w' a m H Hs)
      as (Hdir & Htrace).
    split; [exact Ha|]. exists s, m. repeat (split; [assumption || reflexivity|]).
    exact Hrest.
  - apply (stepper_init_cases nm sp dp microstep spr init_dir w w' None H).
Qed.

Lemma stepper_init_outcome_witness :
  2%nat = length (steppers two_motors) /\
  exists s m,
    Some "third"%string = Some s /\
    steppers third_motor_added = steppers two_motors ++ [m] /\
    name m = strncpy s (MOTOR_NAME_LEN - 1) /\
    step_pin m = 12 /\ dir_pin m = 13 /\
    pos_direction m = 1 /\ is_valid_direction_abs 1 = true /\
    curr_direction m
      = (if ext_ok two_motors (ext_calls two_motors + 3)%nat then 1
         else DIRECTION_COUNTERCLOCKWISE) /\
    trace third_motor_added
      = trace two_motors ++ [EvInitPin 13 GPIO_DIRECTION_OUTPUT;
                             EvInitPin 12 GPIO_DIRECTION_NONE;
                             EvSetValue 13 1; EvCreateTask s] /\
    microsteps_per_rotation m = wrap_uint (16 * 200) /\
    In 16 [1; 2; 4; 8; 16] /\ 200 <> 0 /\
    steps m = 0 /\ half_period m = 0 /\ stop m = 0 /\ req_available m = 0 /\
    shared_mutex m = None /\ current_req m = None.
Proof.
  apply (stepper_init_outcome (Some "third"%string) 12 13 16 200 1 two_motors
           third_motor_added (Some 2%nat)).
  reflexivity.
Defined.

(** ** Stepper.c: the worker and the calls of other threads *)

Lemma links_kept_refl (w : World) : links_kept w w.
Proof. intros a m Hm. eauto. Qed.

Lemma links_kept_trans (w1 w2 w3 : World) :
  links_kept w1 w2 -> links_kept w2 w3 -> links_kept w1 w3.
Proof.
  intros H12 H23 a m Hm. destruct (H12 a m Hm) as (m2 & Hm2 & E1 & E2).
  destruct (H23 a m2 Hm2) as (m3 & Hm3 & E3 & E4).
  exists m3. split; [exact Hm3|]. split; congruence.
Qed.

Lemma links_kept_same (w w' : World) : steppers w' = steppers w -> links_kept w w'.
Proof. intros E a m Hm. rewrite E. eauto. Qed.

Lemma links_kept_store (w : World) (a : nat) (m m' : Stepper) :
  steppers w !! a = Some m ->
  shared_mutex m' = shared_mutex m -> current_req m' = current_req m ->
  links_kept w (store_stepper w a m').
Proof.
  intros Hm E1 E2 b mb Hb. cbn. destruct (decide (a = b)) as [<-|Hne].
  - rewrite list_lookup_insert_eq by (eapply lookup_lt_Some; eauto).
    exists m'. split; [reflexivity|]. split; congruence.
  - rewrite list_lookup_insert_ne by exact Hne. eauto.
Qed.

Lemma links_kept_busy (w w' : World) (a : nat) :
  links_kept w w' -> busy_in w a -> busy_in w' a.
Proof.
  intros Hk (m & Hm & Hb). destruct (Hk a m Hm) as (m' & Hm' & E & _).
  exists m'. split; [exact Hm'|]. unfold stepper_is_busy in *. rewrite E. exact Hb.
Qed.

Lemma stepper_wait_steppers (motor : ptr) (w w' : World) :
  stepper_wait motor w = Ok w' -> steppers w' = steppers w.
Proof.
  unfold stepper_wait. destruct motor as [a|]; [|intros [= <-]; reflexivity].
  intros H. ok_inv H. destruct (shared_mutex x); [|injection H as <-; reflexivity].
  ok_inv H. destruct (current_req x); [|discriminate]. injection H as <-. reflexivity.
Qed.

Lemma stepper_stop_steppers (p : ptr) (w w' : World) :
  stepper_stop p w = Ok w' ->
  (p = None /\ steppers w' = steppers w) \/
  exists b m, p = Some b /\ steppers w !! b = Some m /\
              steppers w' = <[b := with_stop m (if stepper_is_busy m then 1 else 0)]>
                              (steppers w).
Proof.
  unfold stepper_stop. destruct p as [b|]; [|intros [= <-]; left; auto].
  intros H. right. ok_inv H. rename x into m.
  apply load_stepper_Ok in Hx. destruct Hx as (b' & [= <-] & Hm).
  exists b, m. split; [reflexivity|]. split; [exact Hm|].
  destruct (stepper_is_busy m).
  - apply stepper_wait_steppers in H. rewrite H. reflexivity.
  - injection H as <-. reflexivity.
Qed.

Lemma stepper_stop_links (p : ptr) (w w' : World) :
  stepper_stop p w = Ok w' -> links_kept w w'.
Proof.
  intros H. apply stepper_stop_steppers in H.
  destruct H as [(_ & E) | (b & m & _ & Hm & E)].
  - apply links_kept_same. exact E.
  - intros a ma Ha. rewrite E. destruct (decide (b = a)) as [<-|Hne].
    + rewrite list_lookup_insert_eq by (eapply lookup_lt_Some; eauto).
      eexists. split; [reflexivity|]. assert (ma = m) as -> by congruence. auto.
    + rewrite list_lookup_insert_ne by exact Hne. eauto.
Qed.

(** A call of [stepper_stop] on a motor in a motion sets its stop flag,
    and no call of another thread takes it back. *)
Lemma stepper_stop_flag (p : ptr) (w w' : World) (a : nat) (m : Stepper) :
  stepper_stop p w = Ok w' ->
  steppers w !! a = Some m -> stepper_is_busy m = true ->
  p = Some a \/ stop m <> 0 ->
  exists m', steppers w' !! a = Some m' /\ stepper_is_busy m' = true /\ stop m' <> 0.
Proof.
  intros H Hm Hb Hor. apply stepper_stop_steppers in H.
  destruct H as [(-> & E) | (b & mb & -> & Hmb & E)].
  - destruct Hor as [|Hs]; [discriminate|]. rewrite E. eauto.
  - rewrite E. destruct (decide (b = a)) as [->|Hne].
    + rewrite list_lookup_insert_eq by (eapply lookup_lt_Some; eauto).
      assert (mb = m) as -> by congruence. rewrite Hb.
      eexists. split; [reflexivity|]. split; [exact Hb|]. cbn. lia.
    + rewrite list_lookup_insert_ne by exact Hne.
      destruct Hor as [[= ->]|Hs]; [contradiction|]. eauto.
Qed.

Lemma other_threads_links (ps : list ptr) (w w' : World) :
  other_threads ps w = Ok w' -> links_kept w w'.
Proof.
  revert w. induction ps as [|p ps IH]; intros w H.
  - injection H as <-. apply links_kept_refl.
  - cbn [other_threads] in H. ok_inv H.
    eapply links_kept_trans; [eapply stepper_stop_links; eauto | apply IH; exact H].
Qed.

Lemma other_threads_flag (ps : list ptr) (w w' : World) (a : nat) (m : Stepper) :
  other_threads ps w = Ok w' ->
  steppers w !! a = Some m -> stepper_is_busy m = true ->
  In (Some a) ps \/ stop m <> 0 ->
  exists m', steppers w' !! a = Some m' /\ stepper_is_busy m' = true /\ stop m' <> 0.
Proof.
  revert w m. induction ps as [|p ps IH]; intros w m H Hm Hb Hor.
  - injection H as <-. destruct Hor as [[]|Hs]. eauto.
  - cbn [other_threads] in H. ok_inv H. rename x into w1.
    destruct (decide (p = Some a)) as [Hp|Hp].
    + destruct (stepper_stop_flag p w w1 a m Hx Hm Hb (or_introl Hp)) as (m1 & H1 & H2 & H3).
      eapply IH; eauto.
    + destruct (Z.eq_dec (stop m) 0) as [Hz|Hnz].
      * destruct (stepper_stop_links _ _ _ Hx a m Hm) as (m1 & H1 & H2 & _).
        eapply (IH w1 m1); eauto.
        { unfold stepper_is_busy in *. rewrite H2. exact Hb. }
        left. destruct Hor as [[E|Hin]|Hs]; [congruence|exact Hin|contradiction].
      * destruct (stepper_stop_flag p w w1 a m Hx Hm Hb (or_intror Hnz))
          as (m1 & H1 & H2 & H3).
        eapply IH; eauto.
Qed.

Lemma current_request_store (w : World) (motor a : nat) (m m' : Stepper) :
  steppers w !! a = Some m -> current_req m' = current_req m ->
  current_request (store_stepper w a m') motor = current_request w motor.
Proof.
  intros Hm E. unfold current_request, load_stepper, load_req. cbn.
  destruct (decide (a = motor)) as [<-|Hne].
  - rewrite list_lookup_insert_eq by (eapply lookup_lt_Some; eauto). rewrite Hm.
    cbn [bind]. rewrite E. reflexivity.
  - rewrite list_lookup_insert_ne by exact Hne. reflexivity.
Qed.

(** The counting loop of the worker touches the accumulators only. *)
Lemma pulser_count_links (motor n : nat) :
  forall (i : nat) (s : Z) (w : World) (s' : Z) (w' : World),
    pulser_count motor n i s w = Ok (s', w') ->
    links_kept w w' /\
    (forall a m, steppers w !! a = Some m ->
       exists m', steppers w' !! a = Some m' /\ stop m' = stop m).
Proof.
  induction n as [|n IH]; intros i s w s' w' H.
  - injection H as <- <-. split; [apply links_kept_refl|eauto].
  - cbn [pulser_count] in H. ok_inv H. destruct x as (r0 & rq0).
    ok_inv H. rename x into p. ok_inv H. rename x into node.
    destruct p as [a|]; [|discriminate]. ok_inv H. rename x into s1.
    apply load_stepper_Ok in Hx1. destruct Hx1 as (a' & [= <-] & Hnode).
    destruct (IH _ _ _ _ _ H) as (H1 & H2). split.
    + eapply links_kept_trans; [|exact H1].
      eapply links_kept_store; eauto.
    + intros b mb Hb.
      assert (exists m1, steppers (store_stepper w a (with_steps node s1)) !! b = Some m1 /\
                         stop m1 = stop mb) as (m1 & Hm1 & E1).
      { cbn. destruct (decide (a = b)) as [<-|Hne].
        - rewrite list_lookup_insert_eq by (eapply lookup_lt_Some; eauto).
          eexists. split; [reflexivity|]. assert (mb = node) as -> by congruence. reflexivity.
        - rewrite list_lookup_insert_ne by exact Hne. eauto. }
      destruct (H2 b m1 Hm1) as (m' & Hm' & E'). exists m'. split; [exact Hm'|]. congruence.
Qed.

(** It folds the stop flags of the motors of the request into its
    result. *)
Lemma pulser_count_flag (motor n : nat) :
  forall (i : nat) (s : Z) (w : World) (s' : Z) (w' : World),
    pulser_count motor n i s w = Ok (s', w') ->
    (s <> 0 -> s' <> 0) /\
    (forall j a m r rq,
       (i <= j < i + n)%nat -> current_request w motor = Ok (r, rq) ->
       motor_list rq !! j = Some (Some a) -> steppers w !! a = Some m ->
       stop m <> 0 -> s' <> 0).
Proof.
  induction n as [|n IH]; intros i s w s' w' H.
  - injection H as <- <-. split; [auto|]. intros j a m r rq Hj. lia.
  - cbn [pulser_count] in H. ok_inv H. destruct x as (r0 & rq0).
    ok_inv H. rename x into p. ok_inv H. rename x into node.
    destruct p as [a0|]; [|discriminate]. ok_inv H. rename x into s1.
    apply load_stepper_Ok in Hx1. destruct Hx1 as (a' & [= <-] & Hnode).
    apply array_get_Ok in Hx0.
    destruct (IH _ _ _ _ _ H) as (H1 & H2). split.
    + intros Hs. apply H1. intros E. apply Z.lor_eq_0_iff in E. tauto.
    + intros j a m r rq Hj Hcr Hml Hm Hstop.
      rewrite Hcr in Hx. injection Hx as <- <-.
      destruct (decide (j = i)) as [->|Hne].
      * rewrite Hml in Hx0. injection Hx0 as <-.
        assert (node = m) as -> by congruence.
        apply H1. intros E. apply Z.lor_eq_0_iff in E. tauto.
      * assert (exists m1, steppers (store_stepper w a0 (with_steps node s1)) !! a = Some m1 /\
                           stop m1 = stop m) as (m1 & Hm1 & E1).
        { cbn. destruct (decide (a0 = a)) as [<-|Hna].
          - rewrite list_lookup_insert_eq by (eapply lookup_lt_Some; eauto).
            eexists. split; [reflexivity|]. assert (m = node) as -> by congruence. reflexivity.
          - rewrite list_lookup_insert_ne by exact Hna. eauto. }
        apply (H2 j a m1 r rq); [lia| |exact Hml|exact Hm1|congruence].
        rewrite (current_request_store w motor a0 node) by (auto; reflexivity). exact Hcr.
Qed.

Lemma pinv_weaken (motor r : nat) (ms : list nat) (pins : list Z) (base sg : nat -> Z)
  (len : nat) (Q : Prop) (w : World) (cnt : nat -> Z) (left : Z) :
  pinv motor r ms pins base sg len Q w cnt left ->
  pinv motor r ms pins base sg len False w cnt left.
Proof.
  intros (H1 & H2 & H3 & H4 & H5). split; [exact H1|]. split; [exact H2|].
  split; [exact H3|]. split; [exact H4|].
  intros a Ha. destruct (H5 a Ha) as (m & Hm & E1 & E2 & _).
  exists m. split; [exact Hm|]. split; [exact E1|]. split; [exact E2|]. intros [].
Qed.

Section PulseStep.

Variables (motor r : nat) (ms : list nat) (pins : list Z) (base sg : nat -> Z).
Variables (len : nat) (quiet : Prop) (sched : nat -> list ptr) (n pd : Z).

Hypothesis ms_distinct : NoDup ms.
Hypothesis sched_handles : forall k a, In (Some a) (sched k) -> (a < len)%nat.
Hypothesis n_uint : n <= UINT_MAX.
Hypothesis base_range : forall a, In a ms -> INT_MIN <= base a - n /\ base a + n <= INT_MAX.
Hypothesis sg_unit : forall a, In a ms -> sg a = 1 \/ sg a = -1.

Local Abbreviation inv := (pinv motor r ms pins base sg len quiet).

(** One turn of the pulse loop: the pulse, the calls of the other
    threads, the count, and the test of the loop. *)
Lemma pulser_iteration (fuel j : nat) (w : World) :
  inv w (fun _ => Z.of_nat j) (n - Z.of_nat j) ->
  Z.of_nat j < n ->
  (quiet -> forall a, In (Some a) (sched j) -> ~ In a ms) ->
  exists w' s',
    pulser_loop sched (S fuel) j motor pd (Z.of_nat (length ms)) 0 w
      = (if negb (n - Z.of_nat (S j) =? 0) && (s' =? 0)
         then pulser_loop sched fuel (S j) motor pd (Z.of_nat (length ms)) s' w'
         else Ok w') /\
    inv w' (fun _ => Z.of_nat (S j)) (n - Z.of_nat (S j)) /\
    trace w' = trace w ++ [EvWriteBulk pins 1; EvSleep pd; EvWriteBulk pins 0; EvSleep pd] /\
    (quiet -> s' = 0) /\
    links_kept w w' /\
    (forall a, In a ms -> In (Some a) (sched j) -> busy_in w a -> s' <> 0).
Proof.
  intros Hinv Hj Hcalm. cbn [pulser_loop].
  destruct (current_request_pinv _ _ _ _ _ _ _ _ w _ _ Hinv) as (rq & Hcr & _ & Hpins & _).
  rewrite Hcr. cbn [bind].
  set (w1 := emit (emit w (EvWriteBulk (pin_bulk rq) 1)) (EvSleep pd)).
  assert (inv w1 (fun _ => Z.of_nat j) (n - Z.of_nat j)) as Hinv1 by exact Hinv.
  destruct (current_request_pinv _ _ _ _ _ _ _ _ w1 _ _ Hinv1) as (rq1 & Hcr1 & _ & Hpins1 & _).
  rewrite Hcr1. cbn [bind].
  set (w2 := emit (emit w1 (EvWriteBulk (pin_bulk rq1) 0)) (EvSleep pd)).
  assert (inv w2 (fun _ => Z.of_nat j) (n - Z.of_nat j)) as Hinv2 by exact Hinv.
  destruct (other_threads_pinv _ _ _ _ _ _ _ _ (sched j) w2 _ _ Hinv2) as (w3 & Hot & Hinv3 & Ht3).
  { intros a Ha. eapply sched_handles; eauto. }
  { exact Hcalm. }
  rewrite Hot. cbn [bind].
  assert (forall a, In a ms ->
            INT_MIN <= base a + (Z.of_nat j + 1) * sg a /\
            base a + (Z.of_nat j + 1) * sg a <= INT_MAX) as Hrange.
  { intros a Ha. destruct (base_range a Ha), (sg_unit a Ha) as [-> | ->]; lia. }
  destruct (pulser_count_pinv motor r ms pins base sg len quiet ms 0 0 w3 _ _
              ms_distinct (fun k a Hk => Hk) Hinv3 Hrange)
    as (s' & w4 & cnt' & Hpc & Hinv4 & Ht4 & Hc1 & _ & Hs').
  rewrite Nat2Z.id, Hpc. cbn [bind].
  apply pinv_ext with (cnt' := fun _ => Z.of_nat (S j)) in Hinv4;
    [|intros a Ha; rewrite (Hc1 a Ha); lia].
  destruct (current_request_pinv _ _ _ _ _ _ _ _ w4 _ _ Hinv4)
    as (rq4 & Hcr4 & Hrq4 & Hpins4 & Hcount4 & Hleft4 & Hml4 & Hwv4).
  rewrite Hcr4. cbn [bind]. rewrite Hleft4.
  assert (wrap_uint (n - Z.of_nat j - 1) = n - Z.of_nat (S j)) as ->.
  { unfold wrap_uint, UINT_MAX in *. rewrite Z.mod_small; lia. }
  set (w5 := store_req w4 r (with_req_steps rq4 (n - Z.of_nat (S j)))).
  exists w5, s'. split; [reflexivity|]. split; [|split; [|split; [|split]]].
  - apply (pinv_store_req motor r ms pins base sg len quiet w4 _ (n - Z.of_nat j) _ r rq4 _
             Hrq4); try reflexivity.
    + exact Hwv4.
    + intros E. destruct (E eq_refl).
    + exact Hinv4.
  - cbn. rewrite Ht4, Ht3. subst w2 w1. cbn. rewrite Hpins, Hpins1.
    rewrite <- !app_assoc. reflexivity.
  - intros HQ. apply Hs'; auto.
  - apply links_kept_trans with (w2 := w3).
    + apply links_kept_trans with (w2 := w2); [apply links_kept_same; reflexivity|].
      eapply other_threads_links; eauto.
    + apply links_kept_trans with (w2 := w4); [|apply links_kept_same; reflexivity].
      eapply pulser_count_links; eauto.
  - intros a Ha Hin (m & Hm & Hb).
    destruct (other_threads_flag (sched j) w2 w3 a m Hot Hm Hb (or_introl Hin))
      as (m3 & Hm3 & _ & Hstop3).
    destruct (current_request_pinv _ _ _ _ _ _ _ _ w3 _ _ Hinv3)
      as (rq3 & Hcr3 & _ & _ & _ & _ & Hml3 & _).
    apply list_elem_of_In in Ha. apply list_elem_of_lookup_1 in Ha. destruct Ha as (i0 & Hi0).
    destruct (pulser_count_flag motor (length ms) 0 0 w3 s' w4 Hpc) as (_ & Hflag).
    apply (Hflag i0 a m3 r rq3); auto.
    split; [lia|]. cbn. eapply lookup_lt_Some; eauto.
Qed.

End PulseStep.

Section PulseStop.

Variables (motor r : nat) (ms : list nat) (pins : list Z) (base sg : nat -> Z).
Variables (len : nat) (sched : nat -> list ptr) (n pd : Z) (K a0 : nat).

Hypothesis ms_distinct : NoDup ms.
Hypothesis sched_handles : forall k a, In (Some a) (sched k) -> (a < len)%nat.
Hypothesis n_uint : n <= UINT_MAX.
Hypothesis base_range : forall a, In a ms -> INT_MIN <= base a - n /\ base a + n <= INT_MAX.
Hypothesis sg_unit : forall a, In a ms -> sg a = 1 \/ sg a = -1.
Hypothesis stopped : first_stop sched ms K a0.
Hypothesis in_time : Z.of_nat K < n.

(** With the stop flags clear until a thread stops a motor of the
    request during pulse [K], the loop is left at the end of that pulse. *)
Lemma pulser_loop_stops (d : nat) :
  forall (fuel j : nat) (w : World),
    K = (j + d)%nat ->
    pinv motor r ms pins base sg len True w (fun _ => Z.of_nat j) (n - Z.of_nat j) ->
    (forall a, In a ms -> busy_in w a) ->
    (d < fuel)%nat ->
    exists w',
      pulser_loop sched fuel j motor pd (Z.of_nat (length ms)) 0 w = Ok w' /\
      pinv motor r ms pins base sg len False w' (fun _ => Z.of_nat (S K)) (n - Z.of_nat (S K)) /\
      trace w' = trace w ++ pulse_train pins pd (S d).
Proof.
  destruct stopped as (Hcalm & Hin0 & Hhit).
  induction d as [|d IH]; intros fuel j w HK Hinv Hbusy Hfuel.
  - destruct fuel as [|fuel]; [lia|]. rewrite Nat.add_0_r in HK. subst j.
    apply pinv_weaken in Hinv.
    destruct (pulser_iteration motor r ms pins base sg len False sched n pd ms_distinct
                sched_handles n_uint base_range sg_unit fuel K w Hinv in_time)
      as (w' & s' & Heq & Hinv' & Ht & _ & _ & Hflag); [intros []|].
    exists w'. rewrite Heq.
    assert (s' <> 0) as Hs by (apply (Hflag a0); auto).
    destruct (Z.eqb_spec s' 0) as [|_]; [contradiction|]. rewrite andb_false_r.
    split; [reflexivity|]. split; [exact Hinv'|]. rewrite Ht. reflexivity.
  - destruct fuel as [|fuel]; [lia|].
    destruct (pulser_iteration motor r ms pins base sg len True sched n pd ms_distinct
                sched_handles n_uint base_range sg_unit fuel j w Hinv ltac:(lia))
      as (w1 & s' & Heq & Hinv1 & Ht1 & Hs & Hlinks & _).
    { intros _ a Ha Hin. apply (Hcalm j a); [lia|exact Hin|exact Ha]. }
    rewrite (Hs I) in Heq.
    destruct (Z.eqb_spec (n - Z.of_nat (S j)) 0) as [|_]; [lia|].
    cbn [negb andb Z.eqb] in Heq.
    destruct (IH fuel (S j) w1) as (w' & Hrun & Hinv' & Ht'); [lia|exact Hinv1| |lia|].
    { intros a Ha. eapply links_kept_busy; eauto. }
    exists w'. rewrite Heq. split; [exact Hrun|]. split; [exact Hinv'|].
    rewrite Ht', Ht1. cbn [pulse_train]. rewrite <- !app_assoc. reflexivity.
Qed.

End PulseStop.

(** The teardown of a request frees every motor of its list. *)
Lemma request_unlink_idle (r n : nat) :
  forall (i : nat) (w w' : World) (rq : Stepper_req),
    request_unlink r n i w = Ok w' ->
    requests w !! r = Some (Some rq) ->
    (forall j a, (i <= j < i + n)%nat -> motor_list rq !! j = Some (Some a) -> idle_in w' a) /\
    (forall a, idle_in w a -> idle_in w' a).
Proof.
  induction n as [|n IH]; intros i w w' rq H Hrq.
  - injection H as <-. split; [|auto]. intros j a Hj. lia.
  - cbn [request_unlink] in H. rewrite (load_req_Some _ _ _ Hrq) in H. cbn [bind] in H.
    ok_inv H. rename x into p. ok_inv H. rename x into m.
    destruct p as [ai|]; [|discriminate].
    apply array_get_Ok in Hx. apply load_stepper_Ok in Hx0.
    destruct Hx0 as (a' & [= <-] & Hm).
    set (w1 := store_stepper w ai (with_shared_mutex (with_current_req m None) None)) in *.
    assert (idle_in w1 ai) as Hidle.
    { eexists. subst w1. cbn.
      rewrite list_lookup_insert_eq by (eapply lookup_lt_Some; eauto). auto. }
    destruct (IH (S i) w1 w' rq H Hrq) as (H1 & H2). split.
    + intros j a Hj Hml. destruct (decide (j = i)) as [->|Hne].
      * rewrite Hml in Hx. injection Hx as <-. apply H2. exact Hidle.
      * apply (H1 j); [lia|exact Hml].
    + intros a (ma & Ha & E1 & E2). apply H2.
      destruct (decide (ai = a)) as [<-|Hne]; [exact Hidle|].
      exists ma. subst w1. cbn. rewrite list_lookup_insert_ne by exact Hne. auto.
Qed.

Section MotionEnds.

Variables (sched : nat -> list ptr) (fuel : nat) (motor : nat) (ms : list nat).
Variables (n : Z) (w : World).

Hypothesis ready : motion_ready w motor ms n.

(** The invariant of the pulse loop holds when the worker has taken the
    request. *)
Lemma pulser_start_pinv (Q : Prop) :
  (Q -> flags_clear w ms) ->
  exists m r rq,
    steppers w !! motor = Some m /\ req_available m <> 0 /\ current_req m = Some r /\
    requests w !! r = Some (Some rq) /\
    pinv motor r ms (pin_bulk rq) (steps_of w) (sense_of w) (length (steppers w)) Q
         (store_stepper w motor (with_req_available m 0))
         (fun _ => Z.of_nat 0) (n - Z.of_nat 0).
Proof.
  intros Hclear.
  destruct ready as (Hhead & Hnd & Hvalid & Hsane & m & r & rq & Hm & Havail & Hbusy &
                     Hreq & Hrq & Hcount & Hsteps & Hml & Hwv).
  exists m, r, rq. repeat (split; [assumption|]).
  replace (n - Z.of_nat 0) with n by lia.
  eapply pinv_store_stepper with (m := m) (cnt := fun _ => 0); eauto.
  - intros HQ Ha. cbn. eapply (Hclear HQ); eauto.
  - intros Ha. cbn. unfold steps_of. rewrite Hm. lia.
  - split; [reflexivity|]. split; [exact Hsane|]. split; [eauto|]. split.
    + exists rq. repeat split; auto.
    + intros a Ha. destruct (lookup_lt_is_Some_2 (steppers w) a (Hvalid a Ha)) as (x & Hx).
      exists x. unfold steps_of, sense_of. rewrite Hx.
      split; [reflexivity|]. split; [lia|]. split; [reflexivity|].
      intros HQ. eapply (Hclear HQ); eauto.
Qed.

(** What the worker does around the pulse loop: it takes the request,
    and when the loop is left it releases the lines, frees the motors and
    the request, and wakes the thread that waits. *)
Lemma motor_pulser_epilogue (Q : Prop) (m : Stepper) (r : nat) (rq : Stepper_req)
  (w2 : World) (j : nat) :
  steppers w !! motor = Some m -> req_available m <> 0 ->
  pinv motor r ms (pin_bulk rq) (steps_of w) (sense_of w) (length (steppers w)) Q
       (store_stepper w motor (with_req_available m 0)) (fun _ => Z.of_nat 0) (n - Z.of_nat 0) ->
  pulser_loop sched fuel 0 motor (half_period m) (Z.of_nat (length ms)) 0
    (store_stepper w motor (with_req_available m 0)) = Ok w2 ->
  pinv motor r ms (pin_bulk rq) (steps_of w) (sense_of w) (length (steppers w)) Q
       w2 (fun _ => Z.of_nat j) (n - Z.of_nat j) ->
  exists w' rest,
    motor_pulser sched fuel motor w = Ok w' /\
    (forall a, In a ms -> steps_of w' a = steps_of w a + Z.of_nat j * sense_of w a) /\
    (forall a, In a ms -> idle_in w' a) /\
    requests w' !! r = Some None /\
    length (steppers w') = length (steppers w) /\
    trace w' = trace w2 ++ EvReleaseBulk (pin_bulk rq) :: rest.
Proof.
  intros Hm Havail Hinv1 Hloop Hinv2.
  destruct ready as (_ & _ & Hvalid & _).
  set (w1 := store_stepper w motor (with_req_available m 0)) in *.
  unfold motor_pulser. rewrite (load_stepper_Some _ _ _ Hm). cbn [bind].
  destruct (Z.eqb_spec (req_available m) 0) as [|_]; [contradiction|].
  fold w1.
  assert (steppers w1 !! motor = Some (with_req_available m 0)) as Hm1.
  { cbn. apply list_lookup_insert_eq. eapply lookup_lt_Some; eauto. }
  rewrite (load_stepper_Some _ _ _ Hm1). cbn [bind].
  destruct (current_request_pinv _ _ _ _ _ _ _ _ w1 _ _ Hinv1) as (rq1 & Hcr1 & _ & _ & Hc1 & _).
  rewrite Hcr1. cbn [bind]. rewrite Hc1.
  change (half_period (with_req_available m 0)) with (half_period m).
  rewrite Hloop. cbn [bind].
  pose proof Hinv2 as (Hlen2 & _ & (m2 & Hm2 & Hreq2 & Hbusy2) & _ & Hp2).
  rewrite (load_stepper_Some _ _ _ Hm2). cbn [bind].
  unfold stepper_is_busy in Hbusy2.
  destruct (shared_mutex m2) as [x|]; [|discriminate].
  destruct (current_request_pinv _ _ _ _ _ _ _ _ w2 _ _ Hinv2)
    as (rq2 & Hcr2 & Hrq2 & Hpins2 & Hc2 & _ & Hml2 & Hwv2).
  rewrite Hcr2. cbn [bind]. rewrite Hreq2.
  unfold stepper_destroy_request. rewrite (load_req_Some _ _ _ Hrq2). cbn [bind].
  destruct (request_unlink_steps r rq2 ms 0 (emit w2 (EvReleaseBulk (pin_bulk rq2))))
    as (w3 & Hw3 & Hs3 & Hl3 & Ht3 & Hr3).
  { exact Hrq2. }
  { intros k a Hk. apply Hml2. exact Hk. }
  { intros a Ha. cbn. rewrite Hlen2. apply Hvalid. exact Ha. }
  destruct (request_unlink_idle r (length ms) 0 _ w3 rq2 Hw3 Hrq2) as (Hidle3 & _).
  rewrite Hc2, Nat2Z.id, Hw3. cbn [bind].
  assert (forall a, In a ms ->
            steps_of w3 a = steps_of w a + Z.of_nat j * sense_of w a) as Hfinal.
  { intros a Ha. rewrite Hs3. destruct (Hp2 a Ha) as (y & Hy & Hy1 & _).
    unfold steps_of at 1. cbn. rewrite Hy. exact Hy1. }
  assert (forall a, In a ms -> idle_in w3 a) as Hfree.
  { intros a Ha. apply list_elem_of_In in Ha. apply list_elem_of_lookup_1 in Ha.
    destruct Ha as (i0 & Hi0). apply (Hidle3 i0); [|apply Hml2; exact Hi0].
    split; [lia|]. cbn. eapply lookup_lt_Some; eauto. }
  set (w4 := set_requests w3 (<[r := None]> (requests w3))).
  assert (requests w4 !! r = Some None) as Hgone.
  { subst w4. cbn. apply list_lookup_insert_eq. rewrite Hr3. cbn.
    eapply lookup_lt_Some; eauto. }
  destruct (motor_waiting rq2) as [wa|] eqn:Hwa.
  - assert (wa < length (steppers w4))%nat as Hlt.
    { cbn. rewrite Hl3. cbn. unfold waiting_valid in Hwv2. rewrite Hwa in Hwv2. exact Hwv2. }
    destruct (lookup_lt_is_Some_2 _ _ Hlt) as (wm & Hwm).
    rewrite (load_stepper_Some _ _ _ Hwm). cbn [bind].
    eexists _, [EvSignalWait wa].
    split; [reflexivity|]. split; [|split; [|split; [|split]]].
    + intros a Ha. rewrite <- (Hfinal a Ha).
      apply (steps_of_store w4 wa a wm); [exact Hwm | reflexivity].
    + intros a Ha. destruct (Hfree a Ha) as (ma & Hma & E1 & E2).
      unfold idle_in. cbn. destruct (decide (wa = a)) as [<-|Hne].
      * rewrite list_lookup_insert_eq by exact Hlt. eexists. split; [reflexivity|].
        assert (wm = ma) as -> by (cbn in Hwm; congruence). auto.
      * rewrite list_lookup_insert_ne by exact Hne. exists ma. auto.
    + exact Hgone.
    + cbn. rewrite length_insert, Hl3. cbn. exact Hlen2.
    + cbn. rewrite Ht3. cbn. rewrite Hpins2. rewrite <- !app_assoc. reflexivity.
  - eexists _, [].
    split; [reflexivity|]. split; [|split; [|split; [|split]]].
    + intros a Ha. rewrite <- (Hfinal a Ha). reflexivity.
    + exact Hfree.
    + exact Hgone.
    + cbn. rewrite Hl3. cbn. exact Hlen2.
    + cbn. rewrite Ht3. cbn. rewrite Hpins2. reflexivity.
Qed.

End MotionEnds.

(** A request is accepted when the first motor is free, the handles are
    those of motors and the board grants what the request needs. *)
Lemma step_multiple_accepts (ms : list ptr) (n_steps cnt : Z) (w : World) (a0 : nat)
  (m0 : Stepper) :
  ms !! 0%nat = Some (Some a0) -> steppers w !! a0 = Some m0 ->
  stepper_is_busy m0 = false ->
  n_steps <> 0 -> 1 <= cnt <= MOTOR_LIST_SIZE_MAX ->
  handles_valid w ms 0 (Z.to_nat cnt) ->
  externals_succeed w 4 ->
  exists w', stepper_step_multiple (Some ms) n_steps cnt w = Ok (0, w').
Proof.
  intros H0 Hm0 Hidle Hn Hcnt Hvalid Hext.
  unfold stepper_step_multiple. unfold MOTOR_LIST_SIZE_MAX in *.
  destruct (Z.eqb_spec n_steps 0) as [|_]; [contradiction|].
  destruct (Z.eqb_spec cnt 0) as [|_]; [lia|].
  destruct (Z.ltb_spec 8 cnt) as [|_]; [lia|]. cbn [orb].
  rewrite (array_get_Some _ _ _ H0). cbn [bind].
  rewrite (load_stepper_Some _ _ _ Hm0). cbn [bind]. rewrite Hidle.
  replace (wrap_uint cnt) with cnt by (unfold wrap_uint; rewrite Z.mod_small; lia).
  unfold stepper_create_new_request, external. simpl.
  pose proof (Hext 0%nat ltac:(lia)) as E0. rewrite Nat.add_0_r in E0.
  pose proof (Hext 1%nat ltac:(lia)) as E1. rewrite Nat.add_1_r in E1.
  pose proof (Hext 2%nat ltac:(lia)) as E2.
  replace (ext_calls w + 2)%nat with (S (S (ext_calls w))) in E2 by lia.
  pose proof (Hext 3%nat ltac:(lia)) as E3.
  replace (ext_calls w + 3)%nat with (S (S (S (ext_calls w)))) in E3 by lia.
  rewrite E0. simpl.
  rewrite (request_motors_valid_true w) by exact Hvalid. simpl.
  match goal with
  | |- context [request_step_pins ms ?n 0 ?w1] =>
      destruct (request_step_pins_defined w1 ms n 0) as (pins & Hpins);
        [exact Hvalid|]
  end.
  rewrite Hpins. simpl. rewrite E1. simpl. rewrite E2. simpl. rewrite E3. simpl.
  match goal with
  | |- context [request_link ms ?n 0 ?r ?x ?w1] =>
      destruct (request_link_defined ms r x n 0 w1) as (w2 & Hw2 & Hr2 & Ht2 & Hl2);
        [exact Hvalid|]
  end.
  rewrite Hw2. simpl.
  assert (exists m, steppers w2 !! a0 = Some m) as (m & Hm).
  { apply lookup_lt_is_Some_2. rewrite Hl2. simpl. eapply lookup_lt_Some; eauto. }
  rewrite Hm. simpl. eexists. reflexivity.
Qed.

Lemma idle_ready (w : World) (a : nat) : idle_in w a -> stepper_ready (Some a) w = Ok 1.
Proof.
  intros (m & Hm & Hx & _). unfold stepper_ready.
  rewrite (load_stepper_Some _ _ _ Hm). cbn [bind]. unfold stepper_is_busy. rewrite Hx.
  reflexivity.
Qed.

(** X12.  When the worker has carried out a request, every motor of the
    request is free again: [stepper_ready] answers 1 for each of them,
    the request is off the heap, and a new request over the same motors
    is accepted if the board grants its lines and memory. *)
Theorem motion_end_frees_motors
  (sched : nat -> list ptr) (fuel motor : nat) (ms : list nat) (n : Z) (w : World) :
  motion_ready w motor ms n ->
  sched_valid w sched ->
  1 <= n <= UINT_MAX ->
  within_int w ms n ->
  n <= Z.of_nat fuel ->
  exists w',
    motor_pulser sched fuel motor w = Ok w' /\
    (forall a, In a ms -> stepper_ready (Some a) w' = Ok 1) /\
    (forall m r, steppers w !! motor = Some m -> current_req m = Some r ->
                 load_req w' (Some r) = Undefined) /\
    (forall k, k <> 0 -> Z.of_nat (length ms) <= MOTOR_LIST_SIZE_MAX ->
               externals_succeed w' 4 ->
               exists w'', stepper_step_multiple (Some (map Some ms)) k
                             (Z.of_nat (length ms)) w' = Ok (0, w'')).
Proof.
  intros Hready Hsched Hn Hroom Hfuel.
  destruct (pulser_start_pinv motor ms n w Hready False ltac:(intros []))
    as (m & r & rq & Hm & Havail & Hreq & Hrq & Hinv1).
  pose proof Hready as (Hhead & Hnd & Hvalid & _).
  destruct (pulser_loop_pinv motor r ms (pin_bulk rq) (steps_of w) (sense_of w)
              (length (steppers w)) False sched n (half_period m) Hnd) with
              (w := store_stepper w motor (with_req_available m 0))
              (fuel := fuel) (j := 0%nat)
    as (w2 & j & Hloop & _ & _ & Hinv2 & _ & _).
  { intros k a Ha. eapply Hsched; eauto. }
  { intros []. }
  { lia. }
  { exact Hroom. }
  { intros a _. unfold sense_of. destruct (steppers w !! a); [apply sense_cases|auto]. }
  { exact Hinv1. }
  { lia. }
  { lia. }
  destruct (motor_pulser_epilogue sched fuel motor ms n w Hready False m r rq w2 j
              Hm Havail Hinv1 Hloop Hinv2)
    as (w' & rest & Hrun & _ & Hidle & Hgone & Hlen & _).
  exists w'. split; [exact Hrun|]. split; [|split].
  - intros a Ha. apply idle_ready. apply Hidle. exact Ha.
  - intros m' r' Hm' Hr'. assert (m' = m) as -> by congruence.
    assert (r' = r) as -> by congruence.
    unfold load_req. rewrite Hgone. reflexivity.
  - intros k Hk Hle Hext.
    rewrite head_lookup in Hhead.
    assert (In motor ms) as Hmotor.
    { apply list_elem_of_In. eapply list_elem_of_lookup_2. exact Hhead. }
    destruct (Hidle motor Hmotor) as (m0 & Hm0 & Hx0 & _).
    apply (step_multiple_accepts (map Some ms) k (Z.of_nat (length ms)) w' motor m0).
    + apply lookup_map_Some. exact Hhead.
    + exact Hm0.
    + unfold stepper_is_busy. rewrite Hx0. reflexivity.
    + exact Hk.
    + split; [|exact Hle]. destruct ms; [discriminate|]. cbn [length]. lia.
    + rewrite Nat2Z.id. intros i Hi. cbn in Hi.
      destruct (lookup_lt_is_Some_2 ms i ltac:(lia)) as (a & Ha).
      exists a. split; [apply lookup_map_Some; exact Ha|].
      rewrite Hlen. apply Hvalid. apply list_elem_of_In. eapply list_elem_of_lookup_2. exact Ha.
    + exact Hext.
Qed.

Lemma motion_end_frees_motors_witness :
  exists w',
    motor_pulser nobody 3 0 both_motors_requested = Ok w' /\
    (forall a, In a [0%nat; 1%nat] -> stepper_ready (Some a) w' = Ok 1) /\
    (forall m r, steppers both_motors_requested !! 0%nat = Some m -> current_req m = Some r ->
                 load_req w' (Some r) = Undefined) /\
    (forall k, k <> 0 -> Z.of_nat (length [0%nat; 1%nat]) <= MOTOR_LIST_SIZE_MAX ->
               externals_succeed w' 4 ->
               exists w'', stepper_step_multiple (Some (map Some [0%nat; 1%nat])) k
                             (Z.of_nat (length [0%nat; 1%nat])) w' = Ok (0, w'')).
Proof.
  apply (motion_end_frees_motors nobody 3 0 [0%nat; 1%nat] 3 both_motors_requested).
  - exact both_motors_requested_ready.
  - intros k a [].
  - unfold UINT_MAX. lia.
  - apply within_int_two; vm_compute; split; discriminate.
  - lia.
Defined.

(** X13.  A stop takes effect within the pulse: when no stop flag is set
    as the motion starts and the first call of [stepper_stop] on a motor
    of the request comes during pulse [K] (counted from 0) of a request of
    more than [K] steps, the worker emits [K + 1] pulses and no more, and
    every accumulator has changed by [K + 1]. *)
Theorem stop_ends_motion_within_pulse
  (sched : nat -> list ptr) (fuel motor : nat) (ms : list nat) (n : Z) (w : World)
  (K a0 : nat) :
  motion_ready w motor ms n ->
  (forall a, In a ms -> busy_in w a) ->
  flags_clear w ms ->
  sched_valid w sched ->
  n <= UINT_MAX ->
  within_int w ms n ->
  first_stop sched ms K a0 ->
  Z.of_nat K < n ->
  (K < fuel)%nat ->
  exists w' pins pd rest,
    motor_pulser sched fuel motor w = Ok w' /\
    trace w' = trace w ++ pulse_train pins pd (S K) ++ EvReleaseBulk pins :: rest /\
    forall a, In a ms -> Z.abs (steps_of w' a - steps_of w a) = Z.of_nat K + 1.
Proof.
  intros Hready Hbusy Hclear Hsched Hn Hroom Hstop HK Hfuel.
  destruct (pulser_start_pinv motor ms n w Hready True (fun _ => Hclear))
    as (m & r & rq & Hm & Havail & Hreq & Hrq & Hinv1).
  pose proof Hready as (Hhead & Hnd & Hvalid & _).
  destruct (pulser_loop_stops motor r ms (pin_bulk rq) (steps_of w) (sense_of w)
              (length (steppers w)) sched n (half_period m) K a0 Hnd) with
              (d := K) (fuel := fuel) (j := 0%nat)
              (w := store_stepper w motor (with_req_available m 0))
    as (w2 & Hloop & Hinv2 & Ht2).
  { intros k a Ha. eapply Hsched; eauto. }
  { exact Hn. }
  { exact Hroom. }
  { intros a _. unfold sense_of. destruct (steppers w !! a); [apply sense_cases|auto]. }
  { exact Hstop. }
  { exact HK. }
  { reflexivity. }
  { exact Hinv1. }
  { intros a Ha. eapply links_kept_busy; [|apply Hbusy; exact Ha].
    eapply links_kept_store; eauto. }
  { exact Hfuel. }
  destruct (motor_pulser_epilogue sched fuel motor ms n w Hready False m r rq w2 (S K)
              Hm Havail (pinv_weaken _ _ _ _ _ _ _ _ _ _ _ Hinv1) Hloop Hinv2)
    as (w' & rest & Hrun & Hsteps & _ & _ & _ & Ht).
  exists w', (pin_bulk rq), (half_period m), rest.
  split; [exact Hrun|]. split.
  - rewrite Ht, Ht2. cbn [trace store_stepper set_steppers]. rewrite <- !app_assoc.
    reflexivity.
  - intros a Ha. rewrite (Hsteps a Ha).
    replace (steps_of w a + Z.of_nat (S K) * sense_of w a - steps_of w a)
      with (Z.of_nat (S K) * sense_of w a) by lia.
    rewrite abs_pulses by apply sense_of_cases. lia.
Qed.

Lemma stop_ends_motion_within_pulse_witness :
  exists w' pins pd rest,
    motor_pulser stop_in_second_pulse 3 0 both_motors_requested = Ok w' /\
    trace w' = trace both_motors_requested
                 ++ pulse_train pins pd 2 ++ EvReleaseBulk pins :: rest /\
    forall a, In a [0%nat; 1%nat] ->
      Z.abs (steps_of w' a - steps_of both_motors_requested a) = Z.of_nat 1 + 1.
Proof.
  apply (stop_ends_motion_within_pulse stop_in_second_pulse 3 0 [0%nat; 1%nat] 3
           both_motors_requested 1 1).
  - exact both_motors_requested_ready.
  - intros a [<-|[<-|[]]]; eexists; split; reflexivity.
  - intros a m [<-|[<-|[]]] Hm; cbn in Hm; injection Hm as <-; reflexivity.
  - intros k a. unfold stop_in_second_pulse. destruct (Nat.eqb k 1); cbn.
    + intros [[= <-]|[]]. lia.
    + intros [].
  - unfold UINT_MAX. lia.
  - apply within_int_two; vm_compute; split; discriminate.
  - split; [|split].
    + intros k a Hk _. destruct k as [|k]; [|lia]. intros [].
    + right. left. reflexivity.
    + left. reflexivity.
  - lia.
  - lia.
Defined.

(** ** Axis.c *)

Lemma with_curr_direction_id (m : Stepper) : with_curr_direction m (curr_direction m) = m.
Proof. destruct m. reflexivity. Qed.

Lemma with_reset_dir_id (x : Axis) : with_reset_dir x (reset_dir x) = x.
Proof. destruct x. reflexivity. Qed.

Lemma odc_same (w w' : World) :
  steppers w' = steppers w -> requests w' = requests w -> axes w' = axes w ->
  only_directions_changed w w'.
Proof.
  intros E1 E2 E3. split; [exact E2|]. split; [rewrite E1; reflexivity|]. split; [|split].
  - intros a m Hm. exists (curr_direction m). rewrite E1, with_curr_direction_id. exact Hm.
  - rewrite E3. reflexivity.
  - intros a x Hx. exists (reset_dir x). rewrite E3, with_reset_dir_id. exact Hx.
Qed.

Lemma odc_refl (w : World) : only_directions_changed w w.
Proof. apply odc_same; reflexivity. Qed.

Lemma odc_trans (w1 w2 w3 : World) :
  only_directions_changed w1 w2 -> only_directions_changed w2 w3 ->
  only_directions_changed w1 w3.
Proof.
  intros (A1 & A2 & A3 & A4 & A5) (B1 & B2 & B3 & B4 & B5).
  split; [congruence|]. split; [congruence|]. split; [|split; [congruence|]].
  - intros a m Hm. destruct (A3 a m Hm) as (d & Hd). destruct (B3 a _ Hd) as (d' & Hd').
    exists d'. rewrite Hd'. reflexivity.
  - intros a x Hx. destruct (A5 a x Hx) as (r & Hr). destruct (B5 a _ Hr) as (r' & Hr').
    exists r'. rewrite Hr'. reflexivity.
Qed.

Lemma odc_store_axis (w : World) (a : nat) (x : Axis) (r : Z) :
  axes w !! a = Some x -> only_directions_changed w (store_axis w a (with_reset_dir x r)).
Proof.
  intros Hx. split; [reflexivity|]. split; [reflexivity|]. split; [|split].
  - intros b m Hm. exists (curr_direction m). rewrite with_curr_direction_id. exact Hm.
  - cbn. apply length_insert.
  - intros b y Hy. cbn. destruct (decide (a = b)) as [<-|Hne].
    + rewrite list_lookup_insert_eq by (eapply lookup_lt_Some; eauto).
      exists r. assert (y = x) as -> by congruence. reflexivity.
    + rewrite list_lookup_insert_ne by exact Hne. exists (reset_dir y).
      rewrite with_reset_dir_id. exact Hy.
Qed.

Lemma odc_direction (w w' : World) (a : nat) (m : Stepper) (d : Z) :
  steppers w !! a = Some m ->
  steppers w' = <[a := with_curr_direction m d]> (steppers w) ->
  requests w' = requests w -> axes w' = axes w ->
  only_directions_changed w w'.
Proof.
  intros Hm E1 E2 E3. split; [exact E2|]. split; [rewrite E1; apply length_insert|].
  split; [|split].
  - intros b mb Hb. rewrite E1. destruct (decide (a = b)) as [<-|Hne].
    + rewrite list_lookup_insert_eq by (eapply lookup_lt_Some; eauto).
      exists d. assert (mb = m) as -> by congruence. reflexivity.
    + rewrite list_lookup_insert_ne by exact Hne. exists (curr_direction mb).
      rewrite with_curr_direction_id. exact Hb.
  - rewrite E3. reflexivity.
  - intros b x Hx. exists (reset_dir x). rewrite E3, with_reset_dir_id. exact Hx.
Qed.

Lemma set_direction_abs_frame (motor : ptr) (direction rv : Z) (w w' : World) :
  stepper_set_direction_abs motor direction w = Ok (rv, w') ->
  only_directions_changed w w' /\ (rv = 0 \/ rv = -1).
Proof.
  intros H. destruct (Z.eq_dec rv 0) as [->|Hrv].
  - apply set_direction_abs_inv in H. destruct H as (a & m & _ & Hm & _ & _ & Hs & Hr & Ha).
    split; [|auto]. eapply odc_direction; eauto.
  - apply set_direction_abs_cases in H. destruct H as [|(-> & Hs & Hr & Ha)]; [contradiction|].
    split; [|auto]. apply odc_same; auto.
Qed.

Lemma set_direction_rel_frame (motor : ptr) (direction rv : Z) (w w' : World) :
  stepper_set_direction_rel motor direction w = Ok (rv, w') ->
  only_directions_changed w w' /\ (rv = 0 \/ rv = -1).
Proof.
  unfold stepper_set_direction_rel.
  destruct motor as [a|]; [|intros [= <- <-]; split; [apply odc_refl|auto]].
  destruct (is_valid_direction_rel direction); cbn [negb];
    [|intros [= <- <-]; split; [apply odc_refl|auto]].
  intros H. ok_inv H. eapply set_direction_abs_frame; eauto.
Qed.

Lemma axis_direction_loop_frame (axis : ptr) (direction : Z) (n : nat) :
  forall (i : nat) (rv : Z) (w w' : World),
    axis_direction_loop axis direction n i w = Ok (rv, w') ->
    only_directions_changed w w' /\ (rv = 0 \/ rv = -1).
Proof.
  induction n as [|n IH]; intros i rv w w' H.
  - injection H as <- <-. split; [apply odc_refl|auto].
  - cbn [axis_direction_loop] in H. ok_inv H. ok_inv H. ok_inv H. destruct x1 as (rv1 & w1).
    apply set_direction_rel_frame in Hx1. destruct Hx1 as (Hodc & _).
    destruct (rv1 <? 0).
    + injection H as <- <-. auto.
    + apply IH in H. destruct H as (Hodc' & Hrv). split; [|exact Hrv].
      eapply odc_trans; eauto.
Qed.

Lemma axis_set_direction_frame (axis : ptr) (direction rv : Z) (w w' : World) :
  axis_set_direction axis direction w = Ok (rv, w') ->
  only_directions_changed w w' /\ (rv = 0 \/ rv = -1).
Proof.
  unfold axis_set_direction.
  destruct axis as [a|]; [|intros [= <- <-]; split; [apply odc_refl|auto]].
  intros H. ok_inv H. eapply axis_direction_loop_frame; eauto.
Qed.

(** The conversion of a distance reads nothing that a change of
    direction writes. *)
Lemma mm_to_steps_frame (w w' : World) (axis : ptr) (mm : float) :
  only_directions_changed w w' -> mm_to_steps w' axis mm = mm_to_steps w axis mm.
Proof.
  intros (_ & Hlen & Hs & Hlena & Ha). unfold mm_to_steps, load_axis.
  destruct axis as [a|]; [|reflexivity].
  destruct (axes w !! a) as [x|] eqn:Hx.
  - destruct (Ha a x Hx) as (r & Hr). rewrite Hr. cbn [bind].
    change (motors (with_reset_dir x r)) with (motors x).
    destruct (array_get (motors x) 0) as [p0| |]; cbn [bind]; try reflexivity.
    unfold load_stepper. destruct p0 as [a0|]; [|reflexivity].
    destruct (steppers w !! a0) as [m0|] eqn:Hm0.
    + destruct (Hs a0 m0 Hm0) as (d & Hd). rewrite Hd. reflexivity.
    + apply lookup_ge_None in Hm0. rewrite <- Hlen in Hm0. apply lookup_ge_None in Hm0.
      rewrite Hm0. reflexivity.
  - apply lookup_ge_None in Hx. rewrite <- Hlena in Hx. apply lookup_ge_None in Hx.
    rewrite Hx. reflexivity.
Qed.

Lemma step_multiple_success_inv (l : list ptr) (n_steps cnt : Z) (w w' : World) :
  stepper_step_multiple (Some l) n_steps cnt w = Ok (0, w') ->
  n_steps <> 0 /\
  exists a0 m0 rq,
    l !! 0%nat = Some (Some a0) /\ steppers w !! a0 = Some m0 /\
    stepper_is_busy m0 = false /\
    requests w' = requests w ++ [Some rq] /\ req_steps rq = n_steps /\
    count rq = wrap_uint cnt /\ axes w' = axes w.
Proof.
  unfold stepper_step_multiple. intros H.
  destruct (Z.eqb_spec n_steps 0) as [|Hn]; [discriminate|].
  destruct ((cnt =? 0) || (MOTOR_LIST_SIZE_MAX <? cnt)); [discriminate|].
  ok_inv H. rename x into p0. ok_inv H. rename x into m0.
  destruct (stepper_is_busy m0) eqn:Hb; [discriminate|].
  ok_inv H. destruct x as (request & w1).
  destruct request as [r|]; [|discriminate].
  destruct p0 as [a0|]; [|discriminate]. ok_inv H. injection H as <-.
  apply array_get_Ok in Hx. apply load_stepper_Ok in Hx0.
  destruct Hx0 as (a' & [= <-] & Hm0).
  apply create_request_some in Hx1.
  destruct Hx1 as (mx & rq & _ & Hr & Hc & Hs & Ha & _).
  split; [exact Hn|]. exists a0, m0, rq. cbn. auto 10.
Qed.

Lemma axis_move_steps_cases (axis : ptr) (distance : float) (rv : Z) (w w' : World) :
  axis_move_steps axis distance w = Ok (rv, w') ->
  (rv = 0 /\
   exists s x, mm_to_steps w axis distance = Ok s /\ load_axis w axis = Ok x /\
               stepper_step_multiple (Some (motors x)) s (wrap_int (num_motors x)) w
                 = Ok (0, w')) \/
  (rv = -1 /\ steppers w' = steppers w /\ requests w' = requests w /\ axes w' = axes w).
Proof.
  unfold axis_move_steps. intros H. ok_inv H. rename x into s. ok_inv H.
  ok_inv H. destruct x0 as (rv1 & w1).
  pose proof (step_multiple_cases _ _ _ _ _ _ Hx1) as [->|(-> & Hs & Hr & Ha)].
  - change (0 <? 0) with false in H. injection H as <- <-. left. eauto 6.
  - change (-1 <? 0) with true in H. injection H as <- <-. right. auto.
Qed.

Lemma axis_move_negative_cases (a : nat) (d : float) (rv : Z) (w w' : World) :
  axis_move_negative (Some a) a d w = Ok (rv, w') ->
  exists w2,
    only_directions_changed w w2 /\
    ((rv = 0 /\
      exists s x, mm_to_steps w2 (Some a) (magnitude d) = Ok s /\
                  load_axis w2 (Some a) = Ok x /\
                  stepper_step_multiple (Some (motors x)) s (wrap_int (num_motors x)) w2
                    = Ok (0, w')) \/
     (rv = -1 /\ steppers w' = steppers w2 /\ requests w' = requests w2 /\
      axes w' = axes w2)).
Proof.
  unfold axis_move_negative, magnitude. destruct (PrimFloat.ltb d 0%float).
  - intros H. ok_inv H. ok_inv H. destruct x0 as (rv1 & w1).
    apply axis_set_direction_frame in Hx0. destruct Hx0 as (Hodc & Hrv1).
    assert (only_directions_changed w w1) as Hodc1.
    { eapply odc_trans; [|exact Hodc]. apply odc_store_axis.
      unfold load_axis in Hx. destruct (axes w !! a); [injection Hx as <-; reflexivity|discriminate]. }
    destruct Hrv1 as [-> | ->].
    + change (0 <? 0) with false in H. cbv iota in H. exists w1. split; [exact Hodc1|].
      apply axis_move_steps_cases. exact H.
    + change (-1 <? 0) with true in H. injection H as <- <-. exists w1. auto 6.
  - intros H. exists w. split; [apply odc_refl|]. apply axis_move_steps_cases. exact H.
Qed.

Lemma axis_move_cases (a : nat) (d : float) (rv : Z) (w w' : World) :
  axis_move (Some a) d w = Ok (rv, w') ->
  PrimFloat.eqb d 0%float = false ->
  exists w2,
    only_directions_changed w w2 /\
    ((rv = 0 /\
      exists s x, mm_to_steps w2 (Some a) (magnitude d) = Ok s /\
                  load_axis w2 (Some a) = Ok x /\
                  stepper_step_multiple (Some (motors x)) s (wrap_int (num_motors x)) w2
                    = Ok (0, w')) \/
     (rv = -1 /\ steppers w' = steppers w2 /\ requests w' = requests w2 /\
      axes w' = axes w2)).
Proof.
  unfold axis_move. intros H Hd. rewrite Hd in H. ok_inv H.
  destruct (reset_dir x =? 0); cbn [negb] in H.
  - apply axis_move_negative_cases. exact H.
  - ok_inv H. destruct x0 as (rv1 & w1).
    apply axis_set_direction_frame in Hx0. destruct Hx0 as (Hodc & Hrv1).
    assert (only_directions_changed w w1) as Hodc1.
    { eapply odc_trans; [|exact Hodc]. apply odc_store_axis.
      unfold load_axis in Hx. destruct (axes w !! a); [injection Hx as <-; reflexivity|discriminate]. }
    destruct Hrv1 as [-> | ->].
    + change (0 <? 0) with false in H. cbv iota in H.
      apply axis_move_negative_cases in H. destruct H as (w2 & Hodc2 & H).
      exists w2. split; [eapply odc_trans; eauto|exact H].
    + change (-1 <? 0) with true in H. injection H as <- <-. exists w1. auto 6.
Qed.

(** X16.  A call of [axis_move] that does not return 0 returns -1 and
    has started no motion: no request was made, and motors and axes are
    as before but for the current directions and the direction latch,
    which the call may have changed before it failed. *)
Theorem axis_move_rejected_starts_no_motion (axis : ptr) (d : float) (rv : Z)
  (w w' : World) :
  axis_move axis d w = Ok (rv, w') ->
  rv <> 0 ->
  rv = -1 /\ only_directions_changed w w'.
Proof.
  intros H Hrv. destruct axis as [a|]; [|injection H as <- <-; split; [reflexivity|apply odc_refl]].
  destruct (PrimFloat.eqb d 0%float) eqn:Hd.
  - unfold axis_move in H. rewrite Hd in H. injection H as <- <-. contradiction.
  - apply axis_move_cases in H; [|exact Hd].
    destruct H as (w2 & Hodc & [(-> & _)|(-> & Hs & Hr & Ha)]); [contradiction|].
    split; [reflexivity|]. eapply odc_trans; [exact Hodc|]. apply odc_same; auto.
Qed.

(** X17.  [axis_move] with a distance other than zero returns 0 only
    when the distance converts to at least one microstep and the first
    motor of the axis is free; the one request it has then made is for
    that number of steps and for all the motors of the axis. *)
Theorem axis_move_accepted_needs_a_step (a : nat) (d : float) (w w' : World) (x : Axis) :
  axis_move (Some a) d w = Ok (0, w') ->
  PrimFloat.eqb d 0%float = false ->
  axes w !! a = Some x ->
  exists s a0 m0 rq,
    mm_to_steps w (Some a) (magnitude d) = Ok s /\ 1 <= s <= UINT_MAX /\
    motors x !! 0%nat = Some (Some a0) /\ steppers w !! a0 = Some m0 /\
    stepper_is_busy m0 = false /\
    requests w' = requests w ++ [Some rq] /\ req_steps rq = s /\
    count rq = wrap_uint (wrap_int (num_motors x)).
Proof.
  intros H Hd Hx. apply axis_move_cases in H; [|exact Hd].
  destruct H as (w2 & Hodc & [(_ & s & x2 & Hs & Hx2 & Hstep)|(E & _)]); [|discriminate].
  rewrite (mm_to_steps_frame w w2 _ _ Hodc) in Hs.
  pose proof Hodc as (Hr & Hlen & Hst & _ & Hax).
  destruct (Hax a x Hx) as (r & Hxr).
  unfold load_axis in Hx2. rewrite Hxr in Hx2. injection Hx2 as <-.
  apply step_multiple_success_inv in Hstep.
  destruct Hstep as (Hs0 & a0 & m2 & rq & H0 & Hm2 & Hb & Hreq & Hrs & Hc & _).
  cbn [motors num_motors with_reset_dir] in *.
  assert (exists m0, steppers w !! a0 = Some m0 /\ stepper_is_busy m0 = false) as (m0 & Hm0 & Hb0).
  { destruct (steppers w !! a0) as [m0|] eqn:Hm0.
    - destruct (Hst a0 m0 Hm0) as (dd & Hdd). exists m0. split; [reflexivity|].
      rewrite Hdd in Hm2. injection Hm2 as <-. exact Hb.
    - apply lookup_ge_None in Hm0. rewrite <- Hlen in Hm0. apply lookup_ge_None in Hm0.
      congruence. }
  exists s, a0, m0, rq. split; [exact Hs|]. split.
  { unfold mm_to_steps in Hs. ok_inv Hs. ok_inv Hs. ok_inv Hs.
    unfold double_to_uint in Hs. destruct (trunc_SF _) as [v|]; [|discriminate].
    destruct (Z.leb_spec 0 v); [|discriminate].
    destruct (Z.leb_spec v UINT_MAX); [|discriminate]. injection Hs as <-. lia. }
  rewrite Hr in Hreq. auto 10.
Qed.

Lemma axis_move_rejected_starts_no_motion_witness :
  -1 = -1 /\ only_directions_changed one_axis short_move_rejected.
Proof.
  apply (axis_move_rejected_starts_no_motion (Some 0%nat) (-0.0625)%float (-1) one_axis
           short_move_rejected).
  - vm_compute. reflexivity.
  - lia.
Defined.

Lemma axis_move_accepted_needs_a_step_witness :
  exists s a0 m0 rq,
    mm_to_steps one_axis (Some 0%nat) (magnitude (-1)%float) = Ok s /\ 1 <= s <= UINT_MAX /\
    motors (mkAxis [Some 0%nat; Some 1%nat; None; None; None; None; None; None] 2 0 40%float
                   0%float 0%float) !! 0%nat = Some (Some a0) /\
    steppers one_axis !! a0 = Some m0 /\
    stepper_is_busy m0 = false /\
    requests negative_move_requested = requests one_axis ++ [Some rq] /\ req_steps rq = s /\
    count rq = wrap_uint (wrap_int (num_motors
                 (mkAxis [Some 0%nat; Some 1%nat; None; None; None; None; None; None] 2 0
                         40%float 0%float 0%float))).
Proof.
  apply (axis_move_accepted_needs_a_step 0 (-1)%float one_axis negative_move_requested).
  - vm_compute. reflexivity.
  - vm_compute. reflexivity.
  - reflexivity.
Defined.

Lemma set_speed_loop_frame (ms : list ptr) (pps : Z) (n : nat) :
  forall (i : nat) (rv : Z) (w w' : World),
    set_speed_loop ms pps n i w = Ok (rv, w') ->
    axes w' = axes w /\ requests w' = requests w /\ (rv = 0 \/ rv = -1).
Proof.
  induction n as [|n IH]; intros i rv w w' H.
  - injection H as <- <-. auto.
  - cbn [set_speed_loop] in H. ok_inv H. ok_inv H.
    destruct (stepper_is_busy x0); [injection H as <- <-; auto|].
    destruct x as [a|]; [|injection H as <- <-; auto].
    apply IH in H. exact H.
Qed.

Lemma set_speed_multiple_frame (ms : option (list ptr)) (pps cnt rv : Z) (w w' : World) :
  stepper_set_speed_multiple ms pps cnt w = Ok (rv, w') ->
  axes w' = axes w /\ requests w' = requests w /\ (rv = 0 \/ rv = -1).
Proof.
  unfold stepper_set_speed_multiple. destruct ms as [l|]; [|intros [= <- <-]; auto].
  destruct (pps =? 0); [intros [= <- <-]; auto|].
  destruct ((cnt =? 0) || (MOTOR_LIST_SIZE_MAX <? cnt)); [intros [= <- <-]; auto|].
  apply set_speed_loop_frame.
Qed.

(** X18.  [axis_set_speed] either returns 0, and then the speed is
    positive and converts to at least one microstep per second, the axis
    has the new speed, and every motor of the axis has the half period of
    that rate, capped at 4160 microsteps per second; or it returns -1,
    and then the axis keeps the speed it had. *)
Theorem axis_set_speed_outcome (axis : ptr) (v : float) (rv : Z) (w w' : World) :
  axis_set_speed axis v w = Ok (rv, w') ->
  (rv = 0 /\
   exists a x s,
     axis = Some a /\ axes w !! a = Some x /\ PrimFloat.leb v 0%float = false /\
     mm_to_steps w axis v = Ok s /\ 1 <= s /\
     axes w' = <[a := with_speed x v]> (axes w) /\
     forall i, (i < Z.to_nat (num_motors x))%nat ->
       exists b m, motors x !! i = Some (Some b) /\ steppers w' !! b = Some m /\
                   half_period m = 500000 / Z.min s 4160) \/
  (rv = -1 /\ axes w' = axes w /\ requests w' = requests w).
Proof.
  unfold axis_set_speed. destruct axis as [a|]; [|intros [= <- <-]; auto].
  destruct (PrimFloat.leb v 0%float) eqn:Hv; [intros [= <- <-]; auto|].
  intros H. ok_inv H. rename x into s. ok_inv H. ok_inv H. destruct x0 as (rv1 & w1).
  pose proof (set_speed_multiple_frame _ _ _ _ _ _ Hx1) as (Ha & Hr & [->| ->]).
  - change (0 <? 0) with false in H. cbv iota in H. ok_inv H. injection H as <- <-.
    left. split; [reflexivity|].
    assert (axes w !! a = Some x) as Hax.
    { unfold load_axis in Hx0. destruct (axes w !! a); [injection Hx0 as <-; reflexivity|discriminate]. }
    assert (x0 = x) as ->.
    { unfold load_axis in Hx2. rewrite Ha, Hax in Hx2. congruence. }
    assert (0 <= s) as Hs0.
    { unfold mm_to_steps in Hx. ok_inv Hx. ok_inv Hx. ok_inv Hx.
      unfold double_to_uint in Hx. destruct (trunc_SF _) as [t|]; [|discriminate].
      destruct (Z.leb_spec 0 t); [|discriminate].
      destruct (t <=? UINT_MAX); [|discriminate]. injection Hx as <-. assumption. }
    unfold stepper_set_speed_multiple in Hx1.
    destruct (Z.eqb_spec s 0) as [|Hs]; [discriminate|].
    destruct ((num_motors x =? 0) || (MOTOR_LIST_SIZE_MAX <? num_motors x)); [discriminate|].
    exists a, x, s. split; [reflexivity|]. split; [exact Hax|]. split; [reflexivity|].
    split; [exact Hx|]. split; [lia|]. split.
    + cbn. rewrite Ha. reflexivity.
    + intros i Hi. unfold MAX_PPS in Hx1.
      replace (Z.min s 4160) with (if 4160 <? s then 4160 else s)
        by (destruct (Z.ltb_spec 4160 s); lia).
      destruct (set_speed_loop_sets _ _ _ _ _ _ Hx1 i ltac:(lia)) as (b & m & H1 & H2 & H3).
      exists b, m. auto.
  - change (-1 <? 0) with true in H. injection H as <- <-. auto.
Qed.

Lemma axis_set_speed_outcome_witness :
  (0 = 0 /\
   exists a x s,
     Some 0%nat = Some a /\ axes one_axis !! a = Some x /\
     PrimFloat.leb 10%float 0%float = false /\
     mm_to_steps one_axis (Some 0%nat) 10%float = Ok s /\ 1 <= s /\
     axes speed_set = <[a := with_speed x 10%float]> (axes one_axis) /\
     forall i, (i < Z.to_nat (num_motors x))%nat ->
       exists b m, motors x !! i = Some (Some b) /\ steppers speed_set !! b = Some m /\
                   half_period m = 500000 / Z.min s 4160) \/
  (0 = -1 /\ axes speed_set = axes one_axis /\ requests speed_set = requests one_axis).
Proof.
  apply (axis_set_speed_outcome (Some 0%nat) 10%float 0 one_axis speed_set).
  vm_compute. reflexivity.
Defined.

(** The two outcomes of [axis_init]. *)
Lemma axis_init_cases (ms : option (list ptr)) (mm_per_rot cnt : Z) (w w' : World)
  (h : ptr) :
  0 <= cnt ->
  axis_init ms mm_per_rot cnt w = Ok (h, w') ->
  steppers w' = steppers w /\ requests w' = requests w /\
  match h with
  | None => axes w' = axes w
  | Some a =>
      a = length (axes w) /\
      exists l x,
        ms = Some l /\ axes w' = axes w ++ [x] /\
        1 <= cnt <= MOTOR_LIST_SIZE_MAX /\ mm_per_rot <> 0 /\
        num_motors x = cnt /\ mm_per_rotation x = uint_to_double mm_per_rot /\
        reset_dir x = 0 /\ position x = 0%float /\ speed x = 0%float /\
        length (motors x) = Z.to_nat MOTOR_LIST_SIZE_MAX /\
        (forall i, (i < Z.to_nat cnt)%nat ->
           exists b, l !! i = Some (Some b) /\ motors x !! i = Some (Some b)) /\
        (forall i, (Z.to_nat cnt <= i < Z.to_nat MOTOR_LIST_SIZE_MAX)%nat ->
           motors x !! i = Some None)
  end.
Proof.
  intros Hcnt. unfold axis_init. destruct ms as [l|]; [|intros [= <- <-]; auto].
  destruct (Z.eqb_spec mm_per_rot 0) as [|Hmm]; [intros [= <- <-]; auto|].
  destruct (Z.eqb_spec cnt 0) as [|Hc0]; [intros [= <- <-]; auto|].
  destruct (Z.ltb_spec MOTOR_LIST_SIZE_MAX cnt) as [|Hc8]; [intros [= <- <-]; auto|].
  cbn [orb]. unfold external. cbn [fst snd ext_ok ext_calls steppers requests axes].
  destruct (ext_ok w (ext_calls w)); cbn [negb]; [|intros [= <- <-]; auto].
  intros H. ok_inv H. destruct x; cbn [negb] in H; [|injection H as <- <-; auto].
  injection H as <- <-. cbn [steppers requests axes set_axes].
  split; [reflexivity|]. split; [reflexivity|]. split; [reflexivity|].
  assert (forall n i, axis_motors_valid l n i = Ok true ->
            forall j, (i <= j < i + n)%nat -> exists b, l !! j = Some (Some b)) as Hvalid.
  { induction n as [|n IH]; intros i Hv j Hj; [lia|].
    cbn [axis_motors_valid] in Hv. ok_inv Hv. apply array_get_Ok in Hx0.
    destruct x as [b|]; [|discriminate].
    destruct (decide (j = i)) as [->|Hne]; [eauto|]. apply (IH (S i) Hv). lia. }
  unfold MOTOR_LIST_SIZE_MAX in *.
  assert (0 < cnt) as Hpos by lia.
  eexists l, _. split; [reflexivity|]. split; [reflexivity|].
  cbn [num_motors mm_per_rotation reset_dir position speed motors].
  split; [lia|]. split; [exact Hmm|]. repeat (split; [reflexivity|]).
  assert (forall i, (i < Z.to_nat cnt)%nat -> exists b, l !! i = Some (Some b)) as Hl.
  { intros i Hi. apply (Hvalid _ _ Hx i). lia. }
  assert (Z.to_nat cnt <= length l)%nat as Hlen.
  { destruct (Hl (Z.to_nat cnt - 1)%nat ltac:(lia)) as (b & Hb).
    apply lookup_lt_Some in Hb. lia. }
  split; [|split].
  - rewrite length_app, length_take, length_replicate. lia.
  - intros i Hi. destruct (Hl i Hi) as (b & Hb). exists b. split; [exact Hb|].
    rewrite lookup_app_l by (rewrite length_take; lia).
    rewrite lookup_take_lt by lia. exact Hb.
  - intros i Hi. rewrite lookup_app_r by (rewrite length_take; lia).
    rewrite length_take. apply lookup_replicate_2. lia.
Qed.

(** X19.  [axis_init] either returns NULL and adds no axis, or returns
    the handle of one new axis: of the first [count] motors of the list,
    all of them handles that are not NULL, with [count] between 1 and 8,
    a positive number of millimetres per rotation, and position, speed and
    direction latch at zero.  No motor is touched. *)
Theorem axis_init_outcome (ms : option (list ptr)) (mm_per_rot cnt : Z) (w w' : World)
  (h : ptr) :
  0 <= cnt <= UINT_MAX ->
  axis_init ms mm_per_rot cnt w = Ok (h, w') ->
  steppers w' = steppers w /\ requests w' = requests w /\
  match h with
  | None => axes w' = axes w
  | Some a =>
      a = length (axes w) /\
      exists l x,
        ms = Some l /\ axes w' = axes w ++ [x] /\
        1 <= cnt <= MOTOR_LIST_SIZE_MAX /\ mm_per_rot <> 0 /\
        num_motors x = cnt /\ mm_per_rotation x = uint_to_double mm_per_rot /\
        reset_dir x = 0 /\ position x = 0%float /\ speed x = 0%float /\
        length (motors x) = Z.to_nat MOTOR_LIST_SIZE_MAX /\
        (forall i, (i < Z.to_nat cnt)%nat ->
           exists b, l !! i = Some (Some b) /\ motors x !! i = Some (Some b)) /\
        (forall i, (Z.to_nat cnt <= i < Z.to_nat MOTOR_LIST_SIZE_MAX)%nat ->
           motors x !! i = Some None)
  end.
Proof.
  intros Hcnt H. destruct h as [a|].
  - apply (axis_init_cases ms mm_per_rot cnt w w' (Some a) (proj1 Hcnt) H).
  - apply (axis_init_cases ms mm_per_rot cnt w w' None (proj1 Hcnt) H).
Qed.


Lemma axis_init_outcome_witness :
  steppers one_axis = steppers two_motors /\ requests one_axis = requests two_motors /\
  (0%nat = length (axes two_motors) /\
   exists l x,
     Some [Some 0%nat; Some 1%nat] = Some l /\ axes one_axis = axes two_motors ++ [x] /\
     1 <= 2 <= MOTOR_LIST_SIZE_MAX /\ 40 <> 0 /\
     num_motors x = 2 /\ mm_per_rotation x = uint_to_double 40 /\
     reset_dir x = 0 /\ position x = 0%float /\ speed x = 0%float /\
     length (motors x) = Z.to_nat MOTOR_LIST_SIZE_MAX /\
     (forall i, (i < Z.to_nat 2)%nat ->
        exists b, l !! i = Some (Some b) /\ motors x !! i = Some (Some b)) /\
     (forall i, (Z.to_nat 2 <= i < Z.to_nat MOTOR_LIST_SIZE_MAX)%nat ->
        motors x !! i = Some None)).
Proof.
  apply (axis_init_outcome (Some [Some 0%nat; Some 1%nat]) 40 2 two_motors one_axis
           (Some 0%nat)).
  - unfold UINT_MAX. lia.
  - reflexivity.
Defined.

(** ** config.c: the lookups *)

Lemma strncmp_eq_name (s t : string) :
  (String.length s <= 31)%nat ->
  Config.strncmp_eq s t MOTOR_NAME_LEN = String.eqb t s.
Proof.
  intros Hlen. destruct (String.eqb_spec t s) as [->|Hne].
  - apply strncmp_eq_refl.
  - destruct (Config.strncmp_eq s t MOTOR_NAME_LEN) eqn:E; [|reflexivity].
    apply strncmp_eq_exact in E; [congruence|unfold MOTOR_NAME_LEN; lia].
Qed.

Lemma find_motor_node_find (g : Config.Globals) (s : string) :
  (String.length s <= 31)%nat ->
  forall n i, (i + n <= length (Config.motor_list g))%nat ->
    match Config.find_motor_node g s n i with
    | Ok (Some k) =>
        exists node, Config.motor_list g !! k = Some node /\
                     first_motor_named s (take n (drop i (Config.motor_list g))) = Some node
    | Ok None => first_motor_named s (take n (drop i (Config.motor_list g))) = None
    | _ => False
    end.
Proof.
  intros Hlen. induction n as [|n IH]; intros i Hb; [reflexivity|].
  destruct (lookup_lt_is_Some_2 (Config.motor_list g) i) as (node & Hnode); [lia|].
  cbn [Config.find_motor_node]. rewrite (array_get_Some _ _ _ Hnode). cbn [bind].
  rewrite (drop_S _ _ _ Hnode). cbn [take first_motor_named List.find].
  rewrite (strncmp_eq_name s _ Hlen).
  destruct (String.eqb (Config.motor_config.name node) s); [eauto|].
  apply IH. lia.
Qed.

Lemma find_axis_node_find (g : Config.Globals) (s : string) :
  (String.length s <= 31)%nat ->
  forall n i, (i + n <= length (Config.axis_list g))%nat ->
    match Config.find_axis_node g s n i with
    | Ok (Some k) =>
        exists node, Config.axis_list g !! k = Some node /\
                     first_axis_named s (take n (drop i (Config.axis_list g))) = Some node
    | Ok None => first_axis_named s (take n (drop i (Config.axis_list g))) = None
    | _ => False
    end.
Proof.
  intros Hlen. induction n as [|n IH]; intros i Hb; [reflexivity|].
  destruct (lookup_lt_is_Some_2 (Config.axis_list g) i) as (node & Hnode); [lia|].
  cbn [Config.find_axis_node]. rewrite (array_get_Some _ _ _ Hnode). cbn [bind].
  rewrite (drop_S _ _ _ Hnode). cbn [take first_axis_named List.find].
  rewrite (strncmp_eq_name s _ Hlen).
  destruct (String.eqb (Config.axis_config.name node) s); [eauto|].
  apply IH. lia.
Qed.

(** X20.  [get_motor_by_name] returns the handle of the first motor
    entry of that very name among the [motor_list_len] entries of the
    table, and NULL when there is none: names are compared as wholes. *)
Theorem get_motor_by_name_first_match (g : Config.Globals) (s : string) :
  (String.length s <= 31)%nat ->
  (Z.to_nat (Config.motor_list_len g) <= length (Config.motor_list g))%nat ->
  get_motor_by_name g (Some s)
    = Ok (match first_motor_named s (take (Z.to_nat (Config.motor_list_len g))
                                           (Config.motor_list g)) with
          | Some node => Config.motor_config.motor node
          | None => None
          end).
Proof.
  intros Hlen Hb. unfold get_motor_by_name, Config.get_motor_node_by_name.
  pose proof (find_motor_node_find g s Hlen (Z.to_nat (Config.motor_list_len g)) 0
                ltac:(lia)) as H.
  rewrite drop_0 in H.
  destruct (Config.find_motor_node g s (Z.to_nat (Config.motor_list_len g)) 0)
    as [[k|]| |]; try contradiction; cbn [bind].
  - destruct H as (node & Hnode & Hfind). rewrite Hfind.
    rewrite (array_get_Some _ _ _ Hnode). reflexivity.
  - rewrite H. reflexivity.
Qed.

(** X21.  [get_axis_by_name] searches the first [motor_list_len] entries
    of the table of axes, not the first [axis_list_len]: it returns the
    handle of the first axis entry of that name among them, and NULL for
    an axis that comes later in the table, as any axis does when there
    are no more motors than axes before it. *)
Theorem get_axis_by_name_searches_motor_count (g : Config.Globals) (s : string) :
  (String.length s <= 31)%nat ->
  (Z.to_nat (Config.motor_list_len g) <= length (Config.axis_list g))%nat ->
  get_axis_by_name g (Some s)
    = Ok (match first_axis_named s (take (Z.to_nat (Config.motor_list_len g))
                                          (Config.axis_list g)) with
          | Some node => Config.axis_config.axis node
          | None => None
          end).
Proof.
  intros Hlen Hb. unfold get_axis_by_name, Config.get_axis_node_by_name.
  pose proof (find_axis_node_find g s Hlen (Z.to_nat (Config.motor_list_len g)) 0
                ltac:(lia)) as H.
  rewrite drop_0 in H.
  destruct (Config.find_axis_node g s (Z.to_nat (Config.motor_list_len g)) 0)
    as [[k|]| |]; try contradiction; cbn [bind].
  - destruct H as (node & Hnode & Hfind). rewrite Hfind.
    rewrite (array_get_Some _ _ _ Hnode). reflexivity.
  - rewrite H. reflexivity.
Qed.

Lemma get_motor_by_name_first_match_witness :
  get_motor_by_name configured_globals (Some "a"%string)
    = Ok (match first_motor_named "a" (take (Z.to_nat (Config.motor_list_len configured_globals))
                                            (Config.motor_list configured_globals)) with
          | Some node => Config.motor_config.motor node
          | None => None
          end).
Proof.
  apply (get_motor_by_name_first_match configured_globals "a").
  - cbn. lia.
  - vm_compute. lia.
Defined.

Lemma get_axis_by_name_searches_motor_count_witness :
  get_axis_by_name configured_globals (Some "y"%string)
    = Ok (match first_axis_named "y" (take (Z.to_nat (Config.motor_list_len configured_globals))
                                           (Config.axis_list configured_globals)) with
          | Some node => Config.axis_config.axis node
          | None => None
          end).
Proof.
  apply (get_axis_by_name_searches_motor_count configured_globals "y").
  - cbn. lia.
  - vm_compute. lia.
Defined.

(** ** config.c: the construction of the objects *)

Lemma report_state (lines : list string) (w : World) :
  steppers (Config.report lines w) = steppers w /\
  requests (Config.report lines w) = requests w /\
  axes (Config.report lines w) = axes w.
Proof.
  revert w. induction lines as [|l lines IH]; intros w; [auto|].
  cbn [Config.report]. destruct (IH (emit w (EvStderr l))) as (H1 & H2 & H3). auto.
Qed.

(** The first loop of [init_motors] constructs one motor per entry, in
    the order of the table, behind the motors that exist. *)
Lemma init_motor_nodes_spec (n : nat) :
  forall (i : nat) (g : Config.Globals) (w : World) (g' : Config.Globals) (w' : World),
    Config.init_motor_nodes n i g w = Ok (0, g', w') ->
    Config.motor_list_len g' = Config.motor_list_len g /\
    Config.axis_list g' = Config.axis_list g /\
    Config.axis_list_len g' = Config.axis_list_len g /\
    requests w' = requests w /\ axes w' = axes w /\
    length (steppers w') = (length (steppers w) + n)%nat /\
    (forall a m, steppers w !! a = Some m -> steppers w' !! a = Some m) /\
    (forall j, ~ (i <= j < i + n)%nat ->
       Config.motor_list g' !! j = Config.motor_list g !! j) /\
    (forall j, (i <= j < i + n)%nat ->
       exists node m,
         Config.motor_list g !! j = Some node /\
         Config.motor_list g' !! j
           = Some (Config.with_motor node (Some (length (steppers w) + (j - i))%nat)) /\
         steppers w' !! (length (steppers w) + (j - i))%nat = Some m /\
         built_from node m).
Proof.
  induction n as [|n IH]; intros i g w g' w' H.
  - injection H as <- <-. repeat (split; [auto; lia|]). intros j Hj. lia.
  - cbn [Config.init_motor_nodes] in H. ok_inv H. rename x into node.
    apply array_get_Ok in Hx.
    destruct (Config.validate_motor_node node); [|discriminate].
    ok_inv H. destruct x as (motor & w1).
    destruct motor as [h|]; [|discriminate].
    apply stepper_init_cases in Hx0.
    destruct Hx0 as ((Hr1 & Ha1) & -> & s & m & [= <-] & Hs1 & B1 & B2 & B3 & B4 & _ & _ & B5
                     & _ & _ & B6 & _ & _ & _ & B7 & _).
    apply IH in H. cbn [Config.motor_list_len Config.axis_list Config.axis_list_len
                        Config.set_motor_list Config.motor_list] in H.
    destruct H as (H1 & H2 & H3 & H4 & H5 & H6 & H7 & H8 & H9).
    assert (i < length (Config.motor_list g))%nat as Hi by (eapply lookup_lt_Some; eauto).
    split; [exact H1|]. split; [exact H2|]. split; [exact H3|].
    split; [congruence|]. split; [congruence|].
    split; [rewrite H6, Hs1, length_app; cbn; lia|].
    split; [|split].
    + intros a ma Hma. apply H7. rewrite Hs1. apply lookup_app_l_Some. exact Hma.
    + intros j Hj. rewrite H8 by lia. apply list_lookup_insert_ne. lia.
    + intros j Hj. destruct (decide (j = i)) as [->|Hne].
      * exists node, m. split; [exact Hx|]. rewrite Nat.sub_diag, Nat.add_0_r. split.
        { rewrite H8 by lia. apply list_lookup_insert_eq. exact Hi. }
        split.
        { apply H7. rewrite Hs1. apply lookup_snoc. }
        unfold built_from. auto 10.
      * destruct (H9 j ltac:(lia)) as (nd & mj & E1 & E2 & E3 & E4).
        rewrite list_lookup_insert_ne in E1 by lia.
        rewrite Hs1, length_app in E2, E3. cbn [length] in E2, E3.
        replace (length (steppers w) + 1 + (j - S i))%nat
          with (length (steppers w) + (j - i))%nat in E2, E3 by lia.
        exists nd, mj. auto.
Qed.

Lemma axis_node_motors_spec (g : Config.Globals) (node : Config.axis_config.t) (n : nat) :
  forall (j : nat) (l : list ptr),
    Config.axis_node_motors g node n j = Ok l ->
    length l = n /\
    forall k, (k < n)%nat ->
      exists i entry,
        Config.axis_config.motors node !! (j + k)%nat = Some (Some i) /\
        Config.motor_list g !! i = Some entry /\
        l !! k = Some (Config.motor_config.motor entry).
Proof.
  induction n as [|n IH]; intros j l H.
  - injection H as <-. split; [reflexivity|]. intros k Hk. lia.
  - cbn [Config.axis_node_motors] in H.
    destruct (j <? Z.to_nat MOTOR_LIST_SIZE_MAX)%nat; [|discriminate].
    ok_inv H. apply array_get_Ok in Hx. destruct x as [i|]; [|discriminate].
    ok_inv H. apply array_get_Ok in Hx0. ok_inv H. injection H as <-.
    apply IH in Hx1. destruct Hx1 as (Hlen & Hrest). split; [cbn; lia|].
    intros k Hk. destruct k as [|k].
    + rewrite Nat.add_0_r. exists i, x. auto.
    + destruct (Hrest k ltac:(lia)) as (i' & e' & E1 & E2 & E3).
      replace (j + S k)%nat with (S j + k)%nat by lia. exists i', e'. auto.
Qed.

(** The second loop constructs one axis per entry, of the motors that
    the entry lists, and touches no motor. *)
Lemma init_axis_nodes_spec (n : nat) :
  forall (i : nat) (g : Config.Globals) (w : World) (g' : Config.Globals) (w' : World),
    Config.init_axis_nodes n i g w = Ok (0, g', w') ->
    Config.motor_list g' = Config.motor_list g /\
    Config.motor_list_len g' = Config.motor_list_len g /\
    Config.axis_list_len g' = Config.axis_list_len g /\
    steppers w' = steppers w /\ requests w' = requests w /\
    (forall a x, axes w !! a = Some x -> axes w' !! a = Some x) /\
    (forall j, ~ (i <= j < i + n)%nat ->
       Config.axis_list g' !! j = Config.axis_list g !! j) /\
    (forall j, (i <= j < i + n)%nat ->
       exists node x,
         Config.axis_list g !! j = Some node /\
         Config.axis_list g' !! j
           = Some (Config.with_axis node (Some (length (axes w) + (j - i))%nat)) /\
         axes w' !! (length (axes w) + (j - i))%nat = Some x /\
         axis_built_from (Config.motor_list g) node x).
Proof.
  induction n as [|n IH]; intros i g w g' w' H.
  - injection H as <- <-. repeat (split; [auto|]). intros j Hj. lia.
  - cbn [Config.init_axis_nodes] in H. ok_inv H. rename x into node.
    apply array_get_Ok in Hx.
    destruct (Config.validate_axis_node node) eqn:Hval; [|discriminate].
    ok_inv H. rename x into l. ok_inv H. destruct x as (axis & w1).
    destruct axis as [h|]; [|discriminate].
    assert (0 <= Config.axis_config.count node) as Hcnt.
    { unfold Config.validate_axis_node in Hval.
      destruct (Z.ltb_spec 0 (Config.axis_config.count node)); [lia|].
      rewrite ?andb_false_r, ?andb_false_l in Hval. discriminate. }
    apply axis_init_cases in Hx1; [|exact Hcnt].
    destruct Hx1 as (Hs1 & Hr1 & -> & l' & x & [= <-] & Ha1 & _ & _ & C1 & C2 & _ & _ & _ & _
                     & C3 & _).
    apply axis_node_motors_spec in Hx0. destruct Hx0 as (Hlen & Hl).
    apply IH in H. cbn [Config.motor_list Config.motor_list_len Config.axis_list_len
                        Config.set_axis_list Config.axis_list] in H.
    destruct H as (H1 & H2 & H3 & H4 & H5 & H6 & H7 & H8).
    assert (i < length (Config.axis_list g))%nat as Hi by (eapply lookup_lt_Some; eauto).
    split; [exact H1|]. split; [exact H2|]. split; [exact H3|].
    split; [congruence|]. split; [congruence|]. split; [|split].
    + intros a xa Hxa. apply H6. rewrite Ha1. apply lookup_app_l_Some. exact Hxa.
    + intros j Hj. rewrite H7 by lia. apply list_lookup_insert_ne. lia.
    + intros j Hj. destruct (decide (j = i)) as [->|Hne].
      * exists node, x. split; [exact Hx|]. rewrite Nat.sub_diag, Nat.add_0_r. split.
        { rewrite H7 by lia. apply list_lookup_insert_eq. exact Hi. }
        split.
        { apply H6. rewrite Ha1. apply lookup_snoc. }
        unfold axis_built_from. split; [exact C1|]. split; [exact C2|].
        intros k Hk. destruct (C3 k Hk) as (b & Eb1 & Eb2).
        destruct (Hl k Hk) as (i' & entry & E1 & E2 & E3).
        exists i', entry, b. cbn [Nat.add] in E1. split; [exact E1|]. split; [exact E2|].
        split; [congruence|exact Eb2].
      * destruct (H8 j ltac:(lia)) as (nd & xj & E1 & E2 & E3 & E4).
        rewrite list_lookup_insert_ne in E1 by lia.
        rewrite Ha1, length_app in E2, E3. cbn [length] in E2, E3.
        replace (length (axes w) + 1 + (j - S i))%nat
          with (length (axes w) + (j - i))%nat in E2, E3 by lia.
        exists nd, xj. auto.
Qed.

Lemma built_from_with_motor (node : Config.motor_config.t) (p : ptr) (m : Stepper) :
  built_from node m -> built_from (Config.with_motor node p) m.
Proof. unfold built_from. destruct node. cbn. auto. Qed.

Lemma axis_built_from_with_axis (table : list Config.motor_config.t)
  (node : Config.axis_config.t) (p : ptr) (x : Axis) :
  axis_built_from table node x -> axis_built_from table (Config.with_axis node p) x.
Proof. unfold axis_built_from. destruct node. cbn. auto. Qed.

Lemma init_motors_spec (g : Config.Globals) (w : World) (g' : Config.Globals) (w' : World) :
  Config.init_motors g w = Ok (0, g', w') ->
  requests w' = requests w /\
  length (steppers w') = (length (steppers w) + Z.to_nat (Config.motor_list_len g'))%nat /\
  (forall a m, steppers w !! a = Some m -> steppers w' !! a = Some m) /\
  (forall a x, axes w !! a = Some x -> axes w' !! a = Some x) /\
  (forall i, (i < Z.to_nat (Config.motor_list_len g'))%nat ->
     exists node m,
       Config.motor_list g' !! i = Some node /\
       Config.motor_config.motor node = Some (length (steppers w) + i)%nat /\
       steppers w' !! (length (steppers w) + i)%nat = Some m /\
       built_from node m) /\
  (forall j, (j < Z.to_nat (Config.axis_list_len g'))%nat ->
     exists node h x,
       Config.axis_list g' !! j = Some node /\
       Config.axis_config.axis node = Some h /\ axes w' !! h = Some x /\
       axis_built_from (Config.motor_list g') node x).
Proof.
  unfold Config.init_motors. intros H. ok_inv H. destruct x as ((rv & g1) & w1).
  destruct (Z.eqb_spec rv 0) as [->|Hrv]; [|injection H as -> _ _; contradiction].
  apply init_motor_nodes_spec in Hx.
  destruct Hx as (M1 & M2 & M3 & M4 & M5 & M6 & M7 & _ & M9).
  apply init_axis_nodes_spec in H.
  destruct H as (A1 & A2 & A3 & A4 & A5 & A6 & _ & A8).
  split; [congruence|]. split; [rewrite A4, M6, A2, M1; reflexivity|].
  split; [intros a m Hm; rewrite A4; auto|].
  split; [intros a x Hx; apply A6; rewrite M5; exact Hx|].
  split.
  - intros i Hi. rewrite A2, M1 in Hi.
    destruct (M9 i ltac:(lia)) as (node & m & E1 & E2 & E3 & E4).
    rewrite Nat.sub_0_r in E2, E3.
    exists (Config.with_motor node (Some (length (steppers w) + i)%nat)), m.
    rewrite A1, A4. split; [exact E2|]. split; [destruct node; reflexivity|].
    split; [exact E3|]. apply built_from_with_motor. exact E4.
  - intros j Hj. rewrite A3, M3 in Hj. rewrite M3 in A8.
    destruct (A8 j ltac:(lia)) as (node & x & E1 & E2 & E3 & E4).
    exists (Config.with_axis node (Some (length (axes w1) + (j - 0))%nat)),
           (length (axes w1) + (j - 0))%nat, x.
    split; [exact E2|]. split; [destruct node; reflexivity|]. split; [exact E3|].
    rewrite A1. apply axis_built_from_with_axis. exact E4.
Qed.

(** X22.  When [read_motor_config] returns 0, every entry of the two tables
    has its object: entry [i] of the motors holds the handle of the [i]-th
    motor made by the call, which has the name (cut to 31 characters), the
    pins, the positive direction and the microsteps of the entry; every
    entry of the axes holds the handle of an axis with the entry's count
    and distance per rotation, whose motors are the handles of the motor
    entries that the axis lists.  No request is made, and the motors and
    axes that existed before the call are as they were. *)
Theorem read_motor_config_builds_every_entry (fuel : nat) (file : option Config.FILE)
  (g : Config.Globals) (w : World) (g' : Config.Globals) (w' : World) :
  Config.read_motor_config fuel file g w = Ok (0, g', w') ->
  requests w' = requests w /\
  length (steppers w') = (length (steppers w) + Z.to_nat (Config.motor_list_len g'))%nat /\
  (forall a m, steppers w !! a = Some m -> steppers w' !! a = Some m) /\
  (forall a x, axes w !! a = Some x -> axes w' !! a = Some x) /\
  (forall i, (i < Z.to_nat (Config.motor_list_len g'))%nat ->
     exists node m,
       Config.motor_list g' !! i = Some node /\
       Config.motor_config.motor node = Some (length (steppers w) + i)%nat /\
       steppers w' !! (length (steppers w) + i)%nat = Some m /\
       built_from node m) /\
  (forall j, (j < Z.to_nat (Config.axis_list_len g'))%nat ->
     exists node h x,
       Config.axis_list g' !! j = Some node /\
       Config.axis_config.axis node = Some h /\ axes w' !! h = Some x /\
       axis_built_from (Config.motor_list g') node x).
Proof.
  unfold Config.read_motor_config. destruct file as [config_file|]; [|discriminate].
  intros H. ok_inv H. destruct x as (error & m).
  destruct (Z.eqb_spec error 0) as [->|Herr].
  - apply init_motors_spec in H.
    destruct (report_state (Config.stderr m) w) as (R1 & R2 & R3).
    rewrite R1, R2, R3 in H. exact H.
  - injection H as H _ _. lia.
Qed.

Lemma read_motor_config_builds_every_entry_witness :
  requests configured_world = requests no_objects /\
  length (steppers configured_world)
    = (length (steppers no_objects) + Z.to_nat (Config.motor_list_len configured_globals))%nat /\
  (forall a m, steppers no_objects !! a = Some m -> steppers configured_world !! a = Some m) /\
  (forall a x, axes no_objects !! a = Some x -> axes configured_world !! a = Some x) /\
  (forall i, (i < Z.to_nat (Config.motor_list_len configured_globals))%nat ->
     exists node m,
       Config.motor_list configured_globals !! i = Some node /\
       Config.motor_config.motor node = Some (length (steppers no_objects) + i)%nat /\
       steppers configured_world !! (length (steppers no_objects) + i)%nat = Some m /\
       built_from node m) /\
  (forall j, (j < Z.to_nat (Config.axis_list_len configured_globals))%nat ->
     exists node h x,
       Config.axis_list configured_globals !! j = Some node /\
       Config.axis_config.axis node = Some h /\ axes configured_world !! h = Some x /\
       axis_built_from (Config.motor_list configured_globals) node x).
Proof.
  apply (read_motor_config_builds_every_entry 200 (Some one_motor_two_axes)
           Config.initial_globals no_objects configured_globals configured_world).
  vm_compute. reflexivity.
Defined.

(** ** config.c: the counts of the tables *)

Lemma same_motors_refl (g : Config.Globals) : same_motors g g.
Proof. split; reflexivity. Qed.

Lemma same_motors_fail (g : Config.Globals) (msg : string) : same_motors g (Config.fail g msg).
Proof. split; reflexivity. Qed.

Lemma same_motors_state (g : Config.Globals) (s : Config.states) :
  same_motors g (Config.set_state g s).
Proof. split; reflexivity. Qed.

Create HintDb tables.
#[local] Hint Resolve same_motors_refl same_motors_fail same_motors_state : tables.

Lemma read_param_loop_motors (rest : list ascii) :
  forall (pl off : nat) (g : Config.Globals) (s : string) (off' : nat) (g' : Config.Globals),
    Config.read_param_loop rest pl off g = (s, off', g') ->
    same_motors g g' /\
    (g' = g \/ value_state (Config.motor_config_state g') = false).
Proof.
  induction rest as [|c rest IH]; intros pl off g s off' g' H; cbn [Config.read_param_loop] in H.
  - injection H as _ _ <-. auto with tables.
  - repeat match type of H with
           | (if ?b then _ else _) = _ => destruct b
           end;
      try (injection H as _ _ <-; split; [auto with tables|right; reflexivity]).
    destruct (Config.read_param_loop rest (S pl) (S off) g) as ((s1 & o1) & g1) eqn:E.
    injection H as _ _ <-. eapply IH. exact E.
Qed.

Lemma read_identifier_loop_motors (rest : list ascii) :
  forall (pl off : nat) (g : Config.Globals) (s : string) (off' : nat) (g' : Config.Globals),
    Config.read_identifier_loop rest pl off g = (s, off', g') ->
    same_motors g g' /\
    (g' = g \/ value_state (Config.motor_config_state g') = false).
Proof.
  induction rest as [|c rest IH]; intros pl off g s off' g' H;
    cbn [Config.read_identifier_loop] in H.
  - injection H as _ _ <-. auto with tables.
  - repeat match type of H with
           | (if ?b then _ else _) = _ => destruct b
           end;
      try (injection H as _ _ <-; split; [auto with tables|right; reflexivity]).
    destruct (Config.read_identifier_loop rest (S pl) (S off) g) as ((s1 & o1) & g1) eqn:E.
    injection H as _ _ <-. eapply IH. exact E.
Qed.

Lemma read_value_loop_motors (rest : list ascii) :
  forall (pl off : nat) (g : Config.Globals) (s : string) (off' : nat) (g' : Config.Globals),
    Config.read_value_loop rest pl off g = (s, off', g') -> same_motors g g'.
Proof.
  induction rest as [|c rest IH]; intros pl off g s off' g' H;
    cbn [Config.read_value_loop] in H.
  - injection H as _ _ <-. auto with tables.
  - repeat match type of H with
           | (if ?b then _ else _) = _ => destruct b
           end;
      try (injection H as _ _ <-; auto with tables).
    destruct (Config.read_value_loop rest (S pl) (S off) g) as ((s1 & o1) & g1) eqn:E.
    injection H as _ _ <-. eapply IH. exact E.
Qed.

Lemma read_name_loop_motors (rest : list ascii) :
  forall (vo off : nat) (g : Config.Globals) (stop : Z) (s : string) (off' : nat)
         (r : Config.name_scan),
    Config.read_name_loop rest vo off g stop = (s, off', r) ->
    same_motors g (Config.scan_globals r) /\
    (Config.motor_config_state (Config.scan_globals r) = Config.motor_config_state g \/
     value_state (Config.motor_config_state (Config.scan_globals r)) = false).
Proof.
  induction rest as [|c rest IH]; intros vo off g stop s off' r H;
    cbn [Config.read_name_loop] in H.
  - injection H as _ _ <-. cbn. auto with tables.
  - repeat match type of H with
           | (if ?b then _ else _) = _ => destruct b
           end;
      try (injection H as _ _ <-; cbn; split; [split; reflexivity|auto]).
    destruct (Config.read_name_loop rest (S vo) (S off) g stop) as ((s1 & o1) & r1) eqn:E.
    injection H as _ _ <-. eapply IH. exact E.
Qed.

Lemma append_motor_motors (g g' : Config.Globals) (node : nat) :
  Config.append_motor g node = Ok g' ->
  same_motors g g' /\ Config.motor_config_state g' = Config.motor_config_state g.
Proof.
  unfold Config.append_motor. intros H. ok_inv H.
  destruct (Config.axis_config.count x <? MOTOR_LIST_SIZE_MAX); [|discriminate].
  injection H as <-. split; [split|]; reflexivity.
Qed.

Lemma read_motor_list_loop_motors (fuel : nat) (buf : list ascii) :
  forall (off : nat) (g : Config.Globals) (s : string) (off' : nat) (g' : Config.Globals),
    Config.read_motor_list_loop fuel buf off g = Ok (s, off', g') ->
    same_motors g g' /\
    (Config.motor_config_state g' = Config.motor_config_state g \/
     value_state (Config.motor_config_state g') = false).
Proof.
  induction fuel as [|fuel IH]; intros off g s off' g' H; [discriminate|].
  cbn [Config.read_motor_list_loop] in H.
  destruct (Config.read_name_loop (drop off buf) 0 off g 0) as ((vb & o1) & r) eqn:E.
  apply read_name_loop_motors in E. destruct E as ((E1 & E2) & E3).
  destruct (Config.scan_error r =? 0).
  - destruct (0 <? String.length vb)%nat.
    + ok_inv H. destruct x as [node|].
      * ok_inv H. apply append_motor_motors in Hx0. destruct Hx0 as ((F1 & F2) & F3).
        destruct (Config.scan_stop r =? 0).
        { apply IH in H. destruct H as ((G1 & G2) & G3).
          split; [split; congruence|].
          destruct G3 as [G3|G3]; [|auto]. rewrite G3, F3. exact E3. }
        injection H as _ _ <-. split; [split; congruence|]. rewrite F3. exact E3.
      * injection H as _ _ <-. split; [split; cbn; congruence|right; reflexivity].
    + injection H as _ _ <-. split; [split; cbn; congruence|right; reflexivity].
  - injection H as _ _ <-. split; [split; cbn; congruence|right; reflexivity].
Qed.

Lemma check_param_motors (pb : string) (id : Config.identifiers) (g g' : Config.Globals)
  (pid : Config.params) :
  Config.state_check_param pb id g = Ok (pid, g') ->
  same_motors g g' /\
  (value_state (Config.motor_config_state g') = true -> motor_param pid = true ->
   id = Config.MOTOR).
Proof.
  unfold Config.state_check_param. intros H. destruct id.
  - split; [|reflexivity].
    destruct (Config.strncmp_eq pb "motors" 6); [injection H as _ <-; auto with tables|].
    ok_inv H. destruct x; injection H as _ <-; auto with tables.
  - destruct (Config.strncmp_eq pb "motors" 6).
    { injection H as <- <-. split; [auto with tables|discriminate]. }
    ok_inv H. destruct x as [p|].
    + injection H as <- <-. split; [auto with tables|]. intros _ Hp.
      unfold Config.axis_params_count in Hx.
      cbn [Config.check_param_loop Config.axis_params Config.axis_params_len
           Config.axis_params_id array_get bind] in Hx.
      cbv [array_get Config.axis_params Config.axis_params_len Config.axis_params_id] in Hx.
      cbn [lookup list_lookup bind] in Hx.
      repeat match type of Hx with
             | context [if ?b then _ else _] => destruct b
             end; try discriminate; injection Hx as <-; discriminate.
    + injection H as _ <-. split; [auto with tables|discriminate].
  - injection H as _ <-. split; [auto with tables|discriminate].
Qed.

Lemma update_motor_first (g g' : Config.Globals) (f : Config.motor_config.t -> Config.motor_config.t) :
  2 <= Config.motor_list_len g ->
  Config.update_motor g f = Ok g' ->
  Config.motor_list g' !! 0%nat = Config.motor_list g !! 0%nat /\
  Config.motor_list_len g' = Config.motor_list_len g.
Proof.
  intros Hlen. unfold Config.update_motor. intros H. ok_inv H. injection H as <-.
  cbn. split; [|reflexivity]. apply list_lookup_insert_ne. lia.
Qed.

Lemma update_axis_motors (g g' : Config.Globals) (f : Config.axis_config.t -> Config.axis_config.t) :
  Config.update_axis g f = Ok g' -> same_motors g g'.
Proof.
  unfold Config.update_axis. intros H. ok_inv H. injection H as <-. split; reflexivity.
Qed.

Lemma set_pin_first (g g' : Config.Globals) (v which : string)
  (f : Config.motor_config.t -> Z -> Config.motor_config.t) :
  2 <= Config.motor_list_len g ->
  Config.set_pin g v which f = Ok g' ->
  Config.motor_list g' !! 0%nat = Config.motor_list g !! 0%nat /\
  Config.motor_list_len g' = Config.motor_list_len g.
Proof.
  intros Hlen. unfold Config.set_pin. intros H. ok_inv H.
  destruct (0 <? x); [|injection H as <-; auto].
  destruct (negb _); [|injection H as <-; auto].
  eapply update_motor_first; eauto.
Qed.

Lemma set_param_first (pid : Config.params) (v : string) (g g' : Config.Globals) :
  (motor_param pid = true -> 2 <= Config.motor_list_len g) ->
  Config.state_set_param pid v g = Ok g' ->
  Config.motor_list g' !! 0%nat = Config.motor_list g !! 0%nat /\
  Config.motor_list_len g' = Config.motor_list_len g.
Proof.
  intros Hlen. unfold Config.state_set_param. intros H.
  assert (forall g1, same_motors (Config.set_state g Config.CLEANUP) g1 ->
            Config.motor_list g1 !! 0%nat = Config.motor_list g !! 0%nat /\
            Config.motor_list_len g1 = Config.motor_list_len g) as Hsame.
  { intros g1 (S1 & S2). rewrite S1, S2. auto. }
  destruct pid; cbn [motor_param] in Hlen.
  - apply update_motor_first in H; [exact H|apply Hlen; reflexivity].
  - apply set_pin_first in H; [exact H|apply Hlen; reflexivity].
  - apply set_pin_first in H; [exact H|apply Hlen; reflexivity].
  - ok_inv H. destruct (0 <? x); [|injection H as <-; auto].
    apply update_motor_first in H; [exact H|apply Hlen; reflexivity].
  - destruct (negb _); [|injection H as <-; auto].
    apply update_motor_first in H; [exact H|apply Hlen; reflexivity].
  - ok_inv H. destruct (_ && _); [|injection H as <-; auto].
    apply update_motor_first in H; [exact H|apply Hlen; reflexivity].
  - apply Hsame. eapply update_axis_motors. exact H.
  - injection H as <-. auto.
  - ok_inv H. destruct (0 <? x); [|injection H as <-; auto].
    apply Hsame. eapply update_axis_motors. exact H.
  - injection H as <-. auto.
Qed.

Lemma first_entry_skipped_same (m : Config.Machine) (g' : Config.Globals) :
  first_entry_skipped m -> same_motors (Config.globals m) g' ->
  first_entry_blank g' /\ 1 <= Config.motor_list_len g' /\
  (Config.last_id m = Config.MOTOR -> 2 <= Config.motor_list_len g').
Proof.
  intros (I1 & I2 & I3 & _) (S1 & S2). unfold first_entry_blank. rewrite S1, S2. auto.
Qed.

(** One turn of the loop keeps the first entry as it is. *)
Lemma step_first_entry_skipped (m m' : Config.Machine) :
  first_entry_skipped m -> Config.step m = Ok m' -> first_entry_skipped m'.
Proof.
  intros Inv H. pose proof Inv as (I1 & I2 & I3 & I4 & I5).
  unfold Config.step in H.
  destruct (Config.motor_config_state (Config.globals m)) eqn:Hst.
  - (* READ_LINE *)
    unfold Config.state_read_line in H.
    destruct (Config.getline (Config.config_file m)) as ([| |buff] & file);
      injection H as <-; unfold first_entry_skipped; cbn; repeat split; auto; discriminate.
  - (* READ_PARAM *)
    unfold Config.state_read_param in H.
    destruct (Config.read_param_loop _ _ _ _) as ((s & off) & g1) eqn:E.
    injection H as <-. apply read_param_loop_motors in E. destruct E as (E1 & E2).
    destruct (first_entry_skipped_same m g1 Inv E1) as (J1 & J2 & J3).
    unfold first_entry_skipped. cbn. repeat split; auto.
    destruct E2 as [->|E2]; [rewrite Hst|rewrite E2]; discriminate.
  - (* READ_IDENTIFIER *)
    unfold Config.state_read_identifier in H.
    destruct (Config.read_identifier_loop _ _ _ _) as ((s & off) & g1) eqn:E.
    injection H as <-. apply read_identifier_loop_motors in E. destruct E as (E1 & E2).
    destruct (first_entry_skipped_same m g1 Inv E1) as (J1 & J2 & J3).
    unfold first_entry_skipped. cbn. repeat split; auto.
    destruct E2 as [->|E2]; [rewrite Hst|rewrite E2]; discriminate.
  - (* SET_IDENTIFIER *)
    unfold Config.state_set_identifier in H.
    destruct (Config.strncmp_eq (Config.param m) "motor" 5);
      [|destruct (Config.strncmp_eq (Config.param m) "axis" 4)];
      injection H as <-; unfold first_entry_skipped; cbn; repeat split;
        auto; try discriminate; lia.
  - (* CHECK_PARAM *)
    ok_inv H. destruct x as (pid & g1). injection H as <-.
    apply check_param_motors in Hx. destruct Hx as (E1 & E2).
    destruct (first_entry_skipped_same m g1 Inv E1) as (J1 & J2 & J3).
    unfold first_entry_skipped. cbn. repeat split; auto.
  - (* READ_VALUE *)
    unfold Config.state_read_value in H.
    destruct (Config.read_value_loop _ _ _ _) as ((s & off) & g1) eqn:E.
    injection H as <-. apply read_value_loop_motors in E.
    destruct (first_entry_skipped_same m g1 Inv E) as (J1 & J2 & J3).
    unfold first_entry_skipped. cbn. repeat split; auto.
  - (* SET_PARAM *)
    ok_inv H. injection H as <-.
    assert (motor_param (Config.param_id m) = true -> 2 <= Config.motor_list_len (Config.globals m))
      as Hlen.
    { intros Hp. apply I3, I4; [reflexivity|exact Hp]. }
    apply set_param_first in Hx; [|exact Hlen]. destruct Hx as (E1 & E2).
    unfold first_entry_skipped, first_entry_blank. cbn. rewrite E1, E2.
    repeat split; auto.
  - (* READ_MOTOR_LIST *)
    ok_inv H. destruct x as ((s & off) & g1). injection H as <-.
    apply read_motor_list_loop_motors in Hx. destruct Hx as (E1 & E2).
    destruct (first_entry_skipped_same m g1 Inv E1) as (J1 & J2 & J3).
    unfold first_entry_skipped. cbn. repeat split; auto.
    destruct E2 as [E2|E2]; rewrite E2; [rewrite Hst|]; discriminate.
  - (* CLEANUP *)
    injection H as <-. unfold first_entry_skipped. cbn. repeat split; auto; discriminate.
  - (* FINISHED *)
    injection H as <-. unfold first_entry_skipped. cbn. rewrite Hst.
    repeat split; auto; discriminate.
  - (* ERROR *)
    injection H as <-. unfold first_entry_skipped. cbn. rewrite Hst.
    repeat split; auto; discriminate.
Qed.

Lemma run_first_entry_skipped (fuel : nat) :
  forall m m' : Config.Machine,
    first_entry_skipped m -> Config.run fuel m = Ok m' -> first_entry_skipped m'.
Proof.
  induction fuel as [|fuel IH]; intros m m' Inv H; [discriminate|].
  cbn [Config.run] in H. destruct (Config.stop m =? 0).
  - ok_inv H. eapply IH; [|exact H]. eapply step_first_entry_skipped; eauto.
  - injection H as <-. exact Inv.
Qed.

Lemma start_first_entry_skipped (f : Config.FILE) (g : Config.Globals) :
  1 <= Config.motor_list_len g ->
  first_entry_skipped (Config.start f (Config.clear_lists g)).
Proof.
  intros Hlen. unfold first_entry_skipped. cbn. split.
  - exists Config.empty_motor. split; reflexivity.
  - repeat split; auto; discriminate.
Qed.

(** ** config.c: the loop of the parser ends *)

(** Case analysis on the condition that heads the hypothesis [H]. *)
Ltac split_if H :=
  match type of H with
  | (if ?b then _ else _) = _ => destruct b
  end.

Lemma bind_no_timeout {A B : Type} (r : result A) (k : A -> result B) :
  r <> Timeout -> (forall a, r = Ok a -> k a <> Timeout) -> bind r k <> Timeout.
Proof. destruct r; cbn; intros H1 H2; [apply H2; reflexivity|discriminate|contradiction]. Qed.

Lemma array_get_no_timeout {A : Type} (l : list A) (i : nat) : array_get l i <> Timeout.
Proof. unfold array_get. destruct (l !! i); discriminate. Qed.

Lemma entry_no_timeout {A : Type} (l : list A) (i : Z) : Config.entry l i <> Timeout.
Proof. unfold Config.entry. destruct (i <? 0); [discriminate|apply array_get_no_timeout]. Qed.

Lemma drop_tail (buff rest : list ascii) (c : ascii) (off : nat) :
  drop off buff = c :: rest -> drop (S off) buff = rest.
Proof.
  intros H. replace (S off) with (off + 1)%nat by lia.
  rewrite <- drop_drop, H. reflexivity.
Qed.

Lemma split_line_shorter (l : list ascii) :
  l <> [] -> (length (snd (Config.split_line l)) < length l)%nat.
Proof.
  induction l as [|c l IH]; intros Hne; [contradiction|]. cbn [Config.split_line].
  destruct (Ascii.eqb c Config.newline); [cbn; lia|].
  destruct l as [|d l]; [cbn; lia|].
  destruct (Config.split_line (d :: l)) as (line & rest) eqn:E. cbn [snd length] in *.
  specialize (IH ltac:(discriminate)). lia.
Qed.

(** The scan of a parameter name leaves its state in front of the NUL of
    the line. *)
Lemma read_param_loop_ends (buff : list ascii) (rest : list ascii) :
  forall (pl off : nat) (g : Config.Globals) (s : string) (off' : nat) (g' : Config.Globals),
    drop off buff = rest -> In Config.NUL rest ->
    Config.read_param_loop rest pl off g = (s, off', g') ->
    ((Config.motor_config_state g' = Config.CHECK_PARAM \/
      Config.motor_config_state g' = Config.READ_IDENTIFIER) /\
     In Config.NUL (drop (S off') buff)) \/
    Config.motor_config_state g' = Config.CLEANUP \/
    Config.motor_config_state g' = Config.ERROR.
Proof.
  induction rest as [|c rest IH]; intros pl off g s off' g' Hd Hin H; [destruct Hin|].
  cbn [Config.read_param_loop] in H. apply drop_tail in Hd.
  destruct (Config.islower c || Ascii.eqb c "_") eqn:E1.
  - destruct (pl <? Config.PARAM_MAX_LEN - 1)%nat.
    + destruct (Config.read_param_loop rest (S pl) (S off) g) as ((s1 & o1) & g1) eqn:E.
      injection H as _ <- <-. destruct Hin as [->|Hin]; [vm_compute in E1; discriminate|].
      eapply IH; eauto.
    + injection H as _ _ <-. auto.
  - destruct (Ascii.eqb c "=") eqn:E2.
    { injection H as _ <- <-. left. split; [auto|].
      destruct Hin as [->|Hin]; [vm_compute in E2; discriminate|]. rewrite Hd. exact Hin. }
    destruct (Ascii.eqb c "[") eqn:E3.
    { injection H as _ <- <-. left. split; [auto|].
      destruct Hin as [->|Hin]; [vm_compute in E3; discriminate|]. rewrite Hd. exact Hin. }
    split_if H; injection H as _ _ <-; auto.
Qed.

Lemma read_identifier_loop_ends (rest : list ascii) :
  forall (pl off : nat) (g : Config.Globals) (s : string) (off' : nat) (g' : Config.Globals),
    In Config.NUL rest ->
    Config.read_identifier_loop rest pl off g = (s, off', g') ->
    Config.motor_config_state g' = Config.SET_IDENTIFIER \/
    Config.motor_config_state g' = Config.ERROR.
Proof.
  induction rest as [|c rest IH]; intros pl off g s off' g' Hin H; [destruct Hin|].
  cbn [Config.read_identifier_loop] in H.
  destruct (Config.islower c) eqn:E1.
  - destruct (pl <? Config.PARAM_MAX_LEN - 1)%nat.
    + destruct (Config.read_identifier_loop rest (S pl) (S off) g) as ((s1 & o1) & g1) eqn:E.
      injection H as _ _ <-. destruct Hin as [->|Hin]; [vm_compute in E1; discriminate|].
      eapply IH; eauto.
    + injection H as _ _ <-. auto.
  - destruct (Ascii.eqb c "]"); injection H as _ _ <-; auto.
Qed.

Lemma read_value_loop_ends (rest : list ascii) :
  forall (vl off : nat) (g : Config.Globals) (s : string) (off' : nat) (g' : Config.Globals),
    In Config.NUL rest ->
    Config.read_value_loop rest vl off g = (s, off', g') ->
    Config.motor_config_state g' = Config.SET_PARAM \/
    Config.motor_config_state g' = Config.ERROR.
Proof.
  induction rest as [|c rest IH]; intros vl off g s off' g' Hin H; [destruct Hin|].
  cbn [Config.read_value_loop] in H.
  destruct (Config.isalnum c || Ascii.eqb c "-" || Ascii.eqb c "_") eqn:E1.
  - destruct (vl <? Config.PARAM_MAX_LEN - 1)%nat.
    + destruct (Config.read_value_loop rest (S vl) (S off) g) as ((s1 & o1) & g1) eqn:E.
      injection H as _ _ <-. destruct Hin as [->|Hin]; [vm_compute in E1; discriminate|].
      eapply IH; eauto.
    + injection H as _ _ <-. auto.
  - split_if H; injection H as _ _ <-; auto.
Qed.

(** The scan of one motor name ends with an error, at the end of the
    list, or at a comma in front of the NUL. *)
Lemma read_name_loop_ends (buff : list ascii) (rest : list ascii) :
  forall (vo off : nat) (g : Config.Globals) (s : string) (off' : nat) (r : Config.name_scan),
    drop off buff = rest -> In Config.NUL rest ->
    Config.read_name_loop rest vo off g 0 = (s, off', r) ->
    Config.scan_error r = 1 \/
    (Config.scan_error r = 0 /\ Config.scan_stop r = 1 /\
     Config.motor_config_state (Config.scan_globals r) = Config.CLEANUP) \/
    (Config.scan_error r = 0 /\ Config.scan_stop r = 0 /\
     (off <= off')%nat /\ In Config.NUL (drop (S off') buff)).
Proof.
  induction rest as [|c rest IH]; intros vo off g s off' r Hd Hin H; [destruct Hin|].
  cbn [Config.read_name_loop] in H. apply drop_tail in Hd.
  destruct (Config.isalnum c || Ascii.eqb c "-" || Ascii.eqb c "_") eqn:E1.
  - destruct (vo <? Config.PARAM_MAX_LEN - 1)%nat.
    + destruct (Config.read_name_loop rest (S vo) (S off) g 0) as ((s1 & o1) & r1) eqn:E.
      injection H as _ <- <-. destruct Hin as [->|Hin]; [vm_compute in E1; discriminate|].
      destruct (IH _ _ _ _ _ _ Hd Hin E) as [F|[F|(F1 & F2 & F3 & F4)]]; auto.
      right. right. repeat split; auto. lia.
    + injection H as _ _ <-. auto.
  - destruct (Ascii.eqb c ",") eqn:E2.
    { injection H as _ <- <-. right. right. cbn. repeat split; auto.
      destruct Hin as [->|Hin]; [vm_compute in E2; discriminate|]. rewrite Hd. exact Hin. }
    split_if H; injection H as _ _ <-; cbn; auto.
Qed.

Lemma find_motor_node_no_timeout (g : Config.Globals) (s : string) (n : nat) :
  forall i, Config.find_motor_node g s n i <> Timeout.
Proof.
  induction n as [|n IH]; intros i; cbn [Config.find_motor_node]; [discriminate|].
  apply bind_no_timeout; [apply array_get_no_timeout|]. intros node _.
  destruct (Config.strncmp_eq _ _ _); [discriminate|apply IH].
Qed.

Lemma append_motor_no_timeout (g : Config.Globals) (node : nat) :
  Config.append_motor g node <> Timeout.
Proof.
  unfold Config.append_motor. apply bind_no_timeout; [apply entry_no_timeout|].
  intros x _. destruct (_ <? _); discriminate.
Qed.

(** The loop over the names of a motor list takes a turn per comma: it
    ends within the turns granted for the line, in CLEANUP or ERROR. *)
Lemma read_motor_list_loop_ends (buff : list ascii) (fuel : nat) :
  forall (off : nat) (g : Config.Globals),
    In Config.NUL (drop off buff) -> (length buff - off < fuel)%nat ->
    match Config.read_motor_list_loop fuel buff off g with
    | Ok (_, _, g') =>
        Config.motor_config_state g' = Config.CLEANUP \/
        Config.motor_config_state g' = Config.ERROR
    | Undefined => True
    | Timeout => False
    end.
Proof.
  induction fuel as [|fuel IH]; intros off g Hin Hfuel; [lia|].
  cbn [Config.read_motor_list_loop].
  destruct (Config.read_name_loop (drop off buff) 0 off g 0) as ((vb & o1) & r) eqn:E.
  pose proof (read_name_loop_ends buff _ _ _ _ _ _ _ eq_refl Hin E) as Hends.
  pose proof (read_name_loop_motors _ _ _ _ _ _ _ _ E) as (_ & Hstate).
  destruct (Z.eqb_spec (Config.scan_error r) 0) as [He|He]; [|cbn; auto].
  destruct (0 <? String.length vb)%nat; [|cbn; auto].
  pose proof (find_motor_node_no_timeout (Config.scan_globals r) vb
                (Z.to_nat (Config.motor_list_len (Config.scan_globals r))) 0) as Hfind.
  unfold Config.get_motor_node_by_name.
  destruct (Config.find_motor_node _ _ _ _) as [[node|]| |]; cbn [bind]; auto.
  pose proof (append_motor_no_timeout (Config.scan_globals r) node) as Happ.
  destruct (Config.append_motor (Config.scan_globals r) node) as [g1| |] eqn:Ea; cbn [bind]; auto.
  apply append_motor_motors in Ea. destruct Ea as (_ & Ea).
  destruct Hends as [F|[(_ & F2 & F3)|(_ & F2 & F3 & F4)]]; [lia| |].
  - rewrite F2. cbn. left. congruence.
  - rewrite F2. cbn. apply IH; [exact F4|].
    assert (o1 < length buff)%nat; [|lia].
    destruct (Nat.lt_ge_cases o1 (length buff)) as [|Hge]; [assumption|].
    rewrite drop_ge in F4 by lia. destruct F4.
Qed.

Lemma check_param_loop_no_timeout (pb : string) (pl : list string) (ll : list nat)
  (il : list Config.params) (n : nat) :
  forall i, Config.check_param_loop pb pl ll il n i <> Timeout.
Proof.
  induction n as [|n IH]; intros i; cbn [Config.check_param_loop]; [discriminate|].
  apply bind_no_timeout; [apply array_get_no_timeout|]. intros p _.
  apply bind_no_timeout; [apply array_get_no_timeout|]. intros len _.
  destruct (Config.strncmp_eq _ _ _); [|apply IH].
  apply bind_no_timeout; [apply array_get_no_timeout|]. discriminate.
Qed.

Lemma check_param_ends (pb : string) (id : Config.identifiers) (g : Config.Globals) :
  match Config.state_check_param pb id g with
  | Ok (_, g') =>
      Config.motor_config_state g' = Config.READ_VALUE \/
      Config.motor_config_state g' = Config.READ_MOTOR_LIST \/
      Config.motor_config_state g' = Config.ERROR
  | Undefined => True
  | Timeout => False
  end.
Proof.
  unfold Config.state_check_param.
  destruct id; try (cbn; auto; fail);
    (destruct (Config.strncmp_eq pb "motors" 6); [cbn; auto|]);
    match goal with
    | |- context [Config.check_param_loop ?a ?b ?c ?d ?e ?f] =>
        pose proof (check_param_loop_no_timeout a b c d e f) as Hc;
        destruct (Config.check_param_loop a b c d e f) as [[p|]| |]; cbn; auto
    end.
Qed.

Lemma update_motor_ends (g : Config.Globals) (f : Config.motor_config.t -> Config.motor_config.t) :
  match Config.update_motor g f with
  | Ok g' => Config.motor_config_state g' = Config.motor_config_state g
  | Undefined => True
  | Timeout => False
  end.
Proof.
  unfold Config.update_motor.
  pose proof (entry_no_timeout (Config.motor_list g) (Config.motor_list_len g - 1)) as He.
  destruct (Config.entry _ _); cbn; auto.
Qed.

Lemma update_axis_ends (g : Config.Globals) (f : Config.axis_config.t -> Config.axis_config.t) :
  match Config.update_axis g f with
  | Ok g' => Config.motor_config_state g' = Config.motor_config_state g
  | Undefined => True
  | Timeout => False
  end.
Proof.
  unfold Config.update_axis.
  pose proof (entry_no_timeout (Config.axis_list g) (Config.axis_list_len g - 1)) as He.
  destruct (Config.entry _ _); cbn; auto.
Qed.

Lemma str_to_int_no_timeout (s : string) : Config.str_to_int s <> Timeout.
Proof.
  unfold Config.str_to_int, Config.atoi, checked_int.
  destruct (Config.all_digits s); [|discriminate]. destruct (_ && _); discriminate.
Qed.

Lemma set_param_ends (pid : Config.params) (v : string) (g : Config.Globals) :
  match Config.state_set_param pid v g with
  | Ok g' =>
      Config.motor_config_state g' = Config.CLEANUP \/
      Config.motor_config_state g' = Config.ERROR
  | Undefined => True
  | Timeout => False
  end.
Proof.
  assert (forall f, match Config.update_motor (Config.set_state g Config.CLEANUP) f with
                    | Ok g' => Config.motor_config_state g' = Config.CLEANUP \/
                               Config.motor_config_state g' = Config.ERROR
                    | Undefined => True
                    | Timeout => False
                    end) as Hm.
  { intros f. pose proof (update_motor_ends (Config.set_state g Config.CLEANUP) f) as H.
    destruct (Config.update_motor _ _); auto. }
  assert (forall f, match Config.update_axis (Config.set_state g Config.CLEANUP) f with
                    | Ok g' => Config.motor_config_state g' = Config.CLEANUP \/
                               Config.motor_config_state g' = Config.ERROR
                    | Undefined => True
                    | Timeout => False
                    end) as Ha.
  { intros f. pose proof (update_axis_ends (Config.set_state g Config.CLEANUP) f) as H.
    destruct (Config.update_axis _ _); auto. }
  pose proof (str_to_int_no_timeout v) as Hs.
  unfold Config.state_set_param, Config.set_pin.
  destruct pid; try apply Hm; try apply Ha; try (cbn; auto; fail);
    try (destruct (Config.str_to_int v) as [t| |]; cbn [bind]; auto; try contradiction;
         repeat match goal with
                | |- context [if ?b then _ else _] => destruct b
                end; try apply Hm; try apply Ha; cbn; auto).
Qed.

(** One turn of the loop: it is not cut short, and it either stops the
    loop or brings the end of the file nearer. *)
Lemma step_turns_left (m : Config.Machine) :
  line_open m ->
  match Config.step m with
  | Ok m' =>
      line_open m' /\
      (Config.stop m' = 1 \/ (Config.stop m' = Config.stop m /\ (turns_left m' < turns_left m)%nat))
  | Undefined => True
  | Timeout => False
  end.
Proof.
  intros (J1 & J2). unfold Config.step, line_open, turns_left.
  destruct (Config.motor_config_state (Config.globals m)) eqn:Hst; cbn [scanning rank] in *.
  - (* READ_LINE *)
    unfold Config.state_read_line, Config.getline.
    assert (match Config.content (Config.config_file m) with
            | [] => True
            | c :: l =>
                (length (snd (Config.split_line (c :: l)))
                 < length (Config.content (Config.config_file m)))%nat
            end) as Hsh.
    { destruct (Config.content (Config.config_file m)) as [|c l]; [exact I|].
      apply split_line_shorter. discriminate. }
    destruct (Config.readable (Config.config_file m)) as [[|k]|].
    + cbn. split; [split; discriminate|right; split; [reflexivity|lia]].
    + destruct (Config.content (Config.config_file m)) as [|c l] eqn:Hc.
      * cbn. rewrite Hc. cbn.
        split; [split; discriminate|right; split; [reflexivity|lia]].
      * destruct (Config.split_line (c :: l)) as (line & rest). cbn [snd] in Hsh. cbn.
        split; [split; [discriminate|]|right; split; [reflexivity|cbn in Hsh; lia]].
        intros _. rewrite (J1 eq_refl), drop_0. apply in_or_app. right. left. reflexivity.
    + destruct (Config.content (Config.config_file m)) as [|c l] eqn:Hc.
      * cbn. rewrite Hc. cbn.
        split; [split; discriminate|right; split; [reflexivity|lia]].
      * destruct (Config.split_line (c :: l)) as (line & rest). cbn [snd] in Hsh. cbn.
        split; [split; [discriminate|]|right; split; [reflexivity|cbn in Hsh; lia]].
        intros _. rewrite (J1 eq_refl), drop_0. apply in_or_app. right. left. reflexivity.
  - (* READ_PARAM *)
    unfold Config.state_read_param.
    destruct (Config.read_param_loop _ _ _ _) as ((s & off) & g1) eqn:E. cbn.
    destruct (read_param_loop_ends _ _ _ _ _ _ _ _ eq_refl (J2 eq_refl) E)
      as [([F|F] & Hin)|[F|F]]; rewrite F; cbn;
      (split; [split; [discriminate|auto; discriminate]|right; split; [reflexivity|lia]]).
  - (* READ_IDENTIFIER *)
    unfold Config.state_read_identifier.
    destruct (Config.read_identifier_loop _ _ _ _) as ((s & off) & g1) eqn:E. cbn.
    destruct (read_identifier_loop_ends _ _ _ _ _ _ _ (J2 eq_refl) E) as [F|F]; rewrite F; cbn;
      (split; [split; discriminate|right; split; [reflexivity|lia]]).
  - (* SET_IDENTIFIER *)
    unfold Config.state_set_identifier.
    destruct (Config.strncmp_eq (Config.param m) "motor" 5);
      [|destruct (Config.strncmp_eq (Config.param m) "axis" 4)]; cbn;
      (split; [split; discriminate|right; split; [reflexivity|lia]]).
  - (* CHECK_PARAM *)
    pose proof (check_param_ends (Config.param m) (Config.last_id m) (Config.globals m)) as H.
    destruct (Config.state_check_param _ _ _) as [(pid & g1)| |]; cbn; auto.
    destruct H as [F|[F|F]]; rewrite F; cbn;
      (split; [split; [discriminate|auto; discriminate]|right; split; [reflexivity|lia]]).
  - (* READ_VALUE *)
    unfold Config.state_read_value.
    destruct (Config.read_value_loop _ _ _ _) as ((s & off) & g1) eqn:E. cbn.
    destruct (read_value_loop_ends _ _ _ _ _ _ _ (J2 eq_refl) E) as [F|F]; rewrite F; cbn;
      (split; [split; discriminate|right; split; [reflexivity|lia]]).
  - (* SET_PARAM *)
    pose proof (set_param_ends (Config.param_id m) (Config.value m) (Config.globals m)) as H.
    destruct (Config.state_set_param _ _ _) as [g1| |]; cbn; auto.
    destruct H as [F|F]; rewrite F; cbn;
      (split; [split; discriminate|right; split; [reflexivity|lia]]).
  - (* READ_MOTOR_LIST *)
    unfold Config.state_read_motor_list.
    pose proof (read_motor_list_loop_ends (Config.line_buff m)
                  (S (S (length (Config.line_buff m)))) (Config.offset m) (Config.globals m)
                  (J2 eq_refl) ltac:(lia)) as H.
    destruct (Config.read_motor_list_loop _ _ _ _) as [((s & off) & g1)| |]; cbn; auto.
    destruct H as [F|F]; rewrite F; cbn;
      (split; [split; discriminate|right; split; [reflexivity|lia]]).
  - (* CLEANUP *)
    cbn. split; [split; [reflexivity|discriminate]|right; split; [reflexivity|lia]].
  - (* FINISHED *)
    cbn. rewrite Hst. cbn. split; [split; discriminate|left; reflexivity].
  - (* ERROR *)
    cbn. rewrite Hst. cbn. split; [split; discriminate|left; reflexivity].
Qed.

Lemma rank_positive (s : Config.states) : (1 <= rank s)%nat.
Proof. destruct s; cbn; lia. Qed.

Lemma run_ends (fuel : nat) :
  forall m : Config.Machine,
    line_open m -> (Config.stop m = 0 \/ Config.stop m = 1) ->
    (turns_left m < fuel)%nat ->
    Config.run fuel m <> Timeout.
Proof.
  induction fuel as [|fuel IH]; intros m J Hstop Hfuel; [lia|].
  cbn [Config.run]. destruct Hstop as [Hs|Hs]; rewrite Hs; cbn; [|discriminate].
  pose proof (step_turns_left m J) as H.
  destruct (Config.step m) as [m'| |]; cbn [bind]; [|discriminate|contradiction].
  destruct H as (J' & [H|(H1 & H2)]).
  - destruct fuel as [|fuel]; [|cbn [Config.run]; rewrite H; cbn; discriminate].
    pose proof (rank_positive (Config.motor_config_state (Config.globals m))).
    unfold turns_left in Hfuel. lia.
  - apply IH; [exact J'|left; congruence|lia].
Qed.

Lemma run_settled (f : nat) :
  forall (f' : nat) (m : Config.Machine),
    Config.run f m <> Timeout -> (f <= f')%nat -> Config.run f' m = Config.run f m.
Proof.
  induction f as [|f IH]; intros f' m H Hle; [contradiction H; reflexivity|].
  destruct f' as [|f']; [lia|]. cbn [Config.run] in *.
  destruct (Config.stop m =? 0); [|reflexivity].
  destruct (Config.step m) as [m'| |]; cbn [bind] in *; [|reflexivity|reflexivity].
  apply IH; [exact H|lia].
Qed.

(** X25.  The loop of the parser ends: however the file reads, the
    state machine takes fewer than 8 turns for every character of the
    file and 4 more.  With that many turns granted it is never cut
    short, and its result is the same with any larger number. *)
Theorem parser_ends (fuel : nat) (file : Config.FILE) (g : Config.Globals) :
  (8 * length (Config.content file) + 4 <= fuel)%nat ->
  Config.motor_config_state_machine fuel file g <> Timeout /\
  Config.motor_config_state_machine fuel file g
    = Config.motor_config_state_machine (8 * length (Config.content file) + 4) file g.
Proof.
  intros Hfuel. unfold Config.motor_config_state_machine.
  assert (Config.run (8 * length (Config.content file) + 4) (Config.start file g) <> Timeout)
    as Hrun.
  { apply run_ends.
    - split; [discriminate|]. cbn. discriminate.
    - left. reflexivity.
    - unfold turns_left. cbn. lia. }
  rewrite (run_settled _ fuel _ Hrun Hfuel). split; [|reflexivity].
  apply bind_no_timeout; [exact Hrun|discriminate].
Qed.

Lemma parser_ends_witness :
  Config.motor_config_state_machine 2000 one_motor_two_axes Config.initial_globals <> Timeout /\
  Config.motor_config_state_machine 2000 one_motor_two_axes Config.initial_globals
    = Config.motor_config_state_machine
        (8 * length (Config.content one_motor_two_axes) + 4) one_motor_two_axes
        Config.initial_globals.
Proof.
  apply (parser_ends 2000 one_motor_two_axes Config.initial_globals).
  unfold one_motor_two_axes. cbn. lia.
Defined.

(** ** config.c: the lookup of what was configured *)

Lemma find_motor_node_range (g : Config.Globals) (s : string) (n : nat) :
  forall i k, Config.find_motor_node g s n i = Ok (Some k) -> (i <= k < i + n)%nat.
Proof.
  induction n as [|n IH]; intros i k H; cbn [Config.find_motor_node] in H; [discriminate|].
  ok_inv H. destruct (Config.strncmp_eq _ _ _).
  - injection H as <-. lia.
  - apply IH in H. lia.
Qed.

(** X24.  After [read_motor_config] has returned 0, [get_motor_by_name]
    with a name of at most 31 characters answers with a motor of that
    name that the call has made, and with NULL only when no entry of the
    table has the name. *)
Theorem configured_motor_is_found (fuel : nat) (file : option Config.FILE)
  (g : Config.Globals) (w : World) (g' : Config.Globals) (w' : World) (s : string) :
  Config.read_motor_config fuel file g w = Ok (0, g', w') ->
  (String.length s <= 31)%nat ->
  exists p,
    get_motor_by_name g' (Some s) = Ok p /\
    match p with
    | Some h =>
        (length (steppers w) <= h)%nat /\
        exists m, steppers w' !! h = Some m /\ name m = s
    | None =>
        forall i node, (i < Z.to_nat (Config.motor_list_len g'))%nat ->
          Config.motor_list g' !! i = Some node -> Config.motor_config.name node <> s
    end.
Proof.
  unfold Config.read_motor_config. destruct file as [config_file|]; [|discriminate].
  intros H Hlen. ok_inv H. destruct x as (error & m).
  destruct (Z.eqb_spec error 0) as [->|Herr]; [|injection H as H _ _; lia].
  apply init_motors_spec in H.
  destruct (report_state (Config.stderr m) w) as (R1 & _ & _). rewrite R1 in H.
  destruct H as (_ & _ & _ & _ & Hmot & _).
  assert (Z.to_nat (Config.motor_list_len g') <= length (Config.motor_list g'))%nat as Hb.
  { destruct (Nat.le_gt_cases (Z.to_nat (Config.motor_list_len g'))
                (length (Config.motor_list g'))) as [|Hgt]; [assumption|].
    destruct (Hmot _ Hgt) as (node & _ & Hnode & _).
    apply lookup_lt_Some in Hnode. lia. }
  unfold get_motor_by_name, Config.get_motor_node_by_name.
  pose proof (find_motor_node_find g' s Hlen (Z.to_nat (Config.motor_list_len g')) 0
                ltac:(lia)) as Hfind.
  rewrite drop_0 in Hfind.
  destruct (Config.find_motor_node g' s (Z.to_nat (Config.motor_list_len g')) 0)
    as [[k|]| |] eqn:E; try contradiction; cbn [bind].
  - destruct Hfind as (node & Hnode & Hfirst).
    apply find_motor_node_range in E.
    destruct (Hmot k ltac:(lia)) as (node' & mk & Hnode' & Hh & Hmk & Hbuilt).
    assert (node' = node) as -> by congruence.
    rewrite (array_get_Some _ _ _ Hnode). cbn [bind]. rewrite Hh.
    exists (Some (length (steppers w) + k)%nat). split; [reflexivity|]. split; [lia|].
    exists mk. split; [exact Hmk|].
    unfold first_motor_named in Hfirst. apply List.find_some in Hfirst.
    destruct Hfirst as (_ & Heq). apply String.eqb_eq in Heq.
    destruct Hbuilt as (Hname & _). rewrite Hname, Heq.
    clear - Hlen. unfold MOTOR_NAME_LEN. change (32 - 1)%nat with 31%nat.
    revert Hlen. generalize 31%nat as n. induction s as [|c s IH]; intros n Hlen.
    + destruct n; reflexivity.
    + destruct n as [|n]; [cbn in Hlen; lia|]. cbn [strncpy]. f_equal. apply IH.
      cbn in Hlen. lia.
  - exists None. split; [reflexivity|]. intros i node Hi Hnode Hname.
    unfold first_motor_named in Hfind.
    assert (In node (take (Z.to_nat (Config.motor_list_len g')) (Config.motor_list g')))
      as Hin.
    { apply list_elem_of_In. apply (list_elem_of_lookup_2 _ i).
      rewrite lookup_take_lt by exact Hi. exact Hnode. }
    apply (List.find_none _ _ Hfind) in Hin. cbn in Hin.
    rewrite Hname, String.eqb_refl in Hin. discriminate.
Qed.

Lemma configured_motor_is_found_witness :
  exists p,
    get_motor_by_name configured_globals (Some "a"%string) = Ok p /\
    match p with
    | Some h =>
        (length (steppers no_objects) <= h)%nat /\
        exists m, steppers configured_world !! h = Some m /\ name m = "a"%string
    | None =>
        forall i node, (i < Z.to_nat (Config.motor_list_len configured_globals))%nat ->
          Config.motor_list configured_globals !! i = Some node ->
          Config.motor_config.name node <> "a"%string
    end.
Proof.
  apply (configured_motor_is_found 200 (Some one_motor_two_axes) Config.initial_globals
           no_objects configured_globals configured_world "a").
  - vm_compute. reflexivity.
  - cbn. lia.
Defined.

(** ** config.c: lines *)

Lemma skip_char_stops (c : ascii) :
  skip_char c = true ->
  word_char c = false /\ Ascii.eqb c "=" = false /\ Ascii.eqb c "[" = false.
Proof.
  unfold skip_char, Config.isblank. intros H.
  repeat (apply orb_true_iff in H; destruct H as [H|H]);
    apply Ascii.eqb_eq in H; subst c; repeat split; reflexivity.
Qed.

(** The scan of a parameter name over the characters of a name. *)
Lemma read_param_loop_word (c : ascii) (tl : list ascii) (g : Config.Globals) (word : list ascii) :
  forall (pl off : nat) (s : string) (o : nat) (g' : Config.Globals),
    forallb word_char word = true -> (pl + length word <= 31)%nat ->
    Config.read_param_loop (c :: tl) (pl + length word) (off + length word) g = (s, o, g') ->
    Config.read_param_loop (word ++ c :: tl) pl off g
      = ((string_of_list_ascii word ++ s)%string, o, g').
Proof.
  induction word as [|a word IH]; intros pl off s o g' Hw Hlen H.
  - cbn [length] in H. rewrite !Nat.add_0_r in H. exact H.
  - cbn [forallb] in Hw. apply andb_prop in Hw. destruct Hw as (Ha & Hw).
    cbn [length] in Hlen, H. cbn [app Config.read_param_loop].
    unfold word_char in Ha. rewrite Ha.
    destruct (Nat.ltb_spec pl (Config.PARAM_MAX_LEN - 1)) as [_|Hge];
      [|unfold Config.PARAM_MAX_LEN in Hge; lia].
    rewrite (IH (S pl) (S off) s o g' Hw); [reflexivity|lia|].
    rewrite <- H. f_equal; lia.
Qed.

(** The turn that reads a line. *)
Lemma step_read_line (m : Config.Machine) (line rest : list ascii) :
  at_line_start m ->
  Config.split_line (Config.content (Config.config_file m)) = (line, rest) ->
  line <> [] ->
  Config.step m
    = Ok (Config.mkMachine (Config.set_state (Config.globals m) Config.READ_PARAM)
            (Config.mkFILE rest (pred <$> Config.readable (Config.config_file m)))
            (Config.stop m) (Config.error m) (line ++ [Config.NUL]) 0%nat (Config.param m)
            (Config.param_size m) (Config.param_id m) (Config.value m) (Config.value_size m)
            (Config.last_id m) (Config.stderr m)).
Proof.
  intros (Hst & _ & Hoff & Hr) Hsplit Hne.
  unfold Config.step. rewrite Hst, Hoff. unfold Config.state_read_line, Config.getline.
  destruct (Config.content (Config.config_file m)) as [|c l] eqn:Hc.
  { cbn in Hsplit. injection Hsplit as <- _. contradiction. }
  rewrite Hsplit.
  destruct (Config.readable (Config.config_file m)) as [[|k]|]; [contradiction| |];
    reflexivity.
Qed.

(** X26.  A line is given up at the first character after a parameter
    name when that character is a hash, a blank or the newline: a comment,
    an empty line, a name without a value, and also a parameter whose
    equals sign follows a blank.  Three turns later the parser is at the
    next line; the tables, their counts, the open section, the error flag
    and stderr are as they were, and the line is not reported. *)
Theorem line_without_assignment_is_skipped (m : Config.Machine) (word : list ascii)
  (c : ascii) (tail rest : list ascii) :
  at_line_start m ->
  Config.split_line (Config.content (Config.config_file m)) = (word ++ c :: tail, rest) ->
  forallb word_char word = true -> (length word <= 31)%nat ->
  skip_char c = true ->
  Config.advance 3 m = Ok (next_line m rest).
Proof.
  intros Hstart Hsplit Hword Hlen Hskip.
  pose proof Hstart as (Hst & Hstop & Hoff & Hr).
  destruct (skip_char_stops c Hskip) as (S1 & S2 & S3).
  cbn [Config.advance]. rewrite Hstop. cbn [Z.eqb].
  rewrite (step_read_line m _ rest Hstart Hsplit) by (destruct word; discriminate).
  cbn [bind Config.stop]. rewrite Hstop. cbn [Z.eqb].
  unfold Config.step at 1. cbn [Config.globals Config.motor_config_state Config.set_state].
  unfold Config.state_read_param. cbn [Config.line_buff Config.offset]. rewrite drop_0.
  rewrite <- app_assoc. cbn [app].
  rewrite (read_param_loop_word c (tail ++ [Config.NUL]) _ word 0 0 EmptyString
             (length word)
             (Config.set_state (Config.set_state (Config.globals m) Config.READ_PARAM)
                Config.CLEANUP) Hword ltac:(lia)).
  - cbn [bind Config.stop]. rewrite ?Hstop. cbn [Z.eqb].
    unfold Config.step, next_line. cbn. rewrite ?Hstop. reflexivity.
  - cbn [Config.read_param_loop Nat.add]. unfold word_char in S1. rewrite S1, S2, S3.
    unfold skip_char in Hskip. rewrite Hskip. reflexivity.
Qed.

Lemma line_without_assignment_is_skipped_witness :
  Config.advance 3 at_spaced_assignment
    = Ok (next_line at_spaced_assignment (list_ascii_of_string "step_pin=12" ++ [Config.newline])).
Proof.
  apply (line_without_assignment_is_skipped at_spaced_assignment
           (list_ascii_of_string "name") " "%char
           (list_ascii_of_string "= m1" ++ [Config.newline])
           (list_ascii_of_string "step_pin=12" ++ [Config.newline])).
  - unfold at_line_start. cbn. repeat split; discriminate.
  - reflexivity.
  - reflexivity.
  - cbn. lia.
  - reflexivity.
Defined.

Lemma split_line_whole (l : list ascii) :
  forallb (fun c => negb (Ascii.eqb c Config.newline)) l = true ->
  Config.split_line l = (l, []).
Proof.
  induction l as [|c l IH]; intros H; [reflexivity|].
  cbn [forallb] in H. apply andb_prop in H. destruct H as (Hc & H).
  cbn [Config.split_line]. apply negb_true_iff in Hc. rewrite Hc, (IH H). reflexivity.
Qed.

Lemma word_char_not_newline (c : ascii) :
  word_char c = true -> negb (Ascii.eqb c Config.newline) = true.
Proof.
  intros H. destruct (Ascii.eqb_spec c Config.newline) as [->|]; [|reflexivity].
  vm_compute in H. discriminate.
Qed.

Lemma name_char_not_newline (c : ascii) :
  name_char c = true -> negb (Ascii.eqb c Config.newline) = true.
Proof.
  intros H. destruct (Ascii.eqb_spec c Config.newline) as [->|]; [|reflexivity].
  vm_compute in H. discriminate.
Qed.

Lemma forallb_weaken {A : Type} (p q : A -> bool) (l : list A) :
  (forall x, p x = true -> q x = true) -> forallb p l = true -> forallb q l = true.
Proof.
  intros Hpq. induction l as [|x l IH]; cbn; [reflexivity|]. intros H.
  apply andb_prop in H. destruct H as (Hx & H). rewrite (Hpq x Hx), (IH H). reflexivity.
Qed.

(** The scan of a value that runs into the NUL of the line ends in
    ERROR. *)
Lemma read_value_loop_unterminated (value : list ascii) :
  forall (vl off : nat) (g : Config.Globals),
    forallb name_char value = true ->
    Config.motor_config_state
      (snd (Config.read_value_loop (value ++ [Config.NUL]) vl off g)) = Config.ERROR.
Proof.
  induction value as [|c value IH]; intros vl off g H; [reflexivity|].
  cbn [forallb] in H. apply andb_prop in H. destruct H as (Hc & H).
  cbn [app Config.read_value_loop]. unfold name_char in Hc. rewrite Hc.
  destruct (vl <? Config.PARAM_MAX_LEN - 1)%nat; [|reflexivity].
  specialize (IH (S vl) (S off) g H).
  destruct (Config.read_value_loop (value ++ [Config.NUL]) (S vl) (S off) g) as ((s & o) & g1).
  exact IH.
Qed.

Lemma read_name_loop_unterminated (value : list ascii) :
  forall (vo off : nat) (g : Config.Globals),
    forallb name_char value = true ->
    Config.scan_error (snd (Config.read_name_loop (value ++ [Config.NUL]) vo off g 0)) = 1.
Proof.
  induction value as [|c value IH]; intros vo off g H; [reflexivity|].
  cbn [forallb] in H. apply andb_prop in H. destruct H as (Hc & H).
  cbn [app Config.read_name_loop]. unfold name_char in Hc. rewrite Hc.
  destruct (vo <? Config.PARAM_MAX_LEN - 1)%nat; [|reflexivity].
  specialize (IH (S vo) (S off) g H).
  destruct (Config.read_name_loop (value ++ [Config.NUL]) (S vo) (S off) g 0) as ((s & o) & r).
  exact IH.
Qed.

(** [state_check_param] always has a result. *)
Lemma check_param_defined (pb : string) (id : Config.identifiers) (g : Config.Globals) :
  exists pid g',
    Config.state_check_param pb id g = Ok (pid, g') /\
    (Config.motor_config_state g' = Config.READ_VALUE \/
     Config.motor_config_state g' = Config.READ_MOTOR_LIST \/
     Config.motor_config_state g' = Config.ERROR).
Proof.
  unfold Config.state_check_param.
  destruct id; [| |eexists _, _; split; [reflexivity|auto]];
    (destruct (Config.strncmp_eq pb "motors" 6); [eexists _, _; split; [reflexivity|auto]|]);
    cbv [Config.motor_params_count Config.axis_params_count Config.check_param_loop
         Config.motor_params Config.motor_params_len Config.motor_params_id
         Config.axis_params Config.axis_params_len Config.axis_params_id array_get];
    cbn [lookup list_lookup bind];
    repeat match goal with
           | |- context [if ?b then _ else _] => destruct b
           end;
    cbn [bind]; eexists _, _; (split; [reflexivity|auto]).
Qed.

(** The machine in ERROR stops with the error flag set. *)
Lemma run_from_error (fuel : nat) (m : Config.Machine) :
  Config.motor_config_state (Config.globals m) = Config.ERROR -> Config.stop m = 0 ->
  (2 <= fuel)%nat ->
  exists m', Config.run fuel m = Ok m' /\ Config.error m' = 1.
Proof.
  intros Hst Hstop Hfuel. destruct fuel as [|[|fuel]]; [lia|lia|].
  cbn [Config.run]. rewrite Hstop. cbn [Z.eqb]. unfold Config.step. rewrite Hst.
  cbn [bind Config.stop Z.eqb]. eexists. split; reflexivity.
Qed.

(** X27.  A parameter line at the end of the file that no newline ends
    fails the parse, whatever the key and the value: the scan of the value
    runs into the end of the line, which is not a character of a value. *)
Theorem unterminated_last_line_fails (fuel : nat) (m : Config.Machine)
  (key value : list ascii) :
  at_line_start m ->
  Config.content (Config.config_file m) = key ++ "="%char :: value ->
  forallb word_char key = true -> (length key <= 31)%nat ->
  forallb name_char value = true ->
  (6 <= fuel)%nat ->
  exists m', Config.run fuel m = Ok m' /\ Config.error m' = 1.
Proof.
  intros Hstart Hcontent Hkey Hlen Hvalue Hfuel.
  pose proof Hstart as (Hst & Hstop & Hoff & Hr).
  assert (Config.split_line (Config.content (Config.config_file m))
          = (key ++ "="%char :: value, [])) as Hsplit.
  { rewrite Hcontent. apply split_line_whole. rewrite forallb_app. cbn [forallb].
    rewrite (forallb_weaken _ _ _ word_char_not_newline Hkey).
    rewrite (forallb_weaken _ _ _ name_char_not_newline Hvalue). reflexivity. }
  destruct fuel as [|fuel]; [lia|]. cbn [Config.run]. rewrite ?Hstop. cbn [Z.eqb].
  rewrite (step_read_line m _ [] Hstart Hsplit) by (destruct key; discriminate).
  cbn [bind]. destruct fuel as [|fuel]; [lia|]. cbn [Config.run Config.stop].
  rewrite ?Hstop. cbn [Z.eqb].
  unfold Config.step at 1. cbn [Config.globals Config.motor_config_state Config.set_state].
  unfold Config.state_read_param. cbn [Config.line_buff Config.offset]. rewrite drop_0.
  rewrite <- app_assoc. cbn [app].
  rewrite (read_param_loop_word "="%char (value ++ [Config.NUL]) _ key 0 0 EmptyString
             (length key)
             (Config.set_state (Config.set_state (Config.globals m) Config.READ_PARAM)
                Config.CHECK_PARAM) Hkey ltac:(lia)) by reflexivity.
  cbn [bind]. destruct fuel as [|fuel]; [lia|]. cbn [Config.run Config.stop].
  rewrite ?Hstop. cbn [Z.eqb].
  unfold Config.step at 1. cbn [Config.globals Config.motor_config_state Config.set_state
                                Config.param Config.last_id].
  destruct (check_param_defined (string_of_list_ascii key ++ "") (Config.last_id m)
              (Config.set_state (Config.set_state (Config.globals m) Config.READ_PARAM)
                 Config.CHECK_PARAM)) as (pid & g3 & Hcheck & Hstate).
  rewrite Hcheck. cbn [bind].
  assert (drop (S (length key)) (key ++ "="%char :: value ++ [Config.NUL])
          = value ++ [Config.NUL]) as Hdrop.
  { replace (S (length key)) with (length key + 1)%nat by lia.
    rewrite <- drop_drop, drop_app_length. reflexivity. }
  destruct Hstate as [F|[F|F]].
  - destruct fuel as [|fuel]; [lia|]. cbn [Config.run Config.stop].
    rewrite ?Hstop. cbn [Z.eqb].
    unfold Config.step at 1. cbn [Config.globals]. rewrite F.
    unfold Config.state_read_value. cbn [Config.line_buff Config.offset]. rewrite Hdrop.
    pose proof (read_value_loop_unterminated value 0 (S (length key)) g3 Hvalue) as Hv.
    destruct (Config.read_value_loop _ _ _ _) as ((s & o) & g4). cbn [snd] in Hv.
    cbn [bind]. apply run_from_error; [cbn; exact Hv|cbn; rewrite ?Hstop; reflexivity|lia].
  - destruct fuel as [|fuel]; [lia|]. cbn [Config.run Config.stop].
    rewrite ?Hstop. cbn [Z.eqb].
    unfold Config.step at 1. cbn [Config.globals]. rewrite F.
    unfold Config.state_read_motor_list. cbn [Config.line_buff Config.offset].
    cbn [Config.read_motor_list_loop]. rewrite Hdrop.
    pose proof (read_name_loop_unterminated value 0 (S (length key)) g3 Hvalue) as Hv.
    destruct (Config.read_name_loop _ _ _ _ _) as ((s & o) & r). cbn [snd] in Hv.
    rewrite Hv. cbn [Z.eqb bind].
    apply run_from_error; [reflexivity|cbn; rewrite ?Hstop; reflexivity|lia].
  - apply run_from_error; [cbn; exact F|cbn; rewrite ?Hstop; reflexivity|lia].
Qed.

Lemma unterminated_last_line_fails_witness :
  exists m', Config.run 10 at_unterminated_line = Ok m' /\ Config.error m' = 1.
Proof.
  apply (unterminated_last_line_fails 10 at_unterminated_line
           (list_ascii_of_string "name") (list_ascii_of_string "m1")).
  - unfold at_line_start. cbn. repeat split; discriminate.
  - reflexivity.
  - reflexivity.
  - cbn. lia.
  - reflexivity.
  - lia.
Defined.

(** ** Axis.c: the latch of the direction *)

Lemma directions_kept_same (w w' : World) :
  steppers w' = steppers w -> directions_kept w w'.
Proof. intros H b m Hm. exists m. rewrite H. auto. Qed.

Lemma directions_kept_trans (w1 w2 w3 : World) :
  directions_kept w1 w2 -> directions_kept w2 w3 -> directions_kept w1 w3.
Proof.
  intros H12 H23 b m Hm. destruct (H12 b m Hm) as (m2 & Hm2 & E2).
  destruct (H23 b m2 Hm2) as (m3 & Hm3 & E3). exists m3. split; [exact Hm3|congruence].
Qed.

Lemma directions_kept_store (w : World) (a : nat) (m0 m1 : Stepper) :
  steppers w !! a = Some m0 -> curr_direction m1 = curr_direction m0 ->
  directions_kept w (store_stepper w a m1).
Proof.
  intros Hm0 Hd b m Hm. cbn. destruct (decide (a = b)) as [<-|Hne].
  - exists m1. rewrite list_lookup_insert_eq by (eapply lookup_lt_Some; eauto).
    split; [reflexivity|congruence].
  - exists m. rewrite list_lookup_insert_ne by exact Hne. auto.
Qed.

Lemma request_link_directions (l : list ptr) (r mx : nat) (n : nat) :
  forall (i : nat) (w w' : World),
    request_link l n i r mx w = Ok w' -> directions_kept w w'.
Proof.
  induction n as [|n IH]; intros i w w' H.
  - injection H as <-. apply directions_kept_same. reflexivity.
  - cbn [request_link] in H. ok_inv H. rename x into p. ok_inv H. rename x into m.
    destruct p as [a|]; [|discriminate].
    apply load_stepper_Ok in Hx0. destruct Hx0 as (a' & [= <-] & Hm).
    eapply directions_kept_trans; [|eapply IH; exact H].
    eapply directions_kept_store; [exact Hm|reflexivity].
Qed.

Lemma create_request_directions (l : list ptr) (cnt n_steps : Z) (w w' : World) (p : ptr) :
  stepper_create_new_request l cnt n_steps w = Ok (p, w') -> directions_kept w w'.
Proof.
  unfold stepper_create_new_request, external.
  cbn [fst snd ext_ok ext_calls steppers requests axes next_mutex trace emit].
  destruct (ext_ok w (ext_calls w)); cbn [negb];
    [|intros [= <- <-]; apply directions_kept_same; reflexivity].
  intros H. ok_inv H.
  destruct x; cbn [negb] in H; [|injection H as <- <-; apply directions_kept_same; reflexivity].
  ok_inv H. rename x into pins.
  destruct (ext_ok w (S (ext_calls w))); cbn [negb] in H;
    [|injection H as <- <-; apply directions_kept_same; reflexivity].
  destruct (ext_ok w (S (S (ext_calls w)))); cbn [negb] in H;
    [|injection H as <- <-; apply directions_kept_same; reflexivity].
  destruct (ext_ok w (S (S (S (ext_calls w))))); cbn [negb] in H;
    [|injection H as <- <-; apply directions_kept_same; reflexivity].
  ok_inv H. injection H as <- <-.
  apply request_link_directions in Hx1.
  intros b m Hm. apply Hx1. exact Hm.
Qed.

(** A request of steps leaves the direction of every motor as it is. *)
Lemma step_multiple_directions (ms : option (list ptr)) (n_steps cnt rv : Z) (w w' : World) :
  stepper_step_multiple ms n_steps cnt w = Ok (rv, w') -> directions_kept w w'.
Proof.
  unfold stepper_step_multiple. intros H.
  destruct ms as [l|]; [|injection H as <- <-; apply directions_kept_same; reflexivity].
  destruct (n_steps =? 0); [injection H as <- <-; apply directions_kept_same; reflexivity|].
  destruct ((cnt =? 0) || (MOTOR_LIST_SIZE_MAX <? cnt));
    [injection H as <- <-; apply directions_kept_same; reflexivity|].
  ok_inv H. rename x into p0. ok_inv H. rename x into m0.
  destruct (stepper_is_busy m0);
    [injection H as <- <-; apply directions_kept_same; reflexivity|].
  ok_inv H. destruct x as (request & w1).
  apply create_request_directions in Hx1.
  destruct request as [r|]; [|injection H as <- <-; exact Hx1].
  destruct p0 as [a0|]; [|discriminate]. ok_inv H. rename x into m1. injection H as <- <-.
  apply load_stepper_Ok in Hx2. destruct Hx2 as (a' & [= <-] & Hm1).
  eapply directions_kept_trans; [exact Hx1|].
  intros b m Hm. destruct (directions_kept_store w1 a0 m1 (with_req_available m1 1) Hm1
                             eq_refl b m Hm) as (m' & Hm' & E).
  exists m'. split; [exact Hm'|exact E].
Qed.

(** X28.  [axis_move] clears the latch of a negative move before it
    knows that it can move.  Called on an axis whose latch is set and
    whose first motor is still in a motion, it returns -1 with the latch
    cleared and the motors left in the negative direction; and a later
    move over a distance that is not negative leaves the directions as
    they are, so that it is carried out in the negative direction. *)
Theorem refused_move_drops_the_latch (a : nat) (d : float) (w : World) (x : Axis) (a0 : nat) :
  axes w !! a = Some x -> reset_dir x <> 0 -> 0 < num_motors x ->
  motors x !! 0%nat = Some (Some a0) -> busy_in w a0 ->
  PrimFloat.eqb d 0%float = false ->
  axis_move (Some a) d w = Ok (-1, store_axis w a (with_reset_dir x 0)) /\
  forall (w2 : World) (d2 : float) (rv : Z) (w3 : World),
    axes w2 !! a = Some (with_reset_dir x 0) ->
    PrimFloat.ltb d2 0%float = false ->
    axis_move (Some a) d2 w2 = Ok (rv, w3) ->
    directions_kept w2 w3.
Proof.
  intros Hx Hlatch Hn H0 Hbusy Hd. split.
  - unfold axis_move. rewrite Hd. unfold load_axis at 1. rewrite Hx. cbn [bind].
    destruct (Z.eqb_spec (reset_dir x) 0) as [|_]; [contradiction|]. cbn [negb].
    assert (axes (store_axis w a (with_reset_dir x 0)) !! a = Some (with_reset_dir x 0)) as Hx1.
    { cbn. apply list_lookup_insert_eq. eapply lookup_lt_Some; eauto. }
    unfold axis_set_direction, load_axis at 1. rewrite Hx1. cbn [bind num_motors with_reset_dir].
    destruct (Z.to_nat (num_motors x)) as [|n] eqn:En; [lia|].
    cbn [axis_direction_loop]. unfold load_axis. rewrite Hx1. cbn [bind motors with_reset_dir].
    rewrite (array_get_Some _ _ _ H0). cbn [bind].
    assert (busy_in (store_axis w a (with_reset_dir x 0)) a0) as Hbusy1 by exact Hbusy.
    destruct (busy_rejects _ _ Hbusy1) as (_ & _ & Hrel & _).
    rewrite Hrel. reflexivity.
  - intros w2 d2 rv w3 Hx2 Hd2 H. unfold axis_move in H.
    destruct (PrimFloat.eqb d2 0%float);
      [injection H as <- <-; apply directions_kept_same; reflexivity|].
    unfold load_axis at 1 in H. rewrite Hx2 in H. cbn [bind reset_dir with_reset_dir] in H.
    change (negb (0 =? 0)) with false in H. cbv iota in H.
    unfold axis_move_negative in H. rewrite Hd2 in H. unfold axis_move_steps in H.
    ok_inv H. ok_inv H. ok_inv H. destruct x2 as (rv1 & w4).
    apply step_multiple_directions in Hx3.
    destruct (rv1 <? 0); injection H as <- <-; exact Hx3.
Qed.

Lemma refused_move_drops_the_latch_witness :
  axis_move (Some 0%nat) 1%float negative_move_requested
    = Ok (-1, store_axis negative_move_requested 0 (with_reset_dir latched_axis 0)) /\
  forall (w2 : World) (d2 : float) (rv : Z) (w3 : World),
    axes w2 !! 0%nat = Some (with_reset_dir latched_axis 0) ->
    PrimFloat.ltb d2 0%float = false ->
    axis_move (Some 0%nat) d2 w2 = Ok (rv, w3) ->
    directions_kept w2 w3.
Proof.
  apply (refused_move_drops_the_latch 0 1%float negative_move_requested latched_axis 0).
  - reflexivity.
  - cbn. lia.
  - cbn. lia.
  - reflexivity.
  - eexists. split; reflexivity.
  - reflexivity.
Defined.

(** ** Axis.c: an axis in a motion *)

(** The first motor of an accepted request is in the motion. *)
Lemma step_multiple_first_busy (l : list ptr) (n_steps cnt : Z) (w w' : World) :
  1 <= cnt ->
  stepper_step_multiple (Some l) n_steps cnt w = Ok (0, w') ->
  exists a0, l !! 0%nat = Some (Some a0) /\ busy_in w' a0.
Proof.
  intros Hcnt. unfold stepper_step_multiple. intros H.
  destruct (n_steps =? 0); [discriminate|].
  destruct (Z.eqb_spec cnt 0) as [|_]; [discriminate|].
  destruct (Z.ltb_spec MOTOR_LIST_SIZE_MAX cnt) as [|Hle8]; [discriminate|].
  cbn [orb] in H. unfold MOTOR_LIST_SIZE_MAX in Hle8.
  assert (wrap_uint cnt = cnt) as Hwrap by (unfold wrap_uint; rewrite Z.mod_small; lia).
  rewrite Hwrap in H.
  ok_inv H. rename x into p0. ok_inv H. rename x into m0.
  destruct (stepper_is_busy m0); [discriminate|].
  ok_inv H. destruct x as (request & w1).
  destruct request as [r|]; [|discriminate].
  destruct p0 as [a0|]; [|discriminate]. ok_inv H. rename x into m1. injection H as <-.
  apply array_get_Ok in Hx.
  apply load_stepper_Ok in Hx2. destruct Hx2 as (a' & [= <-] & Hm1).
  apply create_request_some in Hx1.
  destruct Hx1 as (mx & rq & _ & _ & _ & _ & _ & _ & Hlinked & _).
  destruct (Hlinked 0%nat ltac:(lia)) as (a & Ha & (m & Hm & _ & Hmx)).
  assert (a = a0) as -> by congruence. assert (m = m1) as -> by congruence.
  exists a0. split; [exact Hx|].
  exists (with_req_available m1 1). split.
  - cbn. apply list_lookup_insert_eq. eapply lookup_lt_Some; eauto.
  - unfold stepper_is_busy. cbn. rewrite Hmx. reflexivity.
Qed.

Lemma busy_in_odc (w w' : World) (a : nat) :
  only_directions_changed w w' -> busy_in w a -> busy_in w' a.
Proof.
  intros (_ & _ & Hs & _) (m & Hm & Hb). destruct (Hs a m Hm) as (d & Hd).
  exists (with_curr_direction m d). split; [exact Hd|exact Hb].
Qed.

(** X29.  An axis that has accepted a move is in the motion until the
    worker has carried it out: [axis_ready] answers 0, and a further
    [axis_move] over a distance other than zero returns -1 and makes no
    request. *)
Theorem moving_axis_refuses_moves (a : nat) (d : float) (w w' : World) (x : Axis) :
  axis_move (Some a) d w = Ok (0, w') ->
  PrimFloat.eqb d 0%float = false ->
  axes w !! a = Some x -> 1 <= num_motors x <= MOTOR_LIST_SIZE_MAX ->
  axis_ready (Some a) w' = Ok 0 /\
  forall (d2 : float) (rv : Z) (w'' : World),
    PrimFloat.eqb d2 0%float = false ->
    axis_move (Some a) d2 w' = Ok (rv, w'') ->
    rv = -1 /\ requests w'' = requests w'.
Proof.
  intros H Hd Hx Hn. unfold MOTOR_LIST_SIZE_MAX in Hn.
  assert (forall n, 1 <= n <= 8 -> wrap_int n = n) as Hwrap.
  { intros n Hb. unfold wrap_int. rewrite Z.mod_small; lia. }
  apply axis_move_cases in H; [|exact Hd].
  destruct H as (w2 & Hodc & [(_ & s & x2 & _ & Hx2 & Hstep)|(E & _)]); [|discriminate].
  pose proof Hodc as (_ & _ & _ & _ & Hax).
  destruct (Hax a x Hx) as (r & Hxr).
  unfold load_axis in Hx2. rewrite Hxr in Hx2. injection Hx2 as <-.
  cbn [motors num_motors with_reset_dir] in Hstep. rewrite (Hwrap _ Hn) in Hstep.
  destruct (step_multiple_first_busy _ _ _ _ _ (proj1 Hn) Hstep) as (a0 & H0 & Hbusy).
  apply step_multiple_success_inv in Hstep. destruct Hstep as (_ & b1 & m1 & rq1 & _ & _ & _ & _ & _ & _ & Hax').
  assert (axes w' !! a = Some (with_reset_dir x r)) as Hx' by (rewrite Hax'; exact Hxr).
  split.
  - unfold axis_ready, load_axis. rewrite Hx'. cbn [bind motors with_reset_dir].
    rewrite (array_get_Some _ _ _ H0). cbn [bind].
    destruct (busy_rejects _ _ Hbusy) as (Hready & _). exact Hready.
  - intros d2 rv w'' Hd2 H2. apply axis_move_cases in H2; [|exact Hd2].
    destruct H2 as (w3 & Hodc3 & [(_ & s3 & x3 & _ & Hx3 & Hstep3)|(-> & _ & Hr & _)]).
    + pose proof Hodc3 as (_ & _ & Hs3 & _ & Hax3).
      destruct (Hax3 a _ Hx') as (r3 & Hxr3).
      unfold load_axis in Hx3. rewrite Hxr3 in Hx3. injection Hx3 as <-.
      cbn [motors num_motors with_reset_dir] in Hstep3.
      apply step_multiple_success_inv in Hstep3.
      destruct Hstep3 as (_ & b0 & m0 & rq3 & Hb0 & Hm0 & Hfree & _).
      assert (b0 = a0) as -> by congruence.
      destruct (busy_in_odc _ _ _ Hodc3 Hbusy) as (m3 & Hm3 & Hb3).
      assert (m3 = m0) as -> by congruence. congruence.
    + split; [reflexivity|]. destruct Hodc3 as (Hr3 & _). congruence.
Qed.

Lemma moving_axis_refuses_moves_witness :
  axis_ready (Some 0%nat) negative_move_requested = Ok 0 /\
  forall (d2 : float) (rv : Z) (w'' : World),
    PrimFloat.eqb d2 0%float = false ->
    axis_move (Some 0%nat) d2 negative_move_requested = Ok (rv, w'') ->
    rv = -1 /\ requests w'' = requests negative_move_requested.
Proof.
  apply (moving_axis_refuses_moves 0 (-1)%float one_axis negative_move_requested
           (mkAxis [Some 0%nat; Some 1%nat; None; None; None; None; None; None] 2 0 40%float
                   0%float 0%float)).
  - vm_compute. reflexivity.
  - reflexivity.
  - reflexivity.
  - cbn. unfold MOTOR_LIST_SIZE_MAX. lia.
Defined.

(** ** config.c: the motors of an axis *)

Section Overrun.

Variables (last : string) (delim : ascii) (rest buf : list ascii).
Hypothesis delim_ends : is_delim delim = true.

Lemma read_motor_list_loop_overrun (known : list string) :
  forall (fuel off : nat) (g : Config.Globals) (node : Config.axis_config.t),
    drop off buf = motor_names_text known last ++ delim :: rest ->
    (forall s, In s (known ++ [last]) -> name_ok s /\ defined_before g s) ->
    table_ok g ->
    Config.entry (Config.axis_list g) (Config.axis_list_len g - 1) = Ok node ->
    0 <= Config.axis_config.count node ->
    MOTOR_LIST_SIZE_MAX < Config.axis_config.count node + Z.of_nat (length known) + 1 ->
    (length known < fuel)%nat ->
    Config.read_motor_list_loop fuel buf off g = Undefined.
Proof.
  pose proof (delim_not_name delim delim_ends) as Hdelim.
  induction known as [|s known IH];
    intros fuel off g node Hdrop Hnames Htable Hentry Hc0 Hc8 Hfuel;
    (destruct fuel as [|fuel]; [cbn in Hfuel; lia|]).
  - cbn [motor_names_text] in Hdrop.
    destruct (Hnames last ltac:(left; reflexivity)) as ((Hchars & Hlen) & Hdef).
    cbn [Config.read_motor_list_loop]. rewrite Hdrop.
    rewrite read_name_loop_name by (auto; lia).
    destruct (after_name_delim delim g delim_ends) as (He & Hml & Hmll & _).
    rewrite He. change (0 =? 0) with true. cbv iota.
    destruct (Nat.ltb_spec 0 (String.length last)) as [_|]; [|lia].
    assert (table_ok (Config.scan_globals (after_name delim g))) as Htable'.
    { unfold table_ok. rewrite Hml, Hmll. exact Htable. }
    assert (defined_before (Config.scan_globals (after_name delim g)) last) as Hdef'.
    { revert Hdef. apply defined_before_ext; auto. }
    destruct (lookup_defined _ last Htable' Hdef') as (k & Hk). rewrite Hk. cbn [bind].
    unfold Config.append_motor.
    assert (Config.axis_list (Config.scan_globals (after_name delim g)) = Config.axis_list g
            /\ Config.axis_list_len (Config.scan_globals (after_name delim g))
               = Config.axis_list_len g) as (Hal & Hall).
    { unfold after_name. destruct (Ascii.eqb delim ","); [split; reflexivity|].
      destruct (_ || _); split; reflexivity. }
    rewrite Hal, Hall, Hentry. cbn [bind].
    destruct (Z.ltb_spec (Config.axis_config.count node) MOTOR_LIST_SIZE_MAX) as [Hlt|_];
      [cbn [length] in Hc8; lia|reflexivity].
  - cbn [motor_names_text] in Hdrop.
    rewrite <- app_assoc in Hdrop. rewrite <- app_comm_cons in Hdrop.
    destruct (Hnames s ltac:(left; reflexivity)) as ((Hchars & Hlen) & Hdef).
    destruct (lookup_defined g s Htable Hdef) as (k & Hk).
    cbn [length] in Hc8.
    cbn [Config.read_motor_list_loop]. rewrite Hdrop.
    rewrite read_name_loop_name by (auto; lia).
    unfold after_name. rewrite Ascii.eqb_refl.
    cbn [Config.scan_error Config.scan_globals Config.scan_stop].
    change (0 =? 0) with true. cbv iota.
    destruct (Nat.ltb_spec 0 (String.length s)) as [_|]; [|lia].
    rewrite Hk. cbn [bind].
    unfold Config.append_motor. rewrite Hentry. cbn [bind].
    destruct (Z.ltb_spec (Config.axis_config.count node) MOTOR_LIST_SIZE_MAX) as [Hlt|_];
      [|reflexivity].
    cbn [bind]. unfold MOTOR_LIST_SIZE_MAX in *.
    set (node' := Config.with_axis_motors node
                    (wrap_uint (Config.axis_config.count node + 1))
                    (<[Z.to_nat (Config.axis_config.count node) := Some k]>
                       (Config.axis_config.motors node))).
    set (g1 := Config.set_axis_list g
                 (<[Z.to_nat (Config.axis_list_len g - 1) := node']> (Config.axis_list g))).
    apply (IH fuel (S (off + String.length s)) g1 node').
    + eapply drop_past_name; eauto.
    + intros t Ht. destruct (Hnames t ltac:(right; exact Ht)) as (Ht1 & Ht2).
      split; [exact Ht1|]. revert Ht2. apply defined_before_ext; reflexivity.
    + exact Htable.
    + unfold Config.entry in *. subst g1. cbn.
      destruct (Config.axis_list_len g - 1 <? 0); [discriminate|].
      apply array_get_Ok in Hentry. apply array_get_Some.
      apply list_lookup_insert_eq. eapply lookup_lt_Some; eauto.
    + subst node'. cbn. unfold wrap_uint. rewrite Z.mod_small; lia.
    + subst node'. cbn. unfold wrap_uint. rewrite Z.mod_small; lia.
    + cbn in Hfuel. lia.
Qed.

End Overrun.

(** X30.  The list of the motors of an axis is not checked against the
    size of the array.  When a line of motors names more motors than the
    entry of the axis still has room for, every name being that of a
    motor defined above, the name that follows the eighth motor of the
    axis is stored behind the array: the behaviour of the parser is
    undefined. *)
Theorem motor_list_overruns_the_axis (known : list string) (last : string) (delim : ascii)
  (rest buf : list ascii) (off : nat) (g : Config.Globals) (node : Config.axis_config.t) :
  is_delim delim = true ->
  drop off buf = motor_names_text known last ++ delim :: rest ->
  (forall s, In s (known ++ [last]) -> name_ok s /\ defined_before g s) ->
  table_ok g ->
  Config.entry (Config.axis_list g) (Config.axis_list_len g - 1) = Ok node ->
  0 <= Config.axis_config.count node ->
  MOTOR_LIST_SIZE_MAX < Config.axis_config.count node + Z.of_nat (length known) + 1 ->
  Config.state_read_motor_list buf off g = Undefined.
Proof.
  intros Hdelim Hdrop Hnames Htable Hentry Hc0 Hc8. unfold Config.state_read_motor_list.
  apply (read_motor_list_loop_overrun last delim rest buf Hdelim known _ off g node);
    try assumption.
  assert (length (motor_names_text known last) <= length buf)%nat as Hlen.
  { assert (length (drop off buf) <= length buf)%nat by (rewrite length_drop; lia).
    rewrite Hdrop, length_app in H. lia. }
  assert (length known <= length (motor_names_text known last))%nat; [|lia].
  clear. induction known as [|s known IH]; cbn [motor_names_text length]; [lia|].
  rewrite length_app. cbn [length]. lia.
Qed.

Lemma motor_list_overruns_the_axis_witness :
  Config.state_read_motor_list nine_names 0 axis_opened = Undefined.
Proof.
  apply (motor_list_overruns_the_axis (replicate 8 "a"%string) "a" Config.newline
           [Config.NUL] nine_names 0 axis_opened
           (Config.axis_config.mk EmptyString 0 0
              (replicate (Z.to_nat MOTOR_LIST_SIZE_MAX) None) None)).
  - reflexivity.
  - reflexivity.
  - intros s Hin. cbn in Hin.
    assert (s = "a"%string) as -> by (repeat (destruct Hin as [Hin|Hin]; [auto|]); contradiction).
    split; [split; [reflexivity|cbn; lia]|].
    eexists 0%nat, _. split; [|split]; [|reflexivity|reflexivity]. vm_compute. reflexivity.
  - unfold table_ok. vm_compute. split; discriminate.
  - reflexivity.
  - cbn. lia.
  - cbn. unfold MOTOR_LIST_SIZE_MAX. lia.
Defined.

(** ** config.c: a second reading *)

(** X23.  [read_motor_config] does not reset the count of the motor
    entries.  When the count is not zero as it is called -- an earlier
    call has read a motor section -- and the file could be opened, the
    call never returns 0.  The sections of the file are counted on from
    the old count and the first entry is left blank, so that with the
    turns that the parser needs the call returns -1, has made no motor, no
    request and no axis, and leaves the count above zero for the next
    call; unless the file has taken the parser behind one of its tables,
    where the behaviour of the parser is undefined. *)
Theorem read_motor_config_fails_when_read_again (fuel : nat) (file : Config.FILE)
  (g : Config.Globals) (w : World) :
  1 <= Config.motor_list_len g ->
  (8 * length (Config.content file) + 4 <= fuel)%nat ->
  (exists g' w',
     Config.read_motor_config fuel (Some file) g w = Ok (-1, g', w') /\
     steppers w' = steppers w /\ requests w' = requests w /\ axes w' = axes w /\
     first_entry_blank g' /\ 1 <= Config.motor_list_len g') \/
  (Config.motor_config_state_machine fuel file (Config.clear_lists g) = Undefined /\
   Config.read_motor_config fuel (Some file) g w = Undefined).
Proof.
  intros Hlen Hfuel. unfold Config.read_motor_config.
  assert (Config.run fuel (Config.start file (Config.clear_lists g)) <> Timeout) as Hrun.
  { apply run_ends.
    - split; [discriminate|]. cbn. discriminate.
    - left. reflexivity.
    - unfold turns_left. cbn. lia. }
  unfold Config.motor_config_state_machine.
  destruct (Config.run fuel (Config.start file (Config.clear_lists g))) as [m| |] eqn:E;
    cbn [bind]; [|right; split; reflexivity|contradiction].
  left.
  apply run_first_entry_skipped in E; [|apply start_first_entry_skipped; exact Hlen].
  destruct E as (Hblank & I2 & _ & _ & I5).
  destruct (report_state (Config.stderr m) w) as (R1 & R2 & R3).
  destruct (Z.eqb_spec (Config.error m) 0) as [Herr|Herr].
  - unfold Config.init_motors. destruct Hblank as (e & He & Hval).
    destruct (Z.to_nat (Config.motor_list_len (Config.globals m))) as [|n] eqn:Hn; [lia|].
    cbn [Config.init_motor_nodes]. unfold array_get. rewrite He.
    cbn [bind]. rewrite Hval. cbn [bind].
    change (-1 =? 0) with false. cbv iota.
    eexists _, _. split; [reflexivity|].
    assert (first_entry_blank (Config.globals m)) by (exists e; auto). auto 10.
  - replace (- Config.error m) with (-1) by lia.
    eexists _, _. split; [reflexivity|]. auto 10.
Qed.

Lemma read_motor_config_fails_when_read_again_witness :
  ((exists g' w',
      Config.read_motor_config 2000 (Some one_motor_two_axes) configured_globals
        configured_world = Ok (-1, g', w') /\
      steppers w' = steppers configured_world /\ requests w' = requests configured_world /\
      axes w' = axes configured_world /\
      first_entry_blank g' /\ 1 <= Config.motor_list_len g') \/
   (Config.motor_config_state_machine 2000 one_motor_two_axes
      (Config.clear_lists configured_globals) = Undefined /\
    Config.read_motor_config 2000 (Some one_motor_two_axes) configured_globals
      configured_world = Undefined)) /\
  Config.read_motor_config 2000 (Some one_motor_two_axes) configured_globals configured_world
    = Ok configured_again.
Proof.
  split.
  - apply (read_motor_config_fails_when_read_again 2000 one_motor_two_axes
             configured_globals configured_world).
    + vm_compute. discriminate.
    + unfold one_motor_two_axes. cbn. lia.
  - vm_compute. reflexivity.
Defined.
